(* ===== verification/_CoqProject ===== *)
-Q . S2P
Prelude.v
VarInt.v
Codec.v
WireTypes.v
Messages.v
ControlMessages.v
Objects.v
Errors.v
Params.v
ParserSafety.v
Framing.v
State.v
RequestID.v
TrackMaps.v
Tracks.v
Announcements.v
SessionState.v
Session.v
SessionInv.v
SessionSafety.v
WellTyped.v
Typing.v
System.v
SystemQueue.v
Sending.v
Handshake.v
Requests.v
Exchanges.v
Fetches.v
Deviations.v
Xor.v
Telemetry.v
TelemetryRing.v
TelemetryTime.v
Strconv.v
Publishers.v
Counter.v
XorCounter.v
XorCounterStream.v
XorCounterLoss.v
Subscriptions.v
ReedSolomon.v
Applications.v
DateTrack.v
Lifecycle.v
SessionEnd.v
CounterApp.v
Connections.v
CommandLine.v
Programs.v
Wired.v
SubscriptionEnd.v
Receiving.v
CounterPrograms.v
Slices.v
Qlog.v
Text.v
Mains.v
Logging.v
DatePrograms.v
