(* ===== verification/Prelude.v ===== *)
(** * moqtransport: a verification library

    moqtransport is a Go implementation of Media over QUIC Transport with
    forward error correction beside it.  This library models its protocol code
    as functional programs, written the way the Go code is written, and proves
    what that code guarantees to the applications on the two sides of a
    connection -- and, where it does not keep its promises, what happens
    instead.  Paths below are relative to src/.

    ** The program

    - internal/wire encodes and decodes: control messages (a type, a length in
      two bytes, a body), the headers and objects of unidirectional streams, and
      datagrams.  All of it is built from the variable-length integers of
      quicvarint, a third-party package.
    - session.go is an endpoint.  It owns the control stream, the tables of
      tracks, announcements and requests, the generator of request IDs, and the
      limit on the requests of its peer.  The application calls it (Subscribe,
      Announce, Fetch, ...); received messages go to handlers (onSubscribe, ...)
      that call the application back with a response writer.
    - local_track.go, subgroup.go and fetch_stream.go send objects;
      remote_track.go receives them.
    - fec/xor protects blocks of packets with an XOR parity packet,
      fec/reed-solomon with a Reed-Solomon code of a third-party package.
    - quicmoq/logging.go keeps the statistics of a connection: rates and losses
      over a window of time or of packets.
    - examples/counter and fec/xor/example publish numbers and print those that
      arrive, the latter protected by fec/xor; examples/date publishes the time.
    - quicmoq and webtransportmoq adapt two third-party transports to the
      interfaces of connection.go; the programs under examples and fec connect
      them, the sessions and the applications.

    ** The files

    Foundations
    - [Prelude]: bytes, machine integers, the error values ([error], [ProtocolError]),
      results that may panic or run out of fuel ([res]), the hint databases.
    - [VarInt]: the interface of quicvarint, [QuicVarint] (operations) and
      [QuicVarintLaws] (what its documentation promises), and the encoding of
      RFC 9000 as an instance.
    - [Codec]: the shapes of append and parse functions and the relations that
      prove their round trips ([rt]) compositionally.
    - [State]: state with errors that keep the state ([GM]), channels, and
      [MapRange], the order in which Go ranges over a map.

    The wire format (internal/wire)
    - [WireTypes]: varint_bytes.go, tuple.go, location.go, version.go, token.go,
      key_value_pair.go, kvp_list.go.
    - [Messages]: one Module for each of the message structs, with its record,
      [Type], [Append] and [parse].
    - [ControlMessages], [Framing]: control_message_parser.go, control_stream.go
      and compileMessage (session_helpers.go); the interface ControlMessage is a
      sum.
    - [ParserSafety]: the parsers on arbitrary bytes.
    - [Objects]: object_message.go, object_datagram_message.go, the two stream
      headers, object_stream_parser.go; Subgroup (subgroup.go) and FetchStream
      (fetch_stream.go).

    The parts of a session
    - [Errors]: errors.go, constants.go, the message names of handler.go.
    - [Params]: options, parameters and their validation (session_helpers.go,
      messages.go).
    - [RequestID]: request_id.go, sequence.go.
    - [TrackMaps]: local_track_map.go, remote_track_map.go, and the abstract
      table of pending and open requests they implement.
    - [Tracks]: local_track.go, remote_track.go, object.go.
    - [Announcements]: announcement_map.go, announcement_subscription_map.go,
      track_status_request_map.go and their entries.

    The session
    - [SessionState]: the fields of Session, the store of shared tracks and
      response channels, and the effects (writing a message, touching a table).
    - [Session]: session.go and the files of the response writers, one
      definition per method.
    - [SessionInv]: the invariant, kept by every method.
    - [SessionSafety]: executions, and the properties of all of them.
    - [WellTyped], [Typing]: the Go types of the numbers of a session as
      predicates; [WellTyped] has the contract of an operation ([sound]: what it
      may write, and how the limits and the handshake evolve) and the rules for
      the primitives, [Typing] has every operation.
    - [System]: two sessions and the bytes of the control streams between them.
    - [SystemQueue]: the system without bytes, with queues of messages.
    - [Sending]: which messages fit a frame; lemmas on writes.
    - [Handshake], [Requests]: the setup, and the life of requests at one
      endpoint.
    - [Exchanges], [Fetches]: exchanges between two endpoints.
    - [Deviations]: executions in which the code does not do what it means to.
    - [Lifecycle], [SessionEnd]: Run, Close and the goroutines of a session, and
      how a session ends.

    Forward error correction
    - [Xor]: fec/xor/xor.go.
    - [ReedSolomon]: fec/reed-solomon/reed-solomon.go, the interface of
      klauspost/reedsolomon ([ReedSolomon], [ReedSolomonLaws]) and a code with a
      single parity shard as an instance.

    Statistics of a connection (quicmoq/logging.go)
    - [Telemetry]: the callbacks of the connection tracer and the metrics.
    - [TelemetryRing]: the window of the last packets, [TelemetryTime]: the window
      of time, each against its specification.

    The applications
    - [Strconv]: the decimal digits of numbers (FormatUint, ParseUint of strconv).
    - [Publishers]: the interface Publisher of handler.go ([Publisher],
      [PublisherLaws]) and the SubscribeResponseWriter as its implementation.
    - [Counter]: examples/counter/publisher.go and subscriber.go, and what both
      counter applications share, their goroutines.
    - [XorCounter]: fec/xor/example/publisher.go and subscriber.go;
      [XorCounterStream] is what the publisher sends, [XorCounterLoss] what the
      subscriber makes of what arrives.
    - [Subscriptions]: how subscribers and publishers are stopped.
    - [Applications]: the handlers of examples/counter/main.go and
      examples/date/handler.go, and the interface they keep ([Offers]).
    - [CounterApp]: the counter application from end to end.
    - [DateTrack]: examples/date/publisher.go and the ticker of handler.go; the
      interface of the publishers for streams ([SubgroupLaws]) and the writers of
      a session as its implementation.

    Connections and programs
    - [Connections]: connection.go, quicmoq and webtransportmoq over a class of
      what they call of their libraries ([TransportLibrary]).
    - [CommandLine]: the flags of the programs, parseOptions and run, with the
      parser of the package flag.
    - [Programs]: the handlers that options make, accepted and dialled
      connections, and handle as a machine of its blocking calls ([handle_step]);
      two programs that run together ([pair_step]).
    - [Wired]: the two programs over the bytes of their control stream
      ([wired_step]), which implement the queues of [Programs] and are executions of
      the system of [System].
    - [SubscriptionEnd]: how the subscription of two programs ends, against the
      specification [ending].
    - [Receiving]: a client whose session pushes what arrives, datagrams or streams
      ([Input]), to the track that a loop of the application reads ([client_step]),
      over an interface of loops ([Reader], [ReaderLaws]), which the subscribers of
      the counter applications implement.
    - [CounterPrograms]: the counter programs and those of the XOR example from
      their options to their output.
    - [DatePrograms]: the loop of subscribeAndRead, and the date programs from their
      options to the lines they log.

    - [Mains]: the main programs: their TLS configuration, how they listen and
      dial over a class of what the libraries and sockets answer ([Platform],
      [network]), and how they end.

    Helpers, texts, the log
    - [Slices]: internal/slices/slices.go, with iterators as functions of yield.
    - [Text]: the String and Error methods, and Tuple.MarshalJSON.
    - [Qlog]: the qlog events of streams, objects and datagrams.
    - [Logging]: logging.go, the LogValue methods of internal/wire and the records
      of controlStream.write and Session.receive.

    ** How state and operations correspond to the code

    A struct is a record with the fields of the source in a Module of the
    struct's name; a method is a definition of the method's name.  A []byte and a
    string are lists of bytes; integers are [Z], with the wrap-around of their
    type written out ([uint64], [int64], [uint16]) where the code computes.  An
    interface is a sum of the types that implement it.  A map is a [gmap]; the
    loops over a map go through [MapRange], whose order the theorems do not fix.

    A parser takes bytes and gives a value, the rest and an error; a result is
    [Ok], [Panic] (a slice out of bounds, a nil dereference, an allocation that
    the runtime refuses, a varint that does not fit) or [NoFuel].

    Objects that are shared by pointer live in a store and are named by an index:
    the two kinds of tracks and the response channels of the session.  An error
    returned by a method does not undo what the method did before it.

    Sessions run by events ([event] of [SessionSafety]): a call of the
    application, a control message, a data stream, a datagram.  A call that waits
    for an answer of the peer is two events, [.._send] up to the select and
    [.._wait] after it, so that all other events may happen between them.  Each event is atomic.
    After an error of a handler these executions go on: they are more than those
    of the program, and what is proved of all of them holds for the program's.
    [Lifecycle] adds the goroutines ([process_event]): an execution there is a
    sequence of steps of Run, of the three goroutines of the error group, of those
    that read a stream each, of Close and of the application, in any order, and a
    goroutine that has returned takes no step.  The goroutines of the counter
    applications are modelled the same way ([wake], [subscriber_event]).

    What the code cannot know is a parameter: the [writes] the transport will
    accept or refuse, the answers of a connection ([Tracks]), the application,
    which is an [Application]: its handlers are programs of calls on the response
    writer they were given, and may react to the errors of these calls.  The
    readings of the clock are arguments of the callbacks of the statistics, whose
    float64 operations are those of binary64, each rounded.  A package that is not
    part of the repository is a class with the operations the code calls, and one
    with the laws that its documentation states: quicvarint, errgroup ([ErrGroup]),
    reedsolomon; each has an instance.  Of quic-go and webtransport-go only the
    widths of the error codes are laws ([QuicCodes], [WebTransportCodes]).

    Two sessions are connected in three ways.  In [Exchanges] the message of one is
    handed to the other, as what the codec makes of it where it changes anything
    ([Framing.crosses]).  In [System] a side is a session with the number of bytes
    of its peer's stream that it has read, and a step is an event of a session or
    the parse of the next frame; what a session has written is compiled to the
    bytes of its stream.  In [SystemQueue] and [Programs] each side has an inbox of
    messages, and a message arrives as what the codec makes of it; that the byte
    streams implement the inboxes is [SystemQueue.stream_refines_queues], and for the
    programs [Wired.wired_views].

    ** The theorems

    - Round trips.  What a message that compileMessage accepts is read as by the
      peer is [received], a function of the message alone, and it is the message
      itself for every type whose codec keeps its fields
      ([Framing.control_message_roundtrip]); so is a sequence of messages
      ([Framing.control_stream_roundtrip]); objects written on subgroup
      and fetch streams, and datagrams, are read back in order
      ([Objects.subgroup_stream_roundtrip], [fetch_stream_roundtrip],
      [datagram_roundtrip]), up to the queue of the subscriber's track
      ([Tracks.subgroup_objects_delivered], [Tracks.objects_in_order]).
    - Safety of the parsers.  On all bytes the parsers of control messages end,
      deliver values in the range of their types, and panic only in the messages
      with parameters or namespaces ([ParserSafety.control_message_parse_safe],
      [control_stream_terminates], [Objects.subgroup_stream_safe]).
    - The session.  Every event keeps the invariant
      ([SessionSafety.session_invariant]); the request IDs an endpoint writes are
      distinct, also from its peer's, but for TRACK_STATUS_REQUEST, whose ID is
      always 0 ([SessionSafety.request_ids_distinct]);
      nothing is served before the setup ([Handshake.handshake_gate]), and what two
      endpoints know of each other after it ([Handshake.handshake_completes]).
    - Requests.  Subscribe, addLocalTrack and onSubscribe on every branch
      ([Exchanges.Subscribe_spec], [Requests.addLocalTrack_spec],
      [Requests.onSubscribe_refuses]); a subscription (accepted or refused),
      a fetch and an announcement from the call to its return, with both
      endpoints, and the messages of a subscription as the codec carries them, ([Exchanges.subscription_exchange],
      [refused_subscription_exchange], [announcement_exchange],
      [Fetches.fetch_exchange]).
    - Refinement.  The two tables of tracks implement the abstract table
      ([TrackMaps.localTrackMap_refines], [remoteTrackMap_refines]); the
      generator of request IDs hands out an arithmetic progression
      ([RequestID.request_ids_sequential]); the byte streams between two sessions
      implement queues of messages ([SystemQueue.stream_refines_queues]).
    - Connected sessions.  Every number of a session is a value of its type and
      every message it writes can be encoded ([Typing.session_typed]); the limit a
      side has learnt never exceeds the one its peer enforces, unless that is a
      server that enforces less than the 100 it announces ([System.limits_agree]); so
      the next SUBSCRIBE or FETCH to any other peer is within the limit and not a
      duplicate ([System.requests_accepted]).
    - The end of a session.  What Run returns in every interleaving
      ([SessionEnd.Run_returns]); Close returns once the calls its goroutines block
      in have failed ([SessionEnd.close_returns]); calls that wait for an answer are
      not told ([SessionEnd.dead_session_hangs_callers]).
    - FEC.  Any one packet of a block is recovered, in any order of arrival, and
      a block without loss is delivered unchanged ([Xor.xor_block_recovers],
      [Xor.xor_block_complete]); Reed-Solomon blocks are rebuilt from what is left
      of them ([ReedSolomon.rs_stream_recovers], [empty_block_panics]).
    - Statistics.  The ring of packets refines the abstract window of the last
      packets, in which a number that is used again may name none of them, and no
      callback panics ([TelemetryRing.packet_window_refines],
      [packet_window_bounds], [reused_number_untracked]); the window of time is
      equivalent to the history of the connection, restricted
      ([TelemetryTime.time_window_equivalent]).
    - Applications.  What they answer to announcements and subscriptions
      ([Applications.application_announcements], [application_subscriptions]); the
      numbers of the counter application from the publisher's ticks to the
      subscriber's log, over a network that loses and reorders
      ([CounterApp.counter_end_to_end]), and with parity packets
      ([XorCounterStream.counter_stream_published], [metadata_roundtrip],
      [XorCounterLoss.counter_survives_loss], [short_number_never_recovered],
      [early_parity_counts_twice]); how they stop, and how they fail to
      ([Subscriptions.stopped_subscriber_ends], [track_end_hangs],
      [publisher_restart_panics]).  The ticks of the date track, one by one and
      interleaved with subscriptions ([DateTrack.date_tick],
      [date_groups_consecutive]).
    - Programs.  Command lines and options ([CommandLine.command_line_roundtrip]);
      a publishing and a subscribing program come from a new connection, in every
      interleaving, to an open subscription after sixteen steps, the handshake
      included ([Programs.programs_meet], over byte streams
      [Wired.programs_meet_on_streams]), and from there the numbers come to the
      output of a client that keeps up with them, in the counter example those whose
      datagrams arrive from then on ([CounterPrograms.counter_programs_count]), in
      the XOR example all of them although each block loses a datagram and blocks
      interleave ([xor_programs_survive_loss]), and in the date example the groups
      whose streams arrive from then on ([DatePrograms.date_programs_show]); a
      datagram that overtakes the SUBSCRIBE_OK fails the session, a stream is lost; how the subscription ends, whoever ends it
      and whatever crosses ([SubscriptionEnd.subscription_end_refines]); a program ends
      with status 0 only if it was asked for help ([Mains.programs_end]); what an adapter passes on
      ([Connections.Run_on_opens], [CloseWithError_webtransport]).
    - Texts.  What the records of the control messages tell the handler of the log
      ([Logging.control_log_identifies]), and the JSON text of a tuple of it, if no
      element has a quote ([Text.marshal_json], [marshal_json_forged]).  The qlog
      events of the reader of a stream are those of its writer
      ([Qlog.subgroup_qlogs_agree], [fetch_qlogs_agree], [datagram_qlogs_agree]).
    - Deviations.  What the code does where it fails: panics and divergence on
      input of the peer ([Deviations.request_flood_panics],
      [Framing.malformed_parameter_panics], [Objects.datagram_headers_diverge]),
      requests that are not answered ([Deviations.track_status_unanswered],
      [fetch_over_limit]), a second subscription that fails the session
      ([second_subscription_fails]), messages that arrive as
      others ([Framing.announce_cancel_never_arrives]).

    ** Bounds and fuel

    Loops over the bytes of a message recurse on fuel: every turn of a loop that
    goes on consumes at least one byte, so the number of bytes left plus one is
    enough, and the definitions that own the bytes start the loops with it.  That
    it is enough is part of the theorems: the readers of control messages and of
    subgroup streams are proved to end, and round trips give a result for every
    fuel above a bound.  The one loop that does not consume, parseLength of
    kvp_list.go, is proved to run out of any fuel.  [maxAlloc], 2^48 bytes, is
    the largest allocation the Go runtime grants; varints go up to 2^62 - 1.

    ** Not modelled

    - quic-go and webtransport-go; what they answer is an argument of the
      operations of the session.
    - Of the main programs: how certificates are made, sockets and the HTTP server
      (their answers are arguments), log lines other than those of received objects
      and updates, and the texts of the errors of the package flag.
    - The text that the handler of slog makes of a record, the lines that say
      nothing of a control message; what qlog writes of an event; of
      quicmoq/logging.go the text of its lines.
    - Mocks (directives for a generator) and integration tests.
    - The context of the connection: a call that waits returns when its own context
      is cancelled, which is an argument of the [.._wait] definitions.  *)

From Stdlib Require Export ZArith Lia Bool.
From stdpp Require Export base tactics list option.
From coqutil Require Export Byte.

(** * Bytes, strings and machine integers *)

(** A Go string is a sequence of bytes; so is a []byte. *)
Abbreviation gostring := (list byte).

Definition len {A} (l : list A) : Z := Z.of_nat (length l).

(** uint64 arithmetic wraps modulo [2^64]; int is the 64-bit signed type. *)
Definition uint64 (z : Z) : Z := (z mod 2 ^ 64)%Z.
Definition int64 (z : Z) : Z := ((z + 2 ^ 63) mod 2 ^ 64 - 2 ^ 63)%Z.
Definition uint16 (z : Z) : Z := (z mod 2 ^ 16)%Z.

(** The largest allocation the Go runtime accepts (64-bit platforms): [make]
    of a larger slice panics. *)
Definition maxAlloc : Z := (2 ^ 48)%Z.

(** * Errors *)

(** Every error value the program compares or returns: the sentinel errors of
    package io, of internal/wire and of the root package, the ProtocolError
    struct, errors that come from the transport or a cancelled context, and the
    errors the examples make with fmt.Errorf. *)
Inductive error :=
  | io_EOF
  | io_ErrUnexpectedEOF
  | errTransport (n : nat)
  | errContext (n : nat)
  | errJoin (e1 e2 : error)
  (* fmt.Errorf: the text of the format, and the error it wraps *)
  | errorf (text : gostring)
  | wrapf (text : gostring) (e : error)
  (* internal/wire/error.go *)
  | errInvalidMessageType (mt : Z)
  | errInvalidFilterType
  | errInvalidContentExistsByte
  | errInvalidGroupOrder
  | errInvalidForwardFlag
  | errLengthMismatch
  | errInvalidFetchType
  (* internal/wire/object_stream_parser.go *)
  | errInvalidStreamType (st : Z)
  (* session_helpers.go, session.go *)
  | errControlMessageTooLarge
  | errUnknownAnnouncementNamespace
  | errMaxRequestIDViolated
  | errClientReceivedClientSetup
  | errServerReceveidServerSetup
  | errIncompatibleVersions
  | errUnexpectedMessageType
  | errUnexpectedMessageTypeBeforeSetup
  | errUnknownSubscribeAnnouncesPrefix
  | errUnknownTrackAlias
  | errMissingPathParameter
  | errUnexpectedPathParameter
  | errUnknownTrackStatusRequest
  (* request_id.go, remote_track_map.go, remote_track.go, local_track.go *)
  | errRequestIDblocked
  | errRequestsBlocked (maxRequestID : Z)
  | errUnknownRequestID
  | errDuplicateRequestIDBug
  | errDuplicateTrackAliasBug
  | errTooManyFetchStreams
  | ErrUnsusbcribed
  | ErrSubscriptionDone
  | ErrSubscribeDone (status : Z) (reason : gostring)
  | errUpdateNotAvailable
  (* errors.go *)
  | ProtocolError (code : Z) (message : gostring).

#[export] Instance byte_eq_dec : EqDecision byte.
Proof. intros x y. apply Byte.byte_eq_dec. Defined.

#[export] Instance error_eq_dec : EqDecision error.
Proof. unfold EqDecision, Decision. decide equality; apply decide; apply _. Defined.

(** * The effects of the code *)

(** A computation of the program returns a value, returns an error (its other
    results are then ignored by every caller), or panics.  [NoFuel] is the
    answer of a loop of the model that used up its fuel: a terminating loop is
    shown never to give it, a diverging loop to give it for every fuel. *)
Inductive res (A : Type) :=
  | Ok (a : A)
  | Err (e : error)
  | Panic
  | NoFuel.
Arguments Ok {A} a.
Arguments Err {A} e.
Arguments Panic {A}.
Arguments NoFuel {A}.

#[export] Instance res_ret : MRet res := fun A a => Ok a.
#[export] Instance res_bind : MBind res := fun A B k m =>
  match m with
  | Ok a => k a
  | Err e => Err e
  | Panic => Panic
  | NoFuel => NoFuel
  end.

#[export] Instance res_fmap : FMap res := fun A B f m =>
  match m with
  | Ok a => Ok (f a)
  | Err e => Err e
  | Panic => Panic
  | NoFuel => NoFuel
  end.

#[export] Instance res_eq_dec `{EqDecision A} : EqDecision (res A).
Proof. solve_decision. Defined.

(** Result and state: parsers over the bytes left ([S = list byte]) and
    readers over a stream ([S = reader]).  After an error the state is of no
    further use to any caller. *)
Definition M (S A : Type) : Type := S -> res (A * S).

#[export] Instance M_ret S : MRet (M S) := fun A a s => Ok (a, s).
#[export] Instance M_bind S : MBind (M S) := fun A B k m s =>
  match m s with
  | Ok (a, s') => k a s'
  | Err e => Err e
  | Panic => Panic
  | NoFuel => NoFuel
  end.

Definition fail {S A} (e : error) : M S A := fun _ => Err e.

Definition fail_if {S} (b : bool) (e : error) : M S unit := fun s =>
  if b then Err e else Ok (tt, s).

Definition run {S A} (p : M S A) (s : S) : res A :=
  '(a, _) ← p s; Ok a.

(** * Slices *)

(** [s[n:]], [s[:n]] and [s[i]], which panic out of range.  The capacity of the
    slice is its length; a function that reslices beyond the length takes the
    spare bytes as an argument of its own. *)
Definition slice_from {A} (l : list A) (n : Z) : res (list A) :=
  if ((0 <=? n) && (n <=? len l))%Z then Ok (drop (Z.to_nat n) l) else Panic.

Definition slice_to {A} (l : list A) (n : Z) : res (list A) :=
  if ((0 <=? n) && (n <=? len l))%Z then Ok (take (Z.to_nat n) l) else Panic.

Definition index {A} (l : list A) (i : Z) : res A :=
  if (0 <=? i)%Z then
    match l !! Z.to_nat i with Some a => Ok a | None => Panic end
  else Panic.

(** [make([]T, 0, n)] for elements of [size] bytes. *)
Definition make_slice (size n : Z) : res unit :=
  if ((0 <=? n) && (n * size <=? maxAlloc))%Z then Ok tt else Panic.

(** [slices.IndexFunc], answering the element found. *)
Fixpoint find_first {A} (f : A -> bool) (l : list A) : option (nat * A) :=
  match l with
  | [] => None
  | a :: l =>
      if f a then Some (0, a)
      else '(i, b) ← find_first f l; Some (S i, b)
  end.

(** * Tactics and hints *)

Create HintDb moqt.
Create Rewrite HintDb moqt.

Lemma res_bind_Ok {A B} (m : res A) (k : A -> res B) b :
  m ≫= k = Ok b -> exists a, m = Ok a /\ k a = Ok b.
Proof. destruct m; [eauto|discriminate..]. Qed.

Lemma res_bind_assoc {A B C} (m : res A) (f : A -> res B) (g : B -> res C) :
  (m ≫= f) ≫= g = m ≫= fun x => f x ≫= g.
Proof. by destruct m. Qed.

Lemma M_bind_Ok {S A B} (m : M S A) (k : A -> M S B) s b s' :
  (m ≫= k) s = Ok (b, s') -> exists a s1, m s = Ok (a, s1) /\ k a s1 = Ok (b, s').
Proof. unfold mbind, M_bind. destruct (m s) as [[a s1]| | |]; [eauto|discriminate..]. Qed.

(** The first action of a sequence that succeeded. *)
Ltac inv_bind H :=
  let E := fresh "E" in
  first [apply res_bind_Ok in H as (? & E & H)
        |apply M_bind_Ok in H as (? & ? & E & H)].

Ltac inv_M H :=
  let E := fresh "E" in apply M_bind_Ok in H as (? & ? & E & H).

Ltac res_simpl :=
  unfold mbind, mret, res_bind, res_ret, M_bind, M_ret in *; simpl in *.

(** Equality of results, component by component. *)
Ltac ok_eq :=
  repeat match goal with
  | |- Ok _ = Ok _ => f_equal
  | |- (_, _) = (_, _) => f_equal
  | |- Some _ = Some _ => f_equal
  end; try done; try lia.

(** ** Lemmas *)

Lemma len_app {A} (l1 l2 : list A) : len (l1 ++ l2) = (len l1 + len l2)%Z.
Proof. unfold len. rewrite length_app. lia. Qed.

Lemma len_cons {A} (x : A) (l : list A) : len (x :: l) = (1 + len l)%Z.
Proof. unfold len. simpl length. lia. Qed.

Lemma len_nil {A} : len (@nil A) = 0%Z.
Proof. reflexivity. Qed.

Lemma len_nonneg {A} (l : list A) : (0 <= len l)%Z.
Proof. unfold len. lia. Qed.

Lemma to_nat_len {A} (l : list A) : Z.to_nat (len l) = length l.
Proof. unfold len. lia. Qed.

#[export] Hint Rewrite @len_app @len_cons @len_nil @to_nat_len : moqt.
#[export] Hint Resolve len_nonneg : moqt.

Lemma slice_from_app {A} (l1 l2 : list A) : slice_from (l1 ++ l2) (len l1) = Ok l2.
Proof.
  unfold slice_from. rewrite len_app.
  pose proof (len_nonneg l1); pose proof (len_nonneg l2).
  replace ((0 <=? len l1) && (len l1 <=? len l1 + len l2))%Z with true by lia.
  by rewrite to_nat_len, drop_app_length.
Qed.

Lemma slice_to_app {A} (l1 l2 : list A) : slice_to (l1 ++ l2) (len l1) = Ok l1.
Proof.
  unfold slice_to. rewrite len_app.
  pose proof (len_nonneg l1); pose proof (len_nonneg l2).
  replace ((0 <=? len l1) && (len l1 <=? len l1 + len l2))%Z with true by lia.
  by rewrite to_nat_len, take_app_length.
Qed.

#[export] Hint Rewrite @slice_from_app @slice_to_app : moqt.

Lemma slice_from_Ok {A} (l : list A) n :
  (0 <= n <= len l)%Z -> slice_from l n = Ok (drop (Z.to_nat n) l).
Proof.
  intros Hn. unfold slice_from.
  by replace ((0 <=? n) && (n <=? len l))%Z with true by lia.
Qed.

Lemma slice_to_Ok {A} (l : list A) n :
  (0 <= n <= len l)%Z -> slice_to l n = Ok (take (Z.to_nat n) l).
Proof.
  intros Hn. unfold slice_to.
  by replace ((0 <=? n) && (n <=? len l))%Z with true by lia.
Qed.

Lemma slice_from_inv {A} (l l' : list A) n :
  slice_from l n = Ok l' -> (0 <= n <= len l)%Z /\ l' = drop (Z.to_nat n) l.
Proof.
  unfold slice_from. destruct ((0 <=? n) && (n <=? len l))%Z eqn:E; [|done].
  intros [= <-]. split; [lia|done].
Qed.

Lemma len_drop {A} (l : list A) n :
  (0 <= n <= len l)%Z -> len (drop (Z.to_nat n) l) = (len l - n)%Z.
Proof. unfold len. rewrite length_drop. lia. Qed.

Lemma len_take {A} (l : list A) n :
  (0 <= n <= len l)%Z -> len (take (Z.to_nat n) l) = n.
Proof. unfold len. rewrite length_take. lia. Qed.

Lemma int64_small z : (- 2 ^ 63 <= z < 2 ^ 63)%Z -> int64 z = z.
Proof. intros H. unfold int64. rewrite Z.mod_small; lia. Qed.

Lemma uint64_add_l a b : uint64 (uint64 a + b) = uint64 (a + b).
Proof. unfold uint64. apply Z.add_mod_idemp_l. lia. Qed.
Lemma uint64_small z : (0 <= z < 2 ^ 64)%Z -> uint64 z = z.
Proof. intros H. unfold uint64. by rewrite Z.mod_small. Qed.

Lemma byte_of_Z_small z : (0 <= z < 256)%Z -> byte.unsigned (byte.of_Z z) = z.
Proof. intros H. rewrite byte.unsigned_of_Z. unfold byte.wrap. by rewrite Z.mod_small. Qed.

#[export] Hint Resolve int64_small uint64_small byte_of_Z_small : moqt.

(** ** Searching *)

Lemma find_first_Some {A} (f : A -> bool) l i a :
  find_first f l = Some (i, a) -> a ∈ l /\ f a = true.
Proof.
  revert i. induction l as [|b l IH]; intros i H; [done|]. cbn in H.
  destruct (f b) eqn:E.
  - injection H as <- <-. split; [by left|done].
  - destruct (find_first f l) as [[j c]|]; [|done]. injection H as <- <-.
    destruct (IH j eq_refl). split; [by right|done].
Qed.

Lemma find_first_None {A} (f : A -> bool) l a :
  find_first f l = None -> a ∈ l -> f a = false.
Proof.
  induction l as [|b l IH]; intros H Ha; [by apply elem_of_nil in Ha|]. cbn in H.
  destruct (f b) eqn:E; [done|]. destruct (find_first f l) as [[j c]|]; [done|].
  apply elem_of_cons in Ha as [->|Ha]; auto.
Qed.

(** * Streams *)

(** A [bufio.Reader] over a stream: the bytes still to come and the error the
    stream ends with ([io_EOF] for a stream the peer closed). *)
Record reader := mkReader { rd_bytes : list byte; rd_fin : error }.

Definition ReadByte : M reader Z := fun r =>
  match rd_bytes r with
  | [] => Err (rd_fin r)
  | b :: bs => Ok (byte.unsigned b, mkReader bs (rd_fin r))
  end.

(** [io.ReadFull]: all [n] bytes, or the stream's error, which is
    ErrUnexpectedEOF when an EOF comes after the first byte. *)
Definition ReadFull (n : Z) : M reader (list byte) := fun r =>
  if (n <=? len (rd_bytes r))%Z then
    Ok (take (Z.to_nat n) (rd_bytes r),
        mkReader (drop (Z.to_nat n) (rd_bytes r)) (rd_fin r))
  else
    Err (if bool_decide (rd_bytes r <> [] /\ rd_fin r = io_EOF)
         then io_ErrUnexpectedEOF else rd_fin r).

Lemma ReadFull_app (bs rest : list byte) fin :
  ReadFull (len bs) (mkReader (bs ++ rest) fin) = Ok (bs, mkReader rest fin).
Proof.
  unfold ReadFull. cbn [rd_bytes rd_fin]. rewrite len_app, to_nat_len.
  pose proof (len_nonneg rest).
  replace (len bs <=? len bs + len rest)%Z with true by lia.
  by rewrite take_app_length, drop_app_length.
Qed.

#[export] Hint Rewrite @ReadFull_app : moqt.
