(* ===== verification/VarInt.v ===== *)
(** The interface of the third-party package quicvarint (github.com/quic-go/
    quic-go/quicvarint), against which every codec of the library is defined
    and proved, and an instance of it.

    The package is not part of the repository: its four functions are the
    operations of the class [QuicVarint], and what its documentation promises
    of them (the variable-length integers of RFC 9000, section 16, of up to 62
    bits) are the laws of [QuicVarintLaws].  [RFC9000] is the encoding of the
    RFC, shown to satisfy the laws; it instantiates the theorems of the other
    files at concrete inputs. *)

From S2P Require Import Prelude.
From coqutil Require Import Word.LittleEndianList.
Local Open Scope Z_scope.

(** The largest value a QUIC varint holds. *)
Definition maxVarInt : Z := 2 ^ 62 - 1.

Class QuicVarint := {
  (** [Append(b, i)]; panics when [i] does not fit into 62 bits. *)
  qv_Append : Z -> list byte -> res (list byte);
  (** [Len(i)]; panics when [i] does not fit into 62 bits. *)
  qv_Len : Z -> res Z;
  (** [Parse(b)]: the number, the bytes consumed, the error. *)
  qv_Parse : list byte -> Z * Z * option error;
  (** [Read(r)]. *)
  qv_Read : M reader Z;
  (** [NewReader(r)]: a byte reader over [r]. *)
  qv_NewReader : reader -> reader;
}.

(** The encoding of a number, as [Append] writes it. *)
Definition qv_enc `{QuicVarint} (x : Z) : list byte :=
  match qv_Append x [] with Ok e => e | _ => [] end.

Class QuicVarintLaws `{QuicVarint} : Prop := {
  qv_Append_enc x buf :
    0 <= x <= maxVarInt -> qv_Append x buf = Ok (buf ++ qv_enc x);
  qv_Append_panic x buf : maxVarInt < x -> qv_Append x buf = Panic;
  qv_Len_enc x : 0 <= x <= maxVarInt -> qv_Len x = Ok (len (qv_enc x));
  qv_Len_panic x : maxVarInt < x -> qv_Len x = Panic;
  qv_enc_len x : 0 <= x <= maxVarInt -> 1 <= len (qv_enc x) <= 8;
  qv_Parse_enc x rest :
    0 <= x <= maxVarInt ->
    qv_Parse (qv_enc x ++ rest) = (x, len (qv_enc x), None);
  qv_Parse_ok data x n :
    qv_Parse data = (x, n, None) -> 0 <= x <= maxVarInt /\ 1 <= n <= len data;
  qv_Parse_err data x n e :
    qv_Parse data = (x, n, Some e) -> 0 <= n <= len data;
  qv_Parse_nil : qv_Parse [] = (0, 0, Some io_EOF);
  qv_Read_enc x rest fin :
    0 <= x <= maxVarInt ->
    qv_Read (mkReader (qv_enc x ++ rest) fin) = Ok (x, mkReader rest fin);
  qv_Read_ok r x r' :
    qv_Read r = Ok (x, r') ->
    0 <= x <= maxVarInt /\
    exists pre, rd_bytes r = pre ++ rd_bytes r' /\ pre <> [] /\ rd_fin r' = rd_fin r;
  qv_Read_total r : (exists x r', qv_Read r = Ok (x, r')) \/ (exists e, qv_Read r = Err e);
  qv_Read_nil fin : qv_Read (mkReader [] fin) = Err fin;
  qv_NewReader_id r : qv_NewReader r = r;
}.

Section Derived.
Context {QV : QuicVarint} {QVL : QuicVarintLaws}.

(** An append that succeeded was given a number that fits. *)
Lemma qv_Append_inv x buf out :
  0 <= x -> qv_Append x buf = Ok out ->
  0 <= x <= maxVarInt /\ out = buf ++ qv_enc x.
Proof.
  intros Hx H. destruct (Z_lt_le_dec maxVarInt x) as [Hgt|Hle].
  - by rewrite qv_Append_panic in H.
  - rewrite qv_Append_enc in H by lia. by injection H as <-.
Qed.

Lemma qv_enc_nonempty x : 0 <= x <= maxVarInt -> qv_enc x <> [].
Proof. intros Hx E. pose proof (qv_enc_len x Hx). rewrite E in *. unfold len in *. simpl in *. lia. Qed.

Lemma qv_Parse_bound data x n err : qv_Parse data = (x, n, err) -> 0 <= n <= len data.
Proof.
  destruct err; intros H.
  - by apply qv_Parse_err in H.
  - apply qv_Parse_ok in H. lia.
Qed.

End Derived.

#[export] Hint Resolve qv_enc_len qv_enc_nonempty : moqt.

(** * The encoding of RFC 9000 *)

Module RFC9000.

(** The first two bits of the first byte hold the base-2 logarithm of the
    length in bytes, the rest the number, most significant byte first. *)
Definition size (x : Z) : option (Z * nat) :=
  if x <? 2 ^ 6 then Some (0, 1%nat)
  else if x <? 2 ^ 14 then Some (1, 2%nat)
  else if x <? 2 ^ 30 then Some (2, 4%nat)
  else if x <? 2 ^ 62 then Some (3, 8%nat)
  else None.

Definition enc (x : Z) : option (list byte) :=
  '(tag, n) ← size x;
  Some (rev (le_split n (tag * 2 ^ (8 * Z.of_nat n - 2) + x))).

Definition Append (x : Z) (buf : list byte) : res (list byte) :=
  match enc x with Some e => Ok (buf ++ e) | None => Panic end.

Definition Len (x : Z) : res Z :=
  match size x with Some (_, n) => Ok (Z.of_nat n) | None => Panic end.

Definition width (b : byte) : nat :=
  let tag := Z.div (byte.unsigned b) (2 ^ 6) in
  if tag =? 0 then 1%nat else if tag =? 1 then 2%nat
  else if tag =? 2 then 4%nat else 8%nat.

Definition value (n : nat) (bs : list byte) : Z :=
  le_combine (rev bs) mod 2 ^ (8 * Z.of_nat n - 2).

Definition Parse (data : list byte) : Z * Z * option error :=
  match data with
  | [] => (0, 0, Some io_EOF)
  | b :: _ =>
      let n := width b in
      if (length data <? n)%nat then (0, 0, Some io_ErrUnexpectedEOF)
      else (value n (take n data), Z.of_nat n, None)
  end.

Definition Read : M reader Z := fun r =>
  match rd_bytes r with
  | [] => Err (rd_fin r)
  | b :: _ =>
      let n := width b in
      if (length (rd_bytes r) <? n)%nat then Err (rd_fin r)
      else Ok (value n (take n (rd_bytes r)),
               mkReader (drop n (rd_bytes r)) (rd_fin r))
  end.

End RFC9000.

#[export] Instance RFC9000_QuicVarint : QuicVarint := {|
  qv_Append := RFC9000.Append;
  qv_Len := RFC9000.Len;
  qv_Parse := RFC9000.Parse;
  qv_Read := RFC9000.Read;
  qv_NewReader := fun r => r;
|}.

(** ** The instance satisfies the laws *)

Lemma RFC9000_size_spec x :
  0 <= x <= maxVarInt ->
  exists tag n, RFC9000.size x = Some (tag, n) /\ 0 <= x < 2 ^ (8 * Z.of_nat n - 2) /\
    ((tag = 0 /\ n = 1%nat) \/ (tag = 1 /\ n = 2%nat) \/ (tag = 2 /\ n = 4%nat) \/ (tag = 3 /\ n = 8%nat)).
Proof.
  unfold RFC9000.size, maxVarInt. intros Hx.
  repeat case_match; try lia; (do 2 eexists; split_and!; [reflexivity|lia|simpl; lia|]); eauto 10.
Qed.

Lemma RFC9000_size_panic x : maxVarInt < x -> RFC9000.size x = None.
Proof. unfold RFC9000.size, maxVarInt. intros Hx. repeat case_match; lia || done. Qed.

Lemma RFC9000_enc_spec x :
  0 <= x <= maxVarInt ->
  exists n e, RFC9000.enc x = Some e /\ RFC9000.Len x = Ok (Z.of_nat n) /\ length e = n /\
    (1 <= n <= 8)%nat /\ (exists b e', e = b :: e' /\ RFC9000.width b = n) /\
    RFC9000.value n e = x.
Proof.
  intros Hx. destruct (RFC9000_size_spec x Hx) as (tag & n & E & Hr & Hc).
  unfold RFC9000.enc, RFC9000.Len. rewrite E. simpl.
  set (y := tag * 2 ^ (8 * Z.of_nat n - 2) + x).
  exists n, (rev (le_split n y)). split; [done|]. split; [done|].
  rewrite length_rev, length_le_split. split; [done|].
  assert (Hval : RFC9000.value n (rev (le_split n y)) = x).
  { unfold RFC9000.value. rewrite rev_involutive, le_combine_split.
    assert (Hy : 0 <= y < 2 ^ (Z.of_nat n * 8)).
    { subst y. destruct Hc as [[-> ->]|[[-> ->]|[[-> ->]|[-> ->]]]]; simpl in *; lia. }
    rewrite (Z.mod_small y) by done. subst y.
    rewrite Z.add_comm, Z_mod_plus_full. by apply Z.mod_small. }
  split; [lia|]. split; [|done].
  clear Hval. subst y.
  destruct Hc as [[-> ->]|[[-> ->]|[[-> ->]|[-> ->]]]];
    (cbn [le_split rev app]; do 2 eexists; split; [reflexivity|]);
    unfold RFC9000.width; rewrite byte.unsigned_of_Z; unfold byte.wrap;
    rewrite ?Z.shiftr_shiftr, ?Z.shiftr_div_pow2 by lia; simpl in Hr;
    repeat case_match; try done; exfalso; simpl in *; Z.div_mod_to_equations; lia.
Qed.

Lemma RFC9000_enc_panic x : maxVarInt < x -> RFC9000.enc x = None.
Proof. intros Hx. unfold RFC9000.enc. by rewrite RFC9000_size_panic. Qed.

Lemma RFC9000_qv_enc x e : RFC9000.enc x = Some e -> qv_enc x = e.
Proof. intros E. unfold qv_enc. simpl. unfold RFC9000.Append. by rewrite E. Qed.

Lemma RFC9000_width_bound b : (1 <= RFC9000.width b <= 8)%nat.
Proof. unfold RFC9000.width. repeat case_match; lia. Qed.

Lemma RFC9000_value_bound n bs : (1 <= n <= 8)%nat -> 0 <= RFC9000.value n bs <= maxVarInt.
Proof.
  intros Hn. unfold RFC9000.value, maxVarInt.
  assert (0 < 2 ^ (8 * Z.of_nat n - 2) <= 2 ^ 62).
  { split; [apply Z.pow_pos_nonneg; lia|]. apply Z.pow_le_mono_r; lia. }
  pose proof (Z.mod_pos_bound (le_combine (rev bs)) (2 ^ (8 * Z.of_nat n - 2))). lia.
Qed.

#[export] Instance RFC9000_Laws : QuicVarintLaws.
Proof.
  split.
  - intros x buf Hx. destruct (RFC9000_enc_spec x Hx) as (n & e & E & _).
    rewrite (RFC9000_qv_enc _ _ E). simpl. unfold RFC9000.Append. by rewrite E.
  - intros x buf Hx. simpl. unfold RFC9000.Append. by rewrite RFC9000_enc_panic.
  - intros x Hx. destruct (RFC9000_enc_spec x Hx) as (n & e & E & HL & Hl & _).
    etrans; [exact HL|]. rewrite (RFC9000_qv_enc _ _ E). unfold len. by rewrite Hl.
  - intros x Hx. simpl. unfold RFC9000.Len. by rewrite RFC9000_size_panic.
  - intros x Hx. destruct (RFC9000_enc_spec x Hx) as (n & e & E & _ & Hl & ? & _).
    rewrite (RFC9000_qv_enc _ _ E). unfold len. lia.
  - intros x rest Hx.
    destruct (RFC9000_enc_spec x Hx) as (n & e & E & _ & Hl & ? & (b & e' & He & Hw) & Hv).
    rewrite (RFC9000_qv_enc _ _ E). unfold len. rewrite Hl.
    simpl. unfold RFC9000.Parse. rewrite He in *. simpl app. cbn iota.
    rewrite Hw. rewrite app_comm_cons.
    rewrite <- Hl, take_app_length, length_app.
    replace (_ <? _)%nat with false by (symmetry; apply Nat.ltb_ge; lia).
    by rewrite Hl, Hv.
  - intros [|b data] x n; simpl; [done|]. pose proof (RFC9000_width_bound b).
    destruct (_ <? _)%nat eqn:Hlt; [done|]. intros [= <- <-].
    apply Nat.ltb_ge in Hlt. split; [by apply RFC9000_value_bound|].
    unfold len. simpl in *. lia.
  - intros [|b data] x n e; simpl.
    { intros [= _ <- _]. done. }
    destruct (_ <? _)%nat; [|done]. intros [= _ <- _]. pose proof (len_nonneg (b :: data)). lia.
  - done.
  - intros x rest fin Hx.
    destruct (RFC9000_enc_spec x Hx) as (n & e & E & _ & Hl & ? & (b & e' & He & Hw) & Hv).
    rewrite (RFC9000_qv_enc _ _ E).
    simpl. unfold RFC9000.Read. cbn [rd_bytes rd_fin]. rewrite He in *. simpl app. cbn iota.
    rewrite Hw. rewrite app_comm_cons.
    rewrite <- Hl, take_app_length, drop_app_length, length_app.
    replace (_ <? _)%nat with false by (symmetry; apply Nat.ltb_ge; lia).
    by rewrite Hl, Hv.
  - intros [[|b bs] fin] x r'; simpl; unfold RFC9000.Read; simpl; [done|].
    pose proof (RFC9000_width_bound b).
    destruct (_ <? _)%nat eqn:Hlt; [done|]. intros [= <- <-]. simpl.
    split; [by apply RFC9000_value_bound|].
    exists (take (RFC9000.width b) (b :: bs)). rewrite take_drop. split_and!; [done| |done].
    destruct (RFC9000.width b); [lia|done].
  - intros r. simpl. unfold RFC9000.Read. repeat case_match; eauto.
  - done.
  - done.
Qed.

Example RFC9000_37 : qv_enc 37 = [byte.of_Z 0x25].
Proof. vm_compute. reflexivity. Qed.

Example RFC9000_15293 : qv_enc 15293 = [byte.of_Z 0x7b; byte.of_Z 0xbd].
Proof. vm_compute. reflexivity. Qed.

Example RFC9000_494878333 :
  qv_Parse (map byte.of_Z [0x9d; 0x7f; 0x3e; 0x7d]) = (494878333, 4, None).
Proof. vm_compute. reflexivity. Qed.
