(* ===== verification/Codec.v ===== *)
(** Appending and parsing: the shapes shared by the codecs of internal/wire.

    An [appender] is what the [append]/[Append] methods do to a buffer; a
    [parser] is the consuming form of the parse functions, in which the
    repeated
<<
      x, n, err = parse(data)
      if err != nil { return err }
      data = data[n:]
>>
    of the source is the action [field parse].  [rt f p v] relates an appender
    with the parser that reads the value [v] back; it composes along the two
    sequences of statements, which is how every round trip of the library is
    proved. *)

From S2P Require Import Prelude VarInt.
Local Open Scope Z_scope.

Definition appender : Type := list byte -> res (list byte).

Definition parser (A : Type) : Type := M (list byte) A.

(** What the source's parse functions answer: a value, the number of bytes
    consumed and an error, or a panic. *)
Definition parse_fun (A : Type) : Type := list byte -> res (A * Z * option error).

(** [buf = append(buf, b)] and [buf = append(buf, bs...)]. *)
Definition append_byte (b : Z) : appender := fun buf => Ok (buf ++ [byte.of_Z b]).
Definition append_bytes (bs : list byte) : appender := fun buf => Ok (buf ++ bs).

Definition field {A} (f : parse_fun A) : parser A := fun data =>
  '(x, n, err) ← f data;
  match err with
  | Some e => Err e
  | None => data ← slice_from data n; Ok (x, data)
  end.

(** [if len(data) < k { return err }]. *)
Definition need (k : Z) (e : error) : parser unit := fun data =>
  if len data <? k then Err e else Ok (tt, data).

(** The next byte: [data[0]], [data[1]], ... up to the [data = data[k:]] that
    ends such a group. *)
Definition next : parser Z := fun data =>
  match data with
  | [] => Panic
  | b :: data => Ok (byte.unsigned b, data)
  end.

(** [data[i]], consuming nothing. *)
Definition peek (i : Z) : parser Z := fun data =>
  b ← index data i; Ok (byte.unsigned b, data).

Definition varint `{QuicVarint} : parser Z := field (fun data => Ok (qv_Parse data)).

(** ** Round trips *)

Definition rt {A} (f : appender) (p : parser A) (v : A) : Prop :=
  forall buf out, f buf = Ok out ->
  exists e, out = buf ++ e /\ forall rest, p (e ++ rest) = Ok (v, rest).

Definition rt_fun {A} (f : appender) (p : parse_fun A) (v : A) : Prop :=
  forall buf out, f buf = Ok out ->
  exists e, out = buf ++ e /\ forall rest, p (e ++ rest) = Ok (v, len e, None).

Create HintDb rt.

Section RoundTrips.
Context {QV : QuicVarint} {QVL : QuicVarintLaws}.

Lemma rt_seq {A B} (f g : appender) (p : parser A) (k : A -> parser B) v w :
  rt f p v -> rt g (k v) w -> rt (fun buf => f buf ≫= g) (p ≫= k) w.
Proof.
  intros Hf Hg buf out H. res_simpl.
  destruct (f buf) as [b| | |] eqn:Ef; try discriminate H.
  destruct (Hf _ _ Ef) as (e1 & -> & H1). destruct (Hg _ _ H) as (e2 & -> & H2).
  exists (e1 ++ e2). split; [by rewrite app_assoc|]. intros rest.
  by rewrite <- app_assoc, H1, H2.
Qed.

Lemma rt_assoc {A} (f : appender) (g h : list byte -> res (list byte)) (p : parser A) v :
  rt (fun buf => f buf ≫= fun b => g b ≫= h) p v -> rt (fun buf => (f buf ≫= g) ≫= h) p v.
Proof. intros Hf buf out H. rewrite res_bind_assoc in H. by apply Hf. Qed.

(** The last appender of a sequence. *)
Lemma rt_last {A B} (f : appender) (p : parser A) (k : A -> parser B) v w :
  rt f p v -> (forall s, k v s = Ok (w, s)) -> rt f (p ≫= k) w.
Proof.
  intros Hf Hk buf out H. destruct (Hf _ _ H) as (e & -> & H1).
  exists e. split; [done|]. intros rest. unfold mbind, M_bind. by rewrite H1, Hk.
Qed.

(** Checks that succeed read nothing. *)
Lemma rt_fail_if {B} (f : appender) (b : bool) e (k : unit -> parser B) w :
  b = false -> rt f (k tt) w -> rt f (fail_if b e ≫= k) w.
Proof. intros -> H. exact H. Qed.

Lemma rt_ret {A} (v : A) : rt (fun buf => Ok buf) (mret v) v.
Proof. intros buf out [= <-]. exists []. by rewrite app_nil_r. Qed.

Lemma rt_varint x : 0 <= x -> rt (qv_Append x) varint x.
Proof.
  intros Hx buf out H. apply qv_Append_inv in H as [Hr ->]; [|done].
  eexists. split; [done|]. intros rest. unfold varint, field. res_simpl.
  rewrite qv_Parse_enc by done. by rewrite slice_from_app.
Qed.

Lemma rt_next b : 0 <= b < 256 -> rt (append_byte b) next b.
Proof.
  intros Hb buf out [= <-]. eexists. split; [done|]. intros rest. simpl.
  by rewrite byte_of_Z_small.
Qed.

Lemma rt_field {A} f (p : parse_fun A) v : rt_fun f p v -> rt f (field p) v.
Proof.
  intros Hf buf out H. destruct (Hf _ _ H) as (e & -> & H1).
  exists e. split; [done|]. intros rest. unfold field. res_simpl.
  by rewrite H1, slice_from_app.
Qed.

(** A statement under a condition, with the zero value when it does not hold. *)
Lemma rt_if {A} (c : bool) (f : appender) (p : parser A) d v :
  (c = true -> rt f p v) -> (c = false -> v = d) ->
  rt (fun buf => if c then f buf else Ok buf) (if c then p else mret d) v.
Proof.
  intros Ht Hf. destruct c; [by apply Ht|]. rewrite (Hf eq_refl).
  intros buf out [= <-]. exists []. by rewrite app_nil_r.
Qed.

(** Appenders that add [k] bytes or more. *)
Definition grows (f : appender) (k : Z) : Prop :=
  forall buf out, f buf = Ok out -> len buf + k <= len out.

Lemma grows_rt {A} f (p : parser A) v : rt f p v -> grows f 0.
Proof.
  intros Hf buf out H. destruct (Hf _ _ H) as (e & -> & _). rewrite len_app.
  pose proof (len_nonneg e). lia.
Qed.

Lemma grows_seq f g k : grows f 0 -> grows g k -> grows (fun buf => f buf ≫= g) k.
Proof.
  intros Hf Hg buf out H. inv_bind H. specialize (Hf _ _ E). specialize (Hg _ _ H). lia.
Qed.

Lemma grows_if (c : bool) f k :
  k <= 0 -> grows f k -> grows (fun buf => if c then f buf else Ok buf) k.
Proof. intros Hk Hf. destruct c; [done|]. intros buf out [= <-]. lia. Qed.

Lemma grows_byte b (g : appender) k :
  grows g (k - 1) -> grows (fun buf => append_byte b buf ≫= g) k.
Proof.
  intros Hg buf out H. inv_bind H. injection E as <-. specialize (Hg _ _ H).
  rewrite len_app, len_cons, len_nil in Hg. lia.
Qed.

Lemma grows_last_byte b k : k <= 1 -> grows (append_byte b) k.
Proof. intros Hk buf out [= <-]. rewrite len_app, len_cons, len_nil. lia. Qed.

(** A length check in front of bytes that are there. *)
Lemma rt_need {B} (f : appender) k e (p : unit -> parser B) w :
  rt f (p tt) w -> grows f k -> rt f (need k e ≫= p) w.
Proof.
  intros Hf Hk buf out H. destruct (Hf _ _ H) as (e' & -> & H1).
  exists e'. split; [done|]. intros rest. unfold mbind, M_bind, need.
  specialize (Hk _ _ H). rewrite len_app in *. pose proof (len_nonneg rest).
  replace (len e' + len rest <? k) with false by lia. apply H1.
Qed.

(** What an appender adds, a whole-message parser reads back. *)
Definition reads {A} (f : appender) (parse : list byte -> res A) (v : A) : Prop :=
  forall buf out, f buf = Ok out -> exists e, out = buf ++ e /\ parse e = Ok v.

Lemma rt_reads {A} f (p : parser A) v : rt f p v -> reads f (run p) v.
Proof.
  intros Hf buf out H. destruct (Hf _ _ H) as (e & -> & H1). exists e. split; [done|].
  unfold run. res_simpl. specialize (H1 []). rewrite app_nil_r in H1. by rewrite H1.
Qed.

Lemma reads_fmap {A B} (g : A -> B) f parse v :
  reads f parse v -> reads f (fun d => g <$> parse d) (g v).
Proof.
  intros Hf buf out H. destruct (Hf _ _ H) as (e & -> & H1). exists e.
  split; [done|]. by rewrite H1.
Qed.

(** The bytes an appender adds do not depend on the buffer. *)
Definition uniform (f : appender) : Prop :=
  (forall buf, f buf = Panic) \/ (exists e, forall buf, f buf = Ok (buf ++ e)).

Lemma uniform_seq f g : uniform f -> uniform g -> uniform (fun buf => f buf ≫= g).
Proof.
  intros [Hf|[e1 Hf]] [Hg|[e2 Hg]]; [left..|right; exists (e1 ++ e2)];
    intros buf; res_simpl; rewrite Hf; [done..|by rewrite Hg|].
  by rewrite Hg, app_assoc.
Qed.

Lemma uniform_varint x : 0 <= x -> uniform (qv_Append x).
Proof.
  intros Hx. destruct (Z_lt_le_dec maxVarInt x).
  - left. intros buf. by apply qv_Append_panic.
  - right. exists (qv_enc x). intros buf. apply qv_Append_enc. lia.
Qed.

Lemma uniform_bytes bs : uniform (append_bytes bs).
Proof. right. by exists bs. Qed.

Lemma uniform_byte b : uniform (append_byte b).
Proof. right. by exists [byte.of_Z b]. Qed.

Lemma uniform_ret : uniform (fun buf => Ok buf).
Proof. right. exists []. intros. by rewrite app_nil_r. Qed.

(** *** Inverting a parse *)

Lemma varint_inv data x rest :
  varint data = Ok (x, rest) ->
  0 <= x <= maxVarInt /\ (length rest < length data)%nat /\ exists pre, data = pre ++ rest.
Proof.
  unfold varint, field. res_simpl. destruct (qv_Parse data) as [[y n] [e|]] eqn:E; [done|].
  apply qv_Parse_ok in E as [Hy Hn]. rewrite slice_from_Ok by lia. intros [= <- <-].
  split; [done|]. split.
  - rewrite length_drop. unfold len in Hn. lia.
  - exists (take (Z.to_nat n) data). by rewrite take_drop.
Qed.

End RoundTrips.

#[export] Hint Resolve rt_varint rt_next rt_field rt_ret : rt.
#[export] Hint Resolve uniform_varint uniform_bytes uniform_byte uniform_ret : rt.

#[export] Hint Extern 2 (_ <= _ < _)%Z => lia : rt.
#[export] Hint Extern 2 (_ <= _ <= _)%Z => lia : rt.
#[export] Hint Extern 2 (_ <= _)%Z => lia : rt.

(** Proves a round trip of a sequence of statements, one statement at a time;
    the side conditions are the well-formedness of the fields. *)
Ltac rt_side :=
  solve [eauto with rt | lia | intuition lia
        |apply rt_if; [intros; eauto with rt|intros; first [lia|intuition congruence|intuition lia]]].
Ltac grows_solve :=
  match goal with
  | |- grows (fun buf => append_byte _ buf ≫= _) _ => apply grows_byte; cbn beta; grows_solve
  | |- grows (append_byte _) _ => apply grows_last_byte; lia
  | |- grows (fun buf => (if _ then _ else _) ≫= _) _ =>
      apply grows_seq; [apply grows_if; [lia|grows_solve]|cbn beta; grows_solve]
  | |- grows (fun buf => _ ≫= _) _ => apply grows_seq; [grows_solve|cbn beta; grows_solve]
  | |- grows (fun buf => if _ then _ else _) _ => apply grows_if; [lia|grows_solve]
  | |- _ => eapply grows_rt; rt_side
  end.
Ltac rt_step :=
  match goal with
  | |- rt _ (fail_if _ _ ≫= _) _ => apply rt_fail_if; [try lia|]
  | |- rt _ (if ?b then _ else _) _ =>
      first [replace b with true by lia | replace b with false by lia]; cbn iota
  | |- rt _ (need _ _ ≫= _) _ => apply rt_need; [|grows_solve]
  | |- rt (fun buf => (_ ≫= _) ≫= _) _ _ => apply rt_assoc
  | |- rt (fun buf => _ ≫= _) (_ ≫= _) _ => eapply rt_seq; [rt_side|]
  | |- rt _ (_ ≫= _) _ => eapply rt_last; [rt_side|intros; reflexivity]
  end.
Ltac rt_solve := repeat (rt_step; cbn beta).

(** ** Round trips through a reader *)

Definition rrt {A} (f : appender) (p : M reader A) (v : A) : Prop :=
  forall buf out, f buf = Ok out ->
  exists e, out = buf ++ e /\
    forall rest fin, p (mkReader (e ++ rest) fin) = Ok (v, mkReader rest fin).

Section ReaderRoundTrips.
Context {QV : QuicVarint} {QVL : QuicVarintLaws}.

Lemma rrt_seq {A B} (f g : appender) (p : M reader A) (k : A -> M reader B) v w :
  rrt f p v -> rrt g (k v) w -> rrt (fun buf => f buf ≫= g) (p ≫= k) w.
Proof.
  intros Hf Hg buf out H. inv_bind H.
  destruct (Hf _ _ E) as (e1 & -> & H1). destruct (Hg _ _ H) as (e2 & -> & H2).
  exists (e1 ++ e2). split; [by rewrite app_assoc|]. intros rest fin.
  unfold mbind, M_bind. by rewrite <- app_assoc, H1, H2.
Qed.

Lemma rrt_last {A B} (f : appender) (p : M reader A) (k : A -> M reader B) v w :
  rrt f p v -> (forall r, k v r = Ok (w, r)) -> rrt f (p ≫= k) w.
Proof.
  intros Hf Hk buf out H. destruct (Hf _ _ H) as (e & -> & H1).
  exists e. split; [done|]. intros rest fin. unfold mbind, M_bind. by rewrite H1, Hk.
Qed.

Lemma rrt_silent {A B} (f : appender) (p : M reader A) (k : A -> M reader B) v w :
  (forall r, p r = Ok (v, r)) -> rrt f (k v) w -> rrt f (p ≫= k) w.
Proof.
  intros Hp Hf buf out H. destruct (Hf _ _ H) as (e & -> & H1).
  exists e. split; [done|]. intros rest fin. unfold mbind, M_bind. by rewrite Hp, H1.
Qed.

Lemma rrt_varint x : 0 <= x -> rrt (qv_Append x) qv_Read x.
Proof.
  intros Hx buf out H. apply qv_Append_inv in H as [Hr ->]; [|done].
  eexists. split; [done|]. intros rest fin. by apply qv_Read_enc.
Qed.

Lemma rrt_byte b : 0 <= b < 256 -> rrt (append_byte b) ReadByte b.
Proof.
  intros Hb buf out [= <-]. eexists. split; [done|]. intros rest fin.
  unfold ReadByte. cbn [rd_bytes rd_fin app]. by rewrite byte_of_Z_small.
Qed.

Lemma rrt_bytes bs : rrt (append_bytes bs) (ReadFull (len bs)) bs.
Proof.
  intros buf out [= <-]. eexists. split; [done|]. intros rest fin. apply ReadFull_app.
Qed.

End ReaderRoundTrips.

#[export] Hint Resolve rrt_varint rrt_byte rrt_bytes : rt.

Ltac rrt_step :=
  match goal with
  | |- rrt (fun buf => _ ≫= _) (_ ≫= _) _ => eapply rrt_seq; [rt_side|]
  | |- rrt _ (_ ≫= _) _ => eapply rrt_last; [rt_side|intros; reflexivity]
  end.
Ltac rrt_solve := repeat (rrt_step; cbn beta iota).

(** ** Readers that make progress *)

Section Progress.
Context {QV : QuicVarint} {QVL : QuicVarintLaws}.

(** A reader action that terminates, and leaves a suffix of the stream of at
    least [k] bytes less. *)
Definition consumes {A} (k : nat) (p : M reader A) : Prop :=
  forall r, p r <> NoFuel /\
    forall a r', p r = Ok (a, r') ->
      exists pre, rd_bytes r = pre ++ rd_bytes r' /\ (k <= length pre)%nat /\ rd_fin r' = rd_fin r.

Lemma consumes_bind {A B} k (p : M reader A) (f : A -> M reader B) :
  consumes k p -> (forall a, consumes 0 (f a)) -> consumes k (p ≫= f).
Proof.
  intros Hp Hf r. destruct (Hp r) as [Hn Hok]. unfold mbind, M_bind.
  destruct (p r) as [[a r1]| | |] eqn:E; [|done..].
  destruct (Hok _ _ eq_refl) as (pre & Hr & Hk & Hfin).
  destruct (Hf a r1) as [Hn1 Hok1]. split; [done|]. intros b r' H.
  destruct (Hok1 _ _ H) as (pre' & Hr1 & _ & Hfin'). exists (pre ++ pre').
  rewrite Hr, Hr1, <- app_assoc, length_app. split_and!; [done|lia|congruence].
Qed.

Lemma consumes_weaken {A} (p : M reader A) k : consumes k p -> consumes 0 p.
Proof.
  intros Hp r. destruct (Hp r) as [Hn Hok]. split; [done|]. intros a r' H.
  destruct (Hok _ _ H) as (pre & ? & ? & ?). exists pre. split_and!; [done|lia|done].
Qed.

Lemma consumes_ret {A} (a : A) : consumes 0 (mret a).
Proof. intros r. split; [done|]. intros ? ? [= <- <-]. by exists []. Qed.

Lemma consumes_varint : consumes 1 qv_Read.
Proof.
  intros r. split.
  - destruct (qv_Read_total r) as [(x & r' & ->)|(e & ->)]; done.
  - intros a r' H. apply qv_Read_ok in H as (_ & pre & ? & Hne & ?). exists pre.
    split_and!; [done| |done]. destruct pre; [done|simpl; lia].
Qed.

Lemma consumes_byte : consumes 0 ReadByte.
Proof.
  intros [[|b bs] fin]; (split; [done|]); intros a r' H; [done|].
  injection H as <- <-. exists [b]. simpl. split_and!; [done|lia|done].
Qed.

Lemma consumes_ReadFull n : consumes 0 (ReadFull n).
Proof.
  intros r. unfold ReadFull. destruct (_ <=? _); (split; [done|]); [|done].
  intros a r' [= <- <-]. exists (take (Z.to_nat n) (rd_bytes r)). cbn [rd_bytes rd_fin].
  rewrite take_drop. split_and!; [done|lia|done].
Qed.

Lemma consumes_varint0 : consumes 0 qv_Read.
Proof. apply (consumes_weaken _ 1), consumes_varint. Qed.

End Progress.

#[export] Hint Resolve consumes_ret consumes_byte consumes_ReadFull consumes_varint
  consumes_varint0 : rt.
