(* ===== verification/WireTypes.v ===== *)
(** The building blocks of the wire format (internal/wire): length-prefixed
    bytes, namespace tuples, locations, version lists, authorization tokens and
    key-value pairs, each with its appender, its parser and their round trip.

    A parse function answers as the source's does: the value read so far, the
    bytes consumed, the error.  A slice of strings or of pairs is a list; nil
    and empty slices are the same list. *)

From S2P Require Import Prelude VarInt Codec.
Local Open Scope Z_scope.

(** * varint_bytes.go *)

Section VarIntBytes.
Context {QV : QuicVarint}.

Definition appendVarIntBytes (data : list byte) : appender := fun buf =>
  buf ← qv_Append (len data) buf;
  append_bytes data buf.

Definition varIntBytesLen (s : gostring) : res Z :=
  n ← qv_Len (len s);
  Ok (uint64 (n + len s)).

Definition parseVarIntBytes (data : list byte) : res (list byte * Z * option error) :=
  let '(l, n, err) := qv_Parse data in
  match err with
  | Some e => Ok ([], n, Some e)
  | None =>
      if l =? 0 then Ok ([], n, None)
      else
        data ← slice_from data n;
        if len data <? int64 l then Ok ([], n + len data, Some io_ErrUnexpectedEOF)
        else
          v ← slice_to data l;
          Ok (v, n + int64 l, None)
  end.

End VarIntBytes.

(** * tuple.go *)

Module Tuple.
Section Tuple.
Context {QV : QuicVarint}.

Definition t : Type := list gostring.

Fixpoint append_elements (l : t) : appender := fun buf =>
  match l with
  | [] => Ok buf
  | s :: l =>
      buf ← qv_Append (len s) buf;
      buf ← append_bytes s buf;
      append_elements l buf
  end.

Definition append (l : t) : appender := fun buf =>
  buf ← qv_Append (len l) buf;
  append_elements l buf.

Definition String (l : t) : gostring := concat l.

Fixpoint parse_elements (fuel : nat) (i length : Z) (tuple : t) (parsed : Z)
    (data : list byte) : res (t * Z * option error) :=
  if i <? length then
    match fuel with
    | O => NoFuel
    | S fuel =>
        let '(l, n, err) := qv_Parse data in
        let parsed := parsed + n in
        match err with
        | Some e => Ok (tuple, parsed, Some e)
        | None =>
            data ← slice_from data n;
            if len data <? l then Ok (tuple, parsed, Some errLengthMismatch)
            else
              s ← slice_to data l;
              data ← slice_from data l;
              parse_elements fuel (i + 1) length (tuple ++ [s]) (parsed + int64 l) data
        end
    end
  else Ok (tuple, parsed, None).

(** [make([]string, 0, length)] allocates 16 bytes per element. *)
Definition parseTuple (data : list byte) : res (t * Z * option error) :=
  let '(length', parsed, err) := qv_Parse data in
  match err with
  | Some e => Ok ([], parsed, Some e)
  | None =>
      data ← slice_from data parsed;
      _ ← make_slice 16 length';
      parse_elements (S (length data)) 0 length' [] parsed data
  end.

(** Any slice the runtime can hold. *)
Definition wf (l : t) : Prop := len l * 16 <= maxAlloc.

End Tuple.
End Tuple.

(** * location.go *)

Module Location.
Section Location.
Context {QV : QuicVarint}.

Record t := mk { Group : Z; Object : Z }.

Definition append (l : t) : appender := fun buf =>
  buf ← qv_Append (Group l) buf;
  qv_Append (Object l) buf.

Definition parse (data : list byte) : res (t * Z * option error) :=
  let '(group, n, err) := qv_Parse data in
  match err with
  | Some e => Ok (mk group 0, n, Some e)
  | None =>
      data ← slice_from data n;
      let '(object, m, err) := qv_Parse data in
      Ok (mk group object, n + m, err)
  end.

Definition zero : t := mk 0 0.

Definition wf (l : t) : Prop := 0 <= Group l /\ 0 <= Object l.

End Location.
End Location.

#[export] Instance Location_eq_dec : EqDecision Location.t.
Proof. solve_decision. Defined.

(** * version.go *)

Definition Draft_ietf_moq_transport_11 : Z := 0xff00000b.
Definition CurrentVersion : Z := Draft_ietf_moq_transport_11.
Definition SupportedVersions : list Z := [CurrentVersion].

Module versions.
Section versions.
Context {QV : QuicVarint}.

Definition t : Type := list Z.

Fixpoint Len (v : t) : res Z :=
  match v with
  | [] => Ok 0
  | x :: v => n ← qv_Len x; l ← Len v; Ok (uint64 (n + l))
  end.

Fixpoint append_elements (v : t) : appender := fun buf =>
  match v with
  | [] => Ok buf
  | x :: v => buf ← qv_Append x buf; append_elements v buf
  end.

Definition append (v : t) : appender := fun buf =>
  buf ← qv_Append (len v) buf;
  append_elements v buf.

Fixpoint parse_elements (fuel : nat) (i numVersions : Z) (vs : t) (parsed : Z)
    (data : list byte) : res (t * Z * option error) :=
  if i <? int64 numVersions then
    match fuel with
    | O => NoFuel
    | S fuel =>
        let '(v, n, err) := qv_Parse data in
        let parsed := parsed + n in
        match err with
        | Some e => Ok (vs, parsed, Some e)
        | None =>
            data ← slice_from data n;
            parse_elements fuel (i + 1) numVersions (vs ++ [v]) parsed data
        end
    end
  else Ok (vs, parsed, None).

(** [vs.parse] appends to the receiver. *)
Definition parse (vs : t) (data : list byte) : res (t * Z * option error) :=
  let '(numVersions, parsed, err) := qv_Parse data in
  match err with
  | Some e => Ok (vs, parsed, Some e)
  | None =>
      data ← slice_from data parsed;
      parse_elements (S (length data)) 0 numVersions vs parsed data
  end.

Definition wf (v : t) : Prop := Forall (fun x => 0 <= x) v.

End versions.
End versions.

(** * token.go *)

Definition TokenTypeDelete : Z := 0x00.
Definition TokenTypeRegister : Z := 0x01.
Definition TokenTypeUseAlias : Z := 0x02.
Definition TokenTypeUseValue : Z := 0x03.

Module Token.
Section Token.
Context {QV : QuicVarint}.

Record t := mk { AliasType : Z; Alias : Z; Type_ : Z; Value : list byte }.

Definition Append (k : t) : appender := fun buf =>
  buf ← qv_Append (AliasType k) buf;
  if (AliasType k =? TokenTypeDelete) || (AliasType k =? TokenTypeUseAlias) then
    qv_Append (Alias k) buf
  else if AliasType k =? TokenTypeRegister then
    buf ← qv_Append (Alias k) buf;
    buf ← qv_Append (Type_ k) buf;
    append_bytes (Value k) buf
  else if AliasType k =? TokenTypeUseValue then
    buf ← qv_Append (Type_ k) buf;
    append_bytes (Value k) buf
  else Ok buf.

(** The token and the bytes consumed; a token takes all the bytes it is given. *)
Definition Parse (data : list byte) : res (t * Z * option error) :=
  let '(aliasType, n, err) := qv_Parse data in
  let parsed := n in
  match err with
  | Some e => Ok (mk aliasType 0 0 [], parsed, Some e)
  | None =>
      data ← slice_from data n;
      if (aliasType =? TokenTypeDelete) || (aliasType =? TokenTypeUseAlias) then
        let '(alias, n, err) := qv_Parse data in
        Ok (mk aliasType alias 0 [], parsed + n, err)
      else if aliasType =? TokenTypeRegister then
        let '(alias, n, err) := qv_Parse data in
        let parsed := parsed + n in
        match err with
        | Some e => Ok (mk aliasType alias 0 [], parsed, Some e)
        | None =>
            data ← slice_from data n;
            let '(type, n, err) := qv_Parse data in
            let parsed := parsed + n in
            match err with
            | Some e => Ok (mk aliasType alias type [], parsed, Some e)
            | None =>
                data ← slice_from data n;
                Ok (mk aliasType alias type data, parsed + len data, None)
            end
        end
      else if aliasType =? TokenTypeUseValue then
        let '(type, n, err) := qv_Parse data in
        let parsed := parsed + n in
        match err with
        | Some e => Ok (mk aliasType 0 type [], parsed, Some e)
        | None =>
            data ← slice_from data n;
            Ok (mk aliasType 0 type data, parsed + len data, None)
        end
      else Ok (mk aliasType 0 0 [], parsed, None)
  end.

(** A known type, and the fields the type does not carry at their zero value. *)
Definition wf (k : t) : Prop :=
  0 <= Alias k /\ 0 <= Type_ k /\
  ((AliasType k = TokenTypeRegister)
   \/ (AliasType k = TokenTypeUseValue /\ Alias k = 0)
   \/ ((AliasType k = TokenTypeDelete \/ AliasType k = TokenTypeUseAlias)
       /\ Type_ k = 0 /\ Value k = [])).

End Token.
End Token.

(** * key_value_pair.go *)

(** [make([]byte, n)] followed by [copy] from [src]. *)
Definition make_copy (n : Z) (src : list byte) : list byte * Z :=
  (take (Z.to_nat n) src ++ replicate (Z.to_nat n - length src) (byte.of_Z 0),
   Z.min n (len src)).

Arguments make_copy : simpl never.

Module KeyValuePair.
Section KeyValuePair.
Context {QV : QuicVarint}.

Record t := mk { Type_ : Z; ValueBytes : list byte; ValueVarInt : Z }.

Definition zero : t := mk 0 [] 0.

Definition length_ (p : t) : res Z :=
  length ← qv_Len (Type_ p);
  if Type_ p mod 2 =? 1 then
    n ← qv_Len (len (ValueBytes p));
    Ok (uint64 (uint64 (length + n) + len (ValueBytes p)))
  else
    n ← qv_Len (ValueVarInt p);
    Ok (uint64 (length + n)).

Definition append (p : t) : appender := fun buf =>
  buf ← qv_Append (Type_ p) buf;
  if Type_ p mod 2 =? 1 then
    buf ← qv_Append (len (ValueBytes p)) buf;
    append_bytes (ValueBytes p) buf
  else qv_Append (ValueVarInt p) buf.

(** [spare] holds the bytes of the underlying array behind [data]: the
    expression [data[:length]] reaches into them, and panics beyond them. *)
Definition parse (data spare : list byte) : res (t * Z * option error) :=
  let '(type, n, err) := qv_Parse data in
  let parsed := n in
  match err with
  | Some e => Ok (mk type [] 0, n, Some e)
  | None =>
      data ← slice_from data n;
      if type mod 2 =? 1 then
        let '(length, n, err) := qv_Parse data in
        let parsed := parsed + n in
        match err with
        | Some e => Ok (mk type [] 0, parsed, Some e)
        | None =>
            data ← slice_from data n;
            _ ← make_slice 1 length;
            src ← slice_to (data ++ spare) length;
            let '(value, m) := make_copy length src in
            let parsed := parsed + m in
            if negb (m =? length) then Ok (mk type value 0, parsed, Some errLengthMismatch)
            else Ok (mk type value 0, parsed, None)
        end
      else
        let '(value, n, err) := qv_Parse data in
        Ok (mk type [] value, parsed + n, err)
  end.

Definition parseReader : M reader t :=
  type ← qv_Read;
  if type mod 2 =? 1 then
    length ← qv_Read;
    _ ← (fun r => _ ← make_slice 1 length; Ok (tt, r)) : M reader unit;
    value ← ReadFull length;
    mret (mk type value 0)
  else
    value ← qv_Read;
    mret (mk type [] value).

(** An odd type carries bytes, an even one a number. *)
Definition wf (p : t) : Prop :=
  0 <= Type_ p /\ 0 <= ValueVarInt p /\ len (ValueBytes p) <= maxAlloc /\
  (if Type_ p mod 2 =? 1 then ValueVarInt p = 0 else ValueBytes p = []).

End KeyValuePair.
End KeyValuePair.

#[export] Instance KeyValuePair_eq_dec : EqDecision KeyValuePair.t.
Proof. solve_decision. Defined.

(** * kvp_list.go *)

Definition PathParameterKey : Z := 0x01.
Definition MaxRequestIDParameterKey : Z := 0x02.
Definition MaxAuthTokenCacheSizeParameterKey : Z := 0x04.
Definition DeliveryTimeoutParameterKey : Z := 0x02.
Definition AuthorizationTokenParameterKey : Z := 0x03.
Definition MaxCacheDurationParameterKey : Z := 0x04.

(** [io.LimitReader]. *)
Definition LimitReader (r : reader) (n : Z) : reader :=
  mkReader (take (Z.to_nat n) (rd_bytes r))
           (if n <=? len (rd_bytes r) then io_EOF else rd_fin r).

Module KVPList.
Section KVPList.
Context {QV : QuicVarint}.

Definition t : Type := list KeyValuePair.t.

Fixpoint length_from (length : Z) (pp : t) : res Z :=
  match pp with
  | [] => Ok length
  | p :: pp => n ← KeyValuePair.length_ p; length_from (uint64 (length + n)) pp
  end.

Definition length_ (pp : t) : res Z := length_from 0 pp.

Fixpoint append (pp : t) : appender := fun buf =>
  match pp with
  | [] => Ok buf
  | p :: pp => buf ← KeyValuePair.append p buf; append pp buf
  end.

Definition appendNum (pp : t) : appender := fun buf =>
  buf ← qv_Append (len pp) buf;
  append pp buf.

Definition appendLength (pp : t) : appender := fun buf =>
  n ← length_ pp;
  buf ← qv_Append n buf;
  append pp buf.

(** The loop of [parseLengthReader] is left by an error only. *)
Fixpoint read_elements (fuel : nat) (pp : t) (lbr : reader) : res (t * reader) :=
  match fuel with
  | O => NoFuel
  | S fuel =>
      '(hdrExt, lbr) ← KeyValuePair.parseReader lbr;
      read_elements fuel (pp ++ [hdrExt]) lbr
  end.

Definition read_limited (pp : t) (lbr : reader) : res (t * reader) :=
  read_elements (S (length (rd_bytes lbr))) pp lbr.

Definition parseLengthReader (pp : t) : M reader t :=
  length ← qv_Read;
  if length =? 0 then mret pp
  else fun br => read_limited pp (qv_NewReader (LimitReader br (int64 length))).

Fixpoint parseNum_elements (fuel : nat) (i numParameters : Z) (pp : t)
    (data : list byte) : res (t * list byte) :=
  if i <? numParameters then
    match fuel with
    | O => NoFuel
    | S fuel =>
        '(param, n, err) ← KeyValuePair.parse data [];
        match err with
        | Some e => Err e
        | None =>
            data ← slice_from data n;
            parseNum_elements fuel (i + 1) numParameters (pp ++ [param]) data
        end
    end
  else Ok (pp, data).

(** Control messages are parsed from a slice whose capacity is its length
    (control_message_parser.go makes it), so there are no spare bytes.  The
    bytes left over are an answer of the model that the source drops. *)
Definition parseNum (pp : t) : parser t := fun data =>
  let '(numParameters, n, err) := qv_Parse data in
  match err with
  | Some e => Err e
  | None =>
      data ← slice_from data n;
      parseNum_elements (S (length data)) 0 numParameters pp data
  end.

(** The loop of [parseLength] reads from [data] without advancing it. *)
Fixpoint parseLength_elements (fuel : nat) (pp : t) (parsed : Z)
    (data spare : list byte) : res (t * Z * option error) :=
  if 0 <? len data then
    match fuel with
    | O => NoFuel
    | S fuel =>
        '(hdrExt, n, err) ← KeyValuePair.parse data spare;
        let parsed := parsed + n in
        match err with
        | Some e => Ok (pp, parsed, Some e)
        | None => parseLength_elements fuel (pp ++ [hdrExt]) parsed data spare
        end
    end
  else Ok (pp, parsed, None).

Definition parseLength (fuel : nat) (pp : t) (data spare : list byte) :
    res (t * Z * option error) :=
  let '(length, n, err) := qv_Parse data in
  let parsed := n in
  match err with
  | Some e => Ok (pp, parsed, Some e)
  | None =>
      data ← slice_from data n;
      data' ← slice_to (data ++ spare) length;
      spare' ← slice_from (data ++ spare) length;
      parseLength_elements fuel pp parsed data' spare'
  end.

Definition wf (pp : t) : Prop := Forall KeyValuePair.wf pp.

End KVPList.
End KVPList.

(** * Round trips *)

Section RoundTripLemmas.
Context {QV : QuicVarint} {QVL : QuicVarintLaws}.

(** What is left of the data after a number was read from its front. *)
Lemma slice_after_enc x rest :
  slice_from (qv_enc x ++ rest) (len (qv_enc x)) = Ok rest.
Proof. apply slice_from_app. Qed.

Lemma qv_Append_len_inv {A} (l : list A) buf out :
  qv_Append (len l) buf = Ok out -> 0 <= len l <= maxVarInt /\ out = buf ++ qv_enc (len l).
Proof. apply qv_Append_inv, len_nonneg. Qed.

Lemma varint_int64 x : 0 <= x <= maxVarInt -> int64 x = x.
Proof. unfold maxVarInt. intros. apply int64_small. lia. Qed.

Lemma rt_VarIntBytes d : rt_fun (appendVarIntBytes d) parseVarIntBytes d.
Proof.
  intros buf out H. unfold appendVarIntBytes in H.
  inv_bind H. apply qv_Append_len_inv in E as [Hr ->]. injection H as <-.
  exists (qv_enc (len d) ++ d). split; [by rewrite app_assoc|]. intros rest.
  unfold parseVarIntBytes. rewrite <- app_assoc, qv_Parse_enc by done.
  destruct (Z.eqb_spec (len d) 0) as [E|E].
  - destruct d; [by rewrite app_nil_r|]. rewrite len_cons in E. pose proof (len_nonneg d). lia.
  - rewrite slice_after_enc. unfold mbind, res_bind.
    rewrite varint_int64, len_app by done. pose proof (len_nonneg rest).
    replace (len d + len rest <? len d) with false by lia.
    by rewrite slice_to_app, len_app.
Qed.

Lemma uniform_VarIntBytes d : uniform (appendVarIntBytes d).
Proof. apply uniform_seq; [apply uniform_varint; auto with moqt|apply uniform_bytes]. Qed.

Lemma rt_Tuple_elements l buf out :
  Tuple.append_elements l buf = Ok out ->
  exists e, out = buf ++ e /\ (length l <= length e)%nat /\
  forall fuel i n acc parsed rest,
    (length l <= fuel)%nat -> n = i + len l ->
    Tuple.parse_elements fuel i n acc parsed (e ++ rest) = Ok (acc ++ l, parsed + len e, None).
Proof.
  revert buf. induction l as [|s l IH]; intros buf H; cbn [Tuple.append_elements] in H.
  - injection H as <-. exists []. rewrite app_nil_r. split_and!; [done|done|].
    intros fuel i n acc parsed rest _ ->. rewrite !len_nil, !Z.add_0_r, app_nil_r.
    destruct fuel; cbn [Tuple.parse_elements]; by rewrite Z.ltb_irrefl.
  - inv_bind H. apply qv_Append_len_inv in E as [Hr ->]. unfold append_bytes in H. 
    destruct (IH _ H) as (e & -> & Hlen & He).
    exists (qv_enc (len s) ++ s ++ e). rewrite !app_assoc. split; [done|].
    pose proof (qv_enc_len _ Hr) as Henc. split.
    { rewrite !length_app. unfold len in *. simpl. lia. }
    intros [|fuel] i n acc parsed rest Hf Hn; [simpl in Hf; lia|].
    rewrite len_cons in Hn. pose proof (len_nonneg l). simpl in Hf. cbn [Tuple.parse_elements].
    replace (i <? n) with true by lia. rewrite <- !app_assoc, qv_Parse_enc by done.
    rewrite slice_after_enc. unfold mbind, res_bind.
    rewrite len_app. pose proof (len_nonneg (e ++ rest)).
    replace (len s + len (e ++ rest) <? len s) with false by lia.
    rewrite slice_to_app, slice_from_app, He by lia.
    rewrite varint_int64, !len_app, <- app_assoc by done. ok_eq.
Qed.

Lemma rt_Tuple l : Tuple.wf l -> rt_fun (Tuple.append l) Tuple.parseTuple l.
Proof.
  intros Hwf buf out H. unfold Tuple.append in H. inv_bind H.
  apply qv_Append_len_inv in E as [Hr ->].
  destruct (rt_Tuple_elements _ _ _ H) as (e & -> & Hlen & He).
  exists (qv_enc (len l) ++ e). split; [by rewrite app_assoc|]. intros rest.
  unfold Tuple.parseTuple. rewrite <- app_assoc, qv_Parse_enc, slice_after_enc by done.
  unfold mbind, res_bind, make_slice, Tuple.wf in *.
  replace ((0 <=? len l) && (len l * 16 <=? maxAlloc)) with true by lia.
  rewrite He, len_app; [done| |lia]. rewrite length_app. lia.
Qed.

Lemma rt_Location l : Location.wf l -> rt_fun (Location.append l) Location.parse l.
Proof.
  intros [Hg Ho] buf out H. unfold Location.append in H. inv_bind H.
  apply qv_Append_inv in E as [Hg' ->]; [|done]. apply qv_Append_inv in H as [Ho' ->]; [|done].
  eexists. split; [by rewrite app_assoc|]. intros rest. unfold Location.parse.
  rewrite <- app_assoc, qv_Parse_enc, slice_after_enc by done.
  unfold mbind, res_bind. rewrite qv_Parse_enc, len_app by done. by destruct l.
Qed.

Lemma rt_versions_elements v buf out :
  versions.wf v -> versions.append_elements v buf = Ok out ->
  exists e, out = buf ++ e /\ (length v <= length e)%nat /\
  forall fuel i n acc parsed rest,
    (length v <= fuel)%nat -> 0 <= n <= maxVarInt -> n = i + len v ->
    versions.parse_elements fuel i n acc parsed (e ++ rest) = Ok (acc ++ v, parsed + len e, None).
Proof.
  intros Hwf. revert buf. induction Hwf as [|x v Hx Hwf IH]; intros buf H;
    cbn [versions.append_elements] in H.
  - injection H as <-. exists []. rewrite app_nil_r. split_and!; [done|done|].
    intros fuel i n acc parsed rest _ Hn ->. rewrite !len_nil, !Z.add_0_r, app_nil_r in *.
    destruct fuel; cbn [versions.parse_elements]; by rewrite varint_int64, Z.ltb_irrefl.
  - inv_bind H. apply qv_Append_inv in E as [Hr ->]; [|done].
    destruct (IH _ H) as (e & -> & Hlen & He).
    exists (qv_enc x ++ e). rewrite app_assoc. split; [done|].
    pose proof (qv_enc_len _ Hr) as Henc. split.
    { rewrite !length_app. unfold len in *. simpl. lia. }
    intros [|fuel] i n acc parsed rest Hf Hb Hn; [simpl in Hf; lia|].
    rewrite len_cons in Hn. pose proof (len_nonneg v). simpl in Hf. cbn [versions.parse_elements].
    rewrite varint_int64 by done.
    replace (i <? n) with true by lia. rewrite <- !app_assoc, qv_Parse_enc by done.
    rewrite slice_after_enc. unfold mbind, res_bind. rewrite He by lia.
    rewrite !len_app, <- app_assoc. ok_eq.
Qed.

Lemma rt_versions v : versions.wf v -> rt_fun (versions.append v) (versions.parse []) v.
Proof.
  intros Hwf buf out H. unfold versions.append in H. inv_bind H.
  apply qv_Append_len_inv in E as [Hr ->].
  destruct (rt_versions_elements _ _ _ Hwf H) as (e & -> & Hlen & He).
  exists (qv_enc (len v) ++ e). split; [by rewrite app_assoc|]. intros rest.
  unfold versions.parse. rewrite <- app_assoc, qv_Parse_enc, slice_after_enc by done.
  unfold mbind, res_bind. rewrite He, len_app; [done| |lia|lia]. rewrite length_app. lia.
Qed.

End RoundTripLemmas.

(** ** Key-value pairs *)

Section KeyValuePairLemmas.
Context {QV : QuicVarint} {QVL : QuicVarintLaws}.

Lemma make_slice_bytes n : 0 <= n <= maxAlloc -> make_slice 1 n = Ok tt.
Proof. intros H. unfold make_slice. by replace ((0 <=? n) && (n * 1 <=? maxAlloc)) with true by lia. Qed.

Lemma make_copy_exact bs : make_copy (len bs) bs = (bs, len bs).
Proof.
  unfold make_copy. rewrite to_nat_len, firstn_all, Nat.sub_diag, Z.min_id.
  by rewrite app_nil_r.
Qed.

(** The encoding of a pair, with the facts every reader of it needs. *)
Lemma KeyValuePair_append_inv p buf out :
  KeyValuePair.wf p -> KeyValuePair.append p buf = Ok out ->
  exists e, out = buf ++ e /\ (1 <= length e)%nat /\
  KeyValuePair.length_ p = Ok (uint64 (len e)) /\
  (forall rest spare, KeyValuePair.parse (e ++ rest) spare = Ok (p, len e, None)) /\
  (forall rest fin, KeyValuePair.parseReader (mkReader (e ++ rest) fin) = Ok (p, mkReader rest fin)).
Proof.
  intros (Ht & Hv & Hl & Hwf) H. unfold KeyValuePair.append in H.
  inv_bind H. apply qv_Append_inv in E as [Hr ->]; [|done].
  pose proof (qv_enc_len _ Hr) as Hel.
  unfold KeyValuePair.length_, KeyValuePair.parse, KeyValuePair.parseReader.
  rewrite (qv_Len_enc _ Hr).
  destruct (KeyValuePair.Type_ p mod 2 =? 1) eqn:Hodd; destruct p as [ty bs v];
    cbn [KeyValuePair.Type_ KeyValuePair.ValueBytes KeyValuePair.ValueVarInt] in *.
  - inv_bind H. apply qv_Append_len_inv in E as [Hrl ->]. injection H as <-.
    pose proof (qv_enc_len _ Hrl). rewrite (qv_Len_enc _ Hrl). subst v.
    exists (qv_enc ty ++ qv_enc (len bs) ++ bs). rewrite <- !app_assoc. split; [done|].
    split; [rewrite length_app; unfold len in *; lia|].
    split; [|split].
    + unfold mbind, res_bind. rewrite !len_app. ok_eq.
      unfold uint64. rewrite Zplus_mod_idemp_l. f_equal. lia.
    + intros rest spare. rewrite <- !app_assoc.
      rewrite qv_Parse_enc, slice_after_enc by done. unfold mbind, res_bind.
      rewrite Hodd, qv_Parse_enc, slice_after_enc by done.
      pose proof (len_nonneg bs). rewrite make_slice_bytes by lia.
      rewrite <- app_assoc, slice_to_app, make_copy_exact, Z.eqb_refl. simpl.
      rewrite !len_app. ok_eq.
    + intros rest fin. rewrite <- !app_assoc. unfold mbind, M_bind, mret, M_ret, res_bind.
      rewrite qv_Read_enc, Hodd, qv_Read_enc by done.
      pose proof (len_nonneg bs). rewrite make_slice_bytes by lia. by rewrite ReadFull_app.
  - apply qv_Append_inv in H as [Hrv ->]; [|done]. rewrite (qv_Len_enc _ Hrv). subst bs.
    pose proof (qv_enc_len _ Hrv).
    exists (qv_enc ty ++ qv_enc v). rewrite <- app_assoc. split; [done|].
    split; [rewrite length_app; unfold len in *; lia|].
    split; [|split].
    + unfold mbind, res_bind. by rewrite len_app.
    + intros rest spare. rewrite <- !app_assoc.
      rewrite qv_Parse_enc, slice_after_enc by done. unfold mbind, res_bind.
      rewrite Hodd, qv_Parse_enc, len_app by done. done.
    + intros rest fin. rewrite <- !app_assoc. unfold mbind, M_bind, mret, M_ret.
      by rewrite qv_Read_enc, Hodd, qv_Read_enc by done.
Qed.

Lemma KVPList_append_inv pp buf out :
  KVPList.wf pp -> KVPList.append pp buf = Ok out ->
  exists e, out = buf ++ e /\ (length pp <= length e)%nat /\
  (forall s, 0 <= s < 2 ^ 64 -> KVPList.length_from s pp = Ok (uint64 (s + len e))) /\
  (forall fuel i n acc rest,
    (length pp <= fuel)%nat -> n = i + len pp ->
    KVPList.parseNum_elements fuel i n acc (e ++ rest) = Ok (acc ++ pp, rest)).
Proof.
  intros Hwf. revert buf. induction Hwf as [|p pp Hp Hwf IH]; intros buf H;
    cbn [KVPList.append] in H.
  - injection H as <-. exists []. rewrite app_nil_r. split_and!; [done|done| |].
    { intros s Hs. rewrite len_nil, Z.add_0_r. simpl. by rewrite uint64_small. }
    intros fuel i n acc rest _ ->. rewrite !len_nil, !Z.add_0_r, app_nil_r.
    destruct fuel; cbn [KVPList.parseNum_elements]; by rewrite Z.ltb_irrefl.
  - inv_bind H. destruct (KeyValuePair_append_inv _ _ _ Hp E) as (e1 & -> & Hl1 & HL1 & Hp1 & _).
    destruct (IH _ H) as (e & -> & Hlen & HL & He).
    exists (e1 ++ e). rewrite app_assoc. split; [done|].
    split; [rewrite !length_app; simpl; lia|]. split.
    { intros s Hs. cbn [KVPList.length_from]. rewrite HL1. unfold mbind, res_bind.
      rewrite HL by (apply Z.mod_pos_bound; lia). rewrite len_app. f_equal. unfold uint64.
      rewrite Zplus_mod_idemp_r, Zplus_mod_idemp_l. f_equal. lia. }
    intros [|fuel] i n acc rest Hf Hn; [simpl in Hf; lia|].
    rewrite len_cons in Hn. pose proof (len_nonneg pp). simpl in Hf.
    cbn [KVPList.parseNum_elements]. replace (i <? n) with true by lia.
    rewrite <- app_assoc, Hp1. unfold mbind, res_bind.
    rewrite slice_from_app, He by lia. by rewrite <- app_assoc.
Qed.

Lemma rt_parseNum pp : KVPList.wf pp -> rt (KVPList.appendNum pp) (KVPList.parseNum []) pp.
Proof.
  intros Hwf buf out H. unfold KVPList.appendNum in H. inv_bind H.
  apply qv_Append_len_inv in E as [Hr ->].
  destruct (KVPList_append_inv _ _ _ Hwf H) as (e & -> & Hlen & _ & He).
  exists (qv_enc (len pp) ++ e). split; [by rewrite app_assoc|]. intros rest.
  unfold KVPList.parseNum. rewrite <- app_assoc, qv_Parse_enc, slice_after_enc by done.
  unfold mbind, res_bind. rewrite He; [done| |lia]. rewrite length_app. lia.
Qed.

End KeyValuePairLemmas.

#[export] Hint Resolve rt_VarIntBytes rt_Tuple rt_Location rt_versions rt_parseNum : rt.
#[export] Hint Resolve uniform_VarIntBytes : rt.
