(* ===== verification/Messages.v ===== *)
(** The control messages (internal/wire/*_message.go): one module per message
    type, with the struct as a record, [Type], [Append] and [parse], the
    well-formedness of its fields, and the round trip.

    [parse] is the method on a fresh receiver.  When it fails its receiver is
    not an answer of the model: ControlMessageParser.Parse passes the half-read
    message on together with the error, and its only consumer
    (readControlStream) returns on the error. *)

From S2P Require Import Prelude VarInt Codec WireTypes.
From stdpp Require Import strings.
Local Open Scope Z_scope.

(** * control_message_type.go *)

Definition messageTypeClientSetup : Z := 0x20.
Definition messageTypeServerSetup : Z := 0x21.
Definition messageTypeGoAway : Z := 0x10.
Definition messageTypeMaxRequestID : Z := 0x15.
Definition messageTypeRequestsBlocked : Z := 0x1a.
Definition messageTypeSubscribe : Z := 0x03.
Definition messageTypeSubscribeOk : Z := 0x04.
Definition messageTypeSubscribeError : Z := 0x05.
Definition messageTypeSubscribeUpdate : Z := 0x02.
Definition messageTypeUnsubscribe : Z := 0x0a.
Definition messageTypeSubscribeDone : Z := 0x0b.
Definition messageTypePublish : Z := 0x1d.
Definition messageTypePublishOk : Z := 0x1e.
Definition messageTypePublishError : Z := 0x1f.
Definition messageTypeFetch : Z := 0x16.
Definition messageTypeFetchOk : Z := 0x18.
Definition messageTypeFetchError : Z := 0x19.
Definition messageTypeFetchCancel : Z := 0x17.
Definition messageTypeTrackStatus : Z := 0x0d.
Definition messageTypeTrackStatusOk : Z := 0x0e.
Definition messageTypeTrackStatusError : Z := 0x0f.
Definition messageTypeAnnounce : Z := 0x06.
Definition messageTypeAnnounceOk : Z := 0x07.
Definition messageTypeAnnounceError : Z := 0x08.
Definition messageTypeUnannounce : Z := 0x09.
Definition messageTypeAnnounceCancel : Z := 0x0c.
Definition messageTypeSubscribeNamespace : Z := 0x11.
Definition messageTypeSubscribeNamespaceOk : Z := 0x12.
Definition messageTypeSubscribeNamespaceError : Z := 0x13.
Definition messageTypeUnsubscribeNamespace : Z := 0x14.

Definition controlMessageType_String (mt : Z) : string :=
  if mt =? messageTypeClientSetup then "ClientSetup"
  else if mt =? messageTypeServerSetup then "ServerSetup"
  else if mt =? messageTypeGoAway then "GoAway"
  else if mt =? messageTypeMaxRequestID then "MaxRequestID"
  else if mt =? messageTypeRequestsBlocked then "RequestsBlocked"
  else if mt =? messageTypeSubscribe then "Subscribe"
  else if mt =? messageTypeSubscribeOk then "SubscribeOk"
  else if mt =? messageTypeSubscribeError then "SubscribeError"
  else if mt =? messageTypeUnsubscribe then "Unsubscribe"
  else if mt =? messageTypeSubscribeUpdate then "SubscribeUpdate"
  else if mt =? messageTypeSubscribeDone then "SubscribeDone"
  else if mt =? messageTypePublish then "Publish"
  else if mt =? messageTypePublishOk then "PublishOk"
  else if mt =? messageTypePublishError then "PublishError"
  else if mt =? messageTypeFetch then "Fetch"
  else if mt =? messageTypeFetchOk then "FetchOk"
  else if mt =? messageTypeFetchError then "FetchError"
  else if mt =? messageTypeFetchCancel then "FetchCancel"
  else if mt =? messageTypeTrackStatus then "TrackStatus"
  else if mt =? messageTypeTrackStatusOk then "TrackStatusOk"
  else if mt =? messageTypeTrackStatusError then "TrackStatusError"
  else if mt =? messageTypeAnnounce then "Announce"
  else if mt =? messageTypeAnnounceOk then "AnnounceOk"
  else if mt =? messageTypeAnnounceError then "AnnounceError"
  else if mt =? messageTypeUnannounce then "Unannounce"
  else if mt =? messageTypeAnnounceCancel then "AnnounceCancel"
  else if mt =? messageTypeSubscribeNamespace then "SubscribeNamespace"
  else if mt =? messageTypeSubscribeNamespaceOk then "SubscribeNamespaceOk"
  else if mt =? messageTypeSubscribeNamespaceError then "SubscribeNamespaceError"
  else if mt =? messageTypeUnsubscribeNamespace then "UnsubscribeNamespace"
  else "unknown message type".

(** * Setup *)

Module ClientSetupMessage.
Section ClientSetupMessage.
Context {QV : QuicVarint}.

Record t := mk { SupportedVersions : versions.t; SetupParameters : KVPList.t }.

Definition Type_ (m : t) : Z := messageTypeClientSetup.

Definition Append (m : t) : appender := fun buf =>
  buf ← qv_Append (len (SupportedVersions m)) buf;
  buf ← versions.append_elements (SupportedVersions m) buf;
  buf ← qv_Append (len (SetupParameters m)) buf;
  KVPList.append (SetupParameters m) buf.

Definition parse : list byte -> res t := run (
  supportedVersions ← field (versions.parse []);
  setupParameters ← KVPList.parseNum [];
  mret (mk supportedVersions setupParameters)).

Definition wf (m : t) : Prop :=
  versions.wf (SupportedVersions m) /\ KVPList.wf (SetupParameters m).

Context {QVL : QuicVarintLaws}.

Lemma ClientSetupMessage_roundtrip m : wf m -> reads (Append m) parse m.
Proof.
  intros (Hv & Hp) buf out H.
  apply (rt_reads (fun buf => versions.append (SupportedVersions m) buf ≫=
    KVPList.appendNum (SetupParameters m))).
  - destruct m; simpl in *. rt_solve.
  - unfold versions.append. by rewrite res_bind_assoc.
Qed.

End ClientSetupMessage.
End ClientSetupMessage.

Module ServerSetupMessage.
Section ServerSetupMessage.
Context {QV : QuicVarint}.

Record t := mk { SelectedVersion : Z; SetupParameters : KVPList.t }.

Definition Type_ (m : t) : Z := messageTypeServerSetup.

Definition Append (m : t) : appender := fun buf =>
  buf ← qv_Append (SelectedVersion m) buf;
  buf ← qv_Append (len (SetupParameters m)) buf;
  KVPList.append (SetupParameters m) buf.

Definition parse : list byte -> res t := run (
  selectedVersion ← varint;
  setupParameters ← KVPList.parseNum [];
  mret (mk selectedVersion setupParameters)).

Definition wf (m : t) : Prop := 0 <= SelectedVersion m /\ KVPList.wf (SetupParameters m).

Context {QVL : QuicVarintLaws}.

Lemma ServerSetupMessage_roundtrip m : wf m -> reads (Append m) parse m.
Proof.
  intros (Hv & Hp). apply (rt_reads (fun buf => qv_Append (SelectedVersion m) buf ≫=
    KVPList.appendNum (SetupParameters m))).
  destruct m; simpl in *. rt_solve.
Qed.

End ServerSetupMessage.
End ServerSetupMessage.

(** * Session control *)

Module GoAwayMessage.
Section GoAwayMessage.
Context {QV : QuicVarint}.

Record t := mk { NewSessionURI : gostring }.

Definition Type_ (m : t) : Z := messageTypeGoAway.

Definition Append (m : t) : appender := appendVarIntBytes (NewSessionURI m).

Definition parse : list byte -> res t := run (
  newSessionURI ← field parseVarIntBytes;
  mret (mk newSessionURI)).

Context {QVL : QuicVarintLaws}.

Lemma GoAwayMessage_roundtrip m : reads (Append m) parse m.
Proof. apply rt_reads. destruct m. unfold Append. rt_solve. Qed.

End GoAwayMessage.
End GoAwayMessage.

Module MaxRequestIDMessage.
Section MaxRequestIDMessage.
Context {QV : QuicVarint}.

Record t := mk { RequestID : Z }.

Definition Type_ (m : t) : Z := messageTypeMaxRequestID.

Definition Append (m : t) : appender := qv_Append (RequestID m).

Definition parse : list byte -> res t := run (
  requestID ← varint;
  mret (mk requestID)).

Definition wf (m : t) : Prop :=
  0 <= RequestID m.

Context {QVL : QuicVarintLaws}.

Lemma MaxRequestIDMessage_roundtrip m : wf m -> reads (Append m) parse m.
Proof.
  intros Hwf. apply rt_reads.
  unfold Append, wf in *. destruct m;
  cbn [RequestID] in *. destruct_and?.
  rt_solve.
Qed.

End MaxRequestIDMessage.
End MaxRequestIDMessage.

Module RequestsBlockedMessage.
Section RequestsBlockedMessage.
Context {QV : QuicVarint}.

Record t := mk { MaximumRequestID : Z }.

Definition Type_ (m : t) : Z := messageTypeRequestsBlocked.

Definition Append (m : t) : appender := qv_Append (MaximumRequestID m).

Definition parse : list byte -> res t := run (
  maximumRequestID ← varint;
  mret (mk maximumRequestID)).

Definition wf (m : t) : Prop :=
  0 <= MaximumRequestID m.

Context {QVL : QuicVarintLaws}.

Lemma RequestsBlockedMessage_roundtrip m : wf m -> reads (Append m) parse m.
Proof.
  intros Hwf. apply rt_reads.
  unfold Append, wf in *. destruct m;
  cbn [MaximumRequestID] in *. destruct_and?.
  rt_solve.
Qed.

End RequestsBlockedMessage.
End RequestsBlockedMessage.

(** * Subscriptions *)

(** FilterType and GroupOrder are defined integer types. *)
Definition FilterTypeLatestObject : Z := 0x02.
Definition FilterTypeNextGroupStart : Z := 0x01.
Definition FilterTypeAbsoluteStart : Z := 0x03.
Definition FilterTypeAbsoluteRange : Z := 0x04.

Definition GroupOrderNone : Z := 0x0.
Definition GroupOrderAscending : Z := 0x1.
Definition GroupOrderDescending : Z := 0x2.

(** The filter types with a start location, and those with an end group. *)
Definition has_start (f : Z) : bool :=
  (f =? FilterTypeAbsoluteStart) || (f =? FilterTypeAbsoluteRange).
Definition has_end (f : Z) : bool := f =? FilterTypeAbsoluteRange.

Definition FilterType_append `{QuicVarint} (f : Z) : appender := fun buf =>
  if (f =? FilterTypeLatestObject) || (f =? FilterTypeNextGroupStart)
     || (f =? FilterTypeAbsoluteStart) || (f =? FilterTypeAbsoluteRange)
  then qv_Append f buf
  else qv_Append FilterTypeNextGroupStart buf.

Lemma rt_FilterType `{QuicVarintLaws} f : 1 <= f <= 4 -> rt (FilterType_append f) varint f.
Proof.
  intros Hf buf out. unfold FilterType_append, FilterTypeLatestObject, FilterTypeNextGroupStart,
    FilterTypeAbsoluteStart, FilterTypeAbsoluteRange.
  replace (_ || _) with true by lia. apply rt_varint. lia.
Qed.

#[export] Hint Resolve rt_FilterType : rt.

Module SubscribeMessage.
Section SubscribeMessage.
Context {QV : QuicVarint}.

Record t := mk { RequestID : Z; TrackNamespace : Tuple.t; TrackName : list byte;
  SubscriberPriority : Z; GroupOrder : Z; Forward : Z; FilterType : Z;
  StartLocation : Location.t; EndGroup : Z; Parameters : KVPList.t }.

Definition Type_ (m : t) : Z := messageTypeSubscribe.

Definition Append (m : t) : appender := fun buf =>
  buf ← qv_Append (RequestID m) buf;
  buf ← Tuple.append (TrackNamespace m) buf;
  buf ← appendVarIntBytes (TrackName m) buf;
  buf ← append_byte (SubscriberPriority m) buf;
  buf ← append_byte (GroupOrder m) buf;
  buf ← append_byte (Forward m) buf;
  buf ← FilterType_append (FilterType m) buf;
  buf ← (if has_start (FilterType m) then Location.append (StartLocation m) buf else Ok buf);
  buf ← (if has_end (FilterType m) then qv_Append (EndGroup m) buf else Ok buf);
  KVPList.appendNum (Parameters m) buf.

Definition parse : list byte -> res t := run (
  requestID ← varint;
  trackNamespace ← field Tuple.parseTuple;
  trackName ← field parseVarIntBytes;
  _ ← need 3 errLengthMismatch;
  subscriberPriority ← next;
  groupOrder ← next;
  _ ← fail_if (groupOrder >? 2) errInvalidGroupOrder;
  forward ← next;
  _ ← fail_if (forward >? 1) errInvalidForwardFlag;
  filterType ← varint;
  _ ← fail_if ((filterType =? 0) || (filterType >? 4)) errInvalidFilterType;
  startLocation ← (if has_start filterType then field Location.parse else mret Location.zero);
  endGroup ← (if has_end filterType then varint else mret 0);
  parameters ← KVPList.parseNum [];
  mret (mk requestID trackNamespace trackName subscriberPriority groupOrder forward
          filterType startLocation endGroup parameters)).

Definition wf (m : t) : Prop :=
  0 <= RequestID m /\ Tuple.wf (TrackNamespace m) /\
  0 <= SubscriberPriority m < 256 /\ 0 <= GroupOrder m <= 2 /\ 0 <= Forward m <= 1 /\
  1 <= FilterType m <= 4 /\ Location.wf (StartLocation m) /\
  (has_start (FilterType m) = false -> StartLocation m = Location.zero) /\
  0 <= EndGroup m /\ (has_end (FilterType m) = false -> EndGroup m = 0) /\
  KVPList.wf (Parameters m).

Context {QVL : QuicVarintLaws}.

Lemma SubscribeMessage_roundtrip m : wf m -> reads (Append m) parse m.
Proof.
  intros Hwf. apply rt_reads.
  unfold Append, wf in *. destruct m;
  cbn [RequestID TrackNamespace TrackName SubscriberPriority GroupOrder Forward
    FilterType StartLocation EndGroup Parameters] in *. destruct_and?.
  rt_solve.
Qed.

End SubscribeMessage.
End SubscribeMessage.

Module SubscribeOkMessage.
Section SubscribeOkMessage.
Context {QV : QuicVarint}.

(** Expires is a time.Duration: nanoseconds in an int64. *)
Record t := mk { RequestID : Z; TrackAlias : Z; Expires : Z; GroupOrder : Z;
  ContentExists : bool; LargestLocation : Location.t; Parameters : KVPList.t }.

Definition Type_ (m : t) : Z := messageTypeSubscribeOk.

Definition Append (m : t) : appender := fun buf =>
  buf ← qv_Append (RequestID m) buf;
  buf ← qv_Append (TrackAlias m) buf;
  buf ← qv_Append (uint64 (Expires m)) buf;
  buf ← append_byte (GroupOrder m) buf;
  if ContentExists m then
    buf ← append_byte 1 buf;
    buf ← Location.append (LargestLocation m) buf;
    KVPList.appendNum (Parameters m) buf
  else
    buf ← append_byte 0 buf;
    KVPList.appendNum (Parameters m) buf.

(** time.Millisecond. *)
Definition Millisecond : Z := 1000000.

Definition parse : list byte -> res t := run (
  requestID ← varint;
  trackAlias ← varint;
  expires ← varint;
  _ ← need 2 errLengthMismatch;
  groupOrder ← next;
  _ ← fail_if (groupOrder >? 2) errInvalidGroupOrder;
  exists_ ← next;
  _ ← fail_if (negb (exists_ =? 0) && negb (exists_ =? 1)) errInvalidContentExistsByte;
  let contentExists := exists_ =? 1 in
  let expires := int64 (int64 expires * Millisecond) in
  if negb contentExists then
    parameters ← KVPList.parseNum [];
    mret (mk requestID trackAlias expires groupOrder contentExists Location.zero parameters)
  else
    largestLocation ← field Location.parse;
    parameters ← KVPList.parseNum [];
    mret (mk requestID trackAlias expires groupOrder contentExists largestLocation parameters)).

Definition wf (m : t) : Prop :=
  0 <= RequestID m /\ 0 <= TrackAlias m /\ 0 <= Expires m < 2 ^ 63 /\
  0 <= GroupOrder m <= 2 /\ Location.wf (LargestLocation m) /\
  (ContentExists m = false -> LargestLocation m = Location.zero) /\
  KVPList.wf (Parameters m).

(** The message with its Expires read as a number of milliseconds. *)
Definition with_Expires (e : Z) (m : t) : t :=
  mk (RequestID m) (TrackAlias m) e (GroupOrder m) (ContentExists m)
     (LargestLocation m) (Parameters m).

Context {QVL : QuicVarintLaws}.

Lemma SubscribeOkMessage_reads m :
  wf m -> reads (Append m) parse (with_Expires (int64 (Expires m * Millisecond)) m).
Proof.
  intros Hwf. apply rt_reads.
  unfold Append, with_Expires, wf in *. destruct m as [? ? e ? [] ? ?];
  cbn [RequestID TrackAlias Expires GroupOrder ContentExists LargestLocation Parameters] in *;
    destruct_and?; rewrite (uint64_small e) by lia;
    replace (e * Millisecond) with (int64 e * Millisecond) by (by rewrite int64_small by lia).
  - rt_solve.
  - replace LargestLocation0 with Location.zero by (symmetry; auto). rt_solve.
Qed.

End SubscribeOkMessage.
End SubscribeOkMessage.

Module SubscribeErrorMessage.
Section SubscribeErrorMessage.
Context {QV : QuicVarint}.

Record t := mk { RequestID : Z; ErrorCode : Z; ReasonPhrase : gostring }.

Definition Type_ (m : t) : Z := messageTypeSubscribeError.

Definition Append (m : t) : appender := fun buf =>
  buf ← qv_Append (RequestID m) buf;
  buf ← qv_Append (ErrorCode m) buf;
  appendVarIntBytes (ReasonPhrase m) buf.

Definition parse : list byte -> res t := run (
  requestID ← varint;
  errorCode ← varint;
  reasonPhrase ← field parseVarIntBytes;
  mret (mk requestID errorCode reasonPhrase)).

Definition wf (m : t) : Prop :=
  0 <= RequestID m /\ 0 <= ErrorCode m.

Context {QVL : QuicVarintLaws}.

Lemma SubscribeErrorMessage_roundtrip m : wf m -> reads (Append m) parse m.
Proof.
  intros Hwf. apply rt_reads.
  unfold Append, wf in *. destruct m;
  cbn [RequestID ErrorCode ReasonPhrase] in *. destruct_and?.
  rt_solve.
Qed.

End SubscribeErrorMessage.
End SubscribeErrorMessage.

Module SubscribeUpdateMessage.
Section SubscribeUpdateMessage.
Context {QV : QuicVarint}.

Record t := mk { RequestID : Z; StartLocation : Location.t; EndGroup : Z; SubscriberPriority : Z;
  Forward : Z; Parameters : KVPList.t }.

Definition Type_ (m : t) : Z := messageTypeSubscribeUpdate.

Definition Append (m : t) : appender := fun buf =>
  buf ← qv_Append (RequestID m) buf;
  buf ← Location.append (StartLocation m) buf;
  buf ← qv_Append (EndGroup m) buf;
  buf ← append_byte (SubscriberPriority m) buf;
  buf ← append_byte (Forward m) buf;
  KVPList.appendNum (Parameters m) buf.

Definition parse : list byte -> res t := run (
  requestID ← varint;
  startLocation ← field Location.parse;
  endGroup ← varint;
  _ ← need 2 errLengthMismatch;
  subscriberPriority ← next;
  forward ← next;
  _ ← fail_if (forward >? 2) errInvalidForwardFlag;
  parameters ← KVPList.parseNum [];
  mret (mk requestID startLocation endGroup subscriberPriority forward parameters)).

Definition wf (m : t) : Prop :=
  0 <= RequestID m /\ Location.wf (StartLocation m) /\ 0 <= EndGroup m /\
  0 <= SubscriberPriority m < 256 /\ 0 <= Forward m <= 2 /\ KVPList.wf (Parameters m).

Context {QVL : QuicVarintLaws}.

Lemma SubscribeUpdateMessage_roundtrip m : wf m -> reads (Append m) parse m.
Proof.
  intros Hwf. apply rt_reads.
  unfold Append, wf in *. destruct m;
  cbn [RequestID StartLocation EndGroup SubscriberPriority Forward Parameters] in *. destruct_and?.
  rt_solve.
Qed.

End SubscribeUpdateMessage.
End SubscribeUpdateMessage.

Module UnsubscribeMessage.
Section UnsubscribeMessage.
Context {QV : QuicVarint}.

Record t := mk { RequestID : Z }.

Definition Type_ (m : t) : Z := messageTypeUnsubscribe.

Definition Append (m : t) : appender := qv_Append (RequestID m).

Definition parse : list byte -> res t := run (
  requestID ← varint;
  mret (mk requestID)).

Definition wf (m : t) : Prop :=
  0 <= RequestID m.

Context {QVL : QuicVarintLaws}.

Lemma UnsubscribeMessage_roundtrip m : wf m -> reads (Append m) parse m.
Proof.
  intros Hwf. apply rt_reads.
  unfold Append, wf in *. destruct m;
  cbn [RequestID] in *. destruct_and?.
  rt_solve.
Qed.

End UnsubscribeMessage.
End UnsubscribeMessage.

Module SubscribeDoneMessage.
Section SubscribeDoneMessage.
Context {QV : QuicVarint}.

Record t := mk { RequestID : Z; StatusCode : Z; StreamCount : Z; ReasonPhrase : gostring }.

Definition Type_ (m : t) : Z := messageTypeSubscribeDone.

Definition Append (m : t) : appender := fun buf =>
  buf ← qv_Append (RequestID m) buf;
  buf ← qv_Append (StatusCode m) buf;
  buf ← qv_Append (StreamCount m) buf;
  appendVarIntBytes (ReasonPhrase m) buf.

Definition parse : list byte -> res t := run (
  requestID ← varint;
  statusCode ← varint;
  streamCount ← varint;
  reasonPhrase ← field parseVarIntBytes;
  mret (mk requestID statusCode streamCount reasonPhrase)).

Definition wf (m : t) : Prop :=
  0 <= RequestID m /\ 0 <= StatusCode m /\ 0 <= StreamCount m.

Context {QVL : QuicVarintLaws}.

Lemma SubscribeDoneMessage_roundtrip m : wf m -> reads (Append m) parse m.
Proof.
  intros Hwf. apply rt_reads.
  unfold Append, wf in *. destruct m;
  cbn [RequestID StatusCode StreamCount ReasonPhrase] in *. destruct_and?.
  rt_solve.
Qed.

End SubscribeDoneMessage.
End SubscribeDoneMessage.

(** * Publishing *)

Module PublishMessage.
Section PublishMessage.
Context {QV : QuicVarint}.

Record t := mk { RequestID : Z; TrackNamespace : Tuple.t; TrackName : list byte; TrackAlias : Z;
  GroupOrder : Z; ContentExists : Z; LargestLocation : Location.t; Forward : Z;
  Parameters : KVPList.t }.

Definition Type_ (m : t) : Z := messageTypePublish.

Definition Append (m : t) : appender := fun buf =>
  buf ← qv_Append (RequestID m) buf;
  buf ← Tuple.append (TrackNamespace m) buf;
  buf ← appendVarIntBytes (TrackName m) buf;
  buf ← qv_Append (TrackAlias m) buf;
  buf ← append_byte (GroupOrder m) buf;
  buf ← append_byte (ContentExists m) buf;
  buf ← (if ContentExists m >? 0 then Location.append (LargestLocation m) buf else Ok buf);
  buf ← append_byte (Forward m) buf;
  KVPList.appendNum (Parameters m) buf.

Definition parse : list byte -> res t := run (
  requestID ← varint;
  trackNamespace ← field Tuple.parseTuple;
  trackName ← field parseVarIntBytes;
  trackAlias ← varint;
  _ ← need 2 errLengthMismatch;
  groupOrder ← next;
  _ ← fail_if (groupOrder >? 2) errInvalidGroupOrder;
  contentExists ← next;
  _ ← fail_if (contentExists >? 1) errInvalidContentExistsByte;
  largestLocation ← (if contentExists =? 1 then field Location.parse else mret Location.zero);
  _ ← need 1 errLengthMismatch;
  forward ← peek 1;
  _ ← fail_if (forward >? 1) errInvalidForwardFlag;
  parameters ← KVPList.parseNum [];
  mret (mk requestID trackNamespace trackName trackAlias groupOrder contentExists
          largestLocation forward parameters)).

End PublishMessage.
End PublishMessage.

Module PublishOkMessage.
Section PublishOkMessage.
Context {QV : QuicVarint}.

Record t := mk { RequestID : Z; Forward : Z; SubscriberPriority : Z; GroupOrder : Z; FilterType :
  Z; Start : Location.t; EndGroup : Z; Parameters : KVPList.t }.

Definition Type_ (m : t) : Z := messageTypePublish.

Definition Append (m : t) : appender := fun buf =>
  buf ← qv_Append (RequestID m) buf;
  buf ← append_byte (Forward m) buf;
  buf ← append_byte (SubscriberPriority m) buf;
  buf ← append_byte (GroupOrder m) buf;
  buf ← FilterType_append (FilterType m) buf;
  buf ← (if has_start (FilterType m) then Location.append (Start m) buf else Ok buf);
  buf ← (if has_end (FilterType m) then qv_Append (EndGroup m) buf else Ok buf);
  KVPList.append (Parameters m) buf.

Definition parse : list byte -> res t := run (
  requestID ← varint;
  _ ← need 3 errLengthMismatch;
  forward ← next;
  _ ← fail_if (forward >? 1) errInvalidForwardFlag;
  subscriberPriority ← next;
  groupOrder ← next;
  _ ← fail_if (groupOrder >? 2) errInvalidGroupOrder;
  filterType ← varint;
  _ ← fail_if ((filterType =? 0) || (filterType >? 4)) errInvalidFilterType;
  start ← (if has_start filterType then field Location.parse else mret Location.zero);
  endGroup ← (if has_end filterType then varint else mret 0);
  parameters ← KVPList.parseNum [];
  mret (mk requestID forward subscriberPriority groupOrder filterType start endGroup parameters)).

End PublishOkMessage.
End PublishOkMessage.

Module PublishErrorMessage.
Section PublishErrorMessage.
Context {QV : QuicVarint}.

Record t := mk { RequestID : Z; ErrorCode : Z; ReasonPhrase : gostring }.

Definition Type_ (m : t) : Z := messageTypeSubscribeError.

Definition Append (m : t) : appender := fun buf =>
  buf ← qv_Append (RequestID m) buf;
  buf ← qv_Append (ErrorCode m) buf;
  appendVarIntBytes (ReasonPhrase m) buf.

Definition parse : list byte -> res t := run (
  requestID ← varint;
  errorCode ← varint;
  reasonPhrase ← field parseVarIntBytes;
  mret (mk requestID errorCode reasonPhrase)).

Definition wf (m : t) : Prop :=
  0 <= RequestID m /\ 0 <= ErrorCode m.

Context {QVL : QuicVarintLaws}.

Lemma PublishErrorMessage_roundtrip m : wf m -> reads (Append m) parse m.
Proof.
  intros Hwf. apply rt_reads.
  unfold Append, wf in *. destruct m;
  cbn [RequestID ErrorCode ReasonPhrase] in *. destruct_and?.
  rt_solve.
Qed.

End PublishErrorMessage.
End PublishErrorMessage.

(** * Fetching *)

Definition FetchTypeStandalone : Z := 0x01.
Definition FetchTypeRelativeJoining : Z := 0x02.
Definition FetchTypeAbsoluteJoining : Z := 0x03.

Module FetchMessage.
Section FetchMessage.
Context {QV : QuicVarint}.

Record t := mk { RequestID : Z; SubscriberPriority : Z; GroupOrder : Z; FetchType : Z;
  TrackNamespace : Tuple.t; TrackName : list byte; StartGroup : Z; StartObject : Z;
  EndGroup : Z; EndObject : Z; JoiningSubscribeID : Z; JoiningStart : Z;
  Parameters : KVPList.t }.

Definition Type_ (m : t) : Z := messageTypeFetch.

Definition Append (m : t) : appender := fun buf =>
  buf ← qv_Append (RequestID m) buf;
  buf ← append_byte (SubscriberPriority m) buf;
  buf ← append_byte (GroupOrder m) buf;
  buf ← qv_Append (FetchType m) buf;
  buf ← (if FetchType m =? FetchTypeStandalone then
           buf ← Tuple.append (TrackNamespace m) buf;
           buf ← appendVarIntBytes (TrackName m) buf;
           buf ← qv_Append (StartGroup m) buf;
           buf ← qv_Append (StartObject m) buf;
           buf ← qv_Append (EndGroup m) buf;
           qv_Append (EndObject m) buf
         else
           buf ← qv_Append (JoiningSubscribeID m) buf;
           qv_Append (JoiningStart m) buf);
  KVPList.appendNum (Parameters m) buf.

Definition parse : list byte -> res t := run (
  requestID ← varint;
  _ ← need 2 errLengthMismatch;
  subscriberPriority ← next;
  groupOrder ← next;
  _ ← fail_if (groupOrder >? 2) errInvalidGroupOrder;
  fetchType ← varint;
  _ ← fail_if ((fetchType <? FetchTypeStandalone) || (fetchType >? FetchTypeAbsoluteJoining))
        errInvalidFetchType;
  if fetchType =? FetchTypeStandalone then
    trackNamespace ← field Tuple.parseTuple;
    trackName ← field parseVarIntBytes;
    startGroup ← varint;
    startObject ← varint;
    endGroup ← varint;
    endObject ← varint;
    parameters ← KVPList.parseNum [];
    mret (mk requestID subscriberPriority groupOrder fetchType trackNamespace trackName
            startGroup startObject endGroup endObject 0 0 parameters)
  else
    joiningSubscribeID ← varint;
    joiningStart ← varint;
    parameters ← KVPList.parseNum [];
    mret (mk requestID subscriberPriority groupOrder fetchType [] [] 0 0 0 0
            joiningSubscribeID joiningStart parameters)).

(** The fields the fetch type does not carry are at their zero value. *)
Definition wf (m : t) : Prop :=
  0 <= RequestID m /\ 0 <= SubscriberPriority m < 256 /\ 0 <= GroupOrder m <= 2 /\
  KVPList.wf (Parameters m) /\
  (if FetchType m =? FetchTypeStandalone then
     Tuple.wf (TrackNamespace m) /\ 0 <= StartGroup m /\ 0 <= StartObject m /\
     0 <= EndGroup m /\ 0 <= EndObject m /\ JoiningSubscribeID m = 0 /\ JoiningStart m = 0
   else
     2 <= FetchType m <= 3 /\ TrackNamespace m = [] /\ TrackName m = [] /\
     StartGroup m = 0 /\ StartObject m = 0 /\ EndGroup m = 0 /\ EndObject m = 0 /\
     0 <= JoiningSubscribeID m /\ 0 <= JoiningStart m).

Context {QVL : QuicVarintLaws}.

Lemma FetchMessage_roundtrip m : wf m -> reads (Append m) parse m.
Proof.
  intros Hwf. apply rt_reads.
  unfold Append, wf in *. destruct m;
  cbn [RequestID SubscriberPriority GroupOrder FetchType TrackNamespace TrackName StartGroup
       StartObject EndGroup EndObject JoiningSubscribeID JoiningStart Parameters] in *.
  unfold FetchTypeStandalone, FetchTypeAbsoluteJoining in *.
  destruct (Z.eqb_spec FetchType0 1) as [->|Hne]; destruct_and?; subst.
  - rt_solve.
  - rt_solve.
Qed.

End FetchMessage.
End FetchMessage.

Module FetchOkMessage.
Section FetchOkMessage.
Context {QV : QuicVarint}.

Record t := mk { RequestID : Z; GroupOrder : Z; EndOfTrack : Z; EndLocation : Location.t;
  SubscribeParameters : KVPList.t }.

Definition Type_ (m : t) : Z := messageTypeFetchOk.

Definition Append (m : t) : appender := fun buf =>
  buf ← qv_Append (RequestID m) buf;
  buf ← append_byte (GroupOrder m) buf;
  buf ← append_byte (EndOfTrack m) buf;
  buf ← Location.append (EndLocation m) buf;
  KVPList.appendNum (SubscribeParameters m) buf.

Definition parse : list byte -> res t := run (
  requestID ← varint;
  _ ← need 2 errLengthMismatch;
  groupOrder ← next;
  _ ← fail_if (groupOrder >? 2) errInvalidGroupOrder;
  endOfTrack ← next;
  endLocation ← field Location.parse;
  subscribeParameters ← KVPList.parseNum [];
  mret (mk requestID groupOrder endOfTrack endLocation subscribeParameters)).

Definition wf (m : t) : Prop :=
  0 <= RequestID m /\ 0 <= GroupOrder m <= 2 /\ 0 <= EndOfTrack m < 256 /\
  Location.wf (EndLocation m) /\ KVPList.wf (SubscribeParameters m).

Context {QVL : QuicVarintLaws}.

Lemma FetchOkMessage_roundtrip m : wf m -> reads (Append m) parse m.
Proof.
  intros Hwf. apply rt_reads.
  unfold Append, wf in *. destruct m;
  cbn [RequestID GroupOrder EndOfTrack EndLocation SubscribeParameters] in *. destruct_and?.
  rt_solve.
Qed.

End FetchOkMessage.
End FetchOkMessage.

Module FetchErrorMessage.
Section FetchErrorMessage.
Context {QV : QuicVarint}.

Record t := mk { RequestID : Z; ErrorCode : Z; ReasonPhrase : gostring }.

Definition Type_ (m : t) : Z := messageTypeFetchError.

Definition Append (m : t) : appender := fun buf =>
  buf ← qv_Append (RequestID m) buf;
  buf ← qv_Append (ErrorCode m) buf;
  appendVarIntBytes (ReasonPhrase m) buf.

Definition parse : list byte -> res t := run (
  requestID ← varint;
  errorCode ← varint;
  reasonPhrase ← field parseVarIntBytes;
  mret (mk requestID errorCode reasonPhrase)).

Definition wf (m : t) : Prop :=
  0 <= RequestID m /\ 0 <= ErrorCode m.

Context {QVL : QuicVarintLaws}.

Lemma FetchErrorMessage_roundtrip m : wf m -> reads (Append m) parse m.
Proof.
  intros Hwf. apply rt_reads.
  unfold Append, wf in *. destruct m;
  cbn [RequestID ErrorCode ReasonPhrase] in *. destruct_and?.
  rt_solve.
Qed.

End FetchErrorMessage.
End FetchErrorMessage.

Module FetchCancelMessage.
Section FetchCancelMessage.
Context {QV : QuicVarint}.

Record t := mk { RequestID : Z }.

Definition Type_ (m : t) : Z := messageTypeFetchCancel.

Definition Append (m : t) : appender := qv_Append (RequestID m).

Definition parse : list byte -> res t := run (
  requestID ← varint;
  mret (mk requestID)).

Definition wf (m : t) : Prop :=
  0 <= RequestID m.

Context {QVL : QuicVarintLaws}.

Lemma FetchCancelMessage_roundtrip m : wf m -> reads (Append m) parse m.
Proof.
  intros Hwf. apply rt_reads.
  unfold Append, wf in *. destruct m;
  cbn [RequestID] in *. destruct_and?.
  rt_solve.
Qed.

End FetchCancelMessage.
End FetchCancelMessage.

(** * Track status *)

Module TrackStatusRequestMessage.
Section TrackStatusRequestMessage.
Context {QV : QuicVarint}.

Record t := mk { RequestID : Z; TrackNamespace : Tuple.t; TrackName : list byte; Parameters :
  KVPList.t }.

Definition Type_ (m : t) : Z := messageTypeTrackStatus.

Definition Append (m : t) : appender := fun buf =>
  buf ← qv_Append (RequestID m) buf;
  buf ← Tuple.append (TrackNamespace m) buf;
  buf ← appendVarIntBytes (TrackName m) buf;
  KVPList.appendNum (Parameters m) buf.

Definition parse : list byte -> res t := run (
  requestID ← varint;
  trackNamespace ← field Tuple.parseTuple;
  trackName ← field parseVarIntBytes;
  parameters ← KVPList.parseNum [];
  mret (mk requestID trackNamespace trackName parameters)).

Definition wf (m : t) : Prop :=
  0 <= RequestID m /\ Tuple.wf (TrackNamespace m) /\ KVPList.wf (Parameters m).

Context {QVL : QuicVarintLaws}.

Lemma TrackStatusRequestMessage_roundtrip m : wf m -> reads (Append m) parse m.
Proof.
  intros Hwf. apply rt_reads.
  unfold Append, wf in *. destruct m;
  cbn [RequestID TrackNamespace TrackName Parameters] in *. destruct_and?.
  rt_solve.
Qed.

End TrackStatusRequestMessage.
End TrackStatusRequestMessage.

Module TrackStatusMessage.
Section TrackStatusMessage.
Context {QV : QuicVarint}.

Record t := mk { RequestID : Z; StatusCode : Z; LargestLocation : Location.t; Parameters :
  KVPList.t }.

Definition Type_ (m : t) : Z := messageTypeTrackStatusOk.

Definition Append (m : t) : appender := fun buf =>
  buf ← qv_Append (RequestID m) buf;
  buf ← qv_Append (StatusCode m) buf;
  buf ← Location.append (LargestLocation m) buf;
  KVPList.appendNum (Parameters m) buf.

Definition parse : list byte -> res t := run (
  requestID ← varint;
  statusCode ← varint;
  largestLocation ← field Location.parse;
  parameters ← KVPList.parseNum [];
  mret (mk requestID statusCode largestLocation parameters)).

Definition wf (m : t) : Prop :=
  0 <= RequestID m /\ 0 <= StatusCode m /\ Location.wf (LargestLocation m) /\ KVPList.wf (Parameters m).

Context {QVL : QuicVarintLaws}.

Lemma TrackStatusMessage_roundtrip m : wf m -> reads (Append m) parse m.
Proof.
  intros Hwf. apply rt_reads.
  unfold Append, wf in *. destruct m;
  cbn [RequestID StatusCode LargestLocation Parameters] in *. destruct_and?.
  rt_solve.
Qed.

End TrackStatusMessage.
End TrackStatusMessage.

(** * Announcements *)

Module AnnounceMessage.
Section AnnounceMessage.
Context {QV : QuicVarint}.

Record t := mk { RequestID : Z; TrackNamespace : Tuple.t; Parameters : KVPList.t }.

Definition Type_ (m : t) : Z := messageTypeAnnounce.

Definition Append (m : t) : appender := fun buf =>
  buf ← qv_Append (RequestID m) buf;
  buf ← Tuple.append (TrackNamespace m) buf;
  KVPList.appendNum (Parameters m) buf.

Definition parse : list byte -> res t := run (
  requestID ← varint;
  trackNamespace ← field Tuple.parseTuple;
  parameters ← KVPList.parseNum [];
  mret (mk requestID trackNamespace parameters)).

Definition wf (m : t) : Prop :=
  0 <= RequestID m /\ Tuple.wf (TrackNamespace m) /\ KVPList.wf (Parameters m).

Context {QVL : QuicVarintLaws}.

Lemma AnnounceMessage_roundtrip m : wf m -> reads (Append m) parse m.
Proof.
  intros Hwf. apply rt_reads.
  unfold Append, wf in *. destruct m;
  cbn [RequestID TrackNamespace Parameters] in *. destruct_and?.
  rt_solve.
Qed.

End AnnounceMessage.
End AnnounceMessage.

Module AnnounceOkMessage.
Section AnnounceOkMessage.
Context {QV : QuicVarint}.

Record t := mk { RequestID : Z }.

Definition Type_ (m : t) : Z := messageTypeAnnounceOk.

Definition Append (m : t) : appender := qv_Append (RequestID m).

Definition parse : list byte -> res t := run (
  requestID ← varint;
  mret (mk requestID)).

Definition wf (m : t) : Prop :=
  0 <= RequestID m.

Context {QVL : QuicVarintLaws}.

Lemma AnnounceOkMessage_roundtrip m : wf m -> reads (Append m) parse m.
Proof.
  intros Hwf. apply rt_reads.
  unfold Append, wf in *. destruct m;
  cbn [RequestID] in *. destruct_and?.
  rt_solve.
Qed.

End AnnounceOkMessage.
End AnnounceOkMessage.

Module AnnounceErrorMessage.
Section AnnounceErrorMessage.
Context {QV : QuicVarint}.

Record t := mk { RequestID : Z; ErrorCode : Z; ReasonPhrase : gostring }.

Definition Type_ (m : t) : Z := messageTypeAnnounceError.

Definition Append (m : t) : appender := fun buf =>
  buf ← qv_Append (RequestID m) buf;
  buf ← qv_Append (ErrorCode m) buf;
  appendVarIntBytes (ReasonPhrase m) buf.

Definition parse : list byte -> res t := run (
  requestID ← varint;
  errorCode ← varint;
  reasonPhrase ← field parseVarIntBytes;
  mret (mk requestID errorCode reasonPhrase)).

Definition wf (m : t) : Prop :=
  0 <= RequestID m /\ 0 <= ErrorCode m.

Context {QVL : QuicVarintLaws}.

Lemma AnnounceErrorMessage_roundtrip m : wf m -> reads (Append m) parse m.
Proof.
  intros Hwf. apply rt_reads.
  unfold Append, wf in *. destruct m;
  cbn [RequestID ErrorCode ReasonPhrase] in *. destruct_and?.
  rt_solve.
Qed.

End AnnounceErrorMessage.
End AnnounceErrorMessage.

Module AnnounceCancelMessage.
Section AnnounceCancelMessage.
Context {QV : QuicVarint}.

Record t := mk { TrackNamespace : Tuple.t; ErrorCode : Z; ReasonPhrase : gostring }.

Definition Type_ (m : t) : Z := messageTypeAnnounce.

Definition Append (m : t) : appender := fun buf =>
  buf ← Tuple.append (TrackNamespace m) buf;
  buf ← qv_Append (ErrorCode m) buf;
  appendVarIntBytes (ReasonPhrase m) buf.

Definition parse : list byte -> res t := run (
  trackNamespace ← field Tuple.parseTuple;
  errorCode ← varint;
  reasonPhrase ← field parseVarIntBytes;
  mret (mk trackNamespace errorCode reasonPhrase)).

Definition wf (m : t) : Prop :=
  Tuple.wf (TrackNamespace m) /\ 0 <= ErrorCode m.

Context {QVL : QuicVarintLaws}.

Lemma AnnounceCancelMessage_roundtrip m : wf m -> reads (Append m) parse m.
Proof.
  intros Hwf. apply rt_reads.
  unfold Append, wf in *. destruct m;
  cbn [TrackNamespace ErrorCode ReasonPhrase] in *. destruct_and?.
  rt_solve.
Qed.

End AnnounceCancelMessage.
End AnnounceCancelMessage.

Module UnannounceMessage.
Section UnannounceMessage.
Context {QV : QuicVarint}.

Record t := mk { TrackNamespace : Tuple.t }.

Definition Type_ (m : t) : Z := messageTypeUnannounce.

Definition Append (m : t) : appender := Tuple.append (TrackNamespace m).

Definition parse : list byte -> res t := run (
  trackNamespace ← field Tuple.parseTuple;
  mret (mk trackNamespace)).

Definition wf (m : t) : Prop :=
  Tuple.wf (TrackNamespace m).

Context {QVL : QuicVarintLaws}.

Lemma UnannounceMessage_roundtrip m : wf m -> reads (Append m) parse m.
Proof.
  intros Hwf. apply rt_reads.
  unfold Append, wf in *. destruct m;
  cbn [TrackNamespace] in *. destruct_and?.
  rt_solve.
Qed.

End UnannounceMessage.
End UnannounceMessage.

Module SubscribeAnnouncesMessage.
Section SubscribeAnnouncesMessage.
Context {QV : QuicVarint}.

Record t := mk { RequestID : Z; TrackNamespacePrefix : Tuple.t; Parameters : KVPList.t }.

Definition Type_ (m : t) : Z := messageTypeSubscribeNamespace.

Definition Append (m : t) : appender := fun buf =>
  buf ← qv_Append (RequestID m) buf;
  buf ← Tuple.append (TrackNamespacePrefix m) buf;
  KVPList.appendNum (Parameters m) buf.

Definition parse : list byte -> res t := run (
  requestID ← varint;
  trackNamespacePrefix ← field Tuple.parseTuple;
  parameters ← KVPList.parseNum [];
  mret (mk requestID trackNamespacePrefix parameters)).

Definition wf (m : t) : Prop :=
  0 <= RequestID m /\ Tuple.wf (TrackNamespacePrefix m) /\ KVPList.wf (Parameters m).

Context {QVL : QuicVarintLaws}.

Lemma SubscribeAnnouncesMessage_roundtrip m : wf m -> reads (Append m) parse m.
Proof.
  intros Hwf. apply rt_reads.
  unfold Append, wf in *. destruct m;
  cbn [RequestID TrackNamespacePrefix Parameters] in *. destruct_and?.
  rt_solve.
Qed.

End SubscribeAnnouncesMessage.
End SubscribeAnnouncesMessage.

Module SubscribeAnnouncesOkMessage.
Section SubscribeAnnouncesOkMessage.
Context {QV : QuicVarint}.

Record t := mk { RequestID : Z }.

Definition Type_ (m : t) : Z := messageTypeSubscribeNamespaceOk.

Definition Append (m : t) : appender := qv_Append (RequestID m).

Definition parse : list byte -> res t := run (
  requestID ← varint;
  mret (mk requestID)).

Definition wf (m : t) : Prop :=
  0 <= RequestID m.

Context {QVL : QuicVarintLaws}.

Lemma SubscribeAnnouncesOkMessage_roundtrip m : wf m -> reads (Append m) parse m.
Proof.
  intros Hwf. apply rt_reads.
  unfold Append, wf in *. destruct m;
  cbn [RequestID] in *. destruct_and?.
  rt_solve.
Qed.

End SubscribeAnnouncesOkMessage.
End SubscribeAnnouncesOkMessage.

Module SubscribeAnnouncesErrorMessage.
Section SubscribeAnnouncesErrorMessage.
Context {QV : QuicVarint}.

Record t := mk { RequestID : Z; ErrorCode : Z; ReasonPhrase : gostring }.

Definition Type_ (m : t) : Z := messageTypeSubscribeNamespaceError.

Definition Append (m : t) : appender := fun buf =>
  buf ← qv_Append (RequestID m) buf;
  buf ← qv_Append (ErrorCode m) buf;
  appendVarIntBytes (ReasonPhrase m) buf.

Definition parse : list byte -> res t := run (
  requestID ← varint;
  errorCode ← varint;
  reasonPhrase ← field parseVarIntBytes;
  mret (mk requestID errorCode reasonPhrase)).

Definition wf (m : t) : Prop :=
  0 <= RequestID m /\ 0 <= ErrorCode m.

Context {QVL : QuicVarintLaws}.

Lemma SubscribeAnnouncesErrorMessage_roundtrip m : wf m -> reads (Append m) parse m.
Proof.
  intros Hwf. apply rt_reads.
  unfold Append, wf in *. destruct m;
  cbn [RequestID ErrorCode ReasonPhrase] in *. destruct_and?.
  rt_solve.
Qed.

End SubscribeAnnouncesErrorMessage.
End SubscribeAnnouncesErrorMessage.

Module UnsubscribeAnnouncesMessage.
Section UnsubscribeAnnouncesMessage.
Context {QV : QuicVarint}.

Record t := mk { TrackNamespacePrefix : Tuple.t }.

Definition Type_ (m : t) : Z := messageTypeUnsubscribeNamespace.

Definition Append (m : t) : appender := Tuple.append (TrackNamespacePrefix m).

Definition parse : list byte -> res t := run (
  trackNamespacePrefix ← field Tuple.parseTuple;
  mret (mk trackNamespacePrefix)).

Definition wf (m : t) : Prop :=
  Tuple.wf (TrackNamespacePrefix m).

Context {QVL : QuicVarintLaws}.

Lemma UnsubscribeAnnouncesMessage_roundtrip m : wf m -> reads (Append m) parse m.
Proof.
  intros Hwf. apply rt_reads.
  unfold Append, wf in *. destruct m;
  cbn [TrackNamespacePrefix] in *. destruct_and?.
  rt_solve.
Qed.

End UnsubscribeAnnouncesMessage.
End UnsubscribeAnnouncesMessage.
