(* ===== verification/ControlMessages.v ===== *)
(** Control messages on the control stream: the ControlMessage interface as a
    sum, the framing of compileMessage (session_helpers.go), and
    ControlMessageParser.Parse (internal/wire/control_message_parser.go).

    A frame is the message type, the length of the payload in two bytes, most
    significant first, and the payload.  The lemmas: how a frame is written and
    what the parser makes of one.  The round trips are in Framing.v. *)

From S2P Require Import Prelude VarInt Codec WireTypes Messages.
Local Open Scope Z_scope.

(** * The ControlMessage interface *)

Inductive ControlMessage :=
  | ClientSetup (m : ClientSetupMessage.t)
  | ServerSetup (m : ServerSetupMessage.t)
  | GoAway (m : GoAwayMessage.t)
  | MaxRequestID (m : MaxRequestIDMessage.t)
  | RequestsBlocked (m : RequestsBlockedMessage.t)
  | Subscribe (m : SubscribeMessage.t)
  | SubscribeOk (m : SubscribeOkMessage.t)
  | SubscribeError (m : SubscribeErrorMessage.t)
  | Unsubscribe (m : UnsubscribeMessage.t)
  | SubscribeUpdate (m : SubscribeUpdateMessage.t)
  | SubscribeDone (m : SubscribeDoneMessage.t)
  | Fetch (m : FetchMessage.t)
  | FetchOk (m : FetchOkMessage.t)
  | FetchError (m : FetchErrorMessage.t)
  | FetchCancel (m : FetchCancelMessage.t)
  | TrackStatusRequest (m : TrackStatusRequestMessage.t)
  | TrackStatus (m : TrackStatusMessage.t)
  | Announce (m : AnnounceMessage.t)
  | AnnounceOk (m : AnnounceOkMessage.t)
  | AnnounceError (m : AnnounceErrorMessage.t)
  | Unannounce (m : UnannounceMessage.t)
  | AnnounceCancel (m : AnnounceCancelMessage.t)
  | SubscribeAnnounces (m : SubscribeAnnouncesMessage.t)
  | SubscribeAnnouncesOk (m : SubscribeAnnouncesOkMessage.t)
  | SubscribeAnnouncesError (m : SubscribeAnnouncesErrorMessage.t)
  | UnsubscribeAnnounces (m : UnsubscribeAnnouncesMessage.t)
  | Publish (m : PublishMessage.t)
  | PublishOk (m : PublishOkMessage.t)
  | PublishError (m : PublishErrorMessage.t).

Module ControlMessage.
Section ControlMessage.
Context {QV : QuicVarint}.

Definition Type_ (msg : ControlMessage) : Z :=
  match msg with
  | ClientSetup m => ClientSetupMessage.Type_ m
  | ServerSetup m => ServerSetupMessage.Type_ m
  | GoAway m => GoAwayMessage.Type_ m
  | MaxRequestID m => MaxRequestIDMessage.Type_ m
  | RequestsBlocked m => RequestsBlockedMessage.Type_ m
  | Subscribe m => SubscribeMessage.Type_ m
  | SubscribeOk m => SubscribeOkMessage.Type_ m
  | SubscribeError m => SubscribeErrorMessage.Type_ m
  | Unsubscribe m => UnsubscribeMessage.Type_ m
  | SubscribeUpdate m => SubscribeUpdateMessage.Type_ m
  | SubscribeDone m => SubscribeDoneMessage.Type_ m
  | Fetch m => FetchMessage.Type_ m
  | FetchOk m => FetchOkMessage.Type_ m
  | FetchError m => FetchErrorMessage.Type_ m
  | FetchCancel m => FetchCancelMessage.Type_ m
  | TrackStatusRequest m => TrackStatusRequestMessage.Type_ m
  | TrackStatus m => TrackStatusMessage.Type_ m
  | Announce m => AnnounceMessage.Type_ m
  | AnnounceOk m => AnnounceOkMessage.Type_ m
  | AnnounceError m => AnnounceErrorMessage.Type_ m
  | Unannounce m => UnannounceMessage.Type_ m
  | AnnounceCancel m => AnnounceCancelMessage.Type_ m
  | SubscribeAnnounces m => SubscribeAnnouncesMessage.Type_ m
  | SubscribeAnnouncesOk m => SubscribeAnnouncesOkMessage.Type_ m
  | SubscribeAnnouncesError m => SubscribeAnnouncesErrorMessage.Type_ m
  | UnsubscribeAnnounces m => UnsubscribeAnnouncesMessage.Type_ m
  | Publish m => PublishMessage.Type_ m
  | PublishOk m => PublishOkMessage.Type_ m
  | PublishError m => PublishErrorMessage.Type_ m
  end.

Definition Append (msg : ControlMessage) : appender :=
  match msg with
  | ClientSetup m => ClientSetupMessage.Append m
  | ServerSetup m => ServerSetupMessage.Append m
  | GoAway m => GoAwayMessage.Append m
  | MaxRequestID m => MaxRequestIDMessage.Append m
  | RequestsBlocked m => RequestsBlockedMessage.Append m
  | Subscribe m => SubscribeMessage.Append m
  | SubscribeOk m => SubscribeOkMessage.Append m
  | SubscribeError m => SubscribeErrorMessage.Append m
  | Unsubscribe m => UnsubscribeMessage.Append m
  | SubscribeUpdate m => SubscribeUpdateMessage.Append m
  | SubscribeDone m => SubscribeDoneMessage.Append m
  | Fetch m => FetchMessage.Append m
  | FetchOk m => FetchOkMessage.Append m
  | FetchError m => FetchErrorMessage.Append m
  | FetchCancel m => FetchCancelMessage.Append m
  | TrackStatusRequest m => TrackStatusRequestMessage.Append m
  | TrackStatus m => TrackStatusMessage.Append m
  | Announce m => AnnounceMessage.Append m
  | AnnounceOk m => AnnounceOkMessage.Append m
  | AnnounceError m => AnnounceErrorMessage.Append m
  | Unannounce m => UnannounceMessage.Append m
  | AnnounceCancel m => AnnounceCancelMessage.Append m
  | SubscribeAnnounces m => SubscribeAnnouncesMessage.Append m
  | SubscribeAnnouncesOk m => SubscribeAnnouncesOkMessage.Append m
  | SubscribeAnnouncesError m => SubscribeAnnouncesErrorMessage.Append m
  | UnsubscribeAnnounces m => UnsubscribeAnnouncesMessage.Append m
  | Publish m => PublishMessage.Append m
  | PublishOk m => PublishOkMessage.Append m
  | PublishError m => PublishErrorMessage.Append m
  end.

(** The message the source builds for a type, parsed from the payload. *)
Definition parse (mt : Z) (msg : list byte) : res ControlMessage :=
  if mt =? messageTypeClientSetup then ClientSetup <$> ClientSetupMessage.parse msg
  else if mt =? messageTypeServerSetup then ServerSetup <$> ServerSetupMessage.parse msg
  else if mt =? messageTypeGoAway then GoAway <$> GoAwayMessage.parse msg
  else if mt =? messageTypeMaxRequestID then MaxRequestID <$> MaxRequestIDMessage.parse msg
  else if mt =? messageTypeRequestsBlocked then RequestsBlocked <$> RequestsBlockedMessage.parse msg
  else if mt =? messageTypeSubscribe then Subscribe <$> SubscribeMessage.parse msg
  else if mt =? messageTypeSubscribeOk then SubscribeOk <$> SubscribeOkMessage.parse msg
  else if mt =? messageTypeSubscribeError then SubscribeError <$> SubscribeErrorMessage.parse msg
  else if mt =? messageTypeUnsubscribe then Unsubscribe <$> UnsubscribeMessage.parse msg
  else if mt =? messageTypeSubscribeUpdate then SubscribeUpdate <$> SubscribeUpdateMessage.parse msg
  else if mt =? messageTypeSubscribeDone then SubscribeDone <$> SubscribeDoneMessage.parse msg
  else if mt =? messageTypeFetch then Fetch <$> FetchMessage.parse msg
  else if mt =? messageTypeFetchOk then FetchOk <$> FetchOkMessage.parse msg
  else if mt =? messageTypeFetchError then FetchError <$> FetchErrorMessage.parse msg
  else if mt =? messageTypeFetchCancel then FetchCancel <$> FetchCancelMessage.parse msg
  else if mt =? messageTypeTrackStatus then TrackStatusRequest <$> TrackStatusRequestMessage.parse msg
  else if mt =? messageTypeTrackStatusOk then TrackStatus <$> TrackStatusMessage.parse msg
  else if mt =? messageTypeAnnounce then Announce <$> AnnounceMessage.parse msg
  else if mt =? messageTypeAnnounceOk then AnnounceOk <$> AnnounceOkMessage.parse msg
  else if mt =? messageTypeAnnounceError then AnnounceError <$> AnnounceErrorMessage.parse msg
  else if mt =? messageTypeUnannounce then Unannounce <$> UnannounceMessage.parse msg
  else if mt =? messageTypeAnnounceCancel then AnnounceCancel <$> AnnounceCancelMessage.parse msg
  else if mt =? messageTypeSubscribeNamespace then SubscribeAnnounces <$> SubscribeAnnouncesMessage.parse msg
  else if mt =? messageTypeSubscribeNamespaceOk then SubscribeAnnouncesOk <$> SubscribeAnnouncesOkMessage.parse msg
  else if mt =? messageTypeSubscribeNamespaceError then SubscribeAnnouncesError <$> SubscribeAnnouncesErrorMessage.parse msg
  else if mt =? messageTypeUnsubscribeNamespace then UnsubscribeAnnounces <$> UnsubscribeAnnouncesMessage.parse msg
  else Err (errInvalidMessageType mt).

(** Well-formed fields of a message. *)
Definition wf (msg : ControlMessage) : Prop :=
  match msg with
  | ClientSetup m => ClientSetupMessage.wf m
  | ServerSetup m => ServerSetupMessage.wf m
  | GoAway m => True
  | MaxRequestID m => MaxRequestIDMessage.wf m
  | RequestsBlocked m => RequestsBlockedMessage.wf m
  | Subscribe m => SubscribeMessage.wf m
  | SubscribeOk m => SubscribeOkMessage.wf m
  | SubscribeError m => SubscribeErrorMessage.wf m
  | Unsubscribe m => UnsubscribeMessage.wf m
  | SubscribeUpdate m => SubscribeUpdateMessage.wf m
  | SubscribeDone m => SubscribeDoneMessage.wf m
  | Fetch m => FetchMessage.wf m
  | FetchOk m => FetchOkMessage.wf m
  | FetchError m => FetchErrorMessage.wf m
  | FetchCancel m => FetchCancelMessage.wf m
  | TrackStatusRequest m => TrackStatusRequestMessage.wf m
  | TrackStatus m => TrackStatusMessage.wf m
  | Announce m => AnnounceMessage.wf m
  | AnnounceOk m => AnnounceOkMessage.wf m
  | AnnounceError m => AnnounceErrorMessage.wf m
  | Unannounce m => UnannounceMessage.wf m
  | AnnounceCancel m => AnnounceCancelMessage.wf m
  | SubscribeAnnounces m => SubscribeAnnouncesMessage.wf m
  | SubscribeAnnouncesOk m => SubscribeAnnouncesOkMessage.wf m
  | SubscribeAnnouncesError m => SubscribeAnnouncesErrorMessage.wf m
  | UnsubscribeAnnounces m => UnsubscribeAnnouncesMessage.wf m
  | Publish _ | PublishOk _ | PublishError _ => False
  end.

(** The messages the codec carries without loss.  An AnnounceCancel has the type
    number of an Announce, the Publish family is not known to the parser, and
    the Expires of a SubscribeOk is scaled on the way. *)
Definition faithful (msg : ControlMessage) : Prop :=
  match msg with
  | AnnounceCancel _ | Publish _ | PublishOk _ | PublishError _ => False
  | SubscribeOk m => SubscribeOkMessage.Expires m = 0
  | _ => True
  end.

End ControlMessage.
End ControlMessage.

(** * Framing *)

Section Framing.
Context {QV : QuicVarint}.

Definition math_MaxUint16 : Z := 65535.

(** [binary.BigEndian.PutUint16(buf[i:i+2], v)]. *)
Definition PutUint16 (buf : list byte) (i : nat) (v : Z) : list byte :=
  <[S i := byte.of_Z v]> (<[i := byte.of_Z (Z.shiftr v 8)]> buf).

Definition compileMessage (msg : ControlMessage) : res (list byte) :=
  buf ← qv_Append (ControlMessage.Type_ msg) [];
  let tl := length buf in
  let buf := buf ++ [byte.of_Z 0; byte.of_Z 0] in
  buf ← ControlMessage.Append msg buf;
  body ← slice_from buf (Z.of_nat tl + 2);
  let length := len body in
  if length >? math_MaxUint16 then Err errControlMessageTooLarge
  else Ok (PutUint16 buf tl (uint16 length)).

Definition lift {S A} (m : res A) : M S A := fun s => a ← m; Ok (a, s).

Definition ControlMessageParser_Parse : M reader ControlMessage :=
  mt ← qv_Read;
  hi ← ReadByte;
  lo ← ReadByte;
  let length := Z.lor (uint16 (Z.shiftl hi 8)) lo in
  msg ← ReadFull length;
  if negb (len msg =? length) then fail errLengthMismatch
  else lift (ControlMessage.parse mt msg).

(** What [controlStream.read] yields: the messages up to the first error, and
    that error. *)
Fixpoint read_messages (fuel : nat) (r : reader) : list ControlMessage * res unit :=
  match fuel with
  | O => ([], NoFuel)
  | S fuel =>
      match ControlMessageParser_Parse r with
      | Ok (m, r) => let '(ms, e) := read_messages fuel r in (m :: ms, e)
      | Err e => ([], Err e)
      | Panic => ([], Panic)
      | NoFuel => ([], NoFuel)
      end
  end.

Fixpoint compile_all (ms : list ControlMessage) : res (list byte) :=
  match ms with
  | [] => Ok []
  | m :: ms => b ← compileMessage m; bs ← compile_all ms; Ok (b ++ bs)
  end.

End Framing.

(** ** Frames *)

Section FrameLemmas.
Context {QV : QuicVarint} {QVL : QuicVarintLaws}.

(** The bytes of a frame. *)
Definition frame (mt : Z) (body : list byte) : list byte :=
  qv_enc mt ++ byte.of_Z (Z.shiftr (len body) 8) :: byte.of_Z (len body) :: body.

Lemma Type_bounds msg : 0 <= ControlMessage.Type_ msg <= maxVarInt.
Proof. destruct msg; split; vm_compute; discriminate. Qed.

Lemma ControlMessage_reads msg :
  ControlMessage.wf msg -> ControlMessage.faithful msg ->
  reads (ControlMessage.Append msg) (ControlMessage.parse (ControlMessage.Type_ msg)) msg.
Proof.
  destruct msg; simpl ControlMessage.wf; simpl ControlMessage.faithful; intros Hwf Hf;
    try contradiction;
    lazymatch goal with |- reads _ _ (?K ?m) => apply (reads_fmap K _ _ m) end.
  - by apply ClientSetupMessage.ClientSetupMessage_roundtrip.
  - by apply ServerSetupMessage.ServerSetupMessage_roundtrip.
  - apply GoAwayMessage.GoAwayMessage_roundtrip.
  - by apply MaxRequestIDMessage.MaxRequestIDMessage_roundtrip.
  - by apply RequestsBlockedMessage.RequestsBlockedMessage_roundtrip.
  - by apply SubscribeMessage.SubscribeMessage_roundtrip.
  - intros buf out H.
    destruct (SubscribeOkMessage.SubscribeOkMessage_reads m Hwf _ _ H) as (e & -> & He).
    exists e. split; [done|]. rewrite He, Hf. destruct m; simpl in *. by subst.
  - by apply SubscribeErrorMessage.SubscribeErrorMessage_roundtrip.
  - by apply UnsubscribeMessage.UnsubscribeMessage_roundtrip.
  - by apply SubscribeUpdateMessage.SubscribeUpdateMessage_roundtrip.
  - by apply SubscribeDoneMessage.SubscribeDoneMessage_roundtrip.
  - by apply FetchMessage.FetchMessage_roundtrip.
  - by apply FetchOkMessage.FetchOkMessage_roundtrip.
  - by apply FetchErrorMessage.FetchErrorMessage_roundtrip.
  - by apply FetchCancelMessage.FetchCancelMessage_roundtrip.
  - by apply TrackStatusRequestMessage.TrackStatusRequestMessage_roundtrip.
  - by apply TrackStatusMessage.TrackStatusMessage_roundtrip.
  - by apply AnnounceMessage.AnnounceMessage_roundtrip.
  - by apply AnnounceOkMessage.AnnounceOkMessage_roundtrip.
  - by apply AnnounceErrorMessage.AnnounceErrorMessage_roundtrip.
  - by apply UnannounceMessage.UnannounceMessage_roundtrip.
  - by apply SubscribeAnnouncesMessage.SubscribeAnnouncesMessage_roundtrip.
  - by apply SubscribeAnnouncesOkMessage.SubscribeAnnouncesOkMessage_roundtrip.
  - by apply SubscribeAnnouncesErrorMessage.SubscribeAnnouncesErrorMessage_roundtrip.
  - by apply UnsubscribeAnnouncesMessage.UnsubscribeAnnouncesMessage_roundtrip.
Qed.

(** Writing the length over the placeholder. *)
Lemma PutUint16_frame (pre body : list byte) a b v :
  PutUint16 (pre ++ a :: b :: body) (length pre) v
  = pre ++ byte.of_Z (Z.shiftr v 8) :: byte.of_Z v :: body.
Proof.
  unfold PutUint16. rewrite insert_app_r_alt by lia. rewrite Nat.sub_diag. simpl.
  rewrite insert_app_r_alt by lia.
  by replace (S (length pre) - length pre)%nat with 1%nat by lia.
Qed.

Lemma compileMessage_frame {A} msg (p : list byte -> res A) v out :
  reads (ControlMessage.Append msg) p v -> compileMessage msg = Ok out ->
  exists body, out = frame (ControlMessage.Type_ msg) body /\ len body <= 65535 /\ p body = Ok v.
Proof.
  intros Hr H. unfold compileMessage in H. rewrite qv_Append_enc in H by apply Type_bounds.
  cbn [app] in H. apply res_bind_Ok in H as (pre & [= <-] & H).
  inv_bind H. destruct (Hr _ _ E) as (body & -> & Hp).
  inv_bind H. rewrite <- app_assoc in *. set (pre := qv_enc (ControlMessage.Type_ msg)) in *.
  assert (x = body) as ->.
  { rewrite app_assoc in E0.
    replace (Z.of_nat (length pre) + 2) with (len (pre ++ [byte.of_Z 0; byte.of_Z 0])) in E0
      by (rewrite len_app, !len_cons, len_nil; unfold len; lia).
    rewrite slice_from_app in E0. by injection E0. }
  destruct (Z.gtb_spec (len body) math_MaxUint16) as [|Hle]; [done|]. unfold math_MaxUint16 in Hle.
  injection H as <-. exists body. split_and!; [|lia|done].
  cbn [app]. rewrite PutUint16_frame. unfold uint16.
  pose proof (len_nonneg body). by rewrite Z.mod_small by lia.
Qed.

(** The two length bytes are read back. *)
Lemma be16 l :
  0 <= l <= 65535 ->
  Z.lor (uint16 (Z.shiftl (byte.unsigned (byte.of_Z (Z.shiftr l 8))) 8)) (byte.unsigned (byte.of_Z l)) = l.
Proof.
  intros Hl. rewrite !byte.unsigned_of_Z. unfold byte.wrap, uint16.
  rewrite Z.shiftr_div_pow2, Z.shiftl_mul_pow2 by lia. simpl.
  change (2 ^ 8) with 256. change (2 ^ 16) with 65536.
  rewrite (Z.mod_small (l / 256)) by (Z.div_mod_to_equations; lia).
  rewrite Z.mod_small by (Z.div_mod_to_equations; lia).
  rewrite <- Z.lxor_lor.
  - rewrite <- Z.add_nocarry_lxor.
    + pose proof (Z.div_mod l 256). lia.
    + apply Z.bits_inj'. intros n Hn. rewrite Z.land_spec, Z.bits_0.
      destruct (Z.ltb_spec n 8) as [Hlt|Hge].
      * change 256 with (2 ^ 8). by rewrite Z.mul_pow2_bits_low.
      * change 256 with (2 ^ 8). by rewrite Z.mod_pow2_bits_high, andb_false_r by lia.
  - apply Z.bits_inj'. intros n Hn. rewrite Z.land_spec, Z.bits_0.
    destruct (Z.ltb_spec n 8) as [Hlt|Hge].
    + change 256 with (2 ^ 8). by rewrite Z.mul_pow2_bits_low.
    + change 256 with (2 ^ 8). by rewrite Z.mod_pow2_bits_high, andb_false_r by lia.
Qed.

Lemma Parse_frame mt body rest fin :
  0 <= mt <= maxVarInt -> len body <= 65535 ->
  ControlMessageParser_Parse (mkReader (frame mt body ++ rest) fin)
  = (m ← ControlMessage.parse mt body; Ok (m, mkReader rest fin)).
Proof.
  intros Hmt Hl. unfold ControlMessageParser_Parse, frame.
  rewrite <- app_assoc. cbn [app]. unfold mbind at 1, M_bind at 1. rewrite qv_Read_enc by done.
  unfold mbind at 1, M_bind at 1. cbn [ReadByte rd_bytes rd_fin].
  unfold mbind at 1, M_bind at 1. cbn [ReadByte rd_bytes rd_fin].
  rewrite be16 by (pose proof (len_nonneg body); lia).
  unfold mbind at 1, M_bind at 1. rewrite ReadFull_app, Z.eqb_refl. done.
Qed.

End FrameLemmas.

(** ** At a concrete input *)

Definition ex_subscribe : SubscribeMessage.t :=
  SubscribeMessage.mk 2 [[byte.of_Z 97; byte.of_Z 98]; [byte.of_Z 99]] [byte.of_Z 116]
    128 GroupOrderAscending 1 FilterTypeAbsoluteRange (Location.mk 3 70) 9
    [KeyValuePair.mk 3 [byte.of_Z 1; byte.of_Z 2] 0; KeyValuePair.mk 2 [] 300].


Lemma ex_subscribe_wf : ControlMessage.wf (Subscribe ex_subscribe).
Proof. cbn. repeat split; repeat constructor; vm_compute; congruence. Qed.
