(* ===== verification/Objects.v ===== *)
(** Objects on unidirectional streams and in datagrams: ObjectMessage,
    ObjectDatagramMessage, the two stream headers, ObjectStreamParser
    (internal/wire) and the writers Subgroup (subgroup.go) and FetchStream
    (fetch_stream.go).

    Extension headers that may be nil are an option: [None] is the nil list. *)

From stdpp Require Import sets.
From S2P Require Import Prelude VarInt Codec WireTypes.
Local Open Scope Z_scope.

(** * object_status.go *)

Definition ObjectStatusNormal : Z := 0x00.
Definition ObjectStatusObjectDoesNotExist : Z := 0x01.
Definition ObjectStatusEndOfGroup : Z := 0x03.
Definition ObjectStatusEndOfTrack : Z := 0x04.

(** [make([]byte, n)] in a reader. *)
Definition make_bytes (n : Z) : M reader unit := fun r =>
  _ ← make_slice 1 n; Ok (tt, r).

(** * object_message.go *)

Module ObjectMessage.
Section ObjectMessage.
Context {QV : QuicVarint}.

Record t := mk {
  TrackAlias : Z;
  GroupID : Z;
  SubgroupID : Z;
  ObjectID : Z;
  PublisherPriority : Z;
  ObjectExtensionHeaders : option KVPList.t;
  ObjectStatus : Z;
  ObjectPayload : list byte }.

Definition AppendSubgroup (m : t) : appender := fun buf =>
  buf ← qv_Append (ObjectID m) buf;
  buf ← KVPList.appendLength (default [] (ObjectExtensionHeaders m)) buf;
  buf ← qv_Append (len (ObjectPayload m)) buf;
  if len (ObjectPayload m) =? 0 then qv_Append (uint64 (ObjectStatus m)) buf
  else append_bytes (ObjectPayload m) buf.

Definition AppendFetch (m : t) : appender := fun buf =>
  buf ← qv_Append (GroupID m) buf;
  buf ← qv_Append (SubgroupID m) buf;
  buf ← qv_Append (ObjectID m) buf;
  buf ← append_byte (PublisherPriority m) buf;
  buf ← KVPList.appendLength (default [] (ObjectExtensionHeaders m)) buf;
  buf ← qv_Append (len (ObjectPayload m)) buf;
  if len (ObjectPayload m) =? 0 then qv_Append (uint64 (ObjectStatus m)) buf
  else append_bytes (ObjectPayload m) buf.

(** The length, then the status of an empty object or the payload. *)
Definition read_payload : M reader (Z * list byte) :=
  length ← qv_Read;
  if length =? 0 then
    status ← qv_Read;
    mret (int64 status, [])
  else
    _ ← make_bytes length;
    payload ← ReadFull length;
    mret (0, payload).

(** [bufio.NewReader] of a [bufio.Reader] is that reader. *)
Definition readSubgroup (m : t) : M reader t :=
  objectID ← qv_Read;
  ext ← (match ObjectExtensionHeaders m with
         | Some pp => pp ← KVPList.parseLengthReader pp; mret (Some pp)
         | None => mret None
         end);
  '(status, payload) ← read_payload;
  mret (mk (TrackAlias m) (GroupID m) (SubgroupID m) objectID (PublisherPriority m)
           ext status payload).

Definition readFetch (m : t) : M reader t :=
  groupID ← qv_Read;
  subgroupID ← qv_Read;
  objectID ← qv_Read;
  priority ← ReadByte;
  ext ← KVPList.parseLengthReader (default [] (ObjectExtensionHeaders m));
  '(status, payload) ← read_payload;
  mret (mk (TrackAlias m) groupID subgroupID objectID priority (Some ext) status payload).

End ObjectMessage.
End ObjectMessage.

(** * object_datagram_message.go *)

Definition objectTypeDatagram : Z := 0x00.
Definition objectTypeDatagramExtension : Z := 0x01.
Definition objectTypeDatagramStatus : Z := 0x02.
Definition objectTypeDatagramStatusExtension : Z := 0x03.

Module ObjectDatagramMessage.
Section ObjectDatagramMessage.
Context {QV : QuicVarint}.

Record t := mk {
  TrackAlias : Z;
  GroupID : Z;
  ObjectID : Z;
  PublisherPriority : Z;
  ObjectExtensionHeaders : option KVPList.t;
  ObjectPayload : list byte;
  ObjectStatus : Z }.

Definition zero : t := mk 0 0 0 0 None [] 0.

Definition AppendDatagram (m : t) : appender := fun buf =>
  let typ := match ObjectExtensionHeaders m with
             | Some _ => objectTypeDatagramExtension
             | None => objectTypeDatagram
             end in
  buf ← qv_Append typ buf;
  buf ← qv_Append (TrackAlias m) buf;
  buf ← qv_Append (GroupID m) buf;
  buf ← qv_Append (ObjectID m) buf;
  buf ← append_byte (PublisherPriority m) buf;
  buf ← (if typ =? objectTypeDatagramExtension
         then KVPList.appendLength (default [] (ObjectExtensionHeaders m)) buf else Ok buf);
  append_bytes (ObjectPayload m) buf.

Definition AppendDatagramStatus (m : t) : appender := fun buf =>
  let typ := match ObjectExtensionHeaders m with
             | Some _ => objectTypeDatagramStatusExtension
             | None => objectTypeDatagramStatus
             end in
  buf ← qv_Append typ buf;
  buf ← qv_Append (TrackAlias m) buf;
  buf ← qv_Append (GroupID m) buf;
  buf ← qv_Append (ObjectID m) buf;
  buf ← append_byte (PublisherPriority m) buf;
  buf ← (if typ =? objectTypeDatagramExtension
         then KVPList.appendLength (default [] (ObjectExtensionHeaders m)) buf else Ok buf);
  qv_Append (uint64 (ObjectStatus m)) buf.

(** What follows the publisher priority.  [fuel] bounds the loop over the
    extension headers, [spare] are the bytes of the array behind the datagram. *)
Definition parse_body (fuel : nat) (typ trackAlias groupID objectID priority parsed : Z)
    (data spare : list byte) : res (t * Z * option error) :=
  '(ext, parsed, err) ←
    (if Z.land typ 0x01 =? 1 then
       '(pp, n, err) ← KVPList.parseLength fuel [] data spare;
       Ok (Some pp, parsed + n, err)
     else Ok (None, parsed, None));
  match err with
  | Some e => Ok (mk trackAlias groupID objectID priority ext [] 0, parsed, Some e)
  | None =>
  if Z.land typ 0x02 =? 0 then
    Ok (mk trackAlias groupID objectID priority ext data 0, parsed + len data, None)
  else
    let '(status, n, err) := qv_Parse data in
    Ok (mk trackAlias groupID objectID priority ext [] (int64 status), parsed + n, err)
  end.

(** The bytes consumed are the first answer of the source. *)
Definition Parse (fuel : nat) (data spare : list byte) : res (t * Z * option error) :=
  let '(typ, n, err) := qv_Parse data in
  let parsed := n in
  match err with
  | Some e => Ok (zero, parsed, Some e)
  | None =>
  data ← slice_from data n;
  let '(trackAlias, n, err) := qv_Parse data in
  let parsed := parsed + n in
  match err with
  | Some e => Ok (mk trackAlias 0 0 0 None [] 0, parsed, Some e)
  | None =>
  data ← slice_from data n;
  let '(groupID, n, err) := qv_Parse data in
  let parsed := parsed + n in
  match err with
  | Some e => Ok (mk trackAlias groupID 0 0 None [] 0, parsed, Some e)
  | None =>
  data ← slice_from data n;
  let '(objectID, n, err) := qv_Parse data in
  let parsed := parsed + n in
  match err with
  | Some e => Ok (mk trackAlias groupID objectID 0 None [] 0, parsed, Some e)
  | None =>
  data ← slice_from data n;
  if len data =? 0 then
    Ok (mk trackAlias groupID objectID 0 None [] 0, parsed, Some io_ErrUnexpectedEOF)
  else
  priority ← index data 0;
  let priority := byte.unsigned priority in
  let parsed := parsed + 1 in
  data ← slice_from data 1;
  parse_body fuel typ trackAlias groupID objectID priority parsed data spare
  end end end end.

End ObjectDatagramMessage.
End ObjectDatagramMessage.

(** * Stream headers *)

Definition StreamTypeFetch : Z := 0x05.
Definition StreamTypeSubgroupZeroSIDNoExt : Z := 0x08.
Definition StreamTypeSubgroupZeroSIDExt : Z := 0x09.
Definition StreamTypeSubgroupNoSIDNoExt : Z := 0x0a.
Definition StreamTypeSubgroupNoSIDExt : Z := 0x0b.
Definition StreamTypeSubgroupSIDNoExt : Z := 0x0c.
Definition StreamTypeSubgroupSIDExt : Z := 0x0d.

Module SubgroupHeaderMessage.
Section SubgroupHeaderMessage.
Context {QV : QuicVarint}.

Record t := mk { TrackAlias : Z; GroupID : Z; SubgroupID : Z; PublisherPriority : Z }.

Definition Append (m : t) : appender := fun buf =>
  buf ← qv_Append StreamTypeSubgroupSIDExt buf;
  buf ← qv_Append (TrackAlias m) buf;
  buf ← qv_Append (GroupID m) buf;
  buf ← qv_Append (SubgroupID m) buf;
  append_byte (PublisherPriority m) buf.

Definition parse (sid : bool) : M reader t :=
  trackAlias ← qv_Read;
  groupID ← qv_Read;
  subgroupID ← (if sid then qv_Read else mret 0);
  priority ← ReadByte;
  mret (mk trackAlias groupID subgroupID priority).

End SubgroupHeaderMessage.
End SubgroupHeaderMessage.

Module FetchHeaderMessage.
Section FetchHeaderMessage.
Context {QV : QuicVarint}.

Record t := mk { RequestID : Z }.

Definition Append (m : t) : appender := fun buf =>
  buf ← qv_Append StreamTypeFetch buf;
  qv_Append (RequestID m) buf.

Definition parse : M reader t :=
  requestID ← qv_Read;
  mret (mk requestID).

End FetchHeaderMessage.
End FetchHeaderMessage.

(** * object_stream_parser.go *)

Module ObjectStreamParser.
Section ObjectStreamParser.
Context {QV : QuicVarint}.

Record t := mk {
  reader_ : reader;
  typ : Z;
  identifier : Z;
  hasSubgroupID : bool;
  hasExtensions : bool;
  PublisherPriority : Z;
  GroupID : Z;
  SubgroupID : Z }.

Definition Type_ (p : t) : Z := typ p.
Definition Identifier (p : t) : Z := identifier p.

Definition is_subgroup_type (st : Z) : bool := (st >=? 0x08) && (st <=? 0x0d).

Definition NewObjectStreamParser (br : reader) : res t :=
  '(streamType, br) ← qv_Read br;
  if streamType =? StreamTypeFetch then
    '(fhm, br) ← FetchHeaderMessage.parse br;
    Ok (mk br streamType (FetchHeaderMessage.RequestID fhm) false false 0 0 0)
  else if is_subgroup_type streamType then
    let ext := Z.land streamType 0x01 >? 0 in
    let sid := (streamType =? 0x0c) || (streamType =? 0x0d) in
    '(shsm, br) ← SubgroupHeaderMessage.parse sid br;
    Ok (mk br streamType (SubgroupHeaderMessage.TrackAlias shsm)
           (negb (streamType =? 0x0a) && negb (streamType =? 0x0b)) ext
           (SubgroupHeaderMessage.PublisherPriority shsm)
           (SubgroupHeaderMessage.GroupID shsm)
           (SubgroupHeaderMessage.SubgroupID shsm))
  else Err (errInvalidStreamType streamType).

Definition parseSubgroupObject (p : t) : res (ObjectMessage.t * t) :=
  let ext := if hasExtensions p then Some [] else None in
  let m := ObjectMessage.mk (identifier p) (GroupID p) (SubgroupID p) 0
             (PublisherPriority p) ext 0 [] in
  '(m, br) ← ObjectMessage.readSubgroup m (reader_ p);
  let sid := if negb (hasSubgroupID p) then ObjectMessage.SubgroupID m else SubgroupID p in
  Ok (m, mk br (typ p) (identifier p) true (hasExtensions p)
            (PublisherPriority p) (GroupID p) sid).

Definition parseFetchObject (p : t) : res (ObjectMessage.t * t) :=
  let m := ObjectMessage.mk 0 (GroupID p) 0 0 (PublisherPriority p) None 0 [] in
  '(m, br) ← ObjectMessage.readFetch m (reader_ p);
  Ok (m, mk br (typ p) (identifier p) (hasSubgroupID p) (hasExtensions p)
            (PublisherPriority p) (GroupID p) (SubgroupID p)).

Definition Parse (p : t) : res (ObjectMessage.t * t) :=
  if typ p =? StreamTypeFetch then parseFetchObject p
  else if is_subgroup_type (typ p) then parseSubgroupObject p
  else Err (errInvalidStreamType (typ p)).

(** The sequence [Messages] yields: objects up to the first error, and the
    error.  A consumer (RemoteTrack.readStream) stops there. *)
Fixpoint Messages (fuel : nat) (p : t) : list ObjectMessage.t * res unit :=
  match fuel with
  | O => ([], NoFuel)
  | S fuel =>
      match Parse p with
      | Ok (m, p) => let '(ms, e) := Messages fuel p in (m :: ms, e)
      | Err e => ([], Err e)
      | Panic => ([], Panic)
      | NoFuel => ([], NoFuel)
      end
  end.

End ObjectStreamParser.
End ObjectStreamParser.

(** * Writing objects (subgroup.go, fetch_stream.go) *)

(** The sending side of a stream: the bytes it accepted.  The outcome of a
    [Write], [None] or an error, is up to the transport. *)
Definition SendStream : Type := list byte.

Definition Write (s : SendStream) (buf : list byte) (werr : option error) :
    SendStream * option error :=
  match werr with
  | None => (s ++ buf, None)
  | Some e => (s, Some e)
  end.

Module Subgroup.
Section Subgroup.
Context {QV : QuicVarint}.

Record t := mk { stream : SendStream; groupID : Z; subgroupID : Z }.

Definition newSubgroup (stream : SendStream) (trackAlias groupID subgroupID publisherPriority : Z)
    (werr : option error) : res t :=
  let shgm := SubgroupHeaderMessage.mk trackAlias groupID subgroupID publisherPriority in
  buf ← SubgroupHeaderMessage.Append shgm [];
  let '(stream, err) := Write stream buf werr in
  match err with
  | Some e => Err e
  | None => Ok (mk stream groupID subgroupID)
  end.

(** The bytes written and the error, with the subgroup after the write. *)
Definition WriteObject (s : t) (objectID : Z) (payload : list byte) (werr : option error) :
    res (Z * option error * t) :=
  let o := ObjectMessage.mk 0 0 0 objectID 0 None 0 payload in
  buf ← ObjectMessage.AppendSubgroup o [];
  let '(st, err) := Write (stream s) buf werr in
  let s := mk st (groupID s) (subgroupID s) in
  match err with
  | Some e => Ok (0, Some e, s)
  | None => Ok (len payload, None, s)
  end.

(** A run of successful writes. *)
Fixpoint WriteObjects (s : t) (objs : list (Z * list byte)) : res t :=
  match objs with
  | [] => Ok s
  | (objectID, payload) :: objs =>
      '(_, s) ← WriteObject s objectID payload None;
      WriteObjects s objs
  end.

End Subgroup.
End Subgroup.

Module FetchStream.
Section FetchStream.
Context {QV : QuicVarint}.

Record t := mk { stream : SendStream }.

Definition newFetchStream (stream : SendStream) (requestID : Z) (werr : option error) : res t :=
  let fhm := FetchHeaderMessage.mk requestID in
  buf ← FetchHeaderMessage.Append fhm [];
  let '(stream, err) := Write stream buf werr in
  match err with
  | Some e => Err e
  | None => Ok (mk stream)
  end.

Definition WriteObject (f : t) (groupID subgroupID objectID priority : Z) (payload : list byte)
    (werr : option error) : res (Z * option error * t) :=
  let fo := ObjectMessage.mk 0 groupID subgroupID objectID priority None 0 payload in
  buf ← ObjectMessage.AppendFetch fo [];
  let '(st, err) := Write (stream f) buf werr in
  match err with
  | Some e => Ok (0, Some e, mk st)
  | None => Ok (len payload, None, mk st)
  end.

(** Group, subgroup, object and priority of an object, and its payload. *)
Fixpoint WriteObjects (f : t) (objs : list (Z * Z * Z * Z * list byte)) : res t :=
  match objs with
  | [] => Ok f
  | (g, sg, o, prio, payload) :: objs =>
      '(_, f) ← WriteObject f g sg o prio payload None;
      WriteObjects f objs
  end.

End FetchStream.
End FetchStream.

(** * Round trips *)

Section ObjectLemmas.
Context {QV : QuicVarint} {QVL : QuicVarintLaws}.

Lemma rrt_no_headers : rrt (KVPList.appendLength []) (KVPList.parseLengthReader []) [].
Proof.
  intros buf out H. unfold KVPList.appendLength, KVPList.length_ in H.
  cbn [KVPList.length_from mbind res_bind] in H.
  inv_bind H. injection H as <-.
  eapply (rrt_last (qv_Append 0)); [by apply rrt_varint| |exact E]. intros r. reflexivity.
Qed.

Lemma rrt_payload payload :
  len payload <= maxAlloc ->
  rrt (fun buf => qv_Append (len payload) buf ≫= fun buf =>
         if len payload =? 0 then qv_Append (uint64 0) buf else append_bytes payload buf)
      ObjectMessage.read_payload (0, payload).
Proof.
  intros Hl. unfold ObjectMessage.read_payload.
  pose proof (len_nonneg payload). eapply rrt_seq; [by apply rrt_varint|]. cbn beta.
  destruct (Z.eqb_spec (len payload) 0) as [E|E].
  - destruct payload; [|rewrite len_cons in E; pose proof (len_nonneg payload); lia].
    eapply rrt_last; [apply rrt_varint; done|]. intros r. reflexivity.
  - eapply (rrt_silent _ _ _ tt).
    { intros r. unfold make_bytes. by rewrite make_slice_bytes by lia. }
    eapply rrt_last; [apply rrt_bytes|]. done.
Qed.

Hint Resolve rrt_no_headers rrt_payload : rt.

(** One object of each kind of stream. *)
Lemma parseSubgroupObject_Ok br br' alias prio g sg m :
  ObjectMessage.readSubgroup (ObjectMessage.mk alias g sg 0 prio (Some []) 0 []) br = Ok (m, br') ->
  ObjectStreamParser.Parse
    (ObjectStreamParser.mk br StreamTypeSubgroupSIDExt alias true true prio g sg)
  = Ok (m, ObjectStreamParser.mk br' StreamTypeSubgroupSIDExt alias true true prio g sg).
Proof.
  intros H. unfold ObjectStreamParser.Parse, ObjectStreamParser.parseSubgroupObject.
  cbn -[ObjectMessage.readSubgroup]. by rewrite H.
Qed.

Lemma parseSubgroupObject_nil fin alias prio g sg :
  ObjectStreamParser.Parse
    (ObjectStreamParser.mk (mkReader [] fin) StreamTypeSubgroupSIDExt alias true true prio g sg)
  = Err fin.
Proof.
  unfold ObjectStreamParser.Parse, ObjectStreamParser.parseSubgroupObject.
  cbn -[ObjectMessage.readSubgroup]. unfold ObjectMessage.readSubgroup, mbind, M_bind.
  by rewrite qv_Read_nil.
Qed.

Lemma parseFetchObject_Ok br br' rid b1 b2 prio g sg m :
  ObjectMessage.readFetch (ObjectMessage.mk 0 g 0 0 prio None 0 []) br = Ok (m, br') ->
  ObjectStreamParser.Parse (ObjectStreamParser.mk br StreamTypeFetch rid b1 b2 prio g sg)
  = Ok (m, ObjectStreamParser.mk br' StreamTypeFetch rid b1 b2 prio g sg).
Proof.
  intros H. unfold ObjectStreamParser.Parse, ObjectStreamParser.parseFetchObject.
  cbn -[ObjectMessage.readFetch]. by rewrite H.
Qed.

Lemma parseFetchObject_nil fin rid b1 b2 prio g sg :
  ObjectStreamParser.Parse
    (ObjectStreamParser.mk (mkReader [] fin) StreamTypeFetch rid b1 b2 prio g sg)
  = Err fin.
Proof.
  unfold ObjectStreamParser.Parse, ObjectStreamParser.parseFetchObject.
  cbn -[ObjectMessage.readFetch]. unfold ObjectMessage.readFetch, mbind, M_bind.
  by rewrite qv_Read_nil.
Qed.

Lemma rrt_subgroup_object alias g sg prio objectID payload :
  0 <= objectID -> len payload <= maxAlloc ->
  rrt (ObjectMessage.AppendSubgroup (ObjectMessage.mk 0 0 0 objectID 0 None 0 payload))
      (ObjectMessage.readSubgroup (ObjectMessage.mk alias g sg 0 prio (Some []) 0 []))
      (ObjectMessage.mk alias g sg objectID prio (Some []) 0 payload).
Proof.
  intros Ho Hl. unfold ObjectMessage.AppendSubgroup, ObjectMessage.readSubgroup.
  cbn [ObjectMessage.ObjectID ObjectMessage.ObjectExtensionHeaders ObjectMessage.ObjectPayload
    ObjectMessage.ObjectStatus ObjectMessage.TrackAlias ObjectMessage.GroupID
    ObjectMessage.SubgroupID ObjectMessage.PublisherPriority default].
  rrt_step; cbn beta iota.
  eapply rrt_seq; [eapply rrt_last; [apply rrt_no_headers|done]|]. cbn beta.
  eapply rrt_last; [by apply rrt_payload|]. done.
Qed.

Lemma rrt_fetch_object g sg o prio payload alias0 g0 prio0 :
  0 <= g -> 0 <= sg -> 0 <= o -> 0 <= prio < 256 -> len payload <= maxAlloc ->
  rrt (ObjectMessage.AppendFetch (ObjectMessage.mk 0 g sg o prio None 0 payload))
      (ObjectMessage.readFetch (ObjectMessage.mk alias0 g0 0 0 prio0 None 0 []))
      (ObjectMessage.mk alias0 g sg o prio (Some []) 0 payload).
Proof.
  intros Hg Hsg Ho Hp Hl. unfold ObjectMessage.AppendFetch, ObjectMessage.readFetch.
  cbn [ObjectMessage.ObjectID ObjectMessage.ObjectExtensionHeaders ObjectMessage.ObjectPayload
    ObjectMessage.ObjectStatus ObjectMessage.TrackAlias ObjectMessage.GroupID
    ObjectMessage.SubgroupID ObjectMessage.PublisherPriority default].
  do 4 (rrt_step; cbn beta iota).
  eapply rrt_seq; [apply rrt_no_headers|]. cbn beta.
  eapply rrt_last; [by apply rrt_payload|]. done.
Qed.

(** The objects of a sequence of parses, whatever the kind of stream: if each
    element of [objs] adds bytes that the parser reads back as [val], and
    reading at the end fails with the stream's error, so do all of them. *)
Lemma Messages_read {A} (val : A -> ObjectMessage.t) (wr : A -> appender)
    (p : reader -> ObjectStreamParser.t) (objs : list A) (bs : list byte) fin :
  (forall fin, ObjectStreamParser.Parse (p (mkReader [] fin)) = Err fin) ->
  (forall a buf out rest fin, a ∈ objs -> wr a buf = Ok out ->
     exists e, out = buf ++ e /\
       ObjectStreamParser.Parse (p (mkReader (e ++ rest) fin)) = Ok (val a, p (mkReader rest fin))) ->
  (exists es, bs = concat es /\ Forall2 (fun a e => wr a [] = Ok e) objs es) ->
  ObjectStreamParser.Messages (S (length objs)) (p (mkReader bs fin)) = (map val objs, Err fin).
Proof.
  intros Hend Hone (es & -> & Hes). induction Hes as [|a e objs es Ha Hes IH].
  - simpl. by rewrite Hend.
  - simpl concat. destruct (Hone a [] e (concat es) fin) as (e' & He & HP); [set_solver|done|].
    simpl in He. subst e'. specialize (IH ltac:(intros; apply Hone; [set_solver|done])).
    cbn [length]. set (n := S (length objs)) in *. cbn [ObjectStreamParser.Messages].
    by rewrite HP, IH.
Qed.

(** What one WriteObject call appends. *)
Definition append_subgroup_object (a : Z * list byte) : appender :=
  let '(o, payload) := a in
  ObjectMessage.AppendSubgroup (ObjectMessage.mk 0 0 0 o 0 None 0 payload).

Definition append_fetch_object (a : Z * Z * Z * Z * list byte) : appender :=
  let '(g, sg, o, prio, payload) := a in
  ObjectMessage.AppendFetch (ObjectMessage.mk 0 g sg o prio None 0 payload).

Lemma Subgroup_WriteObjects_bytes s objs s' :
  Subgroup.WriteObjects s objs = Ok s' ->
  exists es, Subgroup.stream s' = Subgroup.stream s ++ concat es /\
    Forall2 (fun a e => append_subgroup_object a [] = Ok e) objs es.
Proof.
  revert s. induction objs as [|[o payload] objs IH]; intros s H; cbn [Subgroup.WriteObjects] in H.
  - injection H as <-. exists []. by rewrite app_nil_r.
  - inv_bind H. destruct x as [[n e] s1]. unfold Subgroup.WriteObject in E.
    inv_bind E. cbn [Write] in E. injection E as <- <- <-.
    destruct (IH _ H) as (es & Hst & Hes). exists (x :: es). split; [|by constructor].
    rewrite Hst. cbn [Subgroup.stream concat]. by rewrite app_assoc.
Qed.

Lemma FetchStream_WriteObjects_bytes s objs s' :
  FetchStream.WriteObjects s objs = Ok s' ->
  exists es, FetchStream.stream s' = FetchStream.stream s ++ concat es /\
    Forall2 (fun a e => append_fetch_object a [] = Ok e) objs es.
Proof.
  revert s. induction objs as [|[[[[g sg] o] prio] payload] objs IH]; intros s H;
    cbn [FetchStream.WriteObjects] in H.
  - injection H as <-. exists []. by rewrite app_nil_r.
  - inv_bind H. destruct x as [[n e] s1]. unfold FetchStream.WriteObject in E.
    inv_bind E. cbn [Write] in E. injection E as <- <- <-.
    destruct (IH _ H) as (es & Hst & Hes). exists (x :: es). split; [|by constructor].
    rewrite Hst. cbn [FetchStream.stream concat]. by rewrite app_assoc.
Qed.

(** The headers. *)
Lemma subgroup_header alias g sg prio out rest fin :
  0 <= alias -> 0 <= g -> 0 <= sg -> 0 <= prio < 256 ->
  SubgroupHeaderMessage.Append (SubgroupHeaderMessage.mk alias g sg prio) [] = Ok out ->
  ObjectStreamParser.NewObjectStreamParser (mkReader (out ++ rest) fin) =
  Ok (ObjectStreamParser.mk (mkReader rest fin) StreamTypeSubgroupSIDExt alias true true prio g sg).
Proof.
  intros Ha Hg Hsg Hp H. unfold SubgroupHeaderMessage.Append in H. inv_bind H.
  apply qv_Append_inv in E as [_ ->]; [|done].
  assert (rrt (fun buf => qv_Append alias buf ≫= fun buf => qv_Append g buf ≫= fun buf =>
                 qv_Append sg buf ≫= append_byte prio)
              (SubgroupHeaderMessage.parse true) (SubgroupHeaderMessage.mk alias g sg prio)) as Hr
    by (unfold SubgroupHeaderMessage.parse; rrt_solve).
  destruct (Hr _ _ H) as (e & -> & He). cbn [app]. rewrite <- app_assoc.
  unfold ObjectStreamParser.NewObjectStreamParser. unfold mbind, res_bind.
  rewrite qv_Read_enc by done. cbn. by rewrite He.
Qed.

Lemma fetch_header rid out rest fin :
  0 <= rid -> FetchHeaderMessage.Append (FetchHeaderMessage.mk rid) [] = Ok out ->
  ObjectStreamParser.NewObjectStreamParser (mkReader (out ++ rest) fin) =
  Ok (ObjectStreamParser.mk (mkReader rest fin) StreamTypeFetch rid false false 0 0 0).
Proof.
  intros Hr H. unfold FetchHeaderMessage.Append in H. inv_bind H.
  apply qv_Append_inv in E as [_ ->]; [|done]. apply qv_Append_inv in H as [Hr' ->]; [|done].
  cbn [app FetchHeaderMessage.RequestID]. rewrite <- app_assoc.
  unfold ObjectStreamParser.NewObjectStreamParser, FetchHeaderMessage.parse.
  unfold mbind, M_bind, res_bind.
  rewrite qv_Read_enc by done. cbn [Z.eqb]. by rewrite qv_Read_enc.
Qed.

End ObjectLemmas.

(** ** Readers that make progress *)

Section Progress.
Context {QV : QuicVarint} {QVL : QuicVarintLaws}.

Lemma consumes_make_bytes n : consumes 0 (make_bytes n).
Proof.
  intros r. unfold make_bytes, make_slice.
  destruct (_ && _); (split; [done|]); [|done]. intros a r' [= <- <-]. by exists [].
Qed.

Hint Resolve consumes_make_bytes : rt.

Lemma consumes_KeyValuePair : consumes 1 KeyValuePair.parseReader.
Proof.
  unfold KeyValuePair.parseReader. apply consumes_bind; [apply consumes_varint|]. intros ty.
  change (fun r => _ ← make_slice 1 ?n; Ok (tt, r)) with (make_bytes n).
  destruct (ty mod 2 =? 1); (apply consumes_bind; [by auto with rt|]); intros n; [|auto with rt].
  apply (consumes_bind 0 (make_bytes n)); [by auto with rt|]. intros _.
  apply consumes_bind; auto with rt.
Qed.

(** The loop over extension headers ends, and never with headers. *)
Lemma read_elements_never_Ok fuel pp r x : KVPList.read_elements fuel pp r <> Ok x.
Proof.
  revert pp r. induction fuel as [|fuel IH]; intros pp r; cbn [KVPList.read_elements]; [done|].
  unfold mbind, res_bind. destruct (KeyValuePair.parseReader r) as [[h r']| | |]; [|done..]. apply IH.
Qed.

Lemma read_elements_terminates fuel pp r :
  (length (rd_bytes r) < fuel)%nat -> KVPList.read_elements fuel pp r <> NoFuel.
Proof.
  revert pp r. induction fuel as [|fuel IH]; intros pp r Hf; [lia|]. cbn [KVPList.read_elements].
  destruct (consumes_KeyValuePair r) as [Hn Hok]. unfold mbind, res_bind.
  destruct (KeyValuePair.parseReader r) as [[h r']| | |]; [|done..].
  destruct (Hok _ _ eq_refl) as (pre & Hr & Hk & _). apply IH.
  rewrite Hr, length_app in Hf. lia.
Qed.

Lemma parseLengthReader_inv pp r :
  KVPList.parseLengthReader pp r <> NoFuel /\
  forall pp' r', KVPList.parseLengthReader pp r = Ok (pp', r') ->
    pp' = pp /\ qv_Read r = Ok (0, r').
Proof.
  unfold KVPList.parseLengthReader, mbind, M_bind. destruct (consumes_varint r) as [Hn _].
  destruct (qv_Read r) as [[l r1]| | |]; [|done..].
  destruct (Z.eqb_spec l 0) as [->|Hl].
  - split; [done|]. intros pp' r' [= <- <-]. done.
  - unfold KVPList.read_limited. split.
    + apply read_elements_terminates. lia.
    + intros pp' r' H. by apply read_elements_never_Ok in H.
Qed.

Lemma consumes_headers pp : consumes 0 (KVPList.parseLengthReader pp).
Proof.
  intros r. destruct (parseLengthReader_inv pp r) as [Hn Hok]. split; [done|].
  intros a r' H. apply Hok in H as [_ H]. by apply (proj2 (consumes_varint0 r)) in H.
Qed.

Hint Resolve consumes_headers : rt.

Lemma consumes_payload : consumes 0 ObjectMessage.read_payload.
Proof.
  unfold ObjectMessage.read_payload. apply consumes_bind; [auto with rt|]. intros l.
  destruct (l =? 0); repeat (apply consumes_bind; [by auto with rt|intros]); auto with rt.
Qed.

Lemma consumes_readSubgroup m : consumes 1 (ObjectMessage.readSubgroup m).
Proof.
  unfold ObjectMessage.readSubgroup. apply consumes_bind; [auto with rt|]. intros o.
  apply consumes_bind.
  { destruct (ObjectMessage.ObjectExtensionHeaders m); [|auto with rt].
    apply consumes_bind; auto with rt. }
  intros ext. apply consumes_bind; [apply consumes_payload|]. intros [st p]. auto with rt.
Qed.

Lemma consumes_readFetch m : consumes 1 (ObjectMessage.readFetch m).
Proof.
  unfold ObjectMessage.readFetch. apply consumes_bind; [auto with rt|]. intros g.
  do 4 (apply consumes_bind; [by auto with rt|intros ?]).
  apply consumes_bind; [apply consumes_payload|]. intros [st p]. auto with rt.
Qed.

Lemma Parse_progress p :
  ObjectStreamParser.Parse p <> NoFuel /\
  forall m p', ObjectStreamParser.Parse p = Ok (m, p') ->
    (length (rd_bytes (ObjectStreamParser.reader_ p'))
     < length (rd_bytes (ObjectStreamParser.reader_ p)))%nat.
Proof.
  unfold ObjectStreamParser.Parse. destruct (_ =? _).
  - unfold ObjectStreamParser.parseFetchObject, mbind, res_bind.
    set (m0 := ObjectMessage.mk _ _ _ _ _ _ _ _).
    destruct (consumes_readFetch m0 (ObjectStreamParser.reader_ p)) as [Hn Hok].
    destruct (ObjectMessage.readFetch m0 _) as [[m r]| | |]; (split; [done|]); [|done..].
    intros m' p' [= <- <-]. destruct (Hok _ _ eq_refl) as (pre & -> & Hk & _).
    rewrite length_app. simpl. lia.
  - destruct (ObjectStreamParser.is_subgroup_type _); [|done].
    unfold ObjectStreamParser.parseSubgroupObject, mbind, res_bind.
    set (m0 := ObjectMessage.mk _ _ _ _ _ _ _ _).
    destruct (consumes_readSubgroup m0 (ObjectStreamParser.reader_ p)) as [Hn Hok].
    destruct (ObjectMessage.readSubgroup m0 _) as [[m r]| | |]; (split; [done|]); [|done..].
    intros m' p' [= <- <-]. destruct (Hok _ _ eq_refl) as (pre & -> & Hk & _).
    rewrite length_app. simpl. lia.
Qed.

(** Parsers that have read a header of the subgroup kind. *)
Definition subgroup_parser (alias g sg prio : Z) (p : ObjectStreamParser.t) : Prop :=
  ObjectStreamParser.is_subgroup_type (ObjectStreamParser.typ p) = true /\
  ObjectStreamParser.typ p <> StreamTypeFetch /\
  ObjectStreamParser.identifier p = alias /\ ObjectStreamParser.GroupID p = g /\
  ObjectStreamParser.SubgroupID p = sg /\ ObjectStreamParser.PublisherPriority p = prio.

Definition subgroup_object (alias g sg prio : Z) (m : ObjectMessage.t) : Prop :=
  ObjectMessage.TrackAlias m = alias /\ ObjectMessage.GroupID m = g /\
  ObjectMessage.SubgroupID m = sg /\ ObjectMessage.PublisherPriority m = prio /\
  default [] (ObjectMessage.ObjectExtensionHeaders m) = [].

Lemma readSubgroup_keeps m r m' r' :
  default [] (ObjectMessage.ObjectExtensionHeaders m) = [] ->
  ObjectMessage.readSubgroup m r = Ok (m', r') ->
  subgroup_object (ObjectMessage.TrackAlias m) (ObjectMessage.GroupID m)
    (ObjectMessage.SubgroupID m) (ObjectMessage.PublisherPriority m) m'.
Proof.
  intros Hext H. unfold ObjectMessage.readSubgroup in H.
  inv_M H. inv_M H. inv_M H. destruct x3 as [st pl].
  injection H as <- <-. repeat split. cbn [ObjectMessage.ObjectExtensionHeaders].
  destruct (ObjectMessage.ObjectExtensionHeaders m) as [pp|]; simpl in Hext.
  - inv_M E0. injection E0 as <- <-. apply parseLengthReader_inv in E2 as [-> _]. done.
  - injection E0 as <- <-. done.
Qed.

Lemma subgroup_parser_step alias g sg prio p m p' :
  subgroup_parser alias g sg prio p -> ObjectStreamParser.Parse p = Ok (m, p') ->
  subgroup_parser alias g sg prio p' /\ subgroup_object alias g sg prio m.
Proof.
  intros (Hst & Hnf & Hid & Hg & Hsg & Hp) H. unfold ObjectStreamParser.Parse in H.
  apply Z.eqb_neq in Hnf. rewrite Hnf, Hst in H.
  unfold ObjectStreamParser.parseSubgroupObject in H.
  inv_bind H. destruct x as [m1 r1]. injection H as <- <-.
  assert (subgroup_object alias g sg prio m1) as Ho.
  { rewrite <- Hid, <- Hg, <- Hsg, <- Hp. eapply readSubgroup_keeps in E; [exact E|].
    cbn. by destruct (ObjectStreamParser.hasExtensions p). }
  split; [|done]. apply Z.eqb_neq in Hnf. repeat split; try done. cbn.
  destruct (ObjectStreamParser.hasSubgroupID p); [done|]. apply Ho.
Qed.

Lemma Messages_subgroup alias g sg prio fuel p ms e :
  subgroup_parser alias g sg prio p ->
  ObjectStreamParser.Messages fuel p = (ms, e) ->
  Forall (subgroup_object alias g sg prio) ms.
Proof.
  revert p ms e. induction fuel as [|fuel IH]; intros p ms e Hp H;
    cbn [ObjectStreamParser.Messages] in H; [by injection H as <- <-|].
  destruct (ObjectStreamParser.Parse p) as [[m p']| | |] eqn:E; [|by injection H as <- <-..].
  destruct (ObjectStreamParser.Messages fuel p') as [ms' e'] eqn:Em. injection H as <- <-.
  destruct (subgroup_parser_step _ _ _ _ _ _ _ Hp E) as [Hp' Hm].
  constructor; [done|]. by eapply IH.
Qed.

Lemma Messages_terminates fuel p :
  (length (rd_bytes (ObjectStreamParser.reader_ p)) < fuel)%nat ->
  (ObjectStreamParser.Messages fuel p).2 <> NoFuel.
Proof.
  revert p. induction fuel as [|fuel IH]; intros p Hf; [lia|]. cbn [ObjectStreamParser.Messages].
  destruct (Parse_progress p) as [Hn Hok].
  destruct (ObjectStreamParser.Parse p) as [[m p']| | |]; [|done..].
  specialize (Hok _ _ eq_refl). specialize (IH p' ltac:(lia)).
  by destruct (ObjectStreamParser.Messages fuel p').
Qed.

Lemma NewObjectStreamParser_subgroup r p :
  ObjectStreamParser.NewObjectStreamParser r = Ok p ->
  ObjectStreamParser.typ p <> StreamTypeFetch ->
  subgroup_parser (ObjectStreamParser.Identifier p) (ObjectStreamParser.GroupID p)
    (ObjectStreamParser.SubgroupID p) (ObjectStreamParser.PublisherPriority p) p /\
  ((ObjectStreamParser.typ p = StreamTypeSubgroupSIDNoExt \/
    ObjectStreamParser.typ p = StreamTypeSubgroupSIDExt) \/ ObjectStreamParser.SubgroupID p = 0).
Proof.
  unfold ObjectStreamParser.NewObjectStreamParser. intros H Hf. inv_bind H. destruct x as [st r1].
  destruct (Z.eqb_spec st StreamTypeFetch) as [->|Hne].
  { inv_bind H. destruct x as [fhm r2]. injection H as <-. done. }
  destruct (ObjectStreamParser.is_subgroup_type st) eqn:Hst; [|done].
  inv_bind H. destruct x as [h r2]. injection H as <-. cbn in *.
  split; [by repeat split|]. unfold StreamTypeSubgroupSIDNoExt, StreamTypeSubgroupSIDExt.
  destruct (Z.eqb_spec st 12); [by left; left|]. destruct (Z.eqb_spec st 13); [by left; right|].
  right. cbn [orb] in E0. unfold SubgroupHeaderMessage.parse in E0.
  do 4 inv_M E0. injection E0 as <- <-. by injection E3 as <- <-.
Qed.

(** What follows the headers of an object only adds to the buffer. *)
Lemma object_tail payload status buf out :
  (buf ← qv_Append (len payload) buf;
   if len payload =? 0 then qv_Append (uint64 status) buf else append_bytes payload buf) = Ok out ->
  exists e, out = buf ++ e.
Proof.
  intros H. inv_bind H. apply qv_Append_inv in E as [_ ->]; [|auto with moqt].
  destruct (_ =? 0).
  - apply qv_Append_inv in H as [_ ->]; [|apply Z.mod_pos_bound; lia].
    eexists. by rewrite <- app_assoc.
  - injection H as <-. eexists. by rewrite <- app_assoc.
Qed.

(** The length in front of a non-empty list of headers. *)
Lemma appendLength_inv pp buf out :
  KVPList.wf pp -> pp <> [] -> len out < 2 ^ 64 -> KVPList.appendLength pp buf = Ok out ->
  exists l e, out = buf ++ qv_enc l ++ e /\ 0 <= l <= maxVarInt /\ l <> 0.
Proof.
  intros Hwf Hne Hout H. unfold KVPList.appendLength, KVPList.length_ in H.
  inv_bind H. inv_bind H. destruct (KVPList_append_inv _ _ _ Hwf H) as (e & -> & Hlen & HL & _).
  rewrite HL in E by lia. rewrite len_app in Hout. pose proof (len_nonneg e). pose proof (len_nonneg x0).
  rewrite uint64_small in E by lia. injection E as <-.
  apply qv_Append_inv in E0 as [Hr ->]; [|lia].
  exists (len e), e. rewrite <- app_assoc. split_and!; [done|lia|lia|].
  destruct pp; [done|]. simpl in Hlen. unfold len. lia.
Qed.

End Progress.

(** ** Datagrams *)

Section Datagrams.
Context {QV : QuicVarint} {QVL : QuicVarintLaws}.

(** The fields in front of the extension headers, whatever comes next. *)
Definition datagram_fields (typ alias g o prio : Z) : list byte :=
  qv_enc typ ++ qv_enc alias ++ qv_enc g ++ qv_enc o ++ [byte.of_Z prio].

Lemma datagram_fields_append {A} typ alias g o prio (k : list byte -> res A) out :
  0 <= typ -> 0 <= alias -> 0 <= g -> 0 <= o ->
  (buf ← qv_Append typ []; buf ← qv_Append alias buf; buf ← qv_Append g buf;
   buf ← qv_Append o buf; buf ← append_byte prio buf; k buf) = Ok out ->
  (0 <= typ <= maxVarInt /\ 0 <= alias <= maxVarInt /\ 0 <= g <= maxVarInt /\ 0 <= o <= maxVarInt) /\
  k (datagram_fields typ alias g o prio) = Ok out.
Proof.
  intros Ht Ha Hg Ho H. do 4 (inv_bind H; apply qv_Append_inv in E as [? ->]; [|done]).
  inv_bind H. injection E as <-. split; [done|]. unfold datagram_fields.
  by rewrite <- !app_assoc in H.
Qed.

Lemma datagram_fields_parse fuel typ alias g o prio rest spare :
  0 <= typ <= maxVarInt /\ 0 <= alias <= maxVarInt /\ 0 <= g <= maxVarInt /\ 0 <= o <= maxVarInt ->
  0 <= prio < 256 ->
  ObjectDatagramMessage.Parse fuel (datagram_fields typ alias g o prio ++ rest) spare =
  ObjectDatagramMessage.parse_body fuel typ alias g o prio
    (len (datagram_fields typ alias g o prio)) rest spare.
Proof.
  intros (Ht & Ha & Hg & Ho) Hp. unfold ObjectDatagramMessage.Parse, datagram_fields.
  rewrite <- !app_assoc.
  do 4 (rewrite qv_Parse_enc, slice_after_enc by done; unfold mbind at 1, res_bind at 1).
  change ([?b] ++ ?l) with (b :: l). rewrite len_cons. pose proof (len_nonneg rest).
  replace (1 + len rest =? 0) with false by lia.
  unfold mbind, res_bind. rewrite (slice_from_app [byte.of_Z prio] rest : slice_from (_ :: rest) 1 = _).
  change (index (byte.of_Z prio :: rest) 0) with (Ok (byte.of_Z prio)). cbn iota.
  rewrite byte_of_Z_small by done. f_equal. rewrite !len_app, len_cons, len_nil. lia.
Qed.

Lemma qv_Parse_enc_nil x : 0 <= x <= maxVarInt -> qv_Parse (qv_enc x) = (x, len (qv_enc x), None).
Proof. intros Hx. pose proof (qv_Parse_enc x [] Hx) as H. by rewrite app_nil_r in H. Qed.

(** The loop over the headers of a datagram never advances. *)
Lemma parseLength_elements_diverges fuel pp parsed data spare p n :
  0 < len data -> KeyValuePair.parse data spare = Ok (p, n, None) ->
  KVPList.parseLength_elements fuel pp parsed data spare = NoFuel.
Proof.
  intros Hd Hp. revert pp parsed. induction fuel as [|fuel IH]; intros pp parsed;
    cbn [KVPList.parseLength_elements]; replace (0 <? len data) with true by lia; [done|].
  unfold mbind, res_bind. by rewrite Hp.
Qed.

Lemma parseLength_diverges pp buf out :
  KVPList.wf pp -> pp <> [] -> len out < 2 ^ 64 -> KVPList.appendLength pp buf = Ok out ->
  exists e, out = buf ++ e /\
    forall fuel rest spare, KVPList.parseLength fuel [] (e ++ rest) spare = NoFuel.
Proof.
  intros Hwf Hne Hout H. unfold KVPList.appendLength, KVPList.length_ in H.
  inv_bind H. inv_bind H. destruct (KVPList_append_inv _ _ _ Hwf H) as (e & -> & Hlen & HL & _).
  rewrite HL in E by lia. rewrite len_app in Hout. pose proof (len_nonneg e). pose proof (len_nonneg x0).
  rewrite uint64_small in E by lia. injection E as <-. clear HL.
  apply qv_Append_inv in E0 as [Hr ->]; [|lia].
  destruct pp as [|p pp]; [done|]. cbn [KVPList.append] in H. inv_bind H.
  inversion_clear Hwf as [|? ? Hp Hpp].
  destruct (KeyValuePair_append_inv _ _ _ Hp E) as (e1 & -> & Hl1 & _ & HP & _).
  destruct (KVPList_append_inv _ _ _ Hpp H) as (e2 & Heq & _).
  rewrite <- !app_assoc in Heq. do 2 apply app_inv_head in Heq. subst e.
  exists (qv_enc (0 + len (e1 ++ e2)) ++ e1 ++ e2). rewrite <- !app_assoc. split; [done|].
  intros fuel rest spare. unfold KVPList.parseLength.
  rewrite <- !app_assoc, qv_Parse_enc, slice_after_enc by done. unfold mbind, res_bind.
  rewrite Z.add_0_l.
  replace ((e1 ++ e2 ++ rest) ++ spare) with ((e1 ++ e2) ++ rest ++ spare)
    by (by rewrite <- !app_assoc).
  rewrite slice_to_app, slice_from_app.
  eapply parseLength_elements_diverges; [|apply HP]. rewrite len_app.
  pose proof (len_nonneg e2). unfold len. lia.
Qed.

End Datagrams.

Section ObjectTheorems.
Context {QV : QuicVarint} {QVL : QuicVarintLaws}.

(** The bytes a publisher writes, read from the start of the stream. *)
Lemma subgroup_stream_read alias g sg prio objs s0 s :
  0 <= alias -> 0 <= g -> 0 <= sg -> 0 <= prio < 256 ->
  Forall (fun '(o, payload) => 0 <= o /\ len payload <= maxAlloc) objs ->
  Subgroup.newSubgroup [] alias g sg prio None = Ok s0 ->
  Subgroup.WriteObjects s0 objs = Ok s ->
  exists p,
    ObjectStreamParser.NewObjectStreamParser (mkReader (Subgroup.stream s) io_EOF) = Ok p /\
    ObjectStreamParser.Type_ p = StreamTypeSubgroupSIDExt /\
    ObjectStreamParser.Identifier p = alias /\
    ObjectStreamParser.Messages (S (length objs)) p =
      (map (fun '(o, payload) => ObjectMessage.mk alias g sg o prio (Some []) 0 payload) objs,
       Err io_EOF).
Proof.
  intros Ha Hg Hsg Hp Hobjs Hnew Hw.
  destruct (Subgroup_WriteObjects_bytes _ _ _ Hw) as (es & Hst & Hes).
  unfold Subgroup.newSubgroup in Hnew. inv_bind Hnew. injection Hnew as <-.
  cbn [Subgroup.stream app] in Hst. rewrite Hst. clear Hst Hw s.
  eexists. split; [by apply (subgroup_header alias g sg prio)|]. split_and!; [done|done|].
  set (P br := ObjectStreamParser.mk br StreamTypeSubgroupSIDExt alias true true prio g sg).
  apply (Messages_read _ append_subgroup_object P).
  - intros fin. by apply parseSubgroupObject_nil.
  - intros [o payload] buf out rest fin Hin HA.
    destruct (proj1 (list.Forall_forall _ _) Hobjs _ Hin) as [Ho Hl].
    destruct (rrt_subgroup_object alias g sg prio o payload Ho Hl _ _ HA) as (e & -> & He).
    exists e. split; [done|]. by apply parseSubgroupObject_Ok.
  - exists es. done.
Qed.

(** C17: What a publisher writes on a subgroup stream is what the subscriber's
    parser delivers: after newSubgroup and any sequence of successful
    WriteObject calls, reading the closed stream gives the track alias and the
    objects, each with its group, subgroup, priority, ID and payload, in order,
    and then io.EOF. *)
Theorem subgroup_stream_roundtrip alias g sg prio objs s0 s :
  0 <= alias -> 0 <= g -> 0 <= sg -> 0 <= prio < 256 ->
  Forall (fun '(o, payload) => 0 <= o /\ len payload <= maxAlloc) objs ->
  Subgroup.newSubgroup [] alias g sg prio None = Ok s0 ->
  Subgroup.WriteObjects s0 objs = Ok s ->
  exists p,
    ObjectStreamParser.NewObjectStreamParser (mkReader (Subgroup.stream s) io_EOF) = Ok p /\
    ObjectStreamParser.Type_ p = StreamTypeSubgroupSIDExt /\
    ObjectStreamParser.Identifier p = alias /\
    ObjectStreamParser.Messages (S (length objs)) p =
      (map (fun '(o, payload) => ObjectMessage.mk alias g sg o prio (Some []) 0 payload) objs,
       Err io_EOF).
Proof. apply subgroup_stream_read. Qed.

(** The same for a fetch stream: every object arrives with the group,
    subgroup, object ID and priority it was written with, in order, and then
    io.EOF. *)
Theorem fetch_stream_roundtrip rid objs s0 s :
  0 <= rid ->
  Forall (fun '(g, sg, o, prio, payload) =>
    (0 <= g /\ 0 <= sg /\ 0 <= o) /\ 0 <= prio < 256 /\ len payload <= maxAlloc) objs ->
  FetchStream.newFetchStream [] rid None = Ok s0 ->
  FetchStream.WriteObjects s0 objs = Ok s ->
  exists p,
    ObjectStreamParser.NewObjectStreamParser (mkReader (FetchStream.stream s) io_EOF) = Ok p /\
    ObjectStreamParser.Type_ p = StreamTypeFetch /\
    ObjectStreamParser.Identifier p = rid /\
    ObjectStreamParser.Messages (S (length objs)) p =
      (map (fun '(g, sg, o, prio, payload) =>
              ObjectMessage.mk 0 g sg o prio (Some []) 0 payload) objs,
       Err io_EOF).
Proof.
  intros Hr Hobjs Hnew Hw.
  destruct (FetchStream_WriteObjects_bytes _ _ _ Hw) as (es & Hst & Hes).
  unfold FetchStream.newFetchStream in Hnew. inv_bind Hnew. injection Hnew as <-.
  cbn [FetchStream.stream app] in Hst. rewrite Hst. clear Hst Hw s.
  eexists. split; [by apply (fetch_header rid)|]. split_and!; [done|done|].
  set (P br := ObjectStreamParser.mk br StreamTypeFetch rid false false 0 0 0).
  apply (Messages_read _ append_fetch_object P).
  - intros fin. apply parseFetchObject_nil.
  - intros [[[[g sg] o] prio] payload] buf out rest fin Hin HA.
    destruct (proj1 (list.Forall_forall _ _) Hobjs _ Hin) as ((Hg & Hsg & Ho) & Hp & Hl).
    destruct (rrt_fetch_object g sg o prio payload 0 0 0 Hg Hsg Ho Hp Hl _ _ HA) as (e & -> & He).
    exists e. split; [done|]. by apply parseFetchObject_Ok.
  - exists es. done.
Qed.

(** Whatever bytes arrive on a subgroup stream, reading it comes to an end,
    and every object delivered carries the track alias, group, subgroup and
    priority of the stream's header and no extension headers. *)
Theorem subgroup_stream_safe r p fuel ms e :
  ObjectStreamParser.NewObjectStreamParser r = Ok p ->
  ObjectStreamParser.Type_ p <> StreamTypeFetch ->
  (length (rd_bytes (ObjectStreamParser.reader_ p)) < fuel)%nat ->
  ObjectStreamParser.Messages fuel p = (ms, e) ->
  e <> NoFuel /\
  Forall (fun m =>
    ObjectMessage.TrackAlias m = ObjectStreamParser.Identifier p /\
    ObjectMessage.GroupID m = ObjectStreamParser.GroupID p /\
    ObjectMessage.SubgroupID m = ObjectStreamParser.SubgroupID p /\
    ObjectMessage.PublisherPriority m = ObjectStreamParser.PublisherPriority p /\
    default [] (ObjectMessage.ObjectExtensionHeaders m) = []) ms.
Proof.
  intros HN Hf Hfuel H. split.
  - pose proof (Messages_terminates _ _ Hfuel) as Ht. by rewrite H in Ht.
  - destruct (NewObjectStreamParser_subgroup _ _ HN Hf) as [Hp _].
    exact (Messages_subgroup _ _ _ _ _ _ _ _ Hp H).
Qed.

(** A subgroup stream whose type says that the subgroup ID is the ID of its
    first object (0x0a, 0x0b) delivers every object with subgroup ID 0. *)
Theorem subgroup_no_sid_zero r p fuel ms e :
  ObjectStreamParser.NewObjectStreamParser r = Ok p ->
  ObjectStreamParser.Type_ p = StreamTypeSubgroupNoSIDNoExt \/
  ObjectStreamParser.Type_ p = StreamTypeSubgroupNoSIDExt ->
  ObjectStreamParser.Messages fuel p = (ms, e) ->
  Forall (fun m => ObjectMessage.SubgroupID m = 0) ms.
Proof.
  intros HN Ht H. unfold ObjectStreamParser.Type_ in Ht.
  assert (ObjectStreamParser.typ p <> StreamTypeFetch) as Hf by (by destruct Ht as [-> | ->]).
  destruct (NewObjectStreamParser_subgroup _ _ HN Hf) as [Hp Hs].
  assert (ObjectStreamParser.SubgroupID p = 0) as H0.
  { destruct Hs as [[Hs|Hs]|Hs]; [..|done]; destruct Ht as [Ht|Ht]; by rewrite Ht in Hs. }
  rewrite H0 in Hp. pose proof (Messages_subgroup _ _ _ _ _ _ _ _ Hp H) as HF.
  revert HF. apply Forall_impl. intros m. unfold subgroup_object. tauto.
Qed.

(** Extension headers written by AppendSubgroup cannot be read back: from
    the bytes of an object with at least one header, readSubgroup never
    delivers an object, whatever follows them; it ends in an error or a
    panic. *)
Theorem headers_never_delivered m pp buf out :
  0 <= ObjectMessage.ObjectID m ->
  ObjectMessage.ObjectExtensionHeaders m = Some pp -> KVPList.wf pp -> pp <> [] ->
  len out < 2 ^ 64 -> ObjectMessage.AppendSubgroup m buf = Ok out ->
  exists e, out = buf ++ e /\
    forall m0 pp0 rest fin,
      ObjectMessage.ObjectExtensionHeaders m0 = Some pp0 ->
      ObjectMessage.readSubgroup m0 (mkReader (e ++ rest) fin) <> NoFuel /\
      forall x, ObjectMessage.readSubgroup m0 (mkReader (e ++ rest) fin) <> Ok x.
Proof.
  intros Ho Hm Hwf Hne Hout H. unfold ObjectMessage.AppendSubgroup in H. rewrite Hm in H.
  inv_bind H. apply qv_Append_inv in E as [Hor ->]; [|done]. inv_bind H.
  destruct (object_tail _ _ _ _ H) as [e2 ->]. rewrite len_app in Hout. pose proof (len_nonneg e2).
  apply (appendLength_inv pp) in E as (l & e1 & -> & Hl & Hl0); [|done..|lia].
  exists (qv_enc (ObjectMessage.ObjectID m) ++ qv_enc l ++ e1 ++ e2).
  split; [by rewrite <- !app_assoc|]. intros m0 pp0 rest fin Hm0.
  split; [apply (consumes_readSubgroup m0)|]. intros [m' r'] Hx.
  unfold ObjectMessage.readSubgroup in Hx. rewrite Hm0 in Hx.
  inv_M Hx. rewrite <- app_assoc, qv_Read_enc in E by done. injection E as <- <-.
  inv_M Hx. inv_M E. apply parseLengthReader_inv in E0 as [_ E0].
  rewrite <- app_assoc, qv_Read_enc in E0 by done. by injection E0 as ? _.
Qed.

(** A datagram that AppendDatagram made, without extension headers. *)
Lemma datagram_parsed m out fuel spare :
  0 <= ObjectDatagramMessage.TrackAlias m -> 0 <= ObjectDatagramMessage.GroupID m ->
  0 <= ObjectDatagramMessage.ObjectID m -> 0 <= ObjectDatagramMessage.PublisherPriority m < 256 ->
  ObjectDatagramMessage.ObjectStatus m = 0 -> ObjectDatagramMessage.ObjectExtensionHeaders m = None ->
  ObjectDatagramMessage.AppendDatagram m [] = Ok out ->
  ObjectDatagramMessage.Parse fuel out spare = Ok (m, len out, None).
Proof.
  destruct m as [alias g o prio ext payload status]. unfold ObjectDatagramMessage.AppendDatagram.
  cbn. intros Ha Hg Ho Hp -> -> H. apply datagram_fields_append in H as [Hb H]; [|done..]. cbn in H.
  injection H as <-. rewrite datagram_fields_parse by done.
  unfold ObjectDatagramMessage.parse_body. cbn. by rewrite len_app.
Qed.

(** A datagram without extension headers is parsed back as the object that
    was sent, to its last byte; so is the status of an empty object. *)
Theorem datagram_roundtrip m out fuel spare :
  0 <= ObjectDatagramMessage.TrackAlias m -> 0 <= ObjectDatagramMessage.GroupID m ->
  0 <= ObjectDatagramMessage.ObjectID m -> 0 <= ObjectDatagramMessage.PublisherPriority m < 256 ->
  0 <= ObjectDatagramMessage.ObjectStatus m < 2 ^ 63 ->
  ObjectDatagramMessage.ObjectExtensionHeaders m = None ->
  (ObjectDatagramMessage.ObjectStatus m = 0 /\
   ObjectDatagramMessage.AppendDatagram m [] = Ok out) \/
  (ObjectDatagramMessage.ObjectPayload m = [] /\
   ObjectDatagramMessage.AppendDatagramStatus m [] = Ok out) ->
  ObjectDatagramMessage.Parse fuel out spare = Ok (m, len out, None).
Proof.
  intros Ha Hg Ho Hp Hs He [[Hz H]|[Hz H]]; [by apply datagram_parsed|].
  destruct m as [alias g o prio ext payload status].
  unfold ObjectDatagramMessage.AppendDatagramStatus in H. cbn in *. subst ext payload.
  apply datagram_fields_append in H as [Hb H]; [|done..]. cbn in H.
  rewrite uint64_small in H by lia. apply qv_Append_inv in H as [Hst ->]; [|lia].
  rewrite datagram_fields_parse by done. unfold ObjectDatagramMessage.parse_body. cbn.
  rewrite qv_Parse_enc_nil by done. by rewrite varint_int64, len_app.
Qed.

(** C40: A datagram sent with extension headers hangs its receiver: the loop of
    KVPList.parseLength never advances, so that on the datagram AppendDatagram
    makes of a non-empty list of headers the parser reaches no result, however
    many iterations it is given. *)
Theorem datagram_headers_diverge m pp out fuel spare :
  0 <= ObjectDatagramMessage.TrackAlias m -> 0 <= ObjectDatagramMessage.GroupID m ->
  0 <= ObjectDatagramMessage.ObjectID m -> 0 <= ObjectDatagramMessage.PublisherPriority m < 256 ->
  ObjectDatagramMessage.ObjectExtensionHeaders m = Some pp -> KVPList.wf pp -> pp <> [] ->
  len out < 2 ^ 64 -> ObjectDatagramMessage.AppendDatagram m [] = Ok out ->
  ObjectDatagramMessage.Parse fuel out spare = NoFuel.
Proof.
  destruct m as [alias g o prio ext payload status]. unfold ObjectDatagramMessage.AppendDatagram.
  cbn -[append_byte KVPList.appendLength Z.pow]. intros Ha Hg Ho Hp -> Hwf Hne Hlen H.
  apply datagram_fields_append in H as [Hb H]; [|done..]. cbn -[KVPList.appendLength] in H.
  inv_bind H. injection H as <-. rewrite len_app in Hlen. pose proof (len_nonneg payload).
  apply (parseLength_diverges pp) in E as (e & -> & Hdiv); [|done..|lia].
  rewrite <- app_assoc, datagram_fields_parse by done.
  unfold ObjectDatagramMessage.parse_body. cbn -[KVPList.parseLength]. by rewrite Hdiv.
Qed.

End ObjectTheorems.

(** ** At concrete inputs *)

Definition bytes_of (l : list Z) : list byte := map byte.of_Z l.

Lemma subgroup_stream_roundtrip_witness :
  exists s0 s p,
    Subgroup.newSubgroup [] 7 1 2 128 None = Ok s0 /\
    Subgroup.WriteObjects s0 [(0, bytes_of [1; 2; 3]); (300, [])] = Ok s /\
    ObjectStreamParser.Messages 3 p =
      ([ObjectMessage.mk 7 1 2 0 128 (Some []) 0 (bytes_of [1; 2; 3]);
        ObjectMessage.mk 7 1 2 300 128 (Some []) 0 []], Err io_EOF).
Proof.
  destruct (subgroup_stream_roundtrip 7 1 2 128 [(0, bytes_of [1; 2; 3]); (300, [])]
    (Subgroup.mk (bytes_of [0x0d; 7; 1; 2; 128]) 1 2)
    (Subgroup.mk (bytes_of [0x0d; 7; 1; 2; 128; 0; 0; 3; 1; 2; 3; 0x41; 0x2c; 0; 0; 0]) 1 2))
    as (p & HN & _ & _ & HM); [lia..| |vm_compute; reflexivity|vm_compute; reflexivity|].
  - repeat constructor; vm_compute; discriminate.
  - eexists _, _, p. split; [vm_compute; reflexivity|]. split; [vm_compute; reflexivity|]. exact HM.
Defined.

Lemma fetch_stream_roundtrip_witness :
  exists s0 s p,
    FetchStream.newFetchStream [] 4 None = Ok s0 /\
    FetchStream.WriteObjects s0 [(1, 2, 3, 128, bytes_of [9]); (1, 2, 4, 0, [])] = Ok s /\
    ObjectStreamParser.Messages 3 p =
      ([ObjectMessage.mk 0 1 2 3 128 (Some []) 0 (bytes_of [9]);
        ObjectMessage.mk 0 1 2 4 0 (Some []) 0 []], Err io_EOF).
Proof.
  destruct (fetch_stream_roundtrip 4 [(1, 2, 3, 128, bytes_of [9]); (1, 2, 4, 0, [])]
    (FetchStream.mk (bytes_of [5; 4]))
    (FetchStream.mk (bytes_of [5; 4; 1; 2; 3; 128; 0; 1; 9; 1; 2; 4; 0; 0; 0; 0])))
    as (p & HN & _ & _ & HM); [lia| |vm_compute; reflexivity|vm_compute; reflexivity|].
  - repeat constructor; vm_compute; discriminate.
  - eexists _, _, p. split; [vm_compute; reflexivity|]. split; [vm_compute; reflexivity|]. exact HM.
Defined.

(** A subgroup stream cut in the middle of its second object. *)
Definition cut_stream (typ : Z) : reader :=
  mkReader (bytes_of [typ; 7; 1; 128; 5; 2; 1; 2; 6; 9; 0]) (errTransport 0).

Lemma subgroup_stream_safe_witness :
  exists p, ObjectStreamParser.NewObjectStreamParser (cut_stream 0x08) = Ok p /\
  (Err io_ErrUnexpectedEOF : res unit) <> NoFuel /\
  Forall (fun m => ObjectMessage.TrackAlias m = 7) [ObjectMessage.mk 7 1 0 5 128 None 0 (bytes_of [1; 2])].
Proof.
  eexists. split; [vm_compute; reflexivity|].
  edestruct (subgroup_stream_safe (cut_stream 0x08)) as [He HF];
    [vm_compute; reflexivity|vm_compute; discriminate
    |instantiate (1 := 20%nat); vm_compute; lia|vm_compute; reflexivity|].
  split; [done|]. eapply list.Forall_impl; [exact HF|]. intros m (Hm & _). exact Hm.
Defined.

Lemma subgroup_no_sid_zero_witness :
  Forall (fun m => ObjectMessage.SubgroupID m = 0)
    [ObjectMessage.mk 7 1 0 5 128 None 0 (bytes_of [1; 2])].
Proof.
  eapply (subgroup_no_sid_zero (cut_stream 0x0a) _ 20%nat);
    [vm_compute; reflexivity|left; reflexivity|vm_compute; reflexivity].
Defined.

Definition ext_headers : KVPList.t := [KeyValuePair.mk 2 [] 9; KeyValuePair.mk 3 (bytes_of [7]) 0].

Lemma ext_headers_wf : KVPList.wf ext_headers.
Proof. repeat constructor; vm_compute; congruence. Qed.

Lemma headers_never_delivered_witness :
  exists e, bytes_of [6; 5; 2; 9; 3; 1; 7; 1; 42] = [] ++ e /\
    forall m0 pp0 rest fin,
      ObjectMessage.ObjectExtensionHeaders m0 = Some pp0 ->
      ObjectMessage.readSubgroup m0 (mkReader (e ++ rest) fin) <> NoFuel /\
      forall x, ObjectMessage.readSubgroup m0 (mkReader (e ++ rest) fin) <> Ok x.
Proof.
  apply (headers_never_delivered
    (ObjectMessage.mk 0 0 0 6 0 (Some ext_headers) 0 (bytes_of [42])) ext_headers []);
    [vm_compute; discriminate|reflexivity|apply ext_headers_wf|done|vm_compute; reflexivity
    |vm_compute; reflexivity].
Defined.

Lemma datagram_roundtrip_witness :
  ObjectDatagramMessage.Parse 0 (bytes_of [0; 7; 1; 2; 128; 42]) []
  = Ok (ObjectDatagramMessage.mk 7 1 2 128 None (bytes_of [42]) 0, 6, None) /\
  ObjectDatagramMessage.Parse 0 (bytes_of [2; 7; 1; 2; 128; 3]) []
  = Ok (ObjectDatagramMessage.mk 7 1 2 128 None [] ObjectStatusEndOfGroup, 6, None).
Proof.
  split.
  - apply (datagram_roundtrip (ObjectDatagramMessage.mk 7 1 2 128 None (bytes_of [42]) 0)
      (bytes_of [0; 7; 1; 2; 128; 42])); [simpl; lia..|done|].
    left. split; [done|vm_compute; reflexivity].
  - apply (datagram_roundtrip (ObjectDatagramMessage.mk 7 1 2 128 None [] ObjectStatusEndOfGroup)
      (bytes_of [2; 7; 1; 2; 128; 3])); [simpl; unfold ObjectStatusEndOfGroup; lia..|done|].
    right. split; [done|vm_compute; reflexivity].
Defined.

Lemma datagram_headers_diverge_witness :
  ObjectDatagramMessage.Parse 1000 (bytes_of [1; 7; 1; 2; 128; 5; 2; 9; 3; 1; 7; 42]) [] = NoFuel.
Proof.
  apply (datagram_headers_diverge
    (ObjectDatagramMessage.mk 7 1 2 128 (Some ext_headers) (bytes_of [42]) 0) ext_headers);
    [simpl; lia..|done|apply ext_headers_wf|done|vm_compute; reflexivity|vm_compute; reflexivity].
Defined.
