(* ===== verification/Errors.v ===== *)
(** Error codes, status codes and the protocol errors of the session
    (errors.go, constants.go) and the names of messages (handler.go). *)

From S2P Require Import Prelude.
From Stdlib Require Import String.
Local Open Scope Z_scope.

(** A Go string constant. *)
Definition str (s : string) : gostring := list_byte_of_string s.

(** * errors.go *)

Definition ErrorCodeNoError : Z := 0x00.
Definition ErrorCodeInternal : Z := 0x01.
Definition ErrorCodeUnauthorized : Z := 0x02.
Definition ErrorCodeProtocolViolation : Z := 0x03.
Definition ErrorCodeInvalidRequestID : Z := 0x04.
Definition ErrorCodeDuplicateTrackAlias : Z := 0x05.
Definition ErrorCodeKeyValueFormattingError : Z := 0x06.
Definition ErrorCodeTooManyRequests : Z := 0x07.
Definition ErrorCodeInvalidPath : Z := 0x08.
Definition ErrorCodeMalformedPath : Z := 0x09.
Definition ErrorCodeGoAwayTimeout : Z := 0x10.
Definition ErrorCodeControlMessageTimeout : Z := 0x11.
Definition ErrorCodeDataStreamTimeout : Z := 0x12.
Definition ErrorCodeAuthTokenCacheOverflow : Z := 0x13.
Definition ErrorCodeDuplicateAuthTokenAlias : Z := 0x14.
Definition ErrorCodeVersionNegotiationFailed : Z := 0x15.
Definition ErrorCodeMalformedAuthToken : Z := 0x16.
Definition ErrorCodeUnknownAuthTokenAlias : Z := 0x17.
Definition ErrorCodeExpiredAuthToken : Z := 0x18.
Definition ErrorCodeSubscribeInternal : Z := 0x00.
Definition ErrorCodeSubscribeUnauthorized : Z := 0x01.
Definition ErrorCodeSubscribeTimeout : Z := 0x02.
Definition ErrorCodeSubscribeNotSupported : Z := 0x03.
Definition ErrorCodeSubscribeTrackDoesNotExist : Z := 0x04.
Definition ErrorCodeSubscribeInvalidRange : Z := 0x05.
Definition ErrorCodeSubscribeMalformedAuthToken : Z := 0x10.
Definition ErrorCodeSubscribeExpiredAuthToken : Z := 0x12.
Definition ErrorCodeSubscribeDoneInternal : Z := 0x00.
Definition ErrorCodeSubscribeDoneUnauthorized : Z := 0x01.
Definition ErrorCodeSubscribeDoneTrackEnded : Z := 0x02.
Definition ErrorCodeSubscribeDoneSubscriptionEnded : Z := 0x03.
Definition ErrorCodeSubscribeDoneGoingAway : Z := 0x04.
Definition ErrorCodeSubscribeDoneExpired : Z := 0x05.
Definition ErrorCodeSubscribeDoneTooFarBehind : Z := 0x06.
Definition ErrorCodeSubscribeDoneMalformedTrack : Z := 0x07.
Definition ErrorCodePublishInternalError : Z := 0x00.
Definition ErrorCodePublishUnauthorized : Z := 0x01.
Definition ErrorCodePublishTimeout : Z := 0x02.
Definition ErrorCodePublishNotSupported : Z := 0x03.
Definition ErrorCodePublishUninterested : Z := 0x04.
Definition ErrorCodeFetchInternal : Z := 0x00.
Definition ErrorCodeFetchUnauthorized : Z := 0x01.
Definition ErrorCodeFetchTimeout : Z := 0x02.
Definition ErrorCodeFetchNotSupported : Z := 0x03.
Definition ErrorCodeFetchTrackDoesNotExist : Z := 0x04.
Definition ErrorCodeFetchInvalidRange : Z := 0x05.
Definition ErrorCodeFetchNoObjects : Z := 0x06.
Definition ErrorCodeFetchInvalidJoiningSubscribeID : Z := 0x07.
Definition ErrorCodeFetchUnknownStatusInRange : Z := 0x08.
Definition ErrorCodeFetchMalformedTrack : Z := 0x09.
Definition ErrorCodeFetchMalformedAuthToken : Z := 0x10.
Definition ErrorCodeFetchExpiredAuthToken : Z := 0x12.
Definition ErrorCodeAnnounceInternal : Z := 0x00.
Definition ErrorCodeAnnounceUnauthorized : Z := 0x01.
Definition ErrorCodeAnnounceTimeout : Z := 0x02.
Definition ErrorCodeAnnounceNotSupported : Z := 0x03.
Definition ErrorCodeAnnounceUninterested : Z := 0x04.
Definition ErrorCodeAnnounceMalformedAuthToken : Z := 0x10.
Definition ErrorCodeAnnouncementExpiredAuthToken : Z := 0x12.
Definition ErrorCodeSubscribeNamespaceInternal : Z := 0x00.
Definition ErrorCodeSubscribeNamespaceUnauthorized : Z := 0x01.
Definition ErrorCodeSubscribeNamespaceTimeout : Z := 0x02.
Definition ErrorCodeSubscribeNamespaceNotSupported : Z := 0x03.
Definition ErrorCodeSubscribeNamespaceNamespacePrefixUnknown : Z := 0x04.
Definition ErrorCodeSubscribeNamespaceNamespacePrefixOverlap : Z := 0x05.
Definition ErrorCodeSubscribeNamespaceMalformedAuthToken : Z := 0x10.
Definition ErrorCodeSubscribeNamespaceExpiredAuthToken : Z := 0x12.

Definition errDuplicateRequestID : error :=
  ProtocolError ErrorCodeProtocolViolation (str "duplicate request ID").
Definition errMaxRequestIDDecreased : error :=
  ProtocolError ErrorCodeProtocolViolation (str "max request ID decreased").
Definition errUnknownAnnouncement : error :=
  ProtocolError ErrorCodeProtocolViolation (str "unknown announcement").
Definition errInvalidNamespaceLength : error :=
  ProtocolError ErrorCodeProtocolViolation (str "invalid namespace length").

(** * constants.go *)

Definition SubscribeStatusUnsubscribed : Z := 0x00.
Definition SubscribeStatusInternalError : Z := 0x01.
Definition SubscribeStatusUnauthorized : Z := 0x02.
Definition SubscribeStatusTrackEnded : Z := 0x03.
Definition SubscribeStatusSubscriptionEnded : Z := 0x04.
Definition SubscribeStatusGoingAway : Z := 0x05.
Definition SubscribeStatusExpired : Z := 0x06.
Definition TrackStatusInProgress : Z := 0x00.
Definition TrackStatusDoesNotExist : Z := 0x01.
Definition TrackStatusNotYetBegun : Z := 0x02.
Definition TrackStatusFinished : Z := 0x03.
Definition TrackStatusUnavailable : Z := 0x04.

(** * handler.go: the methods of a Message *)

Definition MessageSubscribe : gostring := str "SUBSCRIBE".
Definition MessageFetch : gostring := str "FETCH".
Definition MessageAnnounce : gostring := str "ANNOUNCE".
Definition MessageAnnounceCancel : gostring := str "ANNOUNCE_CANCEL".
Definition MessageUnannounce : gostring := str "UNANNOUNCE".
Definition MessageTrackStatusRequest : gostring := str "TRACK_STATUS_REQUEST".
Definition MessageTrackStatus : gostring := str "TRACK_STATUS".
Definition MessageGoAway : gostring := str "GO_AWAY".
Definition MessageSubscribeAnnounces : gostring := str "SUBSCRIBE_ANNOUNCES".
Definition MessageUnsubscribeAnnounces : gostring := str "UNSUBSCRIBE_ANNOUNCES".
