(* ===== verification/Params.v ===== *)
(** Parameters and options: the setup parameters (session_helpers.go), the
    public parameter list and the options of requests (messages.go, session.go,
    subscribe_response_writer.go).

    An option function is a function on its record of options; a call with a
    list of options applies them in order.  The copies made by ToWire and
    FromWire are values. *)

From S2P Require Import Prelude VarInt WireTypes Messages Errors.
Local Open Scope Z_scope.

(** * session_helpers.go *)

Definition validatePathParameter (setupParameters : KVPList.t) (protocolIsQUIC : bool) : res gostring :=
  match find_first (fun p => KeyValuePair.Type_ p =? PathParameterKey) setupParameters with
  | None => if protocolIsQUIC then Err errMissingPathParameter else Ok []
  | Some (index, p) =>
      if (0 <? index)%nat && negb protocolIsQUIC then Err errUnexpectedPathParameter
      else Ok (KeyValuePair.ValueBytes p)
  end.

Definition getMaxRequestIDParameter (setupParameters : KVPList.t) : Z :=
  match find_first (fun p => KeyValuePair.Type_ p =? MaxRequestIDParameterKey) setupParameters with
  | None => 0
  | Some (_, p) => KeyValuePair.ValueVarInt p
  end.

Definition validateAuthParameter (subscribeParameters : KVPList.t) : res gostring :=
  match find_first (fun p => KeyValuePair.Type_ p =? AuthorizationTokenParameterKey)
          subscribeParameters with
  | None => Ok []
  | Some (_, p) => Ok (KeyValuePair.ValueBytes p)
  end.

(** * The public parameter list (messages.go) *)

Definition copy_pair (param : KeyValuePair.t) : KeyValuePair.t :=
  KeyValuePair.mk (KeyValuePair.Type_ param) (KeyValuePair.ValueBytes param)
    (KeyValuePair.ValueVarInt param).

Definition ToWire (kvpl : KVPList.t) : KVPList.t := map copy_pair kvpl.
Definition FromWire (wireKVP : KVPList.t) : KVPList.t := map copy_pair wireKVP.

Fixpoint GetParameter (kvpl : KVPList.t) (key : Z) : KeyValuePair.t * bool :=
  match kvpl with
  | [] => (KeyValuePair.zero, false)
  | param :: kvpl =>
      if KeyValuePair.Type_ param =? key then (param, true) else GetParameter kvpl key
  end.

(** time.Duration(v) * time.Millisecond. *)
Definition milliseconds (v : Z) : Z := int64 (int64 v * SubscribeOkMessage.Millisecond).

Fixpoint GetDeliveryTimeout (kvpl : KVPList.t) : Z * bool :=
  match kvpl with
  | [] => (0, false)
  | param :: kvpl =>
      if KeyValuePair.Type_ param =? DeliveryTimeoutParameterKey
      then (milliseconds (KeyValuePair.ValueVarInt param), true)
      else GetDeliveryTimeout kvpl
  end.

Fixpoint GetMaxCacheDuration (kvpl : KVPList.t) : Z * bool :=
  match kvpl with
  | [] => (0, false)
  | param :: kvpl =>
      if KeyValuePair.Type_ param =? MaxCacheDurationParameterKey then
        if len (KeyValuePair.ValueBytes param) >? 0 then (0, true)
        else (milliseconds (KeyValuePair.ValueVarInt param), true)
      else GetMaxCacheDuration kvpl
  end.

Fixpoint GetAuthorizationToken (kvpl : KVPList.t) : list byte * bool :=
  match kvpl with
  | [] => ([], false)
  | param :: kvpl =>
      if (KeyValuePair.Type_ param =? AuthorizationTokenParameterKey)
         && (len (KeyValuePair.ValueBytes param) >? 0)
      then (KeyValuePair.ValueBytes param, true)
      else GetAuthorizationToken kvpl
  end.

(** * Options *)

Definition boolToUint8 (b : bool) : Z := if b then 1 else 0.

Definition apply_options {O} (options : list (O -> O)) (opts : O) : O :=
  foldl (fun opts option => option opts) opts options.

Module SubscribeOptions.
Record t := mk {
  SubscriberPriority : Z;
  GroupOrder : Z;
  Forward : bool;
  FilterType : Z;
  StartLocation : Location.t;
  EndGroup : Z;
  Parameters : KVPList.t }.

(** The values Subscribe starts from. *)
Definition default : t :=
  mk 128 GroupOrderAscending true FilterTypeLatestObject (Location.mk 0 0) 0 [].
End SubscribeOptions.

Definition SubscribeOption : Type := SubscribeOptions.t -> SubscribeOptions.t.

Section SubscribeOptionFunctions.
Import SubscribeOptions.

Definition WithSubscriberPriority (priority : Z) : SubscribeOption := fun opts =>
  mk priority (GroupOrder opts) (Forward opts) (FilterType opts) (StartLocation opts)
     (EndGroup opts) (Parameters opts).
Definition WithSubscribeGroupOrder (groupOrder : Z) : SubscribeOption := fun opts =>
  mk (SubscriberPriority opts) groupOrder (Forward opts) (FilterType opts) (StartLocation opts)
     (EndGroup opts) (Parameters opts).
Definition WithForward (forward : bool) : SubscribeOption := fun opts =>
  mk (SubscriberPriority opts) (GroupOrder opts) forward (FilterType opts) (StartLocation opts)
     (EndGroup opts) (Parameters opts).
Definition WithFilterType (filterType : Z) : SubscribeOption := fun opts =>
  mk (SubscriberPriority opts) (GroupOrder opts) (Forward opts) filterType (StartLocation opts)
     (EndGroup opts) (Parameters opts).
Definition WithStartLocation (location : Location.t) : SubscribeOption := fun opts =>
  mk (SubscriberPriority opts) (GroupOrder opts) (Forward opts) (FilterType opts) location
     (EndGroup opts) (Parameters opts).
Definition WithEndGroup (endGroup : Z) : SubscribeOption := fun opts =>
  mk (SubscriberPriority opts) (GroupOrder opts) (Forward opts) (FilterType opts)
     (StartLocation opts) endGroup (Parameters opts).
Definition WithSubscribeParameters (parameters : KVPList.t) : SubscribeOption := fun opts =>
  mk (SubscriberPriority opts) (GroupOrder opts) (Forward opts) (FilterType opts)
     (StartLocation opts) (EndGroup opts) parameters.

(** The first authorization token is replaced, or one is added at the end. *)
Fixpoint set_token (token : gostring) (params : KVPList.t) : KVPList.t :=
  match params with
  | [] => [KeyValuePair.mk AuthorizationTokenParameterKey token 0]
  | param :: params =>
      if KeyValuePair.Type_ param =? AuthorizationTokenParameterKey
      then KeyValuePair.mk (KeyValuePair.Type_ param) token (KeyValuePair.ValueVarInt param) :: params
      else param :: set_token token params
  end.

Definition WithAuthorizationToken (token : gostring) : SubscribeOption := fun opts =>
  if len token >? 0 then WithSubscribeParameters (set_token token (Parameters opts)) opts
  else opts.

End SubscribeOptionFunctions.

Module SubscribeUpdateOptions.
Record t := mk {
  StartLocation : Location.t;
  EndGroup : Z;
  SubscriberPriority : Z;
  Forward : bool;
  Parameters : KVPList.t }.

Definition default : t := mk (Location.mk 0 0) 0 128 true [].
End SubscribeUpdateOptions.

Definition SubscribeUpdateOption : Type := SubscribeUpdateOptions.t -> SubscribeUpdateOptions.t.

Section SubscribeUpdateOptionFunctions.
Import SubscribeUpdateOptions.

Definition WithUpdateStartLocation (location : Location.t) : SubscribeUpdateOption := fun opts =>
  mk location (EndGroup opts) (SubscriberPriority opts) (Forward opts) (Parameters opts).
Definition WithUpdateEndGroup (endGroup : Z) : SubscribeUpdateOption := fun opts =>
  mk (StartLocation opts) endGroup (SubscriberPriority opts) (Forward opts) (Parameters opts).
Definition WithUpdateSubscriberPriority (priority : Z) : SubscribeUpdateOption := fun opts =>
  mk (StartLocation opts) (EndGroup opts) priority (Forward opts) (Parameters opts).
Definition WithUpdateForward (forward : bool) : SubscribeUpdateOption := fun opts =>
  mk (StartLocation opts) (EndGroup opts) (SubscriberPriority opts) forward (Parameters opts).
Definition WithUpdateParameters (parameters : KVPList.t) : SubscribeUpdateOption := fun opts =>
  mk (StartLocation opts) (EndGroup opts) (SubscriberPriority opts) (Forward opts) parameters.

End SubscribeUpdateOptionFunctions.

Module SubscribeOkOptions.
Record t := mk {
  Expires : Z;
  GroupOrder : Z;
  ContentExists : bool;
  LargestLocation : option Location.t;
  Parameters : KVPList.t }.

Definition default : t := mk 0 GroupOrderAscending false None [].
End SubscribeOkOptions.

Definition SubscribeOKOption : Type := SubscribeOkOptions.t -> SubscribeOkOptions.t.

Section SubscribeOkOptionFunctions.
Import SubscribeOkOptions.

Definition WithExpires (expires : Z) : SubscribeOKOption := fun opts =>
  mk expires (GroupOrder opts) (ContentExists opts) (LargestLocation opts) (Parameters opts).
Definition WithGroupOrder (groupOrder : Z) : SubscribeOKOption := fun opts =>
  mk (Expires opts) groupOrder (ContentExists opts) (LargestLocation opts) (Parameters opts).
Definition WithLargestLocation (location : option Location.t) : SubscribeOKOption := fun opts =>
  mk (Expires opts) (GroupOrder opts) (match location with Some _ => true | None => false end)
     location (Parameters opts).
Definition WithParameters (parameters : KVPList.t) : SubscribeOKOption := fun opts =>
  mk (Expires opts) (GroupOrder opts) (ContentExists opts) (LargestLocation opts) parameters.

End SubscribeOkOptionFunctions.

(** * Properties *)

Lemma copy_pair_id p : copy_pair p = p.
Proof. by destruct p. Qed.

Lemma ToWire_id pp : ToWire pp = pp.
Proof. unfold ToWire. induction pp as [|p pp IH]; [done|]. cbn. by rewrite copy_pair_id, IH. Qed.

Lemma FromWire_id pp : FromWire pp = pp.
Proof. exact (ToWire_id pp). Qed.

Lemma set_token_get token pp :
  0 < len token -> GetAuthorizationToken (set_token token pp) = (token, true).
Proof.
  intros Ht. induction pp as [|p pp IH]; cbn [set_token GetAuthorizationToken].
  - cbn [KeyValuePair.Type_ KeyValuePair.ValueBytes]. rewrite Z.eqb_refl.
    by replace (len token >? 0) with true by lia.
  - destruct (KeyValuePair.Type_ p =? AuthorizationTokenParameterKey) eqn:E;
      cbn [GetAuthorizationToken KeyValuePair.Type_ KeyValuePair.ValueBytes]; rewrite E; [|exact IH].
    by replace (len token >? 0) with true by lia.
Qed.

Lemma set_token_validate token pp :
  validateAuthParameter (set_token token pp) = Ok token.
Proof.
  unfold validateAuthParameter. induction pp as [|p pp IH]; [done|]. cbn [set_token].
  destruct (KeyValuePair.Type_ p =? AuthorizationTokenParameterKey) eqn:E;
    cbn [find_first KeyValuePair.Type_]; rewrite E; [done|].
  destruct (find_first _ (set_token token pp)) as [[i q]|]; exact IH.
Qed.

(** An authorization token given to Subscribe, after any other options,
    is what the publisher's validateAuthParameter and the receiver's
    GetAuthorizationToken read from the parameters that are sent. *)
Theorem authorization_token_arrives options token :
  0 < len token ->
  let opts := apply_options (options ++ [WithAuthorizationToken token]) SubscribeOptions.default in
  let sent := ToWire (SubscribeOptions.Parameters opts) in
  validateAuthParameter sent = Ok token /\
  GetAuthorizationToken (FromWire sent) = (token, true).
Proof.
  intros Ht opts sent. unfold sent, opts. rewrite ToWire_id, FromWire_id.
  unfold apply_options. rewrite foldl_app. cbn [foldl].
  unfold WithAuthorizationToken. replace (len token >? 0) with true by lia. cbn.
  split; [apply set_token_validate|by apply set_token_get].
Qed.

Lemma authorization_token_arrives_witness :
  let opts := apply_options ([WithSubscribeParameters [KeyValuePair.mk 1 ([byte.of_Z 111]) 0]]
    ++ [WithAuthorizationToken ([byte.of_Z 115; byte.of_Z 101])]) SubscribeOptions.default in
  validateAuthParameter (ToWire (SubscribeOptions.Parameters opts)) = Ok ([byte.of_Z 115; byte.of_Z 101]) /\
  GetAuthorizationToken (FromWire (ToWire (SubscribeOptions.Parameters opts))) = ([byte.of_Z 115; byte.of_Z 101], true).
Proof. apply authorization_token_arrives. vm_compute. reflexivity. Defined.
