(* ===== verification/ParserSafety.v ===== *)
(** What the parsers of control messages guarantee on arbitrary bytes: they
    terminate, the fields of a message they deliver are in range, and those
    that read neither a namespace tuple nor parameters never panic.

    [spec pb p P] is the contract of a parser: it ends, its value satisfies
    [P], and it panics only if [pb] allows it. *)

From S2P Require Import Prelude VarInt Codec WireTypes Messages ControlMessages Params.
Local Open Scope Z_scope.

Definition outcome {A} (pb : bool) (P : A -> Prop) (r : res A) : Prop :=
  match r with
  | Ok a => P a
  | Err _ => True
  | Panic => pb = true
  | NoFuel => False
  end.

Definition spec {A} (pb : bool) (p : parser A) (P : A -> Prop) : Prop :=
  forall data, outcome pb (fun '(a, rest) => P a) (p data).

Definition fun_spec {A} (pb : bool) (f : parse_fun A) (P : A -> Prop) : Prop :=
  forall data, outcome pb (fun '(a, n, err) => err = None -> P a /\ 0 <= n <= len data) (f data).

Create HintDb spec.

Section Specs.
Context {QV : QuicVarint} {QVL : QuicVarintLaws}.

Lemma spec_bind {A B} pb (p : parser A) (k : A -> parser B) P Q :
  spec pb p P -> (forall a, P a -> spec pb (k a) Q) -> spec pb (p ≫= k) Q.
Proof.
  intros Hp Hk data. specialize (Hp data). unfold mbind, M_bind.
  destruct (p data) as [[a rest]| | |]; try exact Hp. by apply Hk.
Qed.

Lemma spec_ret {A} pb (a : A) (P : A -> Prop) : P a -> spec pb (mret a) P.
Proof. intros H data. exact H. Qed.

Lemma spec_if {A} pb (b : bool) (p q : parser A) P :
  (b = true -> spec pb p P) -> (b = false -> spec pb q P) -> spec pb (if b then p else q) P.
Proof. destruct b; auto. Qed.

Lemma spec_if_ret {A} pb (b : bool) (p : parser A) d P :
  spec pb p P -> P d -> spec pb (if b then p else mret d) (fun a => P a /\ (b = false -> a = d)).
Proof.
  intros Hp Hd data. destruct b; [|by split].
  specialize (Hp data). destruct (p data) as [[a rest]| | |]; simpl in *; intuition congruence.
Qed.

Lemma spec_need pb k e : spec pb (need k e) (fun _ => True).
Proof. intros data. unfold need. by destruct (_ <? _). Qed.

Lemma spec_fail_if pb b e : spec pb (fail_if b e : parser unit) (fun _ => b = false).
Proof. intros data. unfold fail_if. by destruct b. Qed.

Lemma spec_next : spec true next (fun x => 0 <= x < 256).
Proof. intros [|b data]; [done|]. apply byte.unsigned_range. Qed.

Lemma spec_field {A} pb (f : parse_fun A) P : fun_spec pb f P -> spec pb (field f) P.
Proof.
  intros Hf data. specialize (Hf data). unfold field, mbind, res_bind.
  destruct (f data) as [[[x n] [e|]]| | |]; try exact Hf; [done|].
  destruct (Hf eq_refl) as [HP Hn]. by rewrite slice_from_Ok.
Qed.

(** Reading one number: where the data continues. *)
Lemma qv_Parse_cases data :
  (exists x n, qv_Parse data = (x, n, None) /\ 0 <= x <= maxVarInt /\ 1 <= n <= len data /\
     slice_from data n = Ok (drop (Z.to_nat n) data) /\
     len (drop (Z.to_nat n) data) = len data - n) \/
  (exists x n e, qv_Parse data = (x, n, Some e)).
Proof.
  destruct (qv_Parse data) as [[x n] [e|]] eqn:E; [right; by eexists _, _, _|left].
  apply qv_Parse_ok in E as [Hx Hn]. exists x, n.
  rewrite slice_from_Ok, len_drop by lia. done.
Qed.

Lemma fun_spec_varint pb : fun_spec pb (fun data => Ok (qv_Parse data)) (fun x => 0 <= x <= maxVarInt).
Proof.
  intros data. destruct (qv_Parse_cases data) as [(x & n & -> & Hx & Hn & _)|(x & n & e & ->)];
    simpl; [split; [done|lia]|done].
Qed.

Lemma spec_varint pb : spec pb varint (fun x => 0 <= x <= maxVarInt).
Proof. apply spec_field, fun_spec_varint. Qed.

Lemma fun_spec_VarIntBytes pb : fun_spec pb parseVarIntBytes (fun _ => True).
Proof.
  intros data. unfold parseVarIntBytes.
  destruct (qv_Parse_cases data) as [(x & n & -> & Hx & Hn & Hs & Hl)|(x & n & e & ->)]; [|done].
  destruct (x =? 0) eqn:E; [simpl; split; [done|lia]|].
  rewrite Hs. unfold mbind, res_bind. rewrite varint_int64, Hl by done.
  destruct (len data - n <? x) eqn:E'; [done|].
  rewrite slice_to_Ok by lia. simpl. split; [done|lia].
Qed.

Lemma Tuple_elements_outcome fuel i n acc parsed data :
  0 <= i -> (i <= n \/ n <= 0) -> (length data < fuel)%nat ->
  outcome false (fun '(l, m, err) => err = None ->
      len l = len acc + Z.max 0 (n - i) /\ parsed <= m <= parsed + len data)
    (Tuple.parse_elements fuel i n acc parsed data).
Proof.
  revert i acc parsed data. induction fuel as [|fuel IH]; intros i acc parsed data Hi Hn Hf; [lia|].
  pose proof (len_nonneg data).
  cbn [Tuple.parse_elements]. destruct (i <? n) eqn:E; [|simpl; intros; split; lia].
  destruct (qv_Parse_cases data) as [(x & k & -> & Hx & Hk & Hs & Hl)|(x & k & e & ->)]; [|done].
  rewrite Hs. unfold mbind, res_bind. set (d := drop (Z.to_nat k) data) in *.
  destruct (len d <? x) eqn:E'; [done|].
  rewrite slice_to_Ok, slice_from_Ok, varint_int64 by lia.
  assert (length (drop (Z.to_nat x) d) < fuel)%nat as Hf'.
  { rewrite length_drop. unfold len in *. lia. }
  specialize (IH (i + 1) (acc ++ [take (Z.to_nat x) d]) (parsed + k + x) _ ltac:(lia) ltac:(lia) Hf').
  destruct (Tuple.parse_elements _ _ _ _ _ _) as [[[l m] err]| | |]; try exact IH.
  simpl in *. intros He. destruct (IH He) as [H1 H2].
  rewrite len_app, len_cons, len_nil in H1. rewrite len_drop in H2 by lia. lia.
Qed.

Lemma fun_spec_Tuple : fun_spec true Tuple.parseTuple Tuple.wf.
Proof.
  intros data. unfold Tuple.parseTuple.
  destruct (qv_Parse_cases data) as [(x & k & -> & Hx & Hk & Hs & Hl)|(x & k & e & ->)]; [|done].
  rewrite Hs. unfold mbind, res_bind, make_slice. destruct (_ && _) eqn:E; [|done].
  pose proof (Tuple_elements_outcome (S (length (drop (Z.to_nat k) data))) 0 x [] k
    (drop (Z.to_nat k) data) ltac:(lia) ltac:(lia) ltac:(lia)) as H.
  destruct (Tuple.parse_elements _ _ _ _ _ _) as [[[l m] err]| | |]; simpl in *; [|done..].
  intros He. destruct (H He) as [H1 H2]. unfold Tuple.wf. rewrite len_nil in H1. lia.
Qed.

(** A location as it comes from the wire. *)
Definition parsed_location (l : Location.t) : Prop :=
  Location.wf l /\ Location.Group l <= maxVarInt /\ Location.Object l <= maxVarInt.

Lemma fun_spec_Location pb : fun_spec pb Location.parse parsed_location.
Proof.
  intros data. unfold Location.parse.
  destruct (qv_Parse_cases data) as [(x & k & -> & Hx & Hk & Hs & Hl)|(x & k & e & ->)]; [|done].
  rewrite Hs. unfold mbind, res_bind. set (d := drop (Z.to_nat k) data) in *.
  destruct (qv_Parse_cases d) as [(y & j & -> & Hy & Hj & _)|(y & j & e & ->)]; [|done].
  simpl. intros _. unfold parsed_location, Location.wf. simpl. lia.
Qed.

Lemma versions_elements_outcome fuel i n acc parsed data :
  0 <= n <= maxVarInt -> versions.wf acc -> (length data < fuel)%nat ->
  outcome false (fun '(l, m, err) => err = None -> versions.wf l /\ parsed <= m <= parsed + len data)
    (versions.parse_elements fuel i n acc parsed data).
Proof.
  intros Hn. revert i acc parsed data.
  induction fuel as [|fuel IH]; intros i acc parsed data Hwf Hf; [lia|].
  pose proof (len_nonneg data).
  cbn [versions.parse_elements]. destruct (_ <? _); [|simpl; intros; split; [done|lia]].
  destruct (qv_Parse_cases data) as [(x & k & -> & Hx & Hk & Hs & Hl)|(x & k & e & ->)]; [|done].
  rewrite Hs. unfold mbind, res_bind. set (d := drop (Z.to_nat k) data) in *.
  assert (versions.wf (acc ++ [x])) as Hwf'.
  { apply Forall_app. split; [done|]. repeat constructor. lia. }
  specialize (IH (i + 1) _ (parsed + k) d Hwf'). rewrite Hl in IH.
  assert (length d < fuel)%nat as Hf' by (unfold len in *; lia). specialize (IH Hf').
  destruct (versions.parse_elements _ _ _ _ _ _) as [[[l m] err]| | |]; try exact IH.
  simpl in *. intros He. destruct (IH He). split; [done|lia].
Qed.

Lemma fun_spec_versions pb : fun_spec pb (versions.parse []) versions.wf.
Proof.
  intros data. unfold versions.parse.
  destruct (qv_Parse_cases data) as [(x & k & -> & Hx & Hk & Hs & Hl)|(x & k & e & ->)]; [|done].
  rewrite Hs. unfold mbind, res_bind.
  pose proof (versions_elements_outcome (S (length (drop (Z.to_nat k) data))) 0 x [] k
    (drop (Z.to_nat k) data) Hx (Forall_nil _ ) ltac:(lia)) as H.
  destruct (versions.parse_elements _ _ _ _ _ _) as [[[l m] err]| | |]; simpl in *; try done.
  intros He. destruct (H He). split; [done|lia].
Qed.

Lemma make_copy_len n src : 0 <= n -> len (make_copy n src).1 = n.
Proof.
  intros Hn. unfold make_copy. simpl. unfold len.
  rewrite length_app, length_take, length_replicate. lia.
Qed.

Lemma KeyValuePair_outcome data :
  outcome true (fun '(p, n, err) => err = None ->
      (KeyValuePair.wf p /\ KeyValuePair.Type_ p <= maxVarInt /\ KeyValuePair.ValueVarInt p <= maxVarInt) /\ 1 <= n <= len data)
    (KeyValuePair.parse data []).
Proof.
  unfold KeyValuePair.parse.
  destruct (qv_Parse_cases data) as [(x & k & -> & Hx & Hk & Hs & Hl)|(x & k & e & ->)]; [|done].
  rewrite Hs. unfold mbind, res_bind. set (d := drop (Z.to_nat k) data) in *.
  destruct (qv_Parse_cases d) as [(y & j & -> & Hy & Hj & Hs2 & Hl2)|(y & j & e & ->)];
    [|destruct (x mod 2 =? 1); done].
  destruct (x mod 2 =? 1) eqn:Hodd.
  - rewrite Hs2. unfold make_slice. destruct (_ && _) eqn:Hm; [|done]. rewrite app_nil_r.
    set (d2 := drop (Z.to_nat j) d) in *. unfold slice_to.
    destruct ((0 <=? y) && (y <=? len d2)) eqn:Hy2; [|done].
    destruct (make_copy y _) as [v m] eqn:Ev. destruct (m =? y) eqn:Em; [|done]. simpl. intros _.
    pose proof (make_copy_len y (take (Z.to_nat y) d2) ltac:(lia)) as Hv. rewrite Ev in Hv. simpl in Hv.
    unfold KeyValuePair.wf, maxVarInt in *. simpl. rewrite Hodd. lia.
  - simpl. intros _. unfold KeyValuePair.wf. cbn [KeyValuePair.Type_ KeyValuePair.ValueBytes
      KeyValuePair.ValueVarInt]. rewrite Hodd.
    split; [|lia]. split; [|lia]. split_and!; [lia|lia|by vm_compute|done].
Qed.

(** Parameters as they come from the wire. *)
Definition parsed_params (pp : KVPList.t) : Prop :=
  KVPList.wf pp /\
  Forall (fun p => KeyValuePair.Type_ p <= maxVarInt /\ KeyValuePair.ValueVarInt p <= maxVarInt) pp.

Lemma parseNum_elements_outcome fuel i n pp data :
  parsed_params pp -> (length data < fuel)%nat ->
  outcome true (fun '(pp, rest) => parsed_params pp) (KVPList.parseNum_elements fuel i n pp data).
Proof.
  revert i pp data. induction fuel as [|fuel IH]; intros i pp data Hwf Hf; [lia|].
  cbn [KVPList.parseNum_elements]. destruct (_ <? _); [|done].
  pose proof (KeyValuePair_outcome data) as H. unfold mbind, res_bind.
  destruct (KeyValuePair.parse data []) as [[[p m] [e|]]| | |]; try done.
  destruct (H eq_refl) as [[Hp Hv] Hm]. rewrite slice_from_Ok by lia. apply IH.
  - destruct Hwf. split; apply Forall_app; (split; [done|]); by constructor.
  - rewrite length_drop. unfold len in *. lia.
Qed.

Lemma spec_parseNum : spec true (KVPList.parseNum []) parsed_params.
Proof.
  intros data. unfold KVPList.parseNum.
  destruct (qv_Parse_cases data) as [(x & k & -> & Hx & Hk & Hs & Hl)|(x & k & e & ->)]; [|done].
  rewrite Hs. apply parseNum_elements_outcome; [by split; constructor|lia].
Qed.

Lemma spec_run {A B} pb (p : parser A) (P : A -> Prop) (Q : B -> Prop) (K : A -> B) data :
  spec pb p P -> (forall a, P a -> Q (K a)) -> outcome pb Q (K <$> run p data).
Proof.
  intros Hp HQ. specialize (Hp data). unfold run, fmap, res_fmap, mbind, res_bind.
  destruct (p data) as [[a rest]| | |]; try exact Hp. by apply HQ.
Qed.

End Specs.

#[export] Hint Resolve spec_need spec_fail_if spec_next spec_varint spec_parseNum : spec.
#[export] Hint Resolve spec_field fun_spec_VarIntBytes fun_spec_Tuple fun_spec_Location
  fun_spec_versions : spec.

Ltac spec_side :=
  solve [eauto with spec
        |apply spec_if_ret; [solve [eauto with spec]|solve [vm_compute; intuition congruence]]].
Ltac spec_step :=
  match goal with
  | |- spec _ (mret _) _ => apply spec_ret
  | |- spec _ (let x := ?v in @?f x) _ => cbv zeta
  | |- spec _ (if _ then _ else _) _ => apply spec_if; intros ?
  | |- spec _ (_ ≫= _) _ => eapply spec_bind; [spec_side|intros ? ?]
  end.
Ltac spec_solve := repeat (spec_step; cbn beta iota zeta).

(** The field ranges that every parsed message satisfies: those of the codec,
    except that the Expires of a SubscribeOk is any duration. *)
Definition in_range_fields (msg : ControlMessage) : Prop :=
  match msg with
  | SubscribeOk m => SubscribeOkMessage.wf (SubscribeOkMessage.with_Expires 0 m) /\
      - 2 ^ 63 <= SubscribeOkMessage.Expires m < 2 ^ 63
  | Publish _ | PublishOk _ | PublishError _ => False
  | _ => ControlMessage.wf msg
  end.

(** The maximum request ID a message announces, if any. *)
Definition max_announced (msg : ControlMessage) : Z :=
  match msg with
  | MaxRequestID m => MaxRequestIDMessage.RequestID m
  | ClientSetup m => getMaxRequestIDParameter (ClientSetupMessage.SetupParameters m)
  | ServerSetup m => getMaxRequestIDParameter (ServerSetupMessage.SetupParameters m)
  | _ => 0
  end.

(** The ID of a request that is written with its own: a TRACK_STATUS_REQUEST is
    always written with the ID 0 (SessionSafety.v). *)
Definition request_id (msg : ControlMessage) : option Z :=
  match msg with
  | Subscribe m => Some (SubscribeMessage.RequestID m)
  | Fetch m => Some (FetchMessage.RequestID m)
  | Announce m => Some (AnnounceMessage.RequestID m)
  | SubscribeAnnounces m => Some (SubscribeAnnouncesMessage.RequestID m)
  | _ => None
  end.

Definition in_range (msg : ControlMessage) : Prop :=
  in_range_fields msg /\ 0 <= max_announced msg <= maxVarInt /\
  default 0 (request_id msg) <= maxVarInt.

Lemma find_first_In {A} (f : A -> bool) l i a : find_first f l = Some (i, a) -> List.In a l.
Proof.
  revert i. induction l as [|b l IH]; intros i H; [done|]. cbn in H. destruct (f b).
  - injection H as <- <-. by left.
  - destruct (find_first f l) as [[j c]|]; [|done]. injection H as <- <-. right. by eapply IH.
Qed.

Lemma parsed_params_max pp :
  parsed_params pp -> 0 <= getMaxRequestIDParameter pp <= maxVarInt.
Proof.
  intros [Hwf Hv]. unfold getMaxRequestIDParameter.
  destruct (find_first _ pp) as [[i p]|] eqn:E; [|unfold maxVarInt; lia].
  apply find_first_In in E. unfold KVPList.wf in Hwf.
  rewrite List.Forall_forall in Hwf, Hv. destruct (Hwf _ E) as (_ & ? & _). specialize (Hv _ E).
  cbn in Hv. lia.
Qed.

#[export] Hint Resolve parsed_params_max : spec.

(** The fields a session keeps of a message it was sent. *)
Definition kept_in_range (msg : ControlMessage) : Prop :=
  match msg with
  | SubscribeOk m => SubscribeOkMessage.RequestID m <= maxVarInt /\
      SubscribeOkMessage.TrackAlias m <= maxVarInt /\ parsed_location (SubscribeOkMessage.LargestLocation m) /\
      parsed_params (SubscribeOkMessage.Parameters m)
  | TrackStatus m => 0 <= TrackStatusMessage.StatusCode m <= maxVarInt /\
      parsed_location (TrackStatusMessage.LargestLocation m)
  | Announce m => parsed_params (AnnounceMessage.Parameters m)
  | _ => True
  end.

(** The messages read without slicing by a length from the wire: those with
    neither namespaces nor parameters. *)
Definition panic_free (mt : Z) : bool :=
  bool_decide (mt ∈ [messageTypeGoAway; messageTypeMaxRequestID; messageTypeRequestsBlocked;
    messageTypeSubscribeError; messageTypeUnsubscribe; messageTypeSubscribeDone;
    messageTypeFetchError; messageTypeFetchCancel; messageTypeAnnounceOk;
    messageTypeAnnounceError; messageTypeSubscribeNamespaceOk;
    messageTypeSubscribeNamespaceError]).

Lemma int64_range z : - 2 ^ 63 <= int64 z < 2 ^ 63.
Proof. unfold int64. pose proof (Z.mod_pos_bound (z + 2 ^ 63) (2 ^ 64)). lia. Qed.

Ltac in_range_solve :=
  cbn beta in *;
  repeat match goal with
  | H : (_ || _)%bool = false |- _ => apply orb_false_elim in H as [? ?]
  | H : parsed_params ?pp |- _ =>
      pose proof (parsed_params_max pp H); destruct H
  | H : parsed_location _ |- _ => destruct H
  | H : _ /\ _ |- _ => destruct H
  end;
  unfold in_range, in_range_fields, max_announced, request_id, ControlMessage.wf, SubscribeOkMessage.with_Expires,
    ClientSetupMessage.wf, ServerSetupMessage.wf, MaxRequestIDMessage.wf,
    RequestsBlockedMessage.wf, SubscribeMessage.wf, SubscribeOkMessage.wf,
    SubscribeErrorMessage.wf, UnsubscribeMessage.wf, SubscribeUpdateMessage.wf,
    SubscribeDoneMessage.wf, FetchMessage.wf, FetchOkMessage.wf, FetchErrorMessage.wf,
    FetchCancelMessage.wf, TrackStatusRequestMessage.wf, TrackStatusMessage.wf,
    AnnounceMessage.wf, AnnounceOkMessage.wf, AnnounceErrorMessage.wf,
    UnannounceMessage.wf, AnnounceCancelMessage.wf, SubscribeAnnouncesMessage.wf,
    SubscribeAnnouncesOkMessage.wf, SubscribeAnnouncesErrorMessage.wf,
    UnsubscribeAnnouncesMessage.wf;
  cbn -[Z.le Z.lt Z.pow Location.wf KVPList.wf Tuple.wf versions.wf int64
       getMaxRequestIDParameter maxVarInt];
  repeat match goal with |- _ /\ _ => split end;
  try assumption; try lia; auto; try apply int64_range;
  try (unfold maxVarInt; lia).

Section Parsers.
Context {QV : QuicVarint} {QVL : QuicVarintLaws}.

Lemma ControlMessage_parse_outcome mt body :
  outcome (negb (panic_free mt)) in_range (ControlMessage.parse mt body).
Proof.
  unfold ControlMessage.parse.
  repeat match goal with
  | |- outcome _ _ (if ?a =? ?b then _ else _) => destruct (Z.eqb_spec a b) as [->|_]
  end; [..|done];
  match goal with |- outcome ?b _ (?K <$> _) =>
    let b' := eval vm_compute in b in change b with b';
    apply (spec_run b' _ (fun a => in_range (K a))); [|done]
  end; spec_solve.
  all: in_range_solve.
  - vm_compute. intuition congruence.
  - unfold FetchTypeStandalone in *. replace (a4 =? 1) with true by lia.
    split_and!; try done; lia.
  - unfold FetchTypeStandalone, FetchTypeAbsoluteJoining in *.
    replace (a4 =? 1) with false by lia. split_and!; try done; lia.
Qed.

Lemma parsed_location_zero : parsed_location Location.zero.
Proof. unfold parsed_location, Location.wf, maxVarInt. cbn. lia. Qed.

Lemma ControlMessage_parse_kept mt body : outcome true kept_in_range (ControlMessage.parse mt body).
Proof.
  unfold ControlMessage.parse.
  repeat match goal with
  | |- outcome _ _ (if ?a =? ?b then _ else _) => destruct (Z.eqb_spec a b) as [->|_]
  end; [..|done];
  match goal with |- outcome _ _ (?K <$> _) =>
    apply (spec_run true _ (fun a => kept_in_range (K a))); [|done]
  end; spec_solve; try exact I; cbn -[Z.le Z.lt maxVarInt] in *;
    destruct_and?; split_and?; auto using parsed_location_zero.
Qed.

(** A parsed message has the type it was parsed for, save one. *)
Lemma ControlMessage_parse_Type mt body m :
  ControlMessage.parse mt body = Ok m ->
  ControlMessage.Type_ m = mt \/
  (mt = messageTypeAnnounceCancel /\ exists c, m = AnnounceCancel c).
Proof.
  unfold ControlMessage.parse.
  repeat match goal with
  | |- (if ?a =? ?b then _ else _) = _ -> _ => destruct (Z.eqb_spec a b) as [->|_]
  end; [..|done];
  unfold fmap, res_fmap; (match goal with |- match ?p with _ => _ end = _ -> _ => destruct p as [c| | |] end);
    try discriminate; intros [= <-]; solve [by left|right; split; [done|by exists c]].
Qed.


(** The parser of frames. *)
Lemma Parse_frame_outcome r :
  ControlMessageParser_Parse r <> NoFuel /\
  forall m r', ControlMessageParser_Parse r = Ok (m, r') ->
    in_range m /\ kept_in_range m /\ (length (rd_bytes r') < length (rd_bytes r))%nat.
Proof.
  unfold ControlMessageParser_Parse, mbind, M_bind, lift.
  destruct (consumes_varint r) as [Hn Hok]. destruct (qv_Read r) as [[mt r1]| | |]; [|done..].
  destruct (Hok _ _ eq_refl) as (p1 & -> & Hp1 & _). clear Hn Hok.
  destruct (consumes_byte r1) as [Hn Hok]. destruct (ReadByte r1) as [[hi r2]| | |]; [|done..].
  destruct (Hok _ _ eq_refl) as (p2 & -> & _). clear Hn Hok.
  destruct (consumes_byte r2) as [Hn Hok]. destruct (ReadByte r2) as [[lo r3]| | |]; [|done..].
  destruct (Hok _ _ eq_refl) as (p3 & -> & _). clear Hn Hok.
  set (l := Z.lor _ _). destruct (consumes_ReadFull l r3) as [Hn Hok].
  destruct (ReadFull l r3) as [[msg r4]| | |]; [|done..].
  destruct (Hok _ _ eq_refl) as (p4 & -> & _). destruct (negb _); [done|].
  pose proof (ControlMessage_parse_outcome mt msg) as Ho.
  pose proof (ControlMessage_parse_kept mt msg) as Hk. unfold res_bind.
  destruct (ControlMessage.parse mt msg) as [m0| | |]; [|done..].
  split; [done|]. intros m r' [= <- <-]. split; [exact Ho|]. split; [exact Hk|]. rewrite !length_app. lia.
Qed.

End Parsers.

Section ParserTheorems.
Context {QV : QuicVarint} {QVL : QuicVarintLaws}.

(** C16: On every type number and every body, the parser of control messages
    terminates; a message it delivers has the type asked for (except that an
    AnnounceCancel calls itself an Announce) and fields in range; and it does
    not panic on the twelve types without namespaces and parameters. *)
Theorem control_message_parse_safe mt body :
  ControlMessage.parse mt body <> NoFuel /\
  (forall m, ControlMessage.parse mt body = Ok m ->
     in_range m /\
     (ControlMessage.Type_ m = mt \/
      (mt = messageTypeAnnounceCancel /\ exists c, m = AnnounceCancel c))) /\
  (panic_free mt = true -> ControlMessage.parse mt body <> Panic).
Proof.
  pose proof (ControlMessage_parse_outcome mt body) as H.
  pose proof (ControlMessage_parse_Type mt body) as HT.
  destruct (ControlMessage.parse mt body) as [m0| | |]; simpl in H.
  - split_and!; [done| |done]. intros m [= <-]. auto.
  - done.
  - split_and!; [done|done|]. intros E. by rewrite E in H.
  - done.
Qed.

(** C32: Whatever bytes arrive on the control stream and however it ends,
    reading it terminates: it delivers finitely many messages, all with fields
    in range, and then fails with an error or panics. *)
Theorem control_stream_terminates r fuel ms e :
  (length (rd_bytes r) < fuel)%nat -> read_messages fuel r = (ms, e) ->
  e <> NoFuel /\ e <> Ok tt /\ Forall in_range ms /\ (length ms <= length (rd_bytes r))%nat.
Proof.
  revert r ms e. induction fuel as [|fuel IH]; intros r ms e Hf H; [lia|].
  cbn [read_messages] in H. destruct (Parse_frame_outcome r) as [Hn Hok].
  destruct (ControlMessageParser_Parse r) as [[m r']| | |];
    [|by injection H as <- <-; split_and!; try done; simpl; lia..].
  destruct (Hok _ _ eq_refl) as (Hm & _ & Hl).
  destruct (read_messages fuel r') as [ms' e'] eqn:E. injection H as <- <-.
  destruct (IH r' ms' e' ltac:(lia) E) as (H1 & H2 & H3 & H4).
  split_and!; [done|done|by constructor|simpl; lia].
Qed.

End ParserTheorems.

(** ** At concrete inputs *)

(** A frame cut off after its type. *)
Lemma control_message_parse_safe_witness :
  ControlMessage.parse messageTypeGoAway [byte.of_Z 9] <> Panic.
Proof. apply control_message_parse_safe. vm_compute. reflexivity. Defined.

Lemma control_stream_terminates_witness :
  let r := mkReader (map byte.of_Z [0x15; 0; 2; 0x40; 100; 0x0a; 0]) io_EOF in
  read_messages 8 r = ([MaxRequestID (MaxRequestIDMessage.mk 100)], Err io_EOF) /\
  Forall in_range [MaxRequestID (MaxRequestIDMessage.mk 100)].
Proof.
  intros r. split; [vm_compute; reflexivity|].
  destruct (control_stream_terminates r 8 [MaxRequestID (MaxRequestIDMessage.mk 100)]
    (Err io_EOF)) as (_ & _ & H & _); [vm_compute; lia|vm_compute; reflexivity|exact H].
Defined.
