(* ===== verification/Framing.v ===== *)
(** The framing of control messages (session_helpers.go: compileMessage, and
    control_message_parser.go): what compileMessage does on every branch, the
    round trip of whole streams, and the messages the codec does not carry. *)

From S2P Require Import Prelude VarInt Codec WireTypes Messages ControlMessages.
Local Open Scope Z_scope.

(** ** The messages that can be encoded *)

Definition nonneg_params (pp : KVPList.t) : Prop :=
  Forall (fun p => 0 <= KeyValuePair.Type_ p /\ 0 <= KeyValuePair.ValueVarInt p) pp.

(** The fields written as varints are not negative: that is all an encoder asks
    of a message, and what the unsigned types of the fields guarantee. *)
Definition encodable (msg : ControlMessage) : Prop :=
  match msg with
  | ClientSetup m => versions.wf (ClientSetupMessage.SupportedVersions m) /\
      nonneg_params (ClientSetupMessage.SetupParameters m)
  | ServerSetup m => 0 <= ServerSetupMessage.SelectedVersion m /\
      nonneg_params (ServerSetupMessage.SetupParameters m)
  | GoAway _ => True
  | MaxRequestID m => 0 <= MaxRequestIDMessage.RequestID m
  | RequestsBlocked m => 0 <= RequestsBlockedMessage.MaximumRequestID m
  | Subscribe m => 0 <= SubscribeMessage.RequestID m /\
      Location.wf (SubscribeMessage.StartLocation m) /\ 0 <= SubscribeMessage.EndGroup m /\
      nonneg_params (SubscribeMessage.Parameters m)
  | SubscribeOk m => 0 <= SubscribeOkMessage.RequestID m /\ 0 <= SubscribeOkMessage.TrackAlias m /\
      Location.wf (SubscribeOkMessage.LargestLocation m) /\
      nonneg_params (SubscribeOkMessage.Parameters m)
  | SubscribeError m => 0 <= SubscribeErrorMessage.RequestID m /\
      0 <= SubscribeErrorMessage.ErrorCode m
  | Unsubscribe m => 0 <= UnsubscribeMessage.RequestID m
  | SubscribeUpdate m => 0 <= SubscribeUpdateMessage.RequestID m /\
      Location.wf (SubscribeUpdateMessage.StartLocation m) /\
      0 <= SubscribeUpdateMessage.EndGroup m /\ nonneg_params (SubscribeUpdateMessage.Parameters m)
  | SubscribeDone m => 0 <= SubscribeDoneMessage.RequestID m /\
      0 <= SubscribeDoneMessage.StatusCode m /\ 0 <= SubscribeDoneMessage.StreamCount m
  | Fetch m => 0 <= FetchMessage.RequestID m /\ 0 <= FetchMessage.FetchType m /\
      0 <= FetchMessage.StartGroup m /\ 0 <= FetchMessage.StartObject m /\
      0 <= FetchMessage.EndGroup m /\ 0 <= FetchMessage.EndObject m /\
      0 <= FetchMessage.JoiningSubscribeID m /\ 0 <= FetchMessage.JoiningStart m /\
      nonneg_params (FetchMessage.Parameters m)
  | FetchOk m => 0 <= FetchOkMessage.RequestID m /\ Location.wf (FetchOkMessage.EndLocation m) /\
      nonneg_params (FetchOkMessage.SubscribeParameters m)
  | FetchError m => 0 <= FetchErrorMessage.RequestID m /\ 0 <= FetchErrorMessage.ErrorCode m
  | FetchCancel m => 0 <= FetchCancelMessage.RequestID m
  | TrackStatusRequest m => 0 <= TrackStatusRequestMessage.RequestID m /\
      nonneg_params (TrackStatusRequestMessage.Parameters m)
  | TrackStatus m => 0 <= TrackStatusMessage.RequestID m /\ 0 <= TrackStatusMessage.StatusCode m /\
      Location.wf (TrackStatusMessage.LargestLocation m) /\
      nonneg_params (TrackStatusMessage.Parameters m)
  | Announce m => 0 <= AnnounceMessage.RequestID m /\ nonneg_params (AnnounceMessage.Parameters m)
  | AnnounceOk m => 0 <= AnnounceOkMessage.RequestID m
  | AnnounceError m => 0 <= AnnounceErrorMessage.RequestID m /\ 0 <= AnnounceErrorMessage.ErrorCode m
  | Unannounce _ => True
  | AnnounceCancel m => 0 <= AnnounceCancelMessage.ErrorCode m
  | SubscribeAnnounces m => 0 <= SubscribeAnnouncesMessage.RequestID m /\
      nonneg_params (SubscribeAnnouncesMessage.Parameters m)
  | SubscribeAnnouncesOk m => 0 <= SubscribeAnnouncesOkMessage.RequestID m
  | SubscribeAnnouncesError m => 0 <= SubscribeAnnouncesErrorMessage.RequestID m /\
      0 <= SubscribeAnnouncesErrorMessage.ErrorCode m
  | UnsubscribeAnnounces _ => True
  | Publish m => 0 <= PublishMessage.RequestID m /\ 0 <= PublishMessage.TrackAlias m /\
      Location.wf (PublishMessage.LargestLocation m) /\ nonneg_params (PublishMessage.Parameters m)
  | PublishOk m => 0 <= PublishOkMessage.RequestID m /\ Location.wf (PublishOkMessage.Start m) /\
      0 <= PublishOkMessage.EndGroup m /\ nonneg_params (PublishOkMessage.Parameters m)
  | PublishError m => 0 <= PublishErrorMessage.RequestID m /\ 0 <= PublishErrorMessage.ErrorCode m
  end.

Lemma wf_nonneg pp : KVPList.wf pp -> nonneg_params pp.
Proof. intros H. eapply list.Forall_impl; [exact H|]. by intros p (? & ? & _). Qed.

Lemma wf_encodable msg : ControlMessage.wf msg -> encodable msg.
Proof.
  destruct msg; cbn [ControlMessage.wf encodable]; try done;
    unfold ClientSetupMessage.wf, ServerSetupMessage.wf, MaxRequestIDMessage.wf,
    RequestsBlockedMessage.wf, SubscribeMessage.wf, SubscribeOkMessage.wf,
    SubscribeErrorMessage.wf, UnsubscribeMessage.wf, SubscribeUpdateMessage.wf,
    SubscribeDoneMessage.wf, FetchMessage.wf, FetchOkMessage.wf, FetchErrorMessage.wf,
    FetchCancelMessage.wf, TrackStatusRequestMessage.wf, TrackStatusMessage.wf,
    AnnounceMessage.wf, AnnounceOkMessage.wf, AnnounceErrorMessage.wf,
    AnnounceCancelMessage.wf, SubscribeAnnouncesMessage.wf,
    SubscribeAnnouncesOkMessage.wf, SubscribeAnnouncesErrorMessage.wf;
    intros; destruct_and?; split_and?; auto using wf_nonneg; try tauto; try lia;
    (destruct (Z.eqb_spec (FetchMessage.FetchType m) FetchTypeStandalone) as [Hft|Hft];
     unfold FetchTypeStandalone in *; lia).
Qed.

(** ** The bytes of a message do not depend on the buffer *)

Section Uniform.
Context {QV : QuicVarint} {QVL : QuicVarintLaws}.

Lemma uniform_if (c : bool) f g :
  (c = true -> uniform f) -> (c = false -> uniform g) ->
  uniform (fun buf => if c then f buf else g buf).
Proof. destruct c; auto. Qed.

Lemma uniform_Tuple_elements l : uniform (Tuple.append_elements l).
Proof.
  induction l as [|s l IH]; cbn [Tuple.append_elements]; [apply uniform_ret|].
  apply uniform_seq; [apply uniform_varint; auto with moqt|].
  apply uniform_seq; [apply uniform_bytes|exact IH].
Qed.

Lemma uniform_Tuple l : uniform (Tuple.append l).
Proof. apply uniform_seq; [apply uniform_varint; auto with moqt|apply uniform_Tuple_elements]. Qed.

Lemma uniform_Location l : Location.wf l -> uniform (Location.append l).
Proof. intros [Hg Ho]. apply uniform_seq; by apply uniform_varint. Qed.

Lemma uniform_versions v : versions.wf v -> uniform (versions.append_elements v).
Proof.
  induction 1 as [|x v Hx Hv IH]; cbn [versions.append_elements]; [apply uniform_ret|].
  apply uniform_seq; [by apply uniform_varint|exact IH].
Qed.

Lemma uniform_KVPList pp : nonneg_params pp -> uniform (KVPList.append pp).
Proof.
  induction 1 as [|p pp (Ht & Hv) Hpp IH]; cbn [KVPList.append]; [apply uniform_ret|].
  apply uniform_seq; [|exact IH]. unfold KeyValuePair.append.
  apply uniform_seq; [by apply uniform_varint|]. apply uniform_if; intros _.
  - apply uniform_seq; [apply uniform_varint; auto with moqt|apply uniform_bytes].
  - by apply uniform_varint.
Qed.

Lemma uniform_appendNum pp : nonneg_params pp -> uniform (KVPList.appendNum pp).
Proof.
  intros H. apply uniform_seq; [apply uniform_varint; auto with moqt|by apply uniform_KVPList].
Qed.

Lemma uniform_FilterType f : uniform (FilterType_append f).
Proof.
  unfold FilterType_append, FilterTypeNextGroupStart, FilterTypeLatestObject,
    FilterTypeAbsoluteStart, FilterTypeAbsoluteRange.
  destruct (_ || _) eqn:E; apply uniform_varint; lia.
Qed.

Lemma uniform_length {A} (l : list A) : uniform (qv_Append (len l)).
Proof. apply uniform_varint; auto with moqt. Qed.

Hint Resolve uniform_Tuple uniform_Location uniform_versions uniform_KVPList uniform_appendNum
  uniform_FilterType uniform_length : rt.

Ltac uniform_solve :=
  repeat match goal with
  | |- uniform (fun buf => (fun _ => _) buf ≫= _) => apply uniform_seq
  | |- uniform (fun buf => _ ≫= _) => apply uniform_seq
  | |- uniform (fun buf => if _ then _ else _) => apply uniform_if; intros
  end; auto with rt.

Lemma uniform_uint64 x : uniform (qv_Append (uint64 x)).
Proof. apply uniform_varint. unfold uint64. apply Z.mod_pos_bound. lia. Qed.

Hint Resolve uniform_uint64 : rt.

Lemma ControlMessage_uniform msg : encodable msg -> uniform (ControlMessage.Append msg).
Proof.
  destruct msg; intros Hwf; try contradiction; cbn [ControlMessage.Append encodable] in *;
    unfold
    ClientSetupMessage.Append, ServerSetupMessage.Append, GoAwayMessage.Append,
    MaxRequestIDMessage.Append, RequestsBlockedMessage.Append, SubscribeMessage.Append,
    SubscribeOkMessage.Append, SubscribeErrorMessage.Append, UnsubscribeMessage.Append,
    SubscribeUpdateMessage.Append, SubscribeDoneMessage.Append, FetchMessage.Append,
    FetchOkMessage.Append, FetchErrorMessage.Append, FetchCancelMessage.Append,
    TrackStatusRequestMessage.Append, TrackStatusMessage.Append, AnnounceMessage.Append,
    AnnounceOkMessage.Append, AnnounceErrorMessage.Append, UnannounceMessage.Append,
    AnnounceCancelMessage.Append, SubscribeAnnouncesMessage.Append,
    SubscribeAnnouncesOkMessage.Append, SubscribeAnnouncesErrorMessage.Append,
    UnsubscribeAnnouncesMessage.Append, PublishMessage.Append, PublishOkMessage.Append,
    PublishErrorMessage.Append;
    destruct_and?; uniform_solve.
Qed.

(** Messages that start with their request ID. *)
Lemma uniform_head x g out :
  0 <= x -> uniform g -> qv_Append x [] ≫= g = Ok out ->
  0 <= x <= maxVarInt /\ exists e, out = qv_enc x ++ e.
Proof.
  intros Hx Hg H. inv_bind H. apply qv_Append_inv in E as [Hr ->]; [|done]. split; [done|].
  destruct Hg as [Hg|[e Hg]]; rewrite Hg in H; [done|]. injection H as <-. by exists e.
Qed.

Lemma Subscribe_head m body :
  encodable (Subscribe m) -> SubscribeMessage.Append m [] = Ok body ->
  0 <= SubscribeMessage.RequestID m <= maxVarInt /\
  exists e, body = qv_enc (SubscribeMessage.RequestID m) ++ e.
Proof.
  cbn [encodable]. intros Hm. destruct_and?. unfold SubscribeMessage.Append.
  apply uniform_head; [done|]. uniform_solve.
Qed.

Lemma Fetch_head m body :
  encodable (Fetch m) -> FetchMessage.Append m [] = Ok body ->
  0 <= FetchMessage.RequestID m <= maxVarInt /\
  exists e, body = qv_enc (FetchMessage.RequestID m) ++ e.
Proof.
  cbn [encodable]. intros Hm. destruct_and?. unfold FetchMessage.Append.
  apply uniform_head; [done|]. uniform_solve.
Qed.

End Uniform.

(** ** compileMessage *)

Section Compile.
Context {QV : QuicVarint} {QVL : QuicVarintLaws}.

(** What compileMessage does, for a message that can be encoded. *)
Lemma compileMessage_cases msg :
  encodable msg ->
  compileMessage msg =
    match ControlMessage.Append msg [] with
    | Ok body =>
        if len body >? 65535 then Err errControlMessageTooLarge
        else Ok (frame (ControlMessage.Type_ msg) body)
    | r => r
    end /\
  (ControlMessage.Append msg [] = Panic \/ exists body, ControlMessage.Append msg [] = Ok body).
Proof.
  intros Hwf. unfold compileMessage. rewrite qv_Append_enc by apply Type_bounds.
  cbn [app mbind res_bind]. destruct (ControlMessage_uniform _ Hwf) as [Hp|[body Hb]].
  - rewrite !Hp. split; [done|by left].
  - rewrite !Hb. cbn [app mbind res_bind]. split; [|by right; eexists]. set (pre := qv_enc _).
    replace (Z.of_nat (length pre) + 2) with (len (pre ++ [byte.of_Z 0; byte.of_Z 0]))
      by (rewrite len_app, !len_cons, len_nil; unfold len; lia).
    rewrite slice_from_app. cbn [mbind res_bind]. unfold math_MaxUint16. destruct (len body >? 65535) eqn:E; [done|].
    rewrite <- app_assoc. cbn [app]. rewrite PutUint16_frame. unfold uint16.
    pose proof (len_nonneg body). by rewrite Z.mod_small by lia.
Qed.

(** compileMessage on every message whose fields are values of their unsigned
    types: the frame of type, 16-bit big-endian length and body when the body
    fits into 65535 bytes, errControlMessageTooLarge when it does not, and a
    panic only when a field does not fit into a varint. *)
Theorem compileMessage_spec msg :
  encodable msg ->
  compileMessage msg =
    match ControlMessage.Append msg [] with
    | Ok body =>
        if len body >? 65535 then Err errControlMessageTooLarge
        else Ok (frame (ControlMessage.Type_ msg) body)
    | r => r
    end /\
  (ControlMessage.Append msg [] = Panic \/ exists body, ControlMessage.Append msg [] = Ok body).
Proof. exact (compileMessage_cases msg). Qed.

(** ** What the receiver makes of a message *)

(** The messages whose fields hold what the codec has a place for: the ranges
    the parser accepts, and zero where the message does not write the field.  The
    Publish family, which the parser does not know, only has to be written. *)
Definition codable (msg : ControlMessage) : Prop :=
  match msg with
  | Publish _ | PublishOk _ | PublishError _ => encodable msg
  | _ => ControlMessage.wf msg
  end.

(** What arrives for a message that was written.  An AnnounceCancel is read as
    an Announce, whose layout its fields may or may not fit; a Publish and a
    PublishOk have a type the parser does not know; a PublishError is read as a
    SubscribeError, whose type it has; the Expires of a SubscribeOk is written as
    nanoseconds and read as milliseconds.  Every other message is unchanged. *)
Definition received (msg : ControlMessage) : res ControlMessage :=
  match msg with
  | AnnounceCancel m =>
      body ← AnnounceCancelMessage.Append m []; Announce <$> AnnounceMessage.parse body
  | Publish _ | PublishOk _ => Err (errInvalidMessageType messageTypePublish)
  | PublishError m => Ok (SubscribeError (SubscribeErrorMessage.mk (PublishErrorMessage.RequestID m)
      (PublishErrorMessage.ErrorCode m) (PublishErrorMessage.ReasonPhrase m)))
  | SubscribeOk m => Ok (SubscribeOk (SubscribeOkMessage.with_Expires
      (int64 (SubscribeOkMessage.Expires m * SubscribeOkMessage.Millisecond)) m))
  | _ => Ok msg
  end.

Lemma received_faithful msg : ControlMessage.faithful msg -> received msg = Ok msg.
Proof.
  destruct msg as [| | | | | |m| | | | | | | | | | | | | | | | | | | | | |]; try done.
  cbn [ControlMessage.faithful received]. intros He. rewrite He. destruct m; cbn in *. by subst.
Qed.

(** The bytes between the header of a frame and its end are what was appended. *)
Lemma compileMessage_body msg out :
  encodable msg -> compileMessage msg = Ok out ->
  exists body, ControlMessage.Append msg [] = Ok body /\ len body <= 65535 /\
    out = frame (ControlMessage.Type_ msg) body.
Proof.
  intros He H. destruct (compileMessage_cases _ He) as [Hc _]. rewrite Hc in H.
  destruct (ControlMessage.Append msg []) as [body| | |]; try done.
  destruct (Z.gtb_spec (len body) 65535); [done|]. injection H as <-. eauto with lia.
Qed.

Lemma in_range_encodable msg : codable msg -> encodable msg.
Proof. destruct msg; cbn [codable]; intros H; try exact H; exact (wf_encodable _ H). Qed.

(** What the parser makes of the body of a message, under the type it has. *)
Lemma parse_received msg body :
  codable msg -> ControlMessage.Append msg [] = Ok body ->
  ControlMessage.parse (ControlMessage.Type_ msg) body = received msg.
Proof.
  assert (ControlMessage.faithful msg -> codable msg -> ControlMessage.Append msg [] = Ok body ->
    ControlMessage.parse (ControlMessage.Type_ msg) body = received msg) as Hf.
  { intros Hf Hr H. rewrite received_faithful by done.
    assert (ControlMessage.wf msg) as Hwf by (by destruct msg).
    by destruct (ControlMessage_reads _ Hwf Hf _ _ H) as (e & -> & He). }
  destruct msg; try (by apply Hf); intros Hr H; cbn [codable ControlMessage.wf encodable] in Hr;
    cbn [ControlMessage.Append received] in *.
  - destruct (SubscribeOkMessage.SubscribeOkMessage_reads _ Hr _ _ H) as (e & -> & He).
    cbn [app]. change (ControlMessage.parse _ e) with (SubscribeOk <$> SubscribeOkMessage.parse e). by rewrite He.
  - by rewrite H.
  - done.
  - done.
  - change (PublishErrorMessage.Append m) with (SubscribeErrorMessage.Append (SubscribeErrorMessage.mk
      (PublishErrorMessage.RequestID m) (PublishErrorMessage.ErrorCode m) (PublishErrorMessage.ReasonPhrase m))) in H.
    destruct (SubscribeErrorMessage.SubscribeErrorMessage_roundtrip (SubscribeErrorMessage.mk _ _ _) Hr _ _ H) as (e & -> & He).
    cbn [app]. change (ControlMessage.parse _ e) with (SubscribeError <$> SubscribeErrorMessage.parse e). by rewrite He.
Qed.

Lemma compiled_received msg out rest fin :
  codable msg -> compileMessage msg = Ok out ->
  ControlMessageParser_Parse (mkReader (out ++ rest) fin) =
  (m ← received msg; Ok (m, mkReader rest fin)).
Proof.
  intros Hr H. destruct (compileMessage_body _ _ (in_range_encodable _ Hr) H) as (body & Hb & Hl & ->).
  rewrite Parse_frame by (done || apply Type_bounds). by rewrite (parse_received _ _ Hr Hb).
Qed.

(** [m] can be written, and [m'] is what the receiver reads for it. *)
Definition crosses (m m' : ControlMessage) : Prop :=
  exists out, compileMessage m = Ok out /\ forall rest fin,
    ControlMessageParser_Parse (mkReader (out ++ rest) fin) = Ok (m', mkReader rest fin).

Lemma codable_crosses m m' :
  codable m -> (exists out, compileMessage m = Ok out) -> received m = Ok m' -> crosses m m'.
Proof.
  intros Hm (out & Ho) Hr. exists out. split; [done|]. intros rest fin.
  by rewrite (compiled_received _ _ _ _ Hm Ho), Hr.
Qed.

(** C1: What the receiving parser makes of a control message that was compiled
    into a frame, for every message type, whatever follows the frame on the
    stream and however the stream ends.  The message's fields are in range: the
    values the parser accepts, and zero where the message does not write the
    field.  Then the parser consumes exactly the frame and gives [received]: the
    same message, for every message but these four kinds: a SUBSCRIBE_OK comes
    with its Expires multiplied by a million, an ANNOUNCE_CANCEL is parsed as an
    ANNOUNCE, PUBLISH and PUBLISH_OK are refused as unknown, and a PUBLISH_ERROR
    is a SUBSCRIBE_ERROR. *)
Theorem control_message_roundtrip msg out rest fin :
  codable msg -> compileMessage msg = Ok out ->
  ControlMessageParser_Parse (mkReader (out ++ rest) fin) =
    (m ← received msg; Ok (m, mkReader rest fin)) /\
  (ControlMessage.faithful msg -> received msg = Ok msg).
Proof. intros Hr H. split; [by apply compiled_received|apply received_faithful]. Qed.

(** What arrives for a sequence of messages: what each of them arrives as, up to
    the first that the parser refuses, and then its error; [fin] is how the stream
    ends. *)
Fixpoint received_all (fin : error) (ms : list ControlMessage) : list ControlMessage * res unit :=
  match ms with
  | [] => ([], Err fin)
  | m :: ms =>
      match received m with
      | Ok m => let '(ms, e) := received_all fin ms in (m :: ms, e)
      | Err e => ([], Err e)
      | Panic => ([], Panic)
      | NoFuel => ([], NoFuel)
      end
  end.

Lemma received_all_faithful fin ms :
  Forall ControlMessage.faithful ms -> received_all fin ms = (ms, Err fin).
Proof.
  induction 1 as [|m ms Hm _ IH]; [done|]. cbn [received_all]. by rewrite received_faithful, IH.
Qed.

(** C2: A sequence of messages in range written to the control stream is read by
    the peer message by message, in order, each as what [received] says, until the
    stream ends or the parser refuses one; so a sequence without SUBSCRIBE_OK
    messages that expire, ANNOUNCE_CANCEL and the PUBLISH family is read back as
    the same sequence, and then the end of the stream. *)
Theorem control_stream_roundtrip ms bs fin :
  Forall codable ms -> compile_all ms = Ok bs ->
  read_messages (S (length ms)) (mkReader bs fin) = received_all fin ms /\
  (Forall ControlMessage.faithful ms -> received_all fin ms = (ms, Err fin)).
Proof.
  intros Hms H. split; [|apply received_all_faithful]. revert bs H.
  induction Hms as [|m ms Hm Hms IH]; intros bs H; cbn [compile_all] in H.
  - injection H as <-. cbn [read_messages length]. unfold ControlMessageParser_Parse, mbind, M_bind.
    by rewrite qv_Read_nil.
  - inv_bind H. inv_bind H. injection H as <-. specialize (IH _ E0).
    cbn [length]. set (n := S (length ms)) in *. cbn [read_messages received_all].
    rewrite (compiled_received _ _ _ _ Hm E).
    destruct (received m) as [m'| | |]; cbn [mbind res_bind]; [by rewrite IH|done..].
Qed.

(** An AnnounceCancel never arrives: its frame carries the type number of
    an Announce, so the peer's parser never delivers an AnnounceCancel for it. *)
Theorem announce_cancel_never_arrives c out rest fin m r :
  AnnounceCancelMessage.wf c -> compileMessage (AnnounceCancel c) = Ok out ->
  ControlMessageParser_Parse (mkReader (out ++ rest) fin) = Ok (m, r) ->
  exists a, m = Announce a.
Proof.
  intros Hwf H HP.
  destruct (compileMessage_frame (AnnounceCancel c) (fun d => AnnounceCancel <$> AnnounceCancelMessage.parse d)
    (AnnounceCancel c) _
    (reads_fmap _ _ _ _ (AnnounceCancelMessage.AnnounceCancelMessage_roundtrip _ Hwf)) H)
    as (body & -> & Hl & _).
  rewrite Parse_frame in HP by (done || apply Type_bounds). inv_bind HP. injection HP as <- _.
  change (ControlMessage.parse _ body) with (Announce <$> AnnounceMessage.parse body) in E.
  destruct (AnnounceMessage.parse body) as [a| | |]; [|done..]. injection E as <-. by exists a.
Qed.

(** The Expires of a SubscribeOk is sent as the number of nanoseconds and
    read as a number of milliseconds: the receiver sees a duration a million
    times as long (in int64 arithmetic), every other field unchanged. *)
Theorem subscribe_ok_expires m out rest fin :
  SubscribeOkMessage.wf m -> compileMessage (SubscribeOk m) = Ok out ->
  ControlMessageParser_Parse (mkReader (out ++ rest) fin) =
  Ok (SubscribeOk (SubscribeOkMessage.with_Expires
        (int64 (SubscribeOkMessage.Expires m * SubscribeOkMessage.Millisecond)) m),
      mkReader rest fin).
Proof.
  intros Hwf H.
  destruct (compileMessage_frame (SubscribeOk m) _ _ _
    (reads_fmap SubscribeOk _ _ _ (SubscribeOkMessage.SubscribeOkMessage_reads _ Hwf)) H)
    as (body & -> & Hl & Hp).
  rewrite Parse_frame by (done || apply Type_bounds).
  change (ControlMessage.parse _ body) with (SubscribeOk <$> SubscribeOkMessage.parse body).
  by rewrite Hp.
Qed.

(** A setup parameter of bytes whose declared length exceeds what is left
    of the message crashes the receiver: parsing the frame panics. *)
Theorem malformed_parameter_panics vs outv ty l left stream fin :
  versions.wf vs -> versions.append vs [] = Ok outv ->
  0 <= ty <= maxVarInt -> ty mod 2 = 1 -> len left < l <= maxAlloc ->
  let body := outv ++ qv_enc 1 ++ qv_enc ty ++ qv_enc l ++ left in
  len body <= 65535 ->
  ControlMessageParser_Parse (mkReader (frame messageTypeClientSetup body ++ stream) fin) = Panic.
Proof.
  intros Hvs Hv Hty Hodd Hl body Hb.
  destruct (rt_versions _ Hvs _ _ Hv) as (e & -> & He). cbn [app] in *.
  rewrite Parse_frame; [|by vm_compute|done].
  change (ControlMessage.parse _ body) with (ClientSetup <$> ClientSetupMessage.parse body).
  enough (ClientSetupMessage.parse body = Panic) as -> by done.
  unfold ClientSetupMessage.parse, run, field, body. unfold mbind, M_bind, res_bind.
  rewrite He, slice_from_app. unfold KVPList.parseNum.
  rewrite qv_Parse_enc, slice_after_enc by (unfold maxVarInt; lia).
  unfold mbind, res_bind. cbn [KVPList.parseNum_elements Z.ltb Z.compare].
  pose proof (len_nonneg left). assert (0 <= l <= maxVarInt) as Hlb by (unfold maxVarInt, maxAlloc in *; lia).
  enough (KeyValuePair.parse (qv_enc ty ++ qv_enc l ++ left) [] = Panic) as -> by done.
  unfold KeyValuePair.parse. rewrite qv_Parse_enc, slice_after_enc by done.
  unfold mbind, res_bind. rewrite Hodd, qv_Parse_enc, slice_after_enc by done. cbn [Z.eqb Pos.eqb].
  rewrite make_slice_bytes, app_nil_r by lia. unfold slice_to.
  by replace ((0 <=? l) && (l <=? len left)) with false by lia.
Qed.

End Compile.

(** ** At concrete inputs *)

Lemma compileMessage_spec_witness :
  compileMessage (Subscribe ex_subscribe) =
    match ControlMessage.Append (Subscribe ex_subscribe) [] with
    | Ok body =>
        if len body >? 65535 then Err errControlMessageTooLarge
        else Ok (frame messageTypeSubscribe body)
    | r => r
    end.
Proof. apply (compileMessage_spec (Subscribe ex_subscribe)). apply wf_encodable, ex_subscribe_wf. Defined.

(** A SUBSCRIBE_OK that expires is parsed with another Expires. *)
Lemma control_message_roundtrip_witness :
  let m := SubscribeOkMessage.mk 2 7 3000 1 false Location.zero [] in
  exists out, compileMessage (SubscribeOk m) = Ok out /\
    ControlMessageParser_Parse (mkReader (out ++ [byte.of_Z 7]) io_EOF) =
    Ok (SubscribeOk (SubscribeOkMessage.mk 2 7 3000000000 1 false Location.zero []),
        mkReader [byte.of_Z 7] io_EOF).
Proof.
  intros m. eexists. split; [vm_compute; reflexivity|].
  apply (control_message_roundtrip (SubscribeOk m)); [|vm_compute; reflexivity].
  cbn [codable ControlMessage.wf]. unfold SubscribeOkMessage.wf, Location.wf, KVPList.wf. cbn.
  split_and!; try lia; done || apply list.Forall_nil, I.
Defined.

(** A SUBSCRIBE and a MAX_REQUEST_ID are read back; a PUBLISH ends the reading. *)
Lemma control_stream_roundtrip_witness :
  let publish := Publish (PublishMessage.mk 4 [] [] 0 1 0 Location.zero 1 []) in
  exists bs, compile_all [Subscribe ex_subscribe; MaxRequestID (MaxRequestIDMessage.mk 100); publish] = Ok bs /\
  read_messages 4 (mkReader bs io_EOF)
  = ([Subscribe ex_subscribe; MaxRequestID (MaxRequestIDMessage.mk 100)],
     Err (errInvalidMessageType messageTypePublish)).
Proof.
  intros publish. eexists. split; [vm_compute; reflexivity|].
  apply (control_stream_roundtrip [Subscribe ex_subscribe; MaxRequestID (MaxRequestIDMessage.mk 100); publish]).
  - apply list.Forall_cons. split; [apply ex_subscribe_wf|].
    apply list.Forall_cons. split; [vm_compute; congruence|].
    apply list.Forall_cons. split; [|apply list.Forall_nil, I].
    repeat split; try (vm_compute; congruence). apply list.Forall_nil, I.
  - vm_compute. reflexivity.
Defined.

(** The cancellation is read as an announcement with request ID 0. *)
Lemma announce_cancel_never_arrives_witness :
  exists out m r,
    compileMessage (AnnounceCancel (AnnounceCancelMessage.mk [] 0 [])) = Ok out /\
    ControlMessageParser_Parse (mkReader (out ++ []) io_EOF) = Ok (m, r) /\
    exists a, m = Announce a.
Proof.
  eexists _, _, _. split; [vm_compute; reflexivity|]. split; [vm_compute; reflexivity|].
  eapply (announce_cancel_never_arrives (AnnounceCancelMessage.mk [] 0 []) _ [] io_EOF);
    [vm_compute; split; congruence|vm_compute; reflexivity|vm_compute; reflexivity].
Defined.

Lemma subscribe_ok_expires_witness :
  let m := SubscribeOkMessage.mk 2 7 3000 1 false Location.zero [] in
  exists out, compileMessage (SubscribeOk m) = Ok out /\
    ControlMessageParser_Parse (mkReader (out ++ []) io_EOF) =
    Ok (SubscribeOk (SubscribeOkMessage.mk 2 7 3000000000 1 false Location.zero []), mkReader [] io_EOF).
Proof.
  intros m. eexists. split; [vm_compute; reflexivity|].
  apply (subscribe_ok_expires m); [|vm_compute; reflexivity].
  unfold SubscribeOkMessage.wf, Location.wf, KVPList.wf. cbn.
  split_and!; try lia; done || apply list.Forall_nil, I.
Defined.

Lemma malformed_parameter_panics_witness :
  ControlMessageParser_Parse
    (mkReader (frame messageTypeClientSetup
      ((qv_enc 1 ++ qv_enc CurrentVersion) ++ qv_enc 1 ++ qv_enc 1 ++ qv_enc 2 ++ [byte.of_Z 47]) ++ [])
      io_EOF) = Panic.
Proof.
  apply (malformed_parameter_panics SupportedVersions); [|vm_compute; reflexivity|vm_compute; split; congruence
    |reflexivity|vm_compute; split; congruence|vm_compute; congruence].
  apply list.Forall_cons. split; [vm_compute; congruence|apply list.Forall_nil, I].
Defined.
