(* ===== verification/State.v ===== *)
(** Stateful code: functions that change a state and return a value or a Go
    error.  Unlike the parsers of Codec.v, whose state is abandoned on an
    error, a session goes on after a call has failed, so an error keeps the
    state ([GM]).  A channel with a buffer of one is a list of at most one
    element. *)

From S2P Require Import Prelude.
From stdpp Require Export gmap.
Local Open Scope Z_scope.

(** [return v, nil] or [return _, err]. *)
Inductive ret (A : Type) :=
  | Ret (a : A)
  | Error (e : error).
Arguments Ret {A} a.
Arguments Error {A} e.

#[export] Instance ret_eq_dec `{EqDecision A} : EqDecision (ret A).
Proof. solve_decision. Defined.

Definition GM (S A : Type) : Type := S -> res (ret A * S).

Definition gm_ret {S A} (a : A) : GM S A := fun s => Ok (Ret a, s).

(** [x, err := m; if err != nil { return err }; k x]. *)
Definition gm_bind {S A B} (m : GM S A) (k : A -> GM S B) : GM S B := fun s =>
  match m s with
  | Ok (Ret a, s') => k a s'
  | Ok (Error e, s') => Ok (Error e, s')
  | Err e => Err e
  | Panic => Panic
  | NoFuel => NoFuel
  end.

#[export] Instance GM_ret S : MRet (GM S) := fun A => gm_ret.
#[export] Instance GM_bind S : MBind (GM S) := fun A B k m => gm_bind m k.

(** Sequencing that reads the type of the value off the first computation. *)
Declare Scope go_scope.
Delimit Scope go_scope with go.
Notation "x <- m ; k" := (gm_bind m (fun x => k))
  (at level 20, m at level 100, k at level 200) : go_scope.
Notation "' p <- m ; k" := (gm_bind m (fun x => match x with p => k end))
  (at level 20, p pattern, m at level 100, k at level 200) : go_scope.
Definition throw {S A} (e : error) : GM S A := fun s => Ok (Error e, s).
Definition panic {S A} : GM S A := fun _ => Panic.

(** [err := m], the error as a value. *)
Definition attempt {S A} (m : GM S A) : GM S (ret A) := fun s =>
  match m s with
  | Ok (r, s') => Ok (Ret r, s')
  | Err e => Err e
  | Panic => Panic
  | NoFuel => NoFuel
  end.

Definition get {S A} (f : S -> A) : GM S A := fun s => Ok (Ret (f s), s).
Definition modify {S} (f : S -> S) : GM S unit := fun s => Ok (Ret tt, f s).

Definition of_option {S A} (o : option A) (e : error) : GM S A :=
  match o with Some a => mret a | None => throw e end.

(** ** Inverting runs *)

Lemma gm_bind_Ok {S A B} (m : GM S A) (k : A -> GM S B) s r s' :
  gm_bind m k s = Ok (r, s') ->
  (exists a s1, m s = Ok (Ret a, s1) /\ k a s1 = Ok (r, s')) \/
  (exists e, m s = Ok (Error e, s') /\ r = Error e).
Proof.
  unfold gm_bind. destruct (m s) as [[[a|e] s1]| | |]; intros H; [|injection H as <- <-|done..].
  - left. by exists a, s1.
  - right. by exists e.
Qed.

Lemma gm_bind_assoc {S A B C} (m : GM S A) (k : A -> GM S B) (h : B -> GM S C) s :
  gm_bind (gm_bind m k) h s = gm_bind m (fun a => gm_bind (k a) h) s.
Proof. unfold gm_bind. by destruct (m s) as [[[a|e] s1]| | |]. Qed.

(** A property of states that a computation keeps. *)
Definition keeps {S A} (P : S -> Prop) (m : GM S A) : Prop :=
  forall s r s', P s -> m s = Ok (r, s') -> P s'.

Create HintDb go.

Section Keeps.
Context {S : Type} (P : S -> Prop).

Lemma keeps_bind {A B} (m : GM S A) (k : A -> GM S B) :
  keeps P m -> (forall a, keeps P (k a)) -> keeps P (gm_bind m k).
Proof.
  intros Hm Hk s r s' Hs H. apply gm_bind_Ok in H as [(a & s1 & H1 & H2)|(e & H1 & _)].
  - eapply Hk; [|exact H2]. by eapply Hm.
  - by eapply Hm.
Qed.

Lemma keeps_ret {A} (a : A) : keeps P (mret a).
Proof. by intros s r s' Hs [= <- <-]. Qed.

Lemma keeps_throw {A} e : keeps P (throw e : GM S A).
Proof. by intros s r s' Hs [= <- <-]. Qed.

Lemma keeps_panic {A} : keeps P (panic : GM S A).
Proof. by intros s r s' Hs. Qed.

Lemma keeps_get {A} (f : S -> A) : keeps P (get f).
Proof. by intros s r s' Hs [= <- <-]. Qed.

Lemma keeps_modify (f : S -> S) : (forall s, P s -> P (f s)) -> keeps P (modify f).
Proof. intros Hf s r s' Hs [= <- <-]. by apply Hf. Qed.

Lemma keeps_attempt {A} (m : GM S A) : keeps P m -> keeps P (attempt m).
Proof.
  intros Hm s r s' Hs H. unfold attempt in H.
  destruct (m s) as [[r1 s1]| | |] eqn:E; [|done..]. injection H as <- <-. by eapply Hm.
Qed.

Lemma keeps_of_option {A} (o : option A) e : keeps P (of_option o e : GM S A).
Proof. destruct o; [apply keeps_ret|apply keeps_throw]. Qed.

End Keeps.

#[export] Hint Resolve keeps_ret keeps_throw keeps_panic keeps_get keeps_of_option
  keeps_attempt : go.

(** ** Channels with a buffer of one *)

(** [select { case ch <- x: default: }]: whether the value was taken. *)
Definition chan_send {A} (x : A) (ch : list A) : list A * bool :=
  match ch with
  | [] => ([x], true)
  | _ => (ch, false)
  end.

Definition chan_recv {A} (ch : list A) : option (A * list A) :=
  match ch with
  | [] => None
  | x :: ch => Some (x, ch)
  end.

(** ** Maps

    [for _, v := range m] visits the entries of a map in an order the language
    leaves open: [range], any enumeration of the map. *)

Class MapRange := {
  range {A} (m : gmap Z A) : list (Z * A);
  range_perm {A} (m : gmap Z A) : range m ≡ₚ map_to_list m;
}.

(** The entries in the order of [map_to_list]. *)
#[export] Instance MapRange_to_list : MapRange :=
  {| range := fun A m => map_to_list m; range_perm := fun A m => reflexivity _ |}.
