(* ===== verification/RequestID.v ===== *)
(** Request IDs and track aliases: requestIDGenerator (request_id.go) and
    sequence (sequence.go). *)

From S2P Require Import Prelude Errors State.
Local Open Scope Z_scope.

(** * request_id.go *)

Module requestIDGenerator.

Record t := mk { id : Z; max : Z; interval : Z }.

Definition newRequestIDGenerator (initialID maxID interval : Z) : t := mk initialID maxID interval.

(** The maximum is the value returned with the error. *)
Definition next (g : t) : Z * option error * t :=
  if id g >=? max g then (max g, Some errRequestIDblocked, g)
  else (id g, None, mk (uint64 (id g + interval g)) (max g) (interval g)).

Definition setMax (g : t) (v : Z) : option error * t :=
  if v <? max g then (Some errMaxRequestIDDecreased, g)
  else (None, mk (id g) v (interval g)).

(** The operations of a generator, interleaved. *)
Inductive op := Next | SetMax (v : Z).

(** The IDs handed out by a sequence of operations. *)
Fixpoint issued (g : t) (ops : list op) : list Z :=
  match ops with
  | [] => []
  | Next :: ops =>
      let '(x, err, g) := next g in
      match err with
      | None => x :: issued g ops
      | Some _ => issued g ops
      end
  | SetMax v :: ops => issued (setMax g v).2 ops
  end.

End requestIDGenerator.

(** * sequence.go *)

Module sequence.

Record t := mk { last : Z; interval : Z }.

Definition newSequence (initial interval : Z) : t := mk initial interval.

Definition next (s : t) : Z * t :=
  let last := uint64 (last s + interval s) in
  (uint64 (last - interval s), mk last (interval s)).

(** The first [n] values. *)
Fixpoint take_n (n : nat) (s : t) : list Z :=
  match n with
  | O => []
  | S n => let '(x, s) := next s in x :: take_n n s
  end.

End sequence.

(** * Properties *)

(** The first ID, and then every [interval]-th. *)
Definition arithmetic (first step : Z) (n : nat) : list Z :=
  map (fun k => first + step * Z.of_nat k) (seq 0 n).

Lemma arithmetic_S first step n :
  arithmetic first step (S n) = first :: arithmetic (first + step) step n.
Proof.
  unfold arithmetic. cbn [seq map]. f_equal; [lia|].
  rewrite <- seq_shift, map_map. apply map_ext. intros k. lia.
Qed.

(** The maxima a peer can announce are varints. *)
Definition valid_op (o : requestIDGenerator.op) : Prop :=
  match o with
  | requestIDGenerator.Next => True
  | requestIDGenerator.SetMax v => 0 <= v < 2 ^ 62
  end.

Definition in_bounds (g : requestIDGenerator.t) : Prop :=
  0 <= requestIDGenerator.id g /\ requestIDGenerator.max g < 2 ^ 62.

(** Over any interleaving of requests and MAX_REQUEST_ID updates, the
    request IDs handed out are the initial ID and every second ID after it
    (with the step of the generator), without gap or repetition; a request that
    is blocked takes no ID. *)
Theorem request_ids_sequential g ops :
  in_bounds g -> 0 <= requestIDGenerator.interval g < 2 ^ 62 ->
  requestIDGenerator.id g < 2 ^ 63 ->
  Forall valid_op ops ->
  exists n, requestIDGenerator.issued g ops =
    arithmetic (requestIDGenerator.id g) (requestIDGenerator.interval g) n.
Proof.
  intros [Hi Hm] Hs Hi2 Hops. revert g Hi Hm Hs Hi2. induction Hops as [|o ops Ho Hops IH];
    intros g Hi Hm Hs Hi2; [by exists 0%nat|].
  destruct o as [|v]; cbn [requestIDGenerator.issued].
  - unfold requestIDGenerator.next.
    destruct (Z.geb_spec (requestIDGenerator.id g) (requestIDGenerator.max g)) as [Hb|Hb].
    + by apply IH.
    + rewrite uint64_small by lia.
      destruct (IH (requestIDGenerator.mk
        (requestIDGenerator.id g + requestIDGenerator.interval g)
        (requestIDGenerator.max g) (requestIDGenerator.interval g))) as [n ->]; [cbn; lia..|].
      exists (S n). by rewrite arithmetic_S.
  - unfold requestIDGenerator.setMax. destruct (v <? requestIDGenerator.max g); cbn [snd].
    + by apply IH.
    + apply (IH (requestIDGenerator.mk (requestIDGenerator.id g) v
        (requestIDGenerator.interval g))); cbn; try lia. apply Ho.
Qed.

(** Every ID handed out is below the maximum of its time. *)
Lemma next_below_max g x g' :
  requestIDGenerator.next g = (x, None, g') ->
  x = requestIDGenerator.id g /\ x < requestIDGenerator.max g /\
  requestIDGenerator.max g' = requestIDGenerator.max g.
Proof.
  unfold requestIDGenerator.next.
  destruct (Z.geb_spec (requestIDGenerator.id g) (requestIDGenerator.max g)); [done|].
  intros [= <- <-]. done.
Qed.

Lemma next_blocked g x e g' :
  requestIDGenerator.next g = (x, Some e, g') ->
  e = errRequestIDblocked /\ x = requestIDGenerator.max g /\ g' = g /\
  requestIDGenerator.max g <= requestIDGenerator.id g.
Proof.
  unfold requestIDGenerator.next.
  destruct (Z.geb_spec (requestIDGenerator.id g) (requestIDGenerator.max g)); [|done].
  intros [= <- <- <-]. done.
Qed.

Lemma setMax_monotone g v err g' :
  requestIDGenerator.setMax g v = (err, g') ->
  requestIDGenerator.max g <= requestIDGenerator.max g' /\
  requestIDGenerator.id g' = requestIDGenerator.id g /\
  requestIDGenerator.interval g' = requestIDGenerator.interval g /\
  (err = None <-> requestIDGenerator.max g <= v).
Proof.
  unfold requestIDGenerator.setMax. destruct (Z.ltb_spec v (requestIDGenerator.max g));
    intros [= <- <-]; cbn; split_and!; try lia; split; (done || lia).
Qed.

(** The aliases of a sequence. *)
Lemma sequence_values n a :
  0 <= a -> a + Z.of_nat n < 2 ^ 64 ->
  sequence.take_n n (sequence.newSequence a 1) = arithmetic a 1 n.
Proof.
  revert a. induction n as [|n IH]; intros a Ha Hn; [done|].
  rewrite arithmetic_S. cbn [sequence.take_n sequence.next sequence.last sequence.interval
    sequence.newSequence]. unfold sequence.newSequence in IH.
  rewrite (uint64_small (a + 1)) by lia. rewrite uint64_small by lia.
  rewrite IH by lia. f_equal. lia.
Qed.

Lemma request_ids_sequential_witness :
  exists n, requestIDGenerator.issued (requestIDGenerator.newRequestIDGenerator 1 0 2)
    [requestIDGenerator.Next; requestIDGenerator.SetMax 4; requestIDGenerator.Next;
     requestIDGenerator.Next; requestIDGenerator.Next; requestIDGenerator.SetMax 100;
     requestIDGenerator.Next] = arithmetic 1 2 n.
Proof.
  apply (request_ids_sequential (requestIDGenerator.newRequestIDGenerator 1 0 2)).
  - vm_compute. split; congruence.
  - vm_compute. split; congruence.
  - vm_compute. congruence.
  - repeat constructor; vm_compute; congruence.
Defined.
