(* ===== verification/TrackMaps.v ===== *)
(** The tables of tracks: localTrackMap (local_track_map.go) and remoteTrackMap
    (remote_track_map.go), and the abstract table both implement.

    A table holds pointers; [A] is the type of pointers.  Every operation of
    the source runs under the lock of its table, so each is one atomic
    function here. *)

From S2P Require Import Prelude Errors State.
Local Open Scope Z_scope.

(** * The abstract table *)

(** A request is absent, pending or open; only an absent one can be added, only
    a pending one can be confirmed or rejected. *)
Inductive status := Pending | Open.

#[export] Instance status_eq_dec : EqDecision status.
Proof. solve_decision. Defined.

Module TrackTable.
Section TrackTable.
Context {A : Type}.

Definition add (m : gmap Z (status * A)) (id : Z) (a : A) : bool * gmap Z (status * A) :=
  match m !! id with
  | Some _ => (false, m)
  | None => (true, <[id := (Pending, a)]> m)
  end.

Definition find (m : gmap Z (status * A)) (id : Z) : option A := snd <$> m !! id.

Definition confirm (m : gmap Z (status * A)) (id : Z) : option A * gmap Z (status * A) :=
  match m !! id with
  | Some (Pending, a) => (Some a, <[id := (Open, a)]> m)
  | _ => (None, m)
  end.

Definition reject (m : gmap Z (status * A)) (id : Z) : option A * gmap Z (status * A) :=
  match m !! id with
  | Some (Pending, a) => (Some a, delete id m)
  | _ => (None, m)
  end.

Definition remove (m : gmap Z (status * A)) (id : Z) : option A * gmap Z (status * A) := (find m id, delete id m).

End TrackTable.
End TrackTable.

(** * local_track_map.go *)

Module localTrackMap.
Section localTrackMap.
Context {A : Type}.

Record t := mk { pending : gmap Z A; open : gmap Z A }.

Definition newLocalTrackMap : t := mk ∅ ∅.

(** [requestID] is the request ID of the track [lt] points to. *)
Definition addPending (m : t) (requestID : Z) (lt : A) : bool * t :=
  match pending m !! requestID with
  | Some _ => (false, m)
  | None =>
      match open m !! requestID with
      | Some _ => (false, m)
      | None => (true, mk (<[requestID := lt]> (pending m)) (open m))
      end
  end.

Definition findByID (m : t) (id : Z) : option A :=
  match pending m !! id with
  | Some sub => Some sub
  | None => open m !! id
  end.

Definition delete (m : t) (id : Z) : option A * t :=
  match findByID m id with
  | None => (None, m)
  | Some sub => (Some sub, mk (base.delete id (pending m)) (base.delete id (open m)))
  end.

Definition confirm (m : t) (id : Z) : option A * t :=
  match pending m !! id with
  | None => (None, m)
  | Some lt => (Some lt, mk (base.delete id (pending m)) (<[id := lt]> (open m)))
  end.

Definition reject (m : t) (id : Z) : option A * t :=
  match pending m !! id with
  | None => (None, m)
  | Some lt => (Some lt, mk (base.delete id (pending m)) (open m))
  end.

(** No request is both pending and open. *)
Definition wf (m : t) : Prop := pending m ##ₘ open m.

End localTrackMap.
Arguments t : clear implicits.
End localTrackMap.

(** * remote_track_map.go *)

Module remoteTrackMap.
Section remoteTrackMap.
Context {A : Type}.

Record t := mk {
  nextTrackAlias : Z;
  pending : gmap Z A;
  open : gmap Z A;
  trackAliasToRequestID : gmap Z Z }.

Definition newRemoteTrackMap : t := mk 0 ∅ ∅ ∅.

Definition findByRequestID (m : t) (id : Z) : option A :=
  match open m !! id with
  | Some sub => Some sub
  | None => pending m !! id
  end.

Definition addPending (m : t) (requestID : Z) (rt : A) : option error * t :=
  match pending m !! requestID with
  | Some _ => (Some errDuplicateRequestIDBug, m)
  | None =>
      match open m !! requestID with
      | Some _ => (Some errDuplicateRequestIDBug, m)
      | None => (None, mk (nextTrackAlias m) (<[requestID := rt]> (pending m)) (open m)
                          (trackAliasToRequestID m))
      end
  end.

(** The source repeats the body of addPending. *)
Definition addPendingWithAlias (m : t) (requestID : Z) (rt : A) : option error * t :=
  match pending m !! requestID with
  | Some _ => (Some errDuplicateRequestIDBug, m)
  | None =>
      match open m !! requestID with
      | Some _ => (Some errDuplicateRequestIDBug, m)
      | None => (None, mk (nextTrackAlias m) (<[requestID := rt]> (pending m)) (open m)
                          (trackAliasToRequestID m))
      end
  end.

Definition setAlias (m : t) (id alias : Z) : option error * t :=
  match trackAliasToRequestID m !! alias with
  | Some _ => (Some errDuplicateTrackAliasBug, m)
  | None => (None, mk (nextTrackAlias m) (pending m) (open m)
                      (<[alias := id]> (trackAliasToRequestID m)))
  end.

Definition confirm (m : t) (id : Z) : ret A * t :=
  match pending m !! id with
  | None => (Error errUnknownRequestID, m)
  | Some s => (Ret s, mk (nextTrackAlias m) (base.delete id (pending m)) (<[id := s]> (open m))
                         (trackAliasToRequestID m))
  end.

Definition reject (m : t) (id : Z) : option A * t :=
  match pending m !! id with
  | None => (None, m)
  | Some s => (Some s, mk (nextTrackAlias m) (base.delete id (pending m)) (open m)
                          (trackAliasToRequestID m))
  end.

Definition findByTrackAlias (m : t) (alias : Z) : option A :=
  match trackAliasToRequestID m !! alias with
  | None => None
  | Some id => findByRequestID m id
  end.

Definition wf (m : t) : Prop := pending m ##ₘ open m.

End remoteTrackMap.
Arguments t : clear implicits.
End remoteTrackMap.

(** * Refinement *)

Section Refinement.
Context {A : Type}.

(** The table a pair of maps stands for. *)
Definition table_of (pending open : gmap Z A) : gmap Z (status * A) :=
  (pair Pending <$> pending) ∪ (pair Open <$> open).

Lemma table_lookup pending open id :
  table_of pending open !! id =
    match pending !! id with
    | Some a => Some (Pending, a)
    | None => pair Open <$> open !! id
    end.
Proof.
  unfold table_of. rewrite lookup_union, !lookup_fmap.
  destruct (pending !! id), (open !! id); done.
Qed.

Lemma disjoint_none (m1 m2 : gmap Z A) id a : m1 ##ₘ m2 -> m1 !! id = Some a -> m2 !! id = None.
Proof. intros Hd. apply map_disjoint_Some_l. done. Qed.

Lemma table_insert_pending pending open id a :
  table_of (<[id := a]> pending) open = <[id := (Pending, a)]> (table_of pending open).
Proof.
  apply map_eq. intros i. rewrite table_lookup. destruct (decide (i = id)) as [->|Hne].
  - by rewrite !lookup_insert_eq.
  - by rewrite !lookup_insert_ne, table_lookup by done.
Qed.

Lemma table_move pending open id a :
  table_of (delete id pending) (<[id := a]> open) = <[id := (Open, a)]> (table_of pending open).
Proof.
  apply map_eq. intros i. rewrite table_lookup. destruct (decide (i = id)) as [->|Hne].
  - by rewrite lookup_delete_eq, !lookup_insert_eq.
  - by rewrite lookup_delete_ne, !lookup_insert_ne, table_lookup by done.
Qed.

Lemma table_delete_both pending open id :
  table_of (delete id pending) (delete id open) = delete id (table_of pending open).
Proof.
  apply map_eq. intros i. rewrite table_lookup. destruct (decide (i = id)) as [->|Hne].
  - by rewrite !lookup_delete_eq.
  - by rewrite !lookup_delete_ne, table_lookup by done.
Qed.

Lemma table_delete_pending pending open id :
  open !! id = None ->
  table_of (delete id pending) open = delete id (table_of pending open).
Proof. intros H. rewrite <- table_delete_both. f_equal. by rewrite delete_id. Qed.

Lemma disjoint_insert (m1 m2 : gmap Z A) id a :
  m1 ##ₘ m2 -> m2 !! id = None -> <[id := a]> m1 ##ₘ m2.
Proof. intros. by apply map_disjoint_insert_l. Qed.

Lemma disjoint_delete (m1 m2 : gmap Z A) id : m1 ##ₘ m2 -> delete id m1 ##ₘ m2.
Proof. apply map_disjoint_delete_l. Qed.

Lemma disjoint_move (m1 m2 : gmap Z A) id a : m1 ##ₘ m2 -> delete id m1 ##ₘ <[id := a]> m2.
Proof.
  intros H. apply map_disjoint_insert_r. split; [by rewrite lookup_delete_eq|].
  by apply disjoint_delete.
Qed.

Hint Resolve disjoint_insert disjoint_delete disjoint_move : go.

Definition local_table (m : localTrackMap.t A) : gmap Z (status * A) :=
  table_of (localTrackMap.pending m) (localTrackMap.open m).

Definition remote_table (m : remoteTrackMap.t A) : gmap Z (status * A) :=
  table_of (remoteTrackMap.pending m) (remoteTrackMap.open m).

(** Operation by operation: the result and the table after it are those of the
    abstract table, and the maps stay disjoint. *)
Lemma local_addPending m id a :
  localTrackMap.wf m ->
  let '(b, m') := localTrackMap.addPending m id a in
  TrackTable.add (local_table m) id a = (b, local_table m') /\ localTrackMap.wf m'.
Proof.
  intros Hwf. unfold localTrackMap.addPending, TrackTable.add, local_table.
  rewrite table_lookup. destruct (localTrackMap.pending m !! id) eqn:Ep; [done|].
  destruct (localTrackMap.open m !! id) eqn:Eo; [done|]. cbn.
  rewrite table_insert_pending. split; [done|]. unfold localTrackMap.wf. cbn. auto with go.
Qed.

Lemma local_findByID m id :
  localTrackMap.findByID m id = TrackTable.find (local_table m) id.
Proof.
  unfold localTrackMap.findByID, TrackTable.find, local_table. rewrite table_lookup.
  destruct (localTrackMap.pending m !! id), (localTrackMap.open m !! id); done.
Qed.

Lemma local_delete m id :
  localTrackMap.wf m ->
  let '(r, m') := localTrackMap.delete m id in
  TrackTable.remove (local_table m) id = (r, local_table m') /\ localTrackMap.wf m'.
Proof.
  intros Hwf. unfold localTrackMap.delete, TrackTable.remove. rewrite local_findByID.
  destruct (TrackTable.find (local_table m) id) eqn:E.
  - unfold local_table. cbn. rewrite table_delete_both. split; [done|].
    unfold localTrackMap.wf. cbn. apply disjoint_delete, map_disjoint_delete_r, Hwf.
  - split; [|done]. f_equal. apply delete_id. unfold TrackTable.find in E.
    by destruct (local_table m !! id).
Qed.

Lemma local_confirm m id :
  localTrackMap.wf m ->
  let '(r, m') := localTrackMap.confirm m id in
  TrackTable.confirm (local_table m) id = (r, local_table m') /\ localTrackMap.wf m'.
Proof.
  intros Hwf. unfold localTrackMap.confirm, TrackTable.confirm, local_table.
  rewrite table_lookup. destruct (localTrackMap.pending m !! id) eqn:Ep; cbn.
  - rewrite table_move. split; [done|]. unfold localTrackMap.wf. cbn. auto with go.
  - by destruct (localTrackMap.open m !! id).
Qed.

Lemma local_reject m id :
  localTrackMap.wf m ->
  let '(r, m') := localTrackMap.reject m id in
  TrackTable.reject (local_table m) id = (r, local_table m') /\ localTrackMap.wf m'.
Proof.
  intros Hwf. unfold localTrackMap.reject, TrackTable.reject, local_table.
  rewrite table_lookup. destruct (localTrackMap.pending m !! id) eqn:Ep; cbn.
  - rewrite table_delete_pending by (by eapply disjoint_none). split; [done|].
    unfold localTrackMap.wf. cbn. auto with go.
  - by destruct (localTrackMap.open m !! id).
Qed.

Lemma remote_addPending m id a :
  remoteTrackMap.wf m ->
  let '(e, m') := remoteTrackMap.addPending m id a in
  TrackTable.add (remote_table m) id a = (bool_decide (e = None), remote_table m') /\
  (e = None \/ e = Some errDuplicateRequestIDBug) /\ remoteTrackMap.wf m'.
Proof.
  intros Hwf. unfold remoteTrackMap.addPending, TrackTable.add, remote_table.
  rewrite table_lookup. destruct (remoteTrackMap.pending m !! id) eqn:Ep; [auto|].
  destruct (remoteTrackMap.open m !! id) eqn:Eo; [auto|]. cbn.
  rewrite table_insert_pending. split_and!; [done|auto|]. unfold remoteTrackMap.wf. cbn. auto with go.
Qed.

Lemma remote_findByRequestID m id :
  remoteTrackMap.wf m ->
  remoteTrackMap.findByRequestID m id = TrackTable.find (remote_table m) id.
Proof.
  intros Hwf. unfold remoteTrackMap.findByRequestID, TrackTable.find, remote_table.
  rewrite table_lookup. destruct (remoteTrackMap.pending m !! id) eqn:Ep.
  - by rewrite (disjoint_none _ _ _ _ Hwf Ep).
  - by destruct (remoteTrackMap.open m !! id).
Qed.

Lemma remote_confirm m id :
  remoteTrackMap.wf m ->
  let '(r, m') := remoteTrackMap.confirm m id in
  TrackTable.confirm (remote_table m) id
    = (match r with Ret a => Some a | Error _ => None end, remote_table m') /\
  remoteTrackMap.wf m'.
Proof.
  intros Hwf. unfold remoteTrackMap.confirm, TrackTable.confirm, remote_table.
  rewrite table_lookup. destruct (remoteTrackMap.pending m !! id) eqn:Ep; cbn.
  - rewrite table_move. split; [done|]. unfold remoteTrackMap.wf. cbn. auto with go.
  - by destruct (remoteTrackMap.open m !! id).
Qed.

Lemma remote_reject m id :
  remoteTrackMap.wf m ->
  let '(r, m') := remoteTrackMap.reject m id in
  TrackTable.reject (remote_table m) id = (r, remote_table m') /\ remoteTrackMap.wf m'.
Proof.
  intros Hwf. unfold remoteTrackMap.reject, TrackTable.reject, remote_table.
  rewrite table_lookup. destruct (remoteTrackMap.pending m !! id) eqn:Ep; cbn.
  - rewrite table_delete_pending by (by eapply disjoint_none). split; [done|].
    unfold remoteTrackMap.wf. cbn. auto with go.
  - by destruct (remoteTrackMap.open m !! id).
Qed.

Lemma remote_setAlias m id alias :
  let '(e, m') := remoteTrackMap.setAlias m id alias in
  remote_table m' = remote_table m /\ (remoteTrackMap.wf m -> remoteTrackMap.wf m').
Proof.
  unfold remoteTrackMap.setAlias. by destruct (_ !! alias).
Qed.

End Refinement.

(** ** Runs of operations *)

Section Runs.
Context {A : Type}.

Inductive op :=
  | OpAdd (id : Z) (a : A)
  | OpFind (id : Z)
  | OpConfirm (id : Z)
  | OpReject (id : Z)
  | OpDelete (id : Z)
  | OpSetAlias (id alias : Z)
  | OpFindAlias (alias : Z).

(** What an operation answers: whether it succeeded, and the track. *)
Definition answer : Type := bool * option A.

Definition local_op (o : op) (m : localTrackMap.t A) : answer * localTrackMap.t A :=
  match o with
  | OpAdd id a => let '(b, m) := localTrackMap.addPending m id a in ((b, None), m)
  | OpFind id => let r := localTrackMap.findByID m id in ((bool_decide (is_Some r), r), m)
  | OpConfirm id => let '(r, m) := localTrackMap.confirm m id in ((bool_decide (is_Some r), r), m)
  | OpReject id => let '(r, m) := localTrackMap.reject m id in ((bool_decide (is_Some r), r), m)
  | OpDelete id => let '(r, m) := localTrackMap.delete m id in ((bool_decide (is_Some r), r), m)
  | _ => ((false, None), m)
  end.

Definition of_ret (r : ret A) : option A := match r with Ret a => Some a | Error _ => None end.

Definition remote_op (o : op) (m : remoteTrackMap.t A) : answer * remoteTrackMap.t A :=
  match o with
  | OpAdd id a =>
      let '(e, m) := remoteTrackMap.addPendingWithAlias m id a in ((bool_decide (e = None), None), m)
  | OpFind id => let r := remoteTrackMap.findByRequestID m id in ((bool_decide (is_Some r), r), m)
  | OpConfirm id =>
      let '(r, m) := remoteTrackMap.confirm m id in
      ((bool_decide (is_Some (of_ret r)), of_ret r), m)
  | OpReject id => let '(r, m) := remoteTrackMap.reject m id in ((bool_decide (is_Some r), r), m)
  | OpSetAlias id alias =>
      let '(e, m) := remoteTrackMap.setAlias m id alias in ((bool_decide (e = None), None), m)
  | OpFindAlias alias =>
      let r := remoteTrackMap.findByTrackAlias m alias in ((bool_decide (is_Some r), r), m)
  | OpDelete _ => ((false, None), m)
  end.

(** The abstract state: the table, and the request each alias was first given to. *)
Definition spec_op (o : op) (s : gmap Z (status * A) * gmap Z Z) :
    answer * (gmap Z (status * A) * gmap Z Z) :=
  let '(m, al) := s in
  match o with
  | OpAdd id a => let '(b, m) := TrackTable.add m id a in ((b, None), (m, al))
  | OpFind id => let r := TrackTable.find m id in ((bool_decide (is_Some r), r), s)
  | OpConfirm id => let '(r, m) := TrackTable.confirm m id in ((bool_decide (is_Some r), r), (m, al))
  | OpReject id => let '(r, m) := TrackTable.reject m id in ((bool_decide (is_Some r), r), (m, al))
  | OpDelete id => let '(r, m) := TrackTable.remove m id in ((bool_decide (is_Some r), r), (m, al))
  | OpSetAlias id alias =>
      match al !! alias with
      | Some _ => ((false, None), s)
      | None => ((true, None), (m, <[alias := id]> al))
      end
  | OpFindAlias alias =>
      let r := al !! alias ≫= TrackTable.find m in ((bool_decide (is_Some r), r), s)
  end.

Fixpoint answers {M} (step : op -> M -> answer * M) (m : M) (ops : list op) : list answer :=
  match ops with
  | [] => []
  | o :: ops => let '(r, m) := step o m in r :: answers step m ops
  end.

(** The operations the two tables offer. *)
Definition is_local (o : op) : Prop :=
  match o with OpSetAlias _ _ | OpFindAlias _ => False | _ => True end.
Definition is_remote (o : op) : Prop :=
  match o with OpDelete _ => False | _ => True end.

(** One concrete step is one abstract step. *)
Lemma local_op_refines o m al :
  is_local o -> localTrackMap.wf m ->
  let '(r, m') := local_op o m in
  spec_op o (local_table m, al) = (r, (local_table m', al)) /\ localTrackMap.wf m'.
Proof.
  intros Ho Hwf. destruct o as [id a|id|id|id|id| |]; try contradiction; cbn [local_op spec_op].
  - pose proof (local_addPending m id a Hwf) as H. destruct (localTrackMap.addPending m id a).
    by destruct H as [-> ?].
  - by rewrite local_findByID.
  - pose proof (local_confirm m id Hwf) as H. destruct (localTrackMap.confirm m id).
    by destruct H as [-> ?].
  - pose proof (local_reject m id Hwf) as H. destruct (localTrackMap.reject m id).
    by destruct H as [-> ?].
  - pose proof (local_delete m id Hwf) as H. destruct (localTrackMap.delete m id).
    by destruct H as [-> ?].
Qed.

Lemma remote_op_refines o m :
  is_remote o -> remoteTrackMap.wf m ->
  let '(r, m') := remote_op o m in
  spec_op o (remote_table m, remoteTrackMap.trackAliasToRequestID m)
  = (r, (remote_table m', remoteTrackMap.trackAliasToRequestID m')) /\ remoteTrackMap.wf m'.
Proof.
  intros Ho Hwf. destruct o as [id a|id|id|id| |id alias|alias]; try contradiction;
    cbn [remote_op spec_op].
  - change remoteTrackMap.addPendingWithAlias with (@remoteTrackMap.addPending A).
    pose proof (remote_addPending m id a Hwf) as H.
    destruct (remoteTrackMap.addPending m id a) as [e m'] eqn:E. destruct H as (-> & _ & ?).
    assert (remoteTrackMap.trackAliasToRequestID m' = remoteTrackMap.trackAliasToRequestID m) as <-;
      [|done]. unfold remoteTrackMap.addPending in E.
    destruct (_ !! id); [by injection E as <- <-|].
    destruct (_ !! id); by injection E as <- <-.
  - by rewrite (remote_findByRequestID m id Hwf).
  - pose proof (remote_confirm m id Hwf) as H. unfold remoteTrackMap.confirm in *.
    destruct (_ !! id); by destruct H as [-> ?].
  - pose proof (remote_reject m id Hwf) as H. unfold remoteTrackMap.reject in *.
    destruct (_ !! id); by destruct H as [-> ?].
  - pose proof (remote_setAlias m id alias) as H. unfold remoteTrackMap.setAlias in *.
    destruct (_ !! alias); [by destruct H|]. destruct H as [-> Hwf']. cbn. auto.
  - unfold remoteTrackMap.findByTrackAlias.
    destruct (_ !! alias); cbn; [|done]. by rewrite (remote_findByRequestID m _ Hwf).
Qed.

(** C34: The local track table implements the abstract one: over any sequence of
    addPending, findByID, confirm, reject and delete calls from an empty table
    it gives the answers of a table in which each request ID is absent, pending
    or open (a request is added once, confirmed or rejected only while pending,
    and deleted from either state). *)
Theorem localTrackMap_refines ops :
  Forall is_local ops ->
  answers local_op localTrackMap.newLocalTrackMap ops = answers spec_op (∅, ∅) ops.
Proof.
  intros Hops.
  assert (forall m, localTrackMap.wf m ->
    answers local_op m ops = answers spec_op (local_table m, ∅) ops) as H.
  { induction Hops as [|o ops Ho Hops IH]; intros m Hwf; [done|]. cbn [answers].
    pose proof (local_op_refines o m ∅ Ho Hwf) as H. destruct (local_op o m) as [r m'].
    destruct H as [-> Hwf']. by rewrite IH. }
  by rewrite H by apply map_disjoint_empty_l.
Qed.

(** The remote track table implements the abstract one together with a map
    of aliases in which the first request to claim an alias keeps it: over any
    sequence of its operations from an empty table the answers are the same,
    looking a track up by its alias included. *)
Theorem remoteTrackMap_refines ops :
  Forall is_remote ops ->
  answers remote_op remoteTrackMap.newRemoteTrackMap ops = answers spec_op (∅, ∅) ops.
Proof.
  intros Hops.
  assert (forall m, remoteTrackMap.wf m ->
    answers remote_op m ops
    = answers spec_op (remote_table m, remoteTrackMap.trackAliasToRequestID m) ops) as H.
  { induction Hops as [|o ops Ho Hops IH]; intros m Hwf; [done|]. cbn [answers].
    pose proof (remote_op_refines o m Ho Hwf) as H. destruct (remote_op o m) as [r m'].
    destruct H as [-> Hwf']. by rewrite IH. }
  by rewrite H by apply map_disjoint_empty_l.
Qed.

End Runs.

Lemma localTrackMap_refines_witness :
  let ops := [OpAdd 0 tt; OpAdd 0 tt; OpConfirm 0; OpReject 0; OpFind 0; OpDelete 0; OpFind 0] in
  answers local_op localTrackMap.newLocalTrackMap ops = answers spec_op (∅, ∅) ops.
Proof. intros ops. apply (localTrackMap_refines ops). repeat constructor. Defined.

Lemma remoteTrackMap_refines_witness :
  let ops := [OpAdd 0 tt; OpSetAlias 0 7; OpConfirm 0; OpFindAlias 7; OpAdd 2 tt; OpSetAlias 2 7;
              OpReject 2; OpFindAlias 7] in
  answers remote_op remoteTrackMap.newRemoteTrackMap ops = answers spec_op (∅, ∅) ops.
Proof. intros ops. apply (remoteTrackMap_refines ops). repeat constructor. Defined.
