(* ===== verification/Tracks.v ===== *)
(** Tracks: the publisher's localTrack (local_track.go) and the subscriber's
    RemoteTrack (remote_track.go).

    A context that can be cancelled with a cause is an option: the first cause
    it was cancelled with.  The answers of the connection (OpenUniStream,
    SendDatagram, Write) are arguments of the operations that wait for them. *)

From S2P Require Import Prelude VarInt Codec WireTypes Objects Errors State.
Local Open Scope Z_scope.

(** [cancel(cause)]: the first cause counts. *)
Definition cancel (ctx : option error) (cause : error) : option error :=
  match ctx with
  | Some e => Some e
  | None => Some cause
  end.

(** context.Canceled. *)
Definition context_Canceled : error := errContext 0.

(** * object.go *)

Definition ObjectForwardingPreferenceSubgroup : Z := 0x00.
(** The second constant of the block repeats the expression of the first. *)
Definition ObjectForwardingPreferenceDatagram : Z := 0x00.

Module Object.

Record t := mk {
  GroupID : Z;
  ObjectID : Z;
  ForwardingPreference : Z;
  SubGroupID : Z;
  Payload : list byte }.

End Object.

(** * local_track.go *)

Module localTrack.
Section localTrack.
Context {QV : QuicVarint}.

(** [subscribeDone] says whether there is a callback (a subscription has one,
    a fetch has none); the callback itself belongs to the session. *)
Record t := mk {
  requestID : Z;
  trackAlias : Z;
  subgroupCount : Z;
  fetchStream : option FetchStream.t;
  ctx : option error;
  subscribeDone : bool }.

Definition newLocalTrack (requestID trackAlias : Z) (onSubscribeDone : bool) : t :=
  mk requestID trackAlias 0 None None onSubscribeDone.

Definition set_fetchStream (p : t) (f : option FetchStream.t) : t :=
  mk (requestID p) (trackAlias p) (subgroupCount p) f (ctx p) (subscribeDone p).
Definition set_ctx (p : t) (c : option error) : t :=
  mk (requestID p) (trackAlias p) (subgroupCount p) (fetchStream p) c (subscribeDone p).
Definition set_subgroupCount (p : t) (n : Z) : t :=
  mk (requestID p) (trackAlias p) n (fetchStream p) (ctx p) (subscribeDone p).

Definition closed (p : t) : option error := ctx p.

(** [if err := p.closed(); err != nil { return err }]. *)
Definition check_open : GM t unit := fun p =>
  match closed p with
  | Some e => Ok (Error e, p)
  | None => Ok (Ret tt, p)
  end.

(** [conn.OpenUniStream]: an empty stream, or the error [operr]. *)
Definition OpenUniStream {S} (operr : option error) : GM S SendStream :=
  match operr with
  | Some e => throw e
  | None => mret []
  end.

(** A constructor of a stream that may fail or panic. *)
Definition lift_res {S A} (m : res A) : GM S A := fun s =>
  match m with
  | Ok a => Ok (Ret a, s)
  | Err e => Ok (Error e, s)
  | Panic => Panic
  | NoFuel => NoFuel
  end.

Definition getFetchStream (operr werr : option error) : GM t FetchStream.t :=
  _ ← check_open;
  f ← get fetchStream;
  match f with
  | Some f => mret f
  | None =>
      stream ← OpenUniStream operr;
      rid ← get requestID;
      r ← attempt (lift_res (FetchStream.newFetchStream stream rid werr));
      match r with
      | Error e => _ ← modify (fun p => set_fetchStream p None); throw e
      | Ret f => _ ← modify (fun p => set_fetchStream p (Some f)); mret f
      end
  end.

(** The bytes handed to [conn.SendDatagram]; its answer is [serr]. *)
Definition sendDatagram (o : Object.t) (serr : option error) : GM t (list byte) :=
  _ ← check_open;
  alias ← get trackAlias;
  let om := ObjectDatagramMessage.mk alias (Object.GroupID o) (Object.ObjectID o) 0 None
              (Object.Payload o) 0 in
  buf ← lift_res (ObjectDatagramMessage.AppendDatagram om []);
  match serr with
  | Some e => throw e
  | None => mret buf
  end.

Definition openSubgroup (groupID subgroupID priority : Z) (operr werr : option error) :
    GM t Subgroup.t :=
  _ ← check_open;
  stream ← OpenUniStream operr;
  _ ← modify (fun p => set_subgroupCount p (uint64 (subgroupCount p + 1)));
  alias ← get trackAlias;
  lift_res (Subgroup.newSubgroup stream alias groupID subgroupID priority werr).

(** The number of streams the callback is to be called with, if there is one. *)
Definition close (p : t) : option Z * t :=
  let p := set_ctx p (cancel (ctx p) ErrSubscriptionDone) in
  (if subscribeDone p then Some (subgroupCount p) else None, p).

Definition unsubscribe (p : t) : t := set_ctx p (cancel (ctx p) ErrUnsusbcribed).

End localTrack.
End localTrack.

(** * remote_track.go *)

Definition buffer_capacity : nat := 100.

(** What closing the track sends: its unsubscribeFunc. *)
Inductive unsubscribe_func := Unsubscribes | CancelsFetch.

Module RemoteTrack.
Section RemoteTrack.

Record t := mk {
  requestID : Z;
  expires : Z;
  groupOrder : Z;
  contentExists : bool;
  largestLocation : option Location.t;
  parameters : KVPList.t;
  unsubscribeFunc : unsubscribe_func;
  updateFunc : bool;
  buffer : list Object.t;
  doneCtx : option error;
  subGroupCount : Z;
  fetchCount : Z;
  responseChan : list (option error) }.

Definition newRemoteTrack (requestID : Z) (unsubscribeFunc : unsubscribe_func)
    (updateFunc : bool) : t :=
  mk requestID 0 0 false None [] unsubscribeFunc updateFunc [] None 0 0 [].

Definition set_buffer (r : t) (b : list Object.t) : t :=
  mk (requestID r) (expires r) (groupOrder r) (contentExists r) (largestLocation r)
     (parameters r) (unsubscribeFunc r) (updateFunc r) b (doneCtx r) (subGroupCount r)
     (fetchCount r) (responseChan r).
Definition set_doneCtx (r : t) (d : option error) : t :=
  mk (requestID r) (expires r) (groupOrder r) (contentExists r) (largestLocation r)
     (parameters r) (unsubscribeFunc r) (updateFunc r) (buffer r) d (subGroupCount r)
     (fetchCount r) (responseChan r).
Definition set_counts (r : t) (sg f : Z) : t :=
  mk (requestID r) (expires r) (groupOrder r) (contentExists r) (largestLocation r)
     (parameters r) (unsubscribeFunc r) (updateFunc r) (buffer r) (doneCtx r) sg f
     (responseChan r).
Definition set_responseChan (r : t) (c : list (option error)) : t :=
  mk (requestID r) (expires r) (groupOrder r) (contentExists r) (largestLocation r)
     (parameters r) (unsubscribeFunc r) (updateFunc r) (buffer r) (doneCtx r) (subGroupCount r)
     (fetchCount r) c.
Definition set_info (r : t) (expires groupOrder : Z) (contentExists : bool)
    (largestLocation : option Location.t) (parameters : KVPList.t) : t :=
  mk (requestID r) expires groupOrder contentExists largestLocation parameters
     (unsubscribeFunc r) (updateFunc r) (buffer r) (doneCtx r) (subGroupCount r)
     (fetchCount r) (responseChan r).

Definition RequestID (r : t) : Z := requestID r.
Definition Expires (r : t) : Z := expires r.
Definition GroupOrder (r : t) : Z := groupOrder r.
Definition Parameters (r : t) : KVPList.t := parameters r.
Definition LargestLocation (r : t) : Location.t * bool :=
  match contentExists r, largestLocation r with
  | true, Some l => (l, true)
  | _, _ => (Location.zero, false)
  end.

(** A full buffer drops the object. *)
Definition push (o : Object.t) (r : t) : t :=
  if (length (buffer r) <? buffer_capacity)%nat then set_buffer r (buffer r ++ [o]) else r.

Definition done (status : Z) (reason : gostring) (r : t) : t :=
  set_doneCtx r (cancel (doneCtx r) (ErrSubscribeDone status reason)).

(** The copy of an object of a stream. *)
Definition object_of (m : ObjectMessage.t) : Object.t :=
  Object.mk (ObjectMessage.GroupID m) (ObjectMessage.ObjectID m) 0 (ObjectMessage.SubgroupID m)
    (ObjectMessage.ObjectPayload m).

(** [msgs] is the sequence that parser.Messages() yields. *)
Definition readStream (msgs : list ObjectMessage.t * res unit) : GM t unit := fun r =>
  let r := foldl (fun r m => push (object_of m) r) r msgs.1 in
  match msgs.2 with
  | Err e => if bool_decide (e = io_EOF) then Ok (Ret tt, r) else Ok (Error e, r)
  | Ok _ => Ok (Ret tt, r)
  | Panic => Panic
  | NoFuel => NoFuel
  end.

Definition readFetchStream (msgs : list ObjectMessage.t * res unit) : GM t unit :=
  _ ← modify (fun r => set_counts r (subGroupCount r) (uint64 (fetchCount r + 1)));
  n ← get fetchCount;
  if n >? 1 then throw errTooManyFetchStreams else readStream msgs.

Definition readSubgroupStream (msgs : list ObjectMessage.t * res unit) : GM t unit :=
  _ ← modify (fun r => set_counts r (uint64 (subGroupCount r + 1)) (fetchCount r));
  readStream msgs.

(** The cases of ReadObject's select.  [ctx] is the caller's context; a case
    that is not ready gives no answer, and the call blocks while none is. *)
Inductive read_case := CallerDone | TrackDone | FromBuffer.

Definition ReadObject (c : read_case) (ctx : option error) (r : t) :
    option (option Object.t * option error * t) :=
  match c with
  | CallerDone => e ← ctx; Some (None, Some e, r)
  | TrackDone => e ← doneCtx r; Some (None, Some e, r)
  | FromBuffer =>
      match buffer r with
      | [] => None
      | o :: b =>
          Some (Some o,
                match doneCtx r with Some _ => Some context_Canceled | None => None end,
                set_buffer r b)
      end
  end.

End RemoteTrack.
End RemoteTrack.

(** * Properties *)

Section TrackLemmas.

(** Pushing a sequence of objects. *)
Lemma foldl_push {A} (f : A -> Object.t) (ms : list A) r :
  (length (RemoteTrack.buffer r) <= buffer_capacity)%nat ->
  foldl (fun r m => RemoteTrack.push (f m) r) r ms =
  RemoteTrack.set_buffer r (take buffer_capacity (RemoteTrack.buffer r ++ map f ms)).
Proof.
  revert r. induction ms as [|m ms IH]; intros r Hr.
  - cbn. rewrite app_nil_r, take_ge by done. by destruct r.
  - cbn [foldl map]. unfold RemoteTrack.push at 2.
    destruct (Nat.ltb_spec (length (RemoteTrack.buffer r)) buffer_capacity) as [Hlt|Hge].
    + rewrite IH by (cbn; rewrite length_app; cbn; lia). cbn [RemoteTrack.buffer RemoteTrack.set_buffer].
      by rewrite <- app_assoc.
    + rewrite IH by done. f_equal. rewrite !take_app_le by lia. done.
Qed.

Lemma push_capacity o r :
  (length (RemoteTrack.buffer r) <= buffer_capacity)%nat ->
  (length (RemoteTrack.buffer (RemoteTrack.push o r)) <= buffer_capacity)%nat.
Proof.
  intros Hr. unfold RemoteTrack.push.
  destruct (Nat.ltb_spec (length (RemoteTrack.buffer r)) buffer_capacity); [|done].
  cbn. rewrite length_app. cbn. lia.
Qed.

End TrackLemmas.

Section TrackTheorems.
Context {QV : QuicVarint} {QVL : QuicVarintLaws}.

(** From publisher to subscriber: the objects written on a subgroup stream
    of a track are queued by the remote track that reads the closed stream, in
    the order of writing, each with its group, subgroup, ID and payload, up to
    the capacity of its buffer; what does not fit is dropped from the end, and
    reading reports success. *)
Theorem subgroup_objects_delivered lt g sg prio objs s0 s lt' rt :
  0 <= localTrack.trackAlias lt -> 0 <= g -> 0 <= sg -> 0 <= prio < 256 ->
  Forall (fun '(o, payload) => 0 <= o /\ len payload <= maxAlloc) objs ->
  (length (RemoteTrack.buffer rt) <= buffer_capacity)%nat ->
  localTrack.openSubgroup g sg prio None None lt = Ok (Ret s0, lt') ->
  Subgroup.WriteObjects s0 objs = Ok s ->
  exists p rt',
    ObjectStreamParser.NewObjectStreamParser (mkReader (Subgroup.stream s) io_EOF) = Ok p /\
    ObjectStreamParser.Identifier p = localTrack.trackAlias lt /\
    RemoteTrack.readSubgroupStream (ObjectStreamParser.Messages (S (length objs)) p) rt
    = Ok (Ret tt, rt') /\
    RemoteTrack.buffer rt' =
      take buffer_capacity (RemoteTrack.buffer rt ++
        map (fun '(o, payload) => Object.mk g o 0 sg payload) objs).
Proof.
  intros Ha Hg Hsg Hp Hobjs Hcap Hopen Hw.
  assert (Subgroup.newSubgroup [] (localTrack.trackAlias lt) g sg prio None = Ok s0) as Hnew.
  { unfold localTrack.openSubgroup, localTrack.check_open in Hopen.
    destruct lt as [rid al n f [e|] sd]; [done|]. unfold mbind, GM_bind, gm_bind in Hopen. cbn in Hopen.
    cbn [localTrack.trackAlias] in *. unfold localTrack.lift_res in Hopen.
    by destruct (Subgroup.newSubgroup [] al g sg prio None); inversion Hopen. }
  destruct (subgroup_stream_read _ _ _ _ _ _ _ Ha Hg Hsg Hp Hobjs Hnew Hw) as (p & HN & HT & HI & HM).
  exists p. eexists. split; [done|]. split; [done|]. rewrite HM.
  unfold RemoteTrack.readSubgroupStream, RemoteTrack.readStream, mbind, GM_bind, gm_bind. cbn.
  split; [by rewrite foldl_push|]. cbn. rewrite map_map. f_equal. f_equal. apply map_ext.
  by intros [o payload].
Qed.

(** A publisher whose track was closed or unsubscribed cannot publish: every
    operation fails with the first cause of the closing, changes nothing, and
    closing again does not change the cause. *)
Theorem closed_track_refuses lt e :
  localTrack.closed lt = Some e ->
  (forall operr werr, localTrack.getFetchStream operr werr lt = Ok (Error e, lt)) /\
  (forall o serr, localTrack.sendDatagram o serr lt = Ok (Error e, lt)) /\
  (forall g sg prio operr werr, localTrack.openSubgroup g sg prio operr werr lt = Ok (Error e, lt)) /\
  localTrack.closed (localTrack.close lt).2 = Some e /\
  localTrack.closed (localTrack.unsubscribe lt) = Some e.
Proof.
  intros H. unfold localTrack.closed in H.
  assert (localTrack.check_open lt = Ok (Error e, lt)) as Hc
    by (unfold localTrack.check_open, localTrack.closed; by rewrite H).
  unfold localTrack.getFetchStream, localTrack.sendDatagram, localTrack.openSubgroup.
  unfold mbind, GM_bind, gm_bind. rewrite Hc. split_and!; try done; cbn; by rewrite H.
Qed.

End TrackTheorems.

(** ** The order of objects *)

Inductive buffer_op := Push (o : Object.t) | Read.

(** The objects read, in order, and the track at the end. *)
Fixpoint buffer_run (r : RemoteTrack.t) (ops : list buffer_op) : list Object.t * RemoteTrack.t :=
  match ops with
  | [] => ([], r)
  | Push o :: ops => buffer_run (RemoteTrack.push o r) ops
  | Read :: ops =>
      match RemoteTrack.ReadObject RemoteTrack.FromBuffer None r with
      | Some (Some o, _, r) => let '(os, r) := buffer_run r ops in (o :: os, r)
      | _ => buffer_run r ops
      end
  end.

Definition pushed (ops : list buffer_op) : list Object.t :=
  omap (fun op => match op with Push o => Some o | Read => None end) ops.

(** Objects are read in the order they were received, none twice: over any
    interleaving of received objects and reads, what was read, followed by what
    still waits, is a subsequence of what the track held and then received; the
    buffer never holds more than 100 objects. *)
Theorem objects_in_order r ops os r' :
  (length (RemoteTrack.buffer r) <= buffer_capacity)%nat ->
  buffer_run r ops = (os, r') ->
  sublist (os ++ RemoteTrack.buffer r') (RemoteTrack.buffer r ++ pushed ops) /\
  (length (RemoteTrack.buffer r') <= buffer_capacity)%nat.
Proof.
  revert r os. induction ops as [|[o|] ops IH]; intros r os Hr H; cbn [buffer_run] in H.
  - injection H as <- <-. cbn. rewrite app_nil_r. done.
  - destruct (IH _ _ (push_capacity o r Hr) H) as [Hs Hl]. split; [|done].
    etrans; [exact Hs|]. unfold RemoteTrack.push.
    change (pushed (Push o :: ops)) with (o :: pushed ops).
    destruct (length _ <? _)%nat; cbn [RemoteTrack.buffer RemoteTrack.set_buffer].
    + by rewrite <- app_assoc.
    + apply sublist_app; [done|]. by apply sublist_cons.
  - change (pushed (Read :: ops)) with (pushed ops).
    unfold RemoteTrack.ReadObject in H. destruct (RemoteTrack.buffer r) as [|o b] eqn:Eb.
    + rewrite <- Eb. apply IH; [by rewrite Eb|done].
    + destruct (buffer_run _ ops) as [os' r1] eqn:E. injection H as <- <-.
      destruct (IH (RemoteTrack.set_buffer r b) os' ltac:(cbn in *; lia) E) as [Hs Hl]. cbn in Hs |- *. split; [|done].
      by apply sublist_skip.
Qed.

(** ** At concrete inputs *)

Lemma subgroup_objects_delivered_witness :
  let lt := localTrack.newLocalTrack 0 7 true in
  let rt := RemoteTrack.newRemoteTrack 0 Unsubscribes true in
  exists s0 lt' s p rt',
    localTrack.openSubgroup 1 2 128 None None lt = Ok (Ret s0, lt') /\
    Subgroup.WriteObjects s0 [(0, bytes_of [1; 2; 3]); (300, [])] = Ok s /\
    ObjectStreamParser.NewObjectStreamParser (mkReader (Subgroup.stream s) io_EOF) = Ok p /\
    RemoteTrack.readSubgroupStream (ObjectStreamParser.Messages 3 p) rt = Ok (Ret tt, rt') /\
    RemoteTrack.buffer rt' = [Object.mk 1 0 0 2 (bytes_of [1; 2; 3]); Object.mk 1 300 0 2 []].
Proof.
  intros lt rt.
  destruct (subgroup_objects_delivered lt 1 2 128 [(0, bytes_of [1; 2; 3]); (300, [])]
    (Subgroup.mk (bytes_of [0x0d; 7; 1; 2; 128]) 1 2)
    (Subgroup.mk (bytes_of [0x0d; 7; 1; 2; 128; 0; 0; 3; 1; 2; 3; 0x41; 0x2c; 0; 0; 0]) 1 2)
    (localTrack.set_subgroupCount lt 1) rt)
    as (p & rt' & HN & _ & HR & HB); [vm_compute; congruence|lia..| |cbn; lia
      |vm_compute; reflexivity|vm_compute; reflexivity|].
  - repeat constructor; vm_compute; discriminate.
  - eexists _, _, _, p, rt'. split; [vm_compute; reflexivity|].
    split; [vm_compute; reflexivity|]. split; [exact HN|]. split; [exact HR|exact HB].
Defined.

Lemma closed_track_refuses_witness :
  let lt := localTrack.unsubscribe (localTrack.newLocalTrack 0 7 true) in
  localTrack.openSubgroup 1 2 128 None None lt = Ok (Error ErrUnsusbcribed, lt).
Proof.
  intros lt. apply (closed_track_refuses lt ErrUnsusbcribed). vm_compute. reflexivity.
Defined.

Lemma objects_in_order_witness :
  let o n := Object.mk 0 n 0 0 [] in
  sublist ([o 1; o 2] ++ []) ([o 1] ++ [o 2]).
Proof.
  intros o.
  apply (objects_in_order
    (RemoteTrack.set_buffer (RemoteTrack.newRemoteTrack 0 Unsubscribes true) [o 1])
    [Read; Push (o 2); Read; Read] [o 1; o 2]
    (RemoteTrack.newRemoteTrack 0 Unsubscribes true)); [vm_compute; lia|vm_compute; reflexivity].
Defined.
