(* ===== verification/Announcements.v ===== *)
(** The tables of announcements, of subscriptions to announcements and of track
    status requests: announcementMap (announcement_map.go),
    announcementSubscriptionMap (announcement_subscription_map.go) and
    trackStatusRequestMap (track_status_request_map.go).

    The response channels are pointers: a channel is the index of its contents
    in the session's store.  The tables are searched in the order of [MapRange]. *)

From S2P Require Import Prelude WireTypes Errors State.
Local Open Scope Z_scope.

(** * announcement.go *)

Module announcement.
Record t := mk {
  requestID : Z;
  namespace : Tuple.t;
  parameters : KVPList.t;
  response : nat }.
End announcement.

(** * announcement_subscription.go; [None] is the nil channel. *)

Module announcementSubscription.
Record t := mk {
  requestID : Z;
  namespace : Tuple.t;
  response : option nat }.
End announcementSubscription.

(** * track_status_request.go *)

Module TrackStatus.
Record t := mk {
  Namespace : Tuple.t;
  Trackname : gostring;
  StatusCode : Z;
  LastGroupID : Z;
  LastObjectID : Z }.
End TrackStatus.

Module trackStatusRequest.
Record t := mk {
  requestID : Z;
  namespace : Tuple.t;
  trackname : gostring;
  response : nat }.
End trackStatusRequest.

(** * announcement_map.go *)

Definition findAnnouncement `{MapRange} (as_ : gmap Z announcement.t) (namespace : Tuple.t) :
    option announcement.t :=
  '(_, p) ← find_first (fun kv => bool_decide (namespace = announcement.namespace (snd kv))) (range as_);
  Some (snd p).

Module announcementMap.
Section announcementMap.
Context {MR : MapRange}.

Record t := mk {
  pending : gmap Z announcement.t;
  announcements : gmap Z announcement.t }.

Definition newAnnouncementMap : t := mk ∅ ∅.

Definition add (m : t) (a : announcement.t) : t :=
  mk (<[announcement.requestID a := a]> (pending m)) (announcements m).

Definition confirmAndGet (m : t) (requestID : Z) : ret announcement.t * t :=
  match pending m !! requestID with
  | None => (Error errUnknownAnnouncement, m)
  | Some a =>
      (Ret a, mk (base.delete requestID (pending m)) (<[requestID := a]> (announcements m)))
  end.

Definition reject (m : t) (requestID : Z) : option announcement.t * t :=
  match pending m !! requestID with
  | None => (None, m)
  | Some a => (Some a, mk (base.delete requestID (pending m)) (announcements m))
  end.

Definition delete (m : t) (namespace : Tuple.t) : bool * t :=
  match findAnnouncement (pending m) namespace with
  | Some a => (true, mk (base.delete (announcement.requestID a) (pending m)) (announcements m))
  | None =>
      match findAnnouncement (announcements m) namespace with
      | Some a => (true, mk (pending m) (base.delete (announcement.requestID a) (announcements m)))
      | None => (false, m)
      end
  end.

(** Every announcement is stored under its request ID. *)
Definition wf (m : t) : Prop :=
  map_Forall (fun k a => announcement.requestID a = k) (pending m) /\
  map_Forall (fun k a => announcement.requestID a = k) (announcements m).

End announcementMap.
End announcementMap.

(** * announcement_subscription_map.go *)

Definition findAnnouncementSubscription `{MapRange} (as_ : gmap Z announcementSubscription.t)
    (namespace : Tuple.t) : option announcementSubscription.t :=
  '(_, p) ← find_first
    (fun kv => bool_decide (namespace = announcementSubscription.namespace (snd kv))) (range as_);
  Some (snd p).

Module announcementSubscriptionMap.
Section announcementSubscriptionMap.
Context {MR : MapRange}.

Definition t : Type := gmap Z announcementSubscription.t.

Definition newAnnouncementSubscriptionMap : t := ∅.

Definition add (m : t) (a : announcementSubscription.t) : t :=
  <[announcementSubscription.requestID a := a]> m.

Definition delete (m : t) (namespace : Tuple.t) : option announcementSubscription.t * t :=
  match findAnnouncementSubscription m namespace with
  | Some a => (Some a, base.delete (announcementSubscription.requestID a) m)
  | None => (None, m)
  end.

Definition deleteByID (m : t) (requestID : Z) : option announcementSubscription.t * t :=
  (m !! requestID, base.delete requestID m).

End announcementSubscriptionMap.
End announcementSubscriptionMap.

(** * track_status_request_map.go *)

Module trackStatusRequestMap.

Definition t : Type := gmap Z trackStatusRequest.t.

Definition newTrackStatusRequestMap : t := ∅.

Definition add (m : t) (tsr : trackStatusRequest.t) : t :=
  <[trackStatusRequest.requestID tsr := tsr]> m.

(** The entry stays in the map. *)
Definition delete (m : t) (requestID : Z) : option trackStatusRequest.t * t :=
  (m !! requestID, m).

End trackStatusRequestMap.

(** * Properties *)

Section FindLemmas.
Context {MR : MapRange}.

Lemma elem_of_range {A} (m : gmap Z A) k a : (k, a) ∈ range m <-> m !! k = Some a.
Proof. rewrite range_perm. apply elem_of_map_to_list. Qed.

Lemma findAnnouncement_Some m ns a :
  findAnnouncement m ns = Some a -> announcement.namespace a = ns /\ exists k, m !! k = Some a.
Proof.
  unfold findAnnouncement. destruct (find_first _ _) as [[i [k b]]|] eqn:E; [|done].
  intros [= <-]. apply find_first_Some in E as [Hin Heq]. apply bool_decide_eq_true in Heq.
  split; [done|]. exists k. by apply elem_of_range.
Qed.

Lemma findAnnouncement_None m ns k a :
  findAnnouncement m ns = None -> m !! k = Some a -> announcement.namespace a <> ns.
Proof.
  unfold findAnnouncement. destruct (find_first _ _) as [[i [k' b]]|] eqn:E; [done|].
  intros _ Hk Heq. apply elem_of_range in Hk.
  eapply find_first_None in E; [|exact Hk]. cbn in E. apply bool_decide_eq_false in E. congruence.
Qed.

Lemma announcementMap_delete_wf m ns :
  announcementMap.wf m -> announcementMap.wf (announcementMap.delete m ns).2.
Proof.
  intros [Hp Ha]. unfold announcementMap.delete.
  destruct (findAnnouncement (announcementMap.pending m) ns).
  { split; cbn; [by apply map_Forall_delete|done]. }
  destruct (findAnnouncement (announcementMap.announcements m) ns); [|done].
  split; cbn; [done|by apply map_Forall_delete].
Qed.

(** The cases of a withdrawal. *)
Lemma announcementMap_delete_cases m ns :
  announcementMap.wf m ->
  match announcementMap.delete m ns with
  | (true, m') => exists k a, announcement.namespace a = ns /\
      ((announcementMap.pending m !! k = Some a /\
        m' = announcementMap.mk (delete k (announcementMap.pending m))
               (announcementMap.announcements m)) \/
       ((forall k' a', announcementMap.pending m !! k' = Some a' -> announcement.namespace a' <> ns) /\
        announcementMap.announcements m !! k = Some a /\
        m' = announcementMap.mk (announcementMap.pending m)
               (delete k (announcementMap.announcements m))))
  | (false, m') => m' = m /\ forall k a,
      announcementMap.pending m !! k = Some a \/ announcementMap.announcements m !! k = Some a ->
      announcement.namespace a <> ns
  end.
Proof.
  intros [Hp Ha]. unfold announcementMap.delete.
  destruct (findAnnouncement (announcementMap.pending m) ns) as [a|] eqn:E1.
  { apply findAnnouncement_Some in E1 as [Hns [k Hk]]. rewrite (Hp _ _ Hk).
    exists k, a. split; [done|]. by left. }
  assert (forall k' a', announcementMap.pending m !! k' = Some a' -> announcement.namespace a' <> ns)
    as Hnone by (intros; by eapply findAnnouncement_None).
  destruct (findAnnouncement (announcementMap.announcements m) ns) as [a|] eqn:E2.
  - apply findAnnouncement_Some in E2 as [Hns [k Hk]]. rewrite (Ha _ _ Hk).
    exists k, a. split; [done|]. by right.
  - split; [done|]. intros k a [Hk|Hk]; [by eapply Hnone|by eapply findAnnouncement_None].
Qed.

(** Withdrawing a namespace removes exactly one announcement of it, a
    pending one if there is any, whatever order the maps are visited in; it
    reports false, and changes nothing, exactly when no announcement pending or
    confirmed has the namespace. *)
Theorem announcement_delete_one m ns :
  announcementMap.wf m ->
  match announcementMap.delete m ns with
  | (true, m') => exists k a, announcement.namespace a = ns /\
      ((announcementMap.pending m !! k = Some a /\
        m' = announcementMap.mk (delete k (announcementMap.pending m))
               (announcementMap.announcements m)) \/
       ((forall k' a', announcementMap.pending m !! k' = Some a' -> announcement.namespace a' <> ns) /\
        announcementMap.announcements m !! k = Some a /\
        m' = announcementMap.mk (announcementMap.pending m)
               (delete k (announcementMap.announcements m))))
  | (false, m') => m' = m /\ forall k a,
      announcementMap.pending m !! k = Some a \/ announcementMap.announcements m !! k = Some a ->
      announcement.namespace a <> ns
  end.
Proof. apply announcementMap_delete_cases. Qed.

End FindLemmas.

Lemma announcement_delete_one_witness :
  let a := announcement.mk 3 [[byte.of_Z 97]] [] 0 in
  exists m', announcementMap.delete (announcementMap.add announcementMap.newAnnouncementMap a) [[byte.of_Z 97]]
    = (true, m') /\
  exists k b, announcement.namespace b = [[byte.of_Z 97]] /\
    announcementMap.pending (announcementMap.add announcementMap.newAnnouncementMap a) !! k = Some b.
Proof.
  intros a. eexists. split; [vm_compute; reflexivity|].
  assert (announcementMap.wf (announcementMap.add announcementMap.newAnnouncementMap a)) as Hwf.
  { split; [|apply map_Forall_empty]. intros i x Hx. cbn in Hx. apply lookup_insert_Some in Hx.
    destruct Hx as [[<- <-]|[_ Hx]]; [reflexivity|by rewrite lookup_empty in Hx]. }
  destruct (announcement_delete_one
    (announcementMap.add announcementMap.newAnnouncementMap a) [[byte.of_Z 97]] Hwf)
    as (k & b & Hns & [[Hk _]|(_ & Hk & _)]); [by exists k, b|].
  cbn in Hk. by rewrite lookup_empty in Hk.
Defined.
