(* ===== verification/SessionState.v ===== *)
(** The state of a session (session.go: type Session) and the effects its
    functions have on it.

    Tracks are shared by pointer between the tables of the session and the
    application: a track lives in a store ([localHeap], [remoteHeap]) and the
    tables hold its index.  So do the response channels ([chans]), each with a
    buffer of one.

    [writes] are the answers the transport will give to the coming writes on
    the control stream (success when it has no more to say), [written] the
    messages written so far.  Its bytes are their frames, in order. *)

From stdpp Require Import sets.
From S2P Require Import Prelude VarInt Codec WireTypes Messages ControlMessages Errors State.
From S2P Require Import RequestID TrackMaps Objects Tracks Announcements.
Local Open Scope Z_scope.

(** * connection.go *)

Inductive Protocol := ProtocolQUIC | ProtocolWebTransport.
Inductive Perspective := PerspectiveClient | PerspectiveServer.

#[export] Instance Protocol_eq_dec : EqDecision Protocol.
Proof. solve_decision. Defined.
#[export] Instance Perspective_eq_dec : EqDecision Perspective.
Proof. solve_decision. Defined.

(** [uint64(conn.Perspective())]. *)
Definition perspective_uint64 (p : Perspective) : Z :=
  match p with PerspectiveClient => 0 | PerspectiveServer => 1 end.

(** What a response channel carries. *)
Inductive response :=
  | RespErr (e : option error)
  | RespStatus (ts : TrackStatus.t).

Module Session.

Record t := mk {
  perspective : Perspective;
  protocol : Protocol;
  handshakeDone : bool;
  handshakeDoneCh : bool;
  version : Z;
  path : gostring;
  localMaxRequestID : Z;
  requestIDs : requestIDGenerator.t;
  highestRequestsBlocked : Z;
  outgoingAnnouncements : announcementMap.t;
  incomingAnnouncements : announcementMap.t;
  pendingOutgointAnnouncementSubscriptions : announcementSubscriptionMap.t;
  pendingIncomingAnnouncementSubscriptions : announcementSubscriptionMap.t;
  trackAliases : sequence.t;
  remoteTracks : remoteTrackMap.t nat;
  localTracks : localTrackMap.t nat;
  outgoingTrackStatusRequests : trackStatusRequestMap.t;
  localHeap : list localTrack.t;
  remoteHeap : list RemoteTrack.t;
  chans : list (list response);
  written : list ControlMessage;
  writes : list (option error) }.

Definition set_handshakeDone (x : bool) (s : t) : t :=
  mk (perspective s) (protocol s) x (handshakeDoneCh s) (version s) (path s)
     (localMaxRequestID s) (requestIDs s) (highestRequestsBlocked s)
     (outgoingAnnouncements s) (incomingAnnouncements s)
     (pendingOutgointAnnouncementSubscriptions s)
     (pendingIncomingAnnouncementSubscriptions s) (trackAliases s) (remoteTracks s)
     (localTracks s) (outgoingTrackStatusRequests s) (localHeap s) (remoteHeap s) (chans s)
     (written s) (writes s).
Definition set_handshakeDoneCh (x : bool) (s : t) : t :=
  mk (perspective s) (protocol s) (handshakeDone s) x (version s) (path s)
     (localMaxRequestID s) (requestIDs s) (highestRequestsBlocked s)
     (outgoingAnnouncements s) (incomingAnnouncements s)
     (pendingOutgointAnnouncementSubscriptions s)
     (pendingIncomingAnnouncementSubscriptions s) (trackAliases s) (remoteTracks s)
     (localTracks s) (outgoingTrackStatusRequests s) (localHeap s) (remoteHeap s) (chans s)
     (written s) (writes s).
Definition set_version (x : Z) (s : t) : t :=
  mk (perspective s) (protocol s) (handshakeDone s) (handshakeDoneCh s) x (path s)
     (localMaxRequestID s) (requestIDs s) (highestRequestsBlocked s)
     (outgoingAnnouncements s) (incomingAnnouncements s)
     (pendingOutgointAnnouncementSubscriptions s)
     (pendingIncomingAnnouncementSubscriptions s) (trackAliases s) (remoteTracks s)
     (localTracks s) (outgoingTrackStatusRequests s) (localHeap s) (remoteHeap s) (chans s)
     (written s) (writes s).
Definition set_path (x : gostring) (s : t) : t :=
  mk (perspective s) (protocol s) (handshakeDone s) (handshakeDoneCh s) (version s) x
     (localMaxRequestID s) (requestIDs s) (highestRequestsBlocked s)
     (outgoingAnnouncements s) (incomingAnnouncements s)
     (pendingOutgointAnnouncementSubscriptions s)
     (pendingIncomingAnnouncementSubscriptions s) (trackAliases s) (remoteTracks s)
     (localTracks s) (outgoingTrackStatusRequests s) (localHeap s) (remoteHeap s) (chans s)
     (written s) (writes s).
Definition set_localMaxRequestID (x : Z) (s : t) : t :=
  mk (perspective s) (protocol s) (handshakeDone s) (handshakeDoneCh s) (version s) (path s)
     x (requestIDs s) (highestRequestsBlocked s) (outgoingAnnouncements s)
     (incomingAnnouncements s) (pendingOutgointAnnouncementSubscriptions s)
     (pendingIncomingAnnouncementSubscriptions s) (trackAliases s) (remoteTracks s)
     (localTracks s) (outgoingTrackStatusRequests s) (localHeap s) (remoteHeap s) (chans s)
     (written s) (writes s).
Definition set_requestIDs (x : requestIDGenerator.t) (s : t) : t :=
  mk (perspective s) (protocol s) (handshakeDone s) (handshakeDoneCh s) (version s) (path s)
     (localMaxRequestID s) x (highestRequestsBlocked s) (outgoingAnnouncements s)
     (incomingAnnouncements s) (pendingOutgointAnnouncementSubscriptions s)
     (pendingIncomingAnnouncementSubscriptions s) (trackAliases s) (remoteTracks s)
     (localTracks s) (outgoingTrackStatusRequests s) (localHeap s) (remoteHeap s) (chans s)
     (written s) (writes s).
Definition set_highestRequestsBlocked (x : Z) (s : t) : t :=
  mk (perspective s) (protocol s) (handshakeDone s) (handshakeDoneCh s) (version s) (path s)
     (localMaxRequestID s) (requestIDs s) x (outgoingAnnouncements s)
     (incomingAnnouncements s) (pendingOutgointAnnouncementSubscriptions s)
     (pendingIncomingAnnouncementSubscriptions s) (trackAliases s) (remoteTracks s)
     (localTracks s) (outgoingTrackStatusRequests s) (localHeap s) (remoteHeap s) (chans s)
     (written s) (writes s).
Definition set_outgoingAnnouncements (x : announcementMap.t) (s : t) : t :=
  mk (perspective s) (protocol s) (handshakeDone s) (handshakeDoneCh s) (version s) (path s)
     (localMaxRequestID s) (requestIDs s) (highestRequestsBlocked s) x
     (incomingAnnouncements s) (pendingOutgointAnnouncementSubscriptions s)
     (pendingIncomingAnnouncementSubscriptions s) (trackAliases s) (remoteTracks s)
     (localTracks s) (outgoingTrackStatusRequests s) (localHeap s) (remoteHeap s) (chans s)
     (written s) (writes s).
Definition set_incomingAnnouncements (x : announcementMap.t) (s : t) : t :=
  mk (perspective s) (protocol s) (handshakeDone s) (handshakeDoneCh s) (version s) (path s)
     (localMaxRequestID s) (requestIDs s) (highestRequestsBlocked s)
     (outgoingAnnouncements s) x (pendingOutgointAnnouncementSubscriptions s)
     (pendingIncomingAnnouncementSubscriptions s) (trackAliases s) (remoteTracks s)
     (localTracks s) (outgoingTrackStatusRequests s) (localHeap s) (remoteHeap s) (chans s)
     (written s) (writes s).
Definition set_pendingOutgointAnnouncementSubscriptions (x : announcementSubscriptionMap.t) (s : t) : t :=
  mk (perspective s) (protocol s) (handshakeDone s) (handshakeDoneCh s) (version s) (path s)
     (localMaxRequestID s) (requestIDs s) (highestRequestsBlocked s)
     (outgoingAnnouncements s) (incomingAnnouncements s) x
     (pendingIncomingAnnouncementSubscriptions s) (trackAliases s) (remoteTracks s)
     (localTracks s) (outgoingTrackStatusRequests s) (localHeap s) (remoteHeap s) (chans s)
     (written s) (writes s).
Definition set_pendingIncomingAnnouncementSubscriptions (x : announcementSubscriptionMap.t) (s : t) : t :=
  mk (perspective s) (protocol s) (handshakeDone s) (handshakeDoneCh s) (version s) (path s)
     (localMaxRequestID s) (requestIDs s) (highestRequestsBlocked s)
     (outgoingAnnouncements s) (incomingAnnouncements s)
     (pendingOutgointAnnouncementSubscriptions s) x (trackAliases s) (remoteTracks s)
     (localTracks s) (outgoingTrackStatusRequests s) (localHeap s) (remoteHeap s) (chans s)
     (written s) (writes s).
Definition set_trackAliases (x : sequence.t) (s : t) : t :=
  mk (perspective s) (protocol s) (handshakeDone s) (handshakeDoneCh s) (version s) (path s)
     (localMaxRequestID s) (requestIDs s) (highestRequestsBlocked s)
     (outgoingAnnouncements s) (incomingAnnouncements s)
     (pendingOutgointAnnouncementSubscriptions s)
     (pendingIncomingAnnouncementSubscriptions s) x (remoteTracks s) (localTracks s)
     (outgoingTrackStatusRequests s) (localHeap s) (remoteHeap s) (chans s) (written s)
     (writes s).
Definition set_remoteTracks (x : remoteTrackMap.t nat) (s : t) : t :=
  mk (perspective s) (protocol s) (handshakeDone s) (handshakeDoneCh s) (version s) (path s)
     (localMaxRequestID s) (requestIDs s) (highestRequestsBlocked s)
     (outgoingAnnouncements s) (incomingAnnouncements s)
     (pendingOutgointAnnouncementSubscriptions s)
     (pendingIncomingAnnouncementSubscriptions s) (trackAliases s) x (localTracks s)
     (outgoingTrackStatusRequests s) (localHeap s) (remoteHeap s) (chans s) (written s)
     (writes s).
Definition set_localTracks (x : localTrackMap.t nat) (s : t) : t :=
  mk (perspective s) (protocol s) (handshakeDone s) (handshakeDoneCh s) (version s) (path s)
     (localMaxRequestID s) (requestIDs s) (highestRequestsBlocked s)
     (outgoingAnnouncements s) (incomingAnnouncements s)
     (pendingOutgointAnnouncementSubscriptions s)
     (pendingIncomingAnnouncementSubscriptions s) (trackAliases s) (remoteTracks s) x
     (outgoingTrackStatusRequests s) (localHeap s) (remoteHeap s) (chans s) (written s)
     (writes s).
Definition set_outgoingTrackStatusRequests (x : trackStatusRequestMap.t) (s : t) : t :=
  mk (perspective s) (protocol s) (handshakeDone s) (handshakeDoneCh s) (version s) (path s)
     (localMaxRequestID s) (requestIDs s) (highestRequestsBlocked s)
     (outgoingAnnouncements s) (incomingAnnouncements s)
     (pendingOutgointAnnouncementSubscriptions s)
     (pendingIncomingAnnouncementSubscriptions s) (trackAliases s) (remoteTracks s)
     (localTracks s) x (localHeap s) (remoteHeap s) (chans s) (written s) (writes s).
Definition set_localHeap (x : list localTrack.t) (s : t) : t :=
  mk (perspective s) (protocol s) (handshakeDone s) (handshakeDoneCh s) (version s) (path s)
     (localMaxRequestID s) (requestIDs s) (highestRequestsBlocked s)
     (outgoingAnnouncements s) (incomingAnnouncements s)
     (pendingOutgointAnnouncementSubscriptions s)
     (pendingIncomingAnnouncementSubscriptions s) (trackAliases s) (remoteTracks s)
     (localTracks s) (outgoingTrackStatusRequests s) x (remoteHeap s) (chans s) (written s)
     (writes s).
Definition set_remoteHeap (x : list RemoteTrack.t) (s : t) : t :=
  mk (perspective s) (protocol s) (handshakeDone s) (handshakeDoneCh s) (version s) (path s)
     (localMaxRequestID s) (requestIDs s) (highestRequestsBlocked s)
     (outgoingAnnouncements s) (incomingAnnouncements s)
     (pendingOutgointAnnouncementSubscriptions s)
     (pendingIncomingAnnouncementSubscriptions s) (trackAliases s) (remoteTracks s)
     (localTracks s) (outgoingTrackStatusRequests s) (localHeap s) x (chans s) (written s)
     (writes s).
Definition set_chans (x : list (list response)) (s : t) : t :=
  mk (perspective s) (protocol s) (handshakeDone s) (handshakeDoneCh s) (version s) (path s)
     (localMaxRequestID s) (requestIDs s) (highestRequestsBlocked s)
     (outgoingAnnouncements s) (incomingAnnouncements s)
     (pendingOutgointAnnouncementSubscriptions s)
     (pendingIncomingAnnouncementSubscriptions s) (trackAliases s) (remoteTracks s)
     (localTracks s) (outgoingTrackStatusRequests s) (localHeap s) (remoteHeap s) x
     (written s) (writes s).
Definition set_written (x : list ControlMessage) (s : t) : t :=
  mk (perspective s) (protocol s) (handshakeDone s) (handshakeDoneCh s) (version s) (path s)
     (localMaxRequestID s) (requestIDs s) (highestRequestsBlocked s)
     (outgoingAnnouncements s) (incomingAnnouncements s)
     (pendingOutgointAnnouncementSubscriptions s)
     (pendingIncomingAnnouncementSubscriptions s) (trackAliases s) (remoteTracks s)
     (localTracks s) (outgoingTrackStatusRequests s) (localHeap s) (remoteHeap s) (chans s)
     x (writes s).
Definition set_writes (x : list (option error)) (s : t) : t :=
  mk (perspective s) (protocol s) (handshakeDone s) (handshakeDoneCh s) (version s) (path s)
     (localMaxRequestID s) (requestIDs s) (highestRequestsBlocked s)
     (outgoingAnnouncements s) (incomingAnnouncements s)
     (pendingOutgointAnnouncementSubscriptions s)
     (pendingIncomingAnnouncementSubscriptions s) (trackAliases s) (remoteTracks s)
     (localTracks s) (outgoingTrackStatusRequests s) (localHeap s) (remoteHeap s) (chans s)
     (written s) x.

End Session.

Abbreviation SM := (GM Session.t).

(** Running an operation on one component of the session. *)
Definition on {F A} (proj : Session.t -> F) (upd : F -> Session.t -> Session.t) (f : F -> A * F) :
    SM A := fun s => let '(a, x) := f (proj s) in Ok (Ret a, upd x s).

Definition try_ {F} (proj : Session.t -> F) (upd : F -> Session.t -> Session.t)
    (f : F -> option error * F) : SM unit := fun s =>
  let '(e, x) := f (proj s) in
  Ok (match e with Some e => Error e | None => Ret tt end, upd x s).

(** * The stores *)

Definition alloc_local (lt : localTrack.t) : SM nat := fun s =>
  Ok (Ret (length (Session.localHeap s)),
      Session.set_localHeap (Session.localHeap s ++ [lt]) s).
Definition alloc_remote (rt : RemoteTrack.t) : SM nat := fun s =>
  Ok (Ret (length (Session.remoteHeap s)),
      Session.set_remoteHeap (Session.remoteHeap s ++ [rt]) s).
(** [make(chan T, 1)]. *)
Definition make_chan : SM nat := fun s =>
  Ok (Ret (length (Session.chans s)), Session.set_chans (Session.chans s ++ [[]]) s).

(** A method of the track at a pointer; a pointer out of the store is nil. *)
Definition with_local {A} (p : nat) (m : GM localTrack.t A) : SM A := fun s =>
  match Session.localHeap s !! p with
  | None => Panic
  | Some lt =>
      match m lt with
      | Ok (r, lt) => Ok (r, Session.set_localHeap (<[p := lt]> (Session.localHeap s)) s)
      | Err e => Err e
      | Panic => Panic
      | NoFuel => NoFuel
      end
  end.
Definition with_remote {A} (p : nat) (m : GM RemoteTrack.t A) : SM A := fun s =>
  match Session.remoteHeap s !! p with
  | None => Panic
  | Some rt =>
      match m rt with
      | Ok (r, rt) => Ok (r, Session.set_remoteHeap (<[p := rt]> (Session.remoteHeap s)) s)
      | Err e => Err e
      | Panic => Panic
      | NoFuel => NoFuel
      end
  end.

(** [select { case ch <- x: default: }]. *)
Definition send_chan (c : nat) (x : response) : SM bool := fun s =>
  match Session.chans s !! c with
  | None => Panic
  | Some ch =>
      let '(ch, sent) := chan_send x ch in
      Ok (Ret sent, Session.set_chans (<[c := ch]> (Session.chans s)) s)
  end.
(** A receive that is ready, or nothing: the receiver blocks. *)
Definition recv_chan (c : nat) : SM (option response) := fun s =>
  match Session.chans s !! c with
  | None => Panic
  | Some ch =>
      match chan_recv ch with
      | None => Ok (Ret None, s)
      | Some (x, ch) => Ok (Ret (Some x), Session.set_chans (<[c := ch]> (Session.chans s)) s)
      end
  end.

(** * controlStream.write (control_stream.go) *)

Section Write.
Context {QV : QuicVarint}.

Definition write (msg : ControlMessage) : SM unit := fun s =>
  match compileMessage msg with
  | Ok buf =>
      match Session.writes s with
      | Some e :: ws => Ok (Error e, Session.set_writes ws s)
      | None :: ws =>
          Ok (Ret tt, Session.set_writes ws (Session.set_written (Session.written s ++ [msg]) s))
      | [] => Ok (Ret tt, Session.set_written (Session.written s ++ [msg]) s)
      end
  | Err e => Ok (Error e, s)
  | Panic => Panic
  | NoFuel => NoFuel
  end.

(** The bytes on the control stream. *)
Definition stream_bytes (s : Session.t) : res (list byte) := compile_all (Session.written s).

End Write.
