(* ===== verification/Session.v ===== *)
(** The session (session.go): the functions that send requests, the response
    writers a handler answers with, and the handlers of received messages.

    A request function blocks until its response arrives: it is split into the
    part up to the wait ([.._send]) and the wait itself ([.._wait]), so that
    other steps of the session happen in between.  Each part is one step; the
    tables are locked per operation in the source.

    An application handler is a program of calls on its response writer
    ([prog]): a finite tree that branches on the errors the calls return. *)

From Stdlib Require Import String.
From stdpp Require Import sets.
From S2P Require Import Prelude VarInt Codec WireTypes Messages ControlMessages Errors State.
From S2P Require Import RequestID TrackMaps Objects Tracks Announcements Params SessionState.
Local Open Scope Z_scope.
Local Open Scope go_scope.

(** * Messages for the application (handler.go, messages.go) *)

Module Message.
Record t := mk {
  Method : gostring;
  RequestID : Z;
  Namespace : Tuple.t;
  Track : gostring;
  Authorization : gostring;
  NewSessionURI : gostring;
  ErrorCode : Z;
  ReasonPhrase : gostring }.
End Message.

(** The message of a SUBSCRIBE; StartLocation and EndGroup are always nil and
    TrackAlias always 0. *)
Module PublicSubscribe.
Record t := mk {
  RequestID : Z;
  TrackAlias : Z;
  Namespace : Tuple.t;
  Track : gostring;
  Authorization : gostring;
  SubscriberPriority : Z;
  GroupOrder : Z;
  Forward : Z;
  FilterType : Z;
  StartLocation : option Location.t;
  EndGroup : option Z;
  Parameters : KVPList.t }.
End PublicSubscribe.

Module PublicSubscribeUpdate.
Record t := mk {
  RequestID : Z;
  StartLocation : Location.t;
  EndGroup : Z;
  SubscriberPriority : Z;
  Forward : Z;
  Parameters : KVPList.t }.
End PublicSubscribeUpdate.

(** * Application programs *)

Inductive prog (A : Type) :=
  | Return
  | Call (a : A) (k : option error -> prog A).
Arguments Return {A}.
Arguments Call {A} a k.

(** The calls on a SubscribeResponseWriter; the answers of the connection come
    with those that open streams and send datagrams. *)
Inductive subscribe_call :=
  | SubAccept (options : list SubscribeOKOption)
  | SubReject (code : Z) (reason : gostring)
  | SubSendDatagram (o : Object.t) (serr : option error)
  | SubOpenSubgroup (groupID subgroupID priority : Z) (operr werr : option error)
  | SubCloseWithError (code : Z) (reason : gostring).

(** The calls on a ResponseWriter, and on the interfaces it may implement. *)
Inductive rw_call :=
  | RwAccept
  | RwReject (code : Z) (reason : gostring)
  | RwSetStatus (statusCode lastGroupID lastObjectID : Z)
  | RwFetchStream (operr werr : option error).

(** SubscribeResponseWriter (subscribe_response_writer.go). *)
Module SubscribeResponseWriter.
Record t := mk { id : Z; trackAlias : Z; localTrack : nat; handled : bool }.
Definition set_handled (w : t) : t := mk (id w) (trackAlias w) (localTrack w) true.
End SubscribeResponseWriter.

(** The callbacks of the application. *)
Class Application := {
  Handler : option (Message.t -> prog rw_call);
  SubscribeHandler : option (PublicSubscribe.t -> prog subscribe_call);
}.

Section Session.
Context {QV : QuicVarint} {MR : MapRange}.

(** * Local tracks *)

Definition addLocalTrack (requestID : Z) (lt : nat) : SM unit :=
  max <- get Session.localMaxRequestID;
  if requestID >=? max then throw errMaxRequestIDViolated
  else
    _ <- (if requestID >=? max / 2 then
           let newMax := uint64 (2 * max) in
           _ <- modify (Session.set_localMaxRequestID newMax);
           _ <- attempt (write (MaxRequestID (MaxRequestIDMessage.mk newMax)));
           mret tt
         else mret tt);
    ok <- on Session.localTracks Session.set_localTracks
           (fun m => localTrackMap.addPending m requestID lt);
    if ok then mret tt else throw errDuplicateRequestID.

Definition getRequestID : SM Z :=
  '(requestID, err) <- on Session.requestIDs Session.set_requestIDs requestIDGenerator.next;
  match err with
  | Some e =>
      _ <- (if bool_decide (e = errRequestIDblocked) then
             attempt (write (RequestsBlocked (RequestsBlockedMessage.mk requestID)))
           else mret (Ret tt));
      throw e
  | None => mret requestID
  end.

(** * Sending requests *)

Definition sendClientSetup : SM unit :=
  max <- get Session.localMaxRequestID;
  path <- get Session.path;
  protocol <- get Session.protocol;
  let params := [KeyValuePair.mk MaxRequestIDParameterKey [] max] in
  let params := if decide (protocol = ProtocolQUIC)
                then params ++ [KeyValuePair.mk PathParameterKey path 0] else params in
  write (ClientSetup (ClientSetupMessage.mk SupportedVersions params)).

Definition unsubscribe (id : Z) : SM unit := write (Unsubscribe (UnsubscribeMessage.mk id)).
Definition fetchCancel (id : Z) : SM unit := write (FetchCancel (FetchCancelMessage.mk id)).

(** RemoteTrack.Close. *)
Definition RemoteTrack_Close (rt : nat) : SM unit :=
  r <- with_remote rt (get (fun r => (RemoteTrack.unsubscribeFunc r, RemoteTrack.requestID r)));
  match r with
  | (Unsubscribes, id) => unsubscribe id
  | (CancelsFetch, id) => fetchCancel id
  end.

(** RemoteTrack.ReadObject; [None]: the call blocks. *)
Definition RemoteTrack_ReadObject (rt : nat) (c : RemoteTrack.read_case) (ctx : option error) :
    SM (option (option Object.t * option error)) :=
  with_remote rt (fun r =>
    match RemoteTrack.ReadObject c ctx r with
    | None => Ok (Ret None, r)
    | Some (o, e, r) => Ok (Ret (Some (o, e)), r)
    end).

Definition Subscribe_send (namespace : Tuple.t) (name : gostring) (options : list SubscribeOption) :
    SM nat :=
  requestID <- getRequestID;
  rt <- alloc_remote (RemoteTrack.newRemoteTrack requestID Unsubscribes true);
  _ <- try_ Session.remoteTracks Session.set_remoteTracks
        (fun m => remoteTrackMap.addPendingWithAlias m requestID rt);
  let opts := apply_options options SubscribeOptions.default in
  _ <- write (Subscribe (SubscribeMessage.mk requestID namespace name
        (SubscribeOptions.SubscriberPriority opts) (SubscribeOptions.GroupOrder opts)
        (boolToUint8 (SubscribeOptions.Forward opts)) (SubscribeOptions.FilterType opts)
        (SubscribeOptions.StartLocation opts) (SubscribeOptions.EndGroup opts)
        (ToWire (SubscribeOptions.Parameters opts))));
  mret rt.

(** The wait for a response: the caller's context is done with the cause, or
    the response is there.  [None]: the call still blocks. *)
Definition await_track (rt : nat) (ctx : option error) : SM (option (option error)) :=
  match ctx with
  | Some cause => mret (Some (Some cause))
  | None =>
      with_remote rt (fun r =>
        match chan_recv (RemoteTrack.responseChan r) with
        | None => Ok (Ret None, r)
        | Some (e, ch) => Ok (Ret (Some e), RemoteTrack.set_responseChan r ch)
        end)
  end.

Definition Subscribe_wait (rt : nat) (ctx : option error) : SM (option nat) :=
  id <- with_remote rt (get RemoteTrack.requestID);
  r <- await_track rt ctx;
  match r with
  | None => mret None
  | Some None => mret (Some rt)
  | Some (Some e) =>
      _ <- on Session.remoteTracks Session.set_remoteTracks (fun m => remoteTrackMap.reject m id);
      throw e
  end.

Definition UpdateSubscription (requestID : Z) (options : list SubscribeUpdateOption) : SM unit :=
  m <- get Session.remoteTracks;
  _ <- of_option (remoteTrackMap.findByRequestID m requestID) errUnknownRequestID;
  let opts := apply_options options SubscribeUpdateOptions.default in
  write (SubscribeUpdate (SubscribeUpdateMessage.mk requestID
    (SubscribeUpdateOptions.StartLocation opts) (SubscribeUpdateOptions.EndGroup opts)
    (SubscribeUpdateOptions.SubscriberPriority opts)
    (boolToUint8 (SubscribeUpdateOptions.Forward opts))
    (ToWire (SubscribeUpdateOptions.Parameters opts)))).

(** RemoteTrack.UpdateSubscription. *)
Definition RemoteTrack_UpdateSubscription (rt : nat) (options : list SubscribeUpdateOption) : SM unit :=
  r <- with_remote rt (get (fun r => (RemoteTrack.updateFunc r, RemoteTrack.requestID r)));
  if r.1 then UpdateSubscription r.2 options else throw errUpdateNotAvailable.

(** SUBSCRIBE_OK carries no track alias of its own: the field keeps its zero
    value.  [None] is the nil options. *)
Definition acceptSubscriptionWithOptions (id : Z) (opts : option SubscribeOkOptions.t) : SM unit :=
  lt <- on Session.localTracks Session.set_localTracks (fun m => localTrackMap.confirm m id);
  _ <- of_option lt errUnknownRequestID;
  let opts := default SubscribeOkOptions.default opts in
  let largest := match SubscribeOkOptions.ContentExists opts, SubscribeOkOptions.LargestLocation opts with
                 | true, Some l => l
                 | _, _ => Location.zero
                 end in
  write (SubscribeOk (SubscribeOkMessage.mk id 0 (SubscribeOkOptions.Expires opts)
    (SubscribeOkOptions.GroupOrder opts) (SubscribeOkOptions.ContentExists opts) largest
    (ToWire (SubscribeOkOptions.Parameters opts)))).

(** [lt.requestID] of the track at a pointer. *)
Definition local_requestID (lt : nat) : SM Z := with_local lt (get localTrack.requestID).

Definition rejectSubscription (id errorCode : Z) (reason : gostring) : SM unit :=
  lt <- on Session.localTracks Session.set_localTracks (fun m => localTrackMap.reject m id);
  lt <- of_option lt errUnknownRequestID;
  rid <- local_requestID lt;
  write (SubscribeError (SubscribeErrorMessage.mk rid errorCode reason)).

Definition subscriptionDone (id code count : Z) (reason : gostring) : SM unit :=
  lt <- on Session.localTracks Session.set_localTracks (fun m => localTrackMap.delete m id);
  lt <- of_option lt errUnknownRequestID;
  rid <- local_requestID lt;
  write (SubscribeDone (SubscribeDoneMessage.mk rid code count reason)).

(** localTrack.close, with the callback onSubscribe gives it. *)
Definition localTrack_close (lt : nat) (code : Z) (reason : gostring) : SM unit :=
  id <- local_requestID lt;
  count <- with_local lt (fun p => let '(c, p) := localTrack.close p in Ok (Ret c, p));
  match count with
  | Some count => subscriptionDone id code count reason
  | None => mret tt
  end.

(** addPending gives no errRequestsBlocked: the branch for it is never taken. *)
Definition Fetch_send (namespace : Tuple.t) (track : gostring) : SM nat :=
  requestID <- getRequestID;
  rt <- alloc_remote (RemoteTrack.newRemoteTrack requestID CancelsFetch false);
  _ <- try_ Session.remoteTracks Session.set_remoteTracks
        (fun m => remoteTrackMap.addPending m requestID rt);
  r <- attempt (write (Fetch (FetchMessage.mk requestID 0 0 FetchTypeStandalone namespace track
                 0 0 0 0 0 0 [])));
  match r with
  | Error e =>
      _ <- on Session.remoteTracks Session.set_remoteTracks
            (fun m => remoteTrackMap.reject m requestID);
      throw e
  | Ret _ => mret rt
  end.

Definition Fetch_wait (rt : nat) (ctx : option error) : SM (option nat) :=
  id <- with_remote rt (get RemoteTrack.requestID);
  r <- await_track rt ctx;
  match r with
  | None => mret None
  | Some None => mret (Some rt)
  | Some (Some e) =>
      _ <- on Session.remoteTracks Session.set_remoteTracks (fun m => remoteTrackMap.reject m id);
      c <- attempt (RemoteTrack_Close rt);
      match c with
      | Error closeErr => throw (errJoin e closeErr)
      | Ret _ => throw e
      end
  end.

Definition acceptFetch (requestID : Z) : SM unit :=
  lt <- on Session.localTracks Session.set_localTracks (fun m => localTrackMap.confirm m requestID);
  _ <- of_option lt errUnknownRequestID;
  write (FetchOk (FetchOkMessage.mk requestID 1 0 (Location.mk 0 0) [])).

Definition rejectFetch (id errorCode : Z) (reason : gostring) : SM unit :=
  lt <- on Session.localTracks Session.set_localTracks (fun m => localTrackMap.reject m id);
  lt <- of_option lt errUnknownRequestID;
  rid <- local_requestID lt;
  write (FetchError (FetchErrorMessage.mk rid errorCode reason)).

(** The request ID is not put into the message. *)
Definition RequestTrackStatus_send (namespace : Tuple.t) (track : gostring) :
    SM trackStatusRequest.t :=
  requestID <- getRequestID;
  ch <- make_chan;
  let tsr := trackStatusRequest.mk requestID namespace track ch in
  _ <- modify (fun s => Session.set_outgoingTrackStatusRequests
                (trackStatusRequestMap.add (Session.outgoingTrackStatusRequests s) tsr) s);
  r <- attempt (write (TrackStatusRequest (TrackStatusRequestMessage.mk 0 namespace track [])));
  match r with
  | Error e =>
      _ <- on Session.outgoingTrackStatusRequests Session.set_outgoingTrackStatusRequests
            (fun m => trackStatusRequestMap.delete m 0);
      throw e
  | Ret _ => mret tsr
  end.

Definition RequestTrackStatus_wait (tsr : trackStatusRequest.t) (ctx : option error) :
    SM (option TrackStatus.t) :=
  match ctx with
  | Some cause => throw cause
  | None =>
      r <- recv_chan (trackStatusRequest.response tsr);
      match r with
      | Some (RespStatus ts) => mret (Some ts)
      | _ => mret None
      end
  end.

Definition sendTrackStatus (ts : TrackStatus.t) : SM unit :=
  write (TrackStatus (TrackStatusMessage.mk 0 (TrackStatus.StatusCode ts) Location.zero [])).

Definition Announce_send (namespace : Tuple.t) : SM announcement.t :=
  requestID <- getRequestID;
  ch <- make_chan;
  let a := announcement.mk requestID namespace [] ch in
  _ <- modify (fun s => Session.set_outgoingAnnouncements
                (announcementMap.add (Session.outgoingAnnouncements s) a) s);
  r <- attempt (write (Announce (AnnounceMessage.mk requestID namespace [])));
  match r with
  | Error e =>
      _ <- on Session.outgoingAnnouncements Session.set_outgoingAnnouncements
            (fun m => announcementMap.reject m requestID);
      throw e
  | Ret _ => mret a
  end.

(** The wait for an error or its absence on a channel. *)
Definition await_err (ch : nat) (ctx : option error) : SM (option unit) :=
  match ctx with
  | Some cause => throw cause
  | None =>
      r <- recv_chan ch;
      match r with
      | Some (RespErr None) => mret (Some tt)
      | Some (RespErr (Some e)) => throw e
      | _ => mret None
      end
  end.

Definition Announce_wait (a : announcement.t) (ctx : option error) : SM (option unit) :=
  await_err (announcement.response a) ctx.

Definition acceptAnnouncement (requestID : Z) : SM unit :=
  r <- on Session.incomingAnnouncements Session.set_incomingAnnouncements
        (fun m => announcementMap.confirmAndGet m requestID);
  match r with
  | Error e => throw e
  | Ret _ => write (AnnounceOk (AnnounceOkMessage.mk requestID))
  end.

Definition rejectAnnouncement (requestID c : Z) (r : gostring) : SM unit :=
  write (AnnounceError (AnnounceErrorMessage.mk requestID c r)).

Definition Unannounce (namespace : Tuple.t) : SM unit :=
  ok <- on Session.outgoingAnnouncements Session.set_outgoingAnnouncements
         (fun m => announcementMap.delete m namespace);
  if ok then throw errUnknownAnnouncementNamespace
  else write (ControlMessages.Unannounce (UnannounceMessage.mk namespace)).

Definition AnnounceCancel (namespace : Tuple.t) (errorCode : Z) (reason : gostring) : SM unit :=
  ok <- on Session.incomingAnnouncements Session.set_incomingAnnouncements
         (fun m => announcementMap.delete m namespace);
  if negb ok then throw errUnknownAnnouncementNamespace
  else write (ControlMessages.AnnounceCancel (AnnounceCancelMessage.mk namespace errorCode reason)).

Definition SubscribeAnnouncements_send (prefix : Tuple.t) : SM announcementSubscription.t :=
  requestID <- getRequestID;
  ch <- make_chan;
  let as_ := announcementSubscription.mk requestID prefix (Some ch) in
  _ <- modify (fun s => Session.set_pendingOutgointAnnouncementSubscriptions
        (announcementSubscriptionMap.add (Session.pendingOutgointAnnouncementSubscriptions s) as_) s);
  r <- attempt (write (SubscribeAnnounces (SubscribeAnnouncesMessage.mk requestID prefix [])));
  match r with
  | Error e =>
      _ <- on Session.pendingOutgointAnnouncementSubscriptions
             Session.set_pendingOutgointAnnouncementSubscriptions
             (fun m => announcementSubscriptionMap.deleteByID m requestID);
      throw e
  | Ret _ => mret as_
  end.

(** A nil channel is never ready; [ctx] is [ctx.Err()] here, not the cause. *)
Definition SubscribeAnnouncements_wait (as_ : announcementSubscription.t) (ctx : option error) :
    SM (option unit) :=
  match announcementSubscription.response as_ with
  | Some ch => await_err ch ctx
  | None => match ctx with Some cause => throw cause | None => mret None end
  end.

Definition acceptAnnouncementSubscription (requestID : Z) : SM unit :=
  write (SubscribeAnnouncesOk (SubscribeAnnouncesOkMessage.mk requestID)).

Definition rejectAnnouncementSubscription (requestID c : Z) (r : gostring) : SM unit :=
  write (SubscribeAnnouncesError (SubscribeAnnouncesErrorMessage.mk requestID c r)).

Definition UnsubscribeAnnouncements (namespace : Tuple.t) : SM unit :=
  _ <- on Session.pendingOutgointAnnouncementSubscriptions
         Session.set_pendingOutgointAnnouncementSubscriptions
         (fun m => announcementSubscriptionMap.delete m namespace);
  write (UnsubscribeAnnounces (UnsubscribeAnnouncesMessage.mk namespace)).

(** * Response writers

    A writer keeps whether it was used; each call answers its error to the
    application's program.  [handled] is set before the call has its effect. *)

Context {App : Application}.

Definition err_of (r : ret unit) : option error :=
  match r with Ret _ => None | Error e => Some e end.

Fixpoint run_handler {A W} (exec : A -> W -> SM (option error * W)) (p : prog A) (w : W) : SM W :=
  match p with
  | Return => mret w
  | Call a k => '(e, w) <- exec a w; run_handler exec (k e) w
  end.

(** The error of a call, as the caller sees it. *)
Definition try_call (m : SM unit) : SM (option error) := r <- attempt m; mret (err_of r).
Definition try_local {A} (lt : nat) (m : GM localTrack.t A) : SM (option error) :=
  r <- attempt (with_local lt m);
  mret (match r with Ret _ => None | Error e => Some e end).

Definition SubscribeResponseWriter_Accept (options : list SubscribeOKOption)
    (w : SubscribeResponseWriter.t) : SM (option error * SubscribeResponseWriter.t) :=
  let w := SubscribeResponseWriter.set_handled w in
  let opts := apply_options options SubscribeOkOptions.default in
  e <- try_call (acceptSubscriptionWithOptions (SubscribeResponseWriter.id w) (Some opts));
  mret (e, w).

Definition SubscribeResponseWriter_Reject (code : Z) (reason : gostring)
    (w : SubscribeResponseWriter.t) : SM (option error * SubscribeResponseWriter.t) :=
  let w := SubscribeResponseWriter.set_handled w in
  e <- try_call (rejectSubscription (SubscribeResponseWriter.id w) code reason);
  mret (e, w).

Definition subscribe_exec (a : subscribe_call) (w : SubscribeResponseWriter.t) :
    SM (option error * SubscribeResponseWriter.t) :=
  match a with
  | SubAccept options => SubscribeResponseWriter_Accept options w
  | SubReject code reason => SubscribeResponseWriter_Reject code reason w
  | SubSendDatagram o serr =>
      e <- try_local (SubscribeResponseWriter.localTrack w) (localTrack.sendDatagram o serr);
      mret (e, w)
  | SubOpenSubgroup g sg prio operr werr =>
      e <- try_local (SubscribeResponseWriter.localTrack w)
             (localTrack.openSubgroup g sg prio operr werr);
      mret (e, w)
  | SubCloseWithError code reason =>
      e <- try_call (localTrack_close (SubscribeResponseWriter.localTrack w) code reason);
      mret (e, w)
  end.

(** announcementResponseWriter; a call the writer has no method for is a failed
    type assertion of the application. *)
Definition announcement_exec (requestID : Z) (a : rw_call) (handled : bool) :
    SM (option error * bool) :=
  match a with
  | RwAccept => e <- try_call (acceptAnnouncement requestID); mret (e, true)
  | RwReject code reason => e <- try_call (rejectAnnouncement requestID code reason); mret (e, true)
  | _ => panic
  end.

(** announcementSubscriptionResponseWriter. *)
Definition announcementSubscription_exec (requestID : Z) (a : rw_call) (handled : bool) :
    SM (option error * bool) :=
  match a with
  | RwAccept => e <- try_call (acceptAnnouncementSubscription requestID); mret (e, true)
  | RwReject code reason =>
      e <- try_call (rejectAnnouncementSubscription requestID code reason); mret (e, true)
  | _ => panic
  end.

(** fetchResponseWriter. *)
Definition fetch_exec (id : Z) (lt : nat) (a : rw_call) (handled : bool) :
    SM (option error * bool) :=
  match a with
  | RwAccept => e <- try_call (acceptFetch id); mret (e, true)
  | RwReject code reason => e <- try_call (rejectFetch id code reason); mret (e, true)
  | RwFetchStream operr werr =>
      e <- try_local lt (localTrack.getFetchStream operr werr); mret (e, handled)
  | RwSetStatus _ _ _ => panic
  end.

(** trackStatusResponseWriter: Reject overwrites the status and accepts. *)
Definition set_status (ts : TrackStatus.t) (code g o : Z) : TrackStatus.t :=
  TrackStatus.mk (TrackStatus.Namespace ts) (TrackStatus.Trackname ts) code g o.

Definition trackStatus_Accept (w : TrackStatus.t * bool) :
    SM (option error * (TrackStatus.t * bool)) :=
  e <- try_call (sendTrackStatus w.1); mret (e, (w.1, true)).
Definition trackStatus_Reject (w : TrackStatus.t * bool) :
    SM (option error * (TrackStatus.t * bool)) :=
  trackStatus_Accept (set_status w.1 TrackStatusDoesNotExist 0 0, true).

Definition trackStatus_exec (a : rw_call) (w : TrackStatus.t * bool) :
    SM (option error * (TrackStatus.t * bool)) :=
  match a with
  | RwAccept => trackStatus_Accept w
  | RwReject _ _ => trackStatus_Reject w
  | RwSetStatus code g o => mret (None, (set_status w.1 code g o, w.2))
  | RwFetchStream _ _ => panic
  end.

(** A nil response writer. *)
Definition nil_exec (a : rw_call) (w : unit) : SM (option error * unit) := panic.

(** [s.Handler.Handle(rw, m)]: a session without a Handler panics. *)
Definition Handle {W} (exec : rw_call -> W -> SM (option error * W)) (w : W) (m : Message.t) : SM W :=
  match Handler with
  | None => panic
  | Some h => run_handler exec (h m) w
  end.

(** [return rw.Reject(..)] after a handler that did not respond. *)
Definition reject_unhandled {W} (handled : bool) (reject : SM (option error * W)) : SM unit :=
  if handled then mret tt
  else
    r <- reject;
    match r.1 with Some e => throw e | None => mret tt end.

(** * Receiving messages *)

Definition valid_namespace (ns : Tuple.t) : bool := negb ((len ns =? 0) || (len ns >? 32)).

(** The message types a handler gets; the fields not named keep their zero value. *)
Definition message (method : gostring) (requestID : Z) (namespace : Tuple.t) (track : gostring) :
    Message.t := Message.mk method requestID namespace track [] [] 0 [].

Definition close_handshakeDoneCh : SM unit :=
  closed <- get Session.handshakeDoneCh;
  if closed then panic else modify (Session.set_handshakeDoneCh true).

Definition onClientSetup (m : ClientSetupMessage.t) : SM unit :=
  p <- get Session.perspective;
  protocol <- get Session.protocol;
  if negb (bool_decide (p = PerspectiveServer)) then throw errClientReceivedClientSetup
  else
    match find_first (fun v => bool_decide (v ∈ ClientSetupMessage.SupportedVersions m))
            (rev SupportedVersions) with
    | None => throw errIncompatibleVersions
    | Some (_, selectedVersion) =>
        _ <- modify (Session.set_version selectedVersion);
        path <- localTrack.lift_res (validatePathParameter (ClientSetupMessage.SetupParameters m)
                  (bool_decide (protocol = ProtocolQUIC)));
        _ <- modify (Session.set_path path);
        let remoteMaxRequestID := getMaxRequestIDParameter (ClientSetupMessage.SetupParameters m) in
        _ <- (if remoteMaxRequestID >? 0
              then try_ Session.requestIDs Session.set_requestIDs
                     (fun g => requestIDGenerator.setMax g remoteMaxRequestID)
              else mret tt);
        _ <- write (ServerSetup (ServerSetupMessage.mk selectedVersion
               [KeyValuePair.mk MaxRequestIDParameterKey [] 100]));
        _ <- close_handshakeDoneCh;
        modify (Session.set_handshakeDone true)
    end.

Definition onServerSetup (m : ServerSetupMessage.t) : SM unit :=
  p <- get Session.perspective;
  if negb (bool_decide (p = PerspectiveClient)) then throw errServerReceveidServerSetup
  else if negb (bool_decide (ServerSetupMessage.SelectedVersion m ∈ SupportedVersions))
  then throw errIncompatibleVersions
  else
    _ <- modify (Session.set_version (ServerSetupMessage.SelectedVersion m));
    _ <- try_ Session.requestIDs Session.set_requestIDs
           (fun g => requestIDGenerator.setMax g
              (getMaxRequestIDParameter (ServerSetupMessage.SetupParameters m)));
    _ <- close_handshakeDoneCh;
    modify (Session.set_handshakeDone true).

Definition onGoAway (msg : GoAwayMessage.t) : SM unit :=
  Handle nil_exec tt (Message.mk MessageGoAway 0 [] [] [] (GoAwayMessage.NewSessionURI msg) 0 []).

Definition onMaxRequestID (msg : MaxRequestIDMessage.t) : SM unit :=
  try_ Session.requestIDs Session.set_requestIDs
    (fun g => requestIDGenerator.setMax g (MaxRequestIDMessage.RequestID msg)).

Definition onRequestsBlocked (msg : RequestsBlockedMessage.t) : SM unit := mret tt.

Definition onSubscribe (msg : SubscribeMessage.t) : SM unit :=
  auth <- localTrack.lift_res (validateAuthParameter (SubscribeMessage.Parameters msg));
  if negb (valid_namespace (SubscribeMessage.TrackNamespace msg)) then throw errInvalidNamespaceLength
  else
    let id := SubscribeMessage.RequestID msg in
    let m := PublicSubscribe.mk id 0 (SubscribeMessage.TrackNamespace msg)
      (SubscribeMessage.TrackName msg) auth (SubscribeMessage.SubscriberPriority msg)
      (SubscribeMessage.GroupOrder msg) (SubscribeMessage.Forward msg)
      (SubscribeMessage.FilterType msg) None None (FromWire (SubscribeMessage.Parameters msg)) in
    alias <- on Session.trackAliases Session.set_trackAliases sequence.next;
    lt <- alloc_local (localTrack.newLocalTrack id alias true);
    r <- attempt (addLocalTrack id lt);
    match r with
    | Error e =>
        let '(code, reason) :=
          if bool_decide (e = errMaxRequestIDViolated)
          then (ErrorCodeTooManyRequests, str "too many subscribes")
          else (ErrorCodeInternal, str "internal") in
        write (SubscribeError (SubscribeErrorMessage.mk id code reason))
    | Ret _ =>
        let srw := SubscribeResponseWriter.mk id alias lt false in
        srw <- match SubscribeHandler with
               | Some h => run_handler subscribe_exec (h m) srw
               | None => mret srw
               end;
        reject_unhandled (SubscribeResponseWriter.handled srw)
          (SubscribeResponseWriter_Reject 0 (str "unhandled subscription") srw)
    end.

(** [rt.responseChan <- e], or what happens when nobody can take it. *)
Definition respond (rt : nat) (e : option error) (unhandled : SM unit) : SM unit :=
  sent <- with_remote rt (fun r =>
            let '(ch, sent) := chan_send e (RemoteTrack.responseChan r) in
            Ok (Ret sent, RemoteTrack.set_responseChan r ch));
  if sent then mret tt else unhandled.

Definition confirm_remote (id : Z) : SM nat :=
  r <- on Session.remoteTracks Session.set_remoteTracks (fun m => remoteTrackMap.confirm m id);
  match r with Error e => throw e | Ret rt => mret rt end.

Definition reject_remote (id : Z) : SM nat :=
  r <- on Session.remoteTracks Session.set_remoteTracks (fun m => remoteTrackMap.reject m id);
  of_option r errUnknownRequestID.

(** [if err := rt.Close(); err != nil { log }]. *)
Definition close_unhandled (rt : nat) : SM unit :=
  _ <- attempt (RemoteTrack_Close rt); mret tt.

Definition onSubscribeOk (msg : SubscribeOkMessage.t) : SM unit :=
  rt <- confirm_remote (SubscribeOkMessage.RequestID msg);
  _ <- try_ Session.remoteTracks Session.set_remoteTracks
         (fun m => remoteTrackMap.setAlias m (SubscribeOkMessage.RequestID msg)
                     (SubscribeOkMessage.TrackAlias msg));
  _ <- with_remote rt (modify (fun r => RemoteTrack.set_info r
         (SubscribeOkMessage.Expires msg) (SubscribeOkMessage.GroupOrder msg)
         (SubscribeOkMessage.ContentExists msg)
         (if SubscribeOkMessage.ContentExists msg
          then Some (SubscribeOkMessage.LargestLocation msg) else None)
         (FromWire (SubscribeOkMessage.Parameters msg))));
  respond rt None (close_unhandled rt).

Definition onSubscribeError (msg : SubscribeErrorMessage.t) : SM unit :=
  sub <- reject_remote (SubscribeErrorMessage.RequestID msg);
  respond sub (Some (ProtocolError (SubscribeErrorMessage.ErrorCode msg)
                       (SubscribeErrorMessage.ReasonPhrase msg))) (mret tt).

(** The SubscribeUpdateHandler gets the update and answers nothing. *)
Definition onSubscribeUpdate (msg : SubscribeUpdateMessage.t) : SM unit :=
  m <- get Session.localTracks;
  _ <- of_option (localTrackMap.findByID m (SubscribeUpdateMessage.RequestID msg)) errUnknownRequestID;
  mret tt.

Definition public_update (msg : SubscribeUpdateMessage.t) : PublicSubscribeUpdate.t :=
  PublicSubscribeUpdate.mk (SubscribeUpdateMessage.RequestID msg)
    (SubscribeUpdateMessage.StartLocation msg) (SubscribeUpdateMessage.EndGroup msg)
    (SubscribeUpdateMessage.SubscriberPriority msg) (SubscribeUpdateMessage.Forward msg)
    (FromWire (SubscribeUpdateMessage.Parameters msg)).

Definition unsubscribe_local (lt : nat) : SM unit :=
  with_local lt (modify localTrack.unsubscribe).

Definition onUnsubscribe (msg : UnsubscribeMessage.t) : SM unit :=
  m <- get Session.localTracks;
  lt <- of_option (localTrackMap.findByID m (UnsubscribeMessage.RequestID msg)) errUnknownRequestID;
  unsubscribe_local lt.

Definition onSubscribeDone (msg : SubscribeDoneMessage.t) : SM unit :=
  m <- get Session.remoteTracks;
  sub <- of_option (remoteTrackMap.findByRequestID m (SubscribeDoneMessage.RequestID msg))
           errUnknownRequestID;
  with_remote sub (modify (RemoteTrack.done (SubscribeDoneMessage.StatusCode msg)
    (SubscribeDoneMessage.ReasonPhrase msg))).

Definition onFetch (msg : FetchMessage.t) : SM unit :=
  if negb (valid_namespace (FetchMessage.TrackNamespace msg)) then throw errInvalidNamespaceLength
  else
    let id := FetchMessage.RequestID msg in
    let m := message MessageFetch id (FetchMessage.TrackNamespace msg) (FetchMessage.TrackName msg) in
    alias <- on Session.trackAliases Session.set_trackAliases sequence.next;
    lt <- alloc_local (localTrack.newLocalTrack id alias false);
    r <- attempt (addLocalTrack id lt);
    match r with
    | Error e => _ <- rejectFetch id ErrorCodeSubscribeInternal []; throw e
    | Ret _ =>
        handled <- Handle (fetch_exec id lt) false m;
        reject_unhandled handled (fetch_exec id lt (RwReject 0 (str "unhandled fetch")) handled)
    end.

Definition onFetchOk (msg : FetchOkMessage.t) : SM unit :=
  rt <- confirm_remote (FetchOkMessage.RequestID msg);
  respond rt None (close_unhandled rt).

Definition onFetchError (msg : FetchErrorMessage.t) : SM unit :=
  rt <- reject_remote (FetchErrorMessage.RequestID msg);
  respond rt (Some (ProtocolError (FetchErrorMessage.ErrorCode msg)
                      (FetchErrorMessage.ReasonPhrase msg))) (mret tt).

Definition onFetchCancel (msg : FetchCancelMessage.t) : SM unit :=
  r <- on Session.localTracks Session.set_localTracks
         (fun m => localTrackMap.delete m (FetchCancelMessage.RequestID msg));
  lt <- of_option r errUnknownRequestID;
  unsubscribe_local lt.

Definition onTrackStatusRequest (msg : TrackStatusRequestMessage.t) : SM unit :=
  if negb (valid_namespace (TrackStatusRequestMessage.TrackNamespace msg))
  then throw errInvalidNamespaceLength
  else
    let ts := TrackStatus.mk (TrackStatusRequestMessage.TrackNamespace msg)
                (TrackStatusRequestMessage.TrackName msg) 0 0 0 in
    w <- Handle trackStatus_exec (ts, false)
           (message MessageTrackStatusRequest 0 (TrackStatusRequestMessage.TrackNamespace msg)
              (TrackStatusRequestMessage.TrackName msg));
    reject_unhandled w.2 (trackStatus_Reject w).

Definition onTrackStatus (msg : TrackStatusMessage.t) : SM unit :=
  r <- on Session.outgoingTrackStatusRequests Session.set_outgoingTrackStatusRequests
         (fun m => trackStatusRequestMap.delete m (TrackStatusMessage.RequestID msg));
  tsr <- of_option r errUnknownTrackStatusRequest;
  _ <- send_chan (trackStatusRequest.response tsr) (RespStatus (TrackStatus.mk
         (trackStatusRequest.namespace tsr) (trackStatusRequest.trackname tsr)
         (TrackStatusMessage.StatusCode msg)
         (Location.Group (TrackStatusMessage.LargestLocation msg))
         (Location.Object (TrackStatusMessage.LargestLocation msg))));
  mret tt.

(** The response channel of an incoming announcement has no buffer and no user. *)
Definition onAnnounce (msg : AnnounceMessage.t) : SM unit :=
  if negb (valid_namespace (AnnounceMessage.TrackNamespace msg)) then throw errInvalidNamespaceLength
  else
    let id := AnnounceMessage.RequestID msg in
    ch <- make_chan;
    let a := announcement.mk id (AnnounceMessage.TrackNamespace msg) (AnnounceMessage.Parameters msg) ch in
    _ <- modify (fun s => Session.set_incomingAnnouncements
                  (announcementMap.add (Session.incomingAnnouncements s) a) s);
    handled <- Handle (announcement_exec id) false
                 (message MessageAnnounce id (AnnounceMessage.TrackNamespace msg) []);
    reject_unhandled handled
      (announcement_exec id (RwReject 0 (str "unhandlded announcement")) handled).

Definition onAnnounceOk (msg : AnnounceOkMessage.t) : SM unit :=
  r <- on Session.outgoingAnnouncements Session.set_outgoingAnnouncements
         (fun m => announcementMap.confirmAndGet m (AnnounceOkMessage.RequestID msg));
  match r with
  | Error _ => throw errUnknownAnnouncement
  | Ret a => _ <- send_chan (announcement.response a) (RespErr None); mret tt
  end.

Definition onAnnounceError (msg : AnnounceErrorMessage.t) : SM unit :=
  r <- on Session.outgoingAnnouncements Session.set_outgoingAnnouncements
         (fun m => announcementMap.reject m (AnnounceErrorMessage.RequestID msg));
  a <- of_option r errUnknownAnnouncement;
  _ <- send_chan (announcement.response a)
         (RespErr (Some (ProtocolError (AnnounceErrorMessage.ErrorCode msg)
                           (AnnounceErrorMessage.ReasonPhrase msg))));
  mret tt.

Definition onUnannounce (msg : UnannounceMessage.t) : SM unit :=
  if negb (valid_namespace (UnannounceMessage.TrackNamespace msg)) then throw errInvalidNamespaceLength
  else
    ok <- on Session.incomingAnnouncements Session.set_incomingAnnouncements
            (fun m => announcementMap.delete m (UnannounceMessage.TrackNamespace msg));
    if negb ok then throw errUnknownAnnouncement
    else Handle nil_exec tt (message MessageUnannounce 0 (UnannounceMessage.TrackNamespace msg) []).

Definition onAnnounceCancel (msg : AnnounceCancelMessage.t) : SM unit :=
  if negb (valid_namespace (AnnounceCancelMessage.TrackNamespace msg))
  then throw errInvalidNamespaceLength
  else Handle nil_exec tt (Message.mk MessageAnnounceCancel 0
         (AnnounceCancelMessage.TrackNamespace msg) [] [] []
         (AnnounceCancelMessage.ErrorCode msg) (AnnounceCancelMessage.ReasonPhrase msg)).

Definition onSubscribeAnnounces (msg : SubscribeAnnouncesMessage.t) : SM unit :=
  let id := SubscribeAnnouncesMessage.RequestID msg in
  let prefix := SubscribeAnnouncesMessage.TrackNamespacePrefix msg in
  _ <- modify (fun s => Session.set_pendingIncomingAnnouncementSubscriptions
         (announcementSubscriptionMap.add (Session.pendingIncomingAnnouncementSubscriptions s)
            (announcementSubscription.mk id prefix None)) s);
  handled <- Handle (announcementSubscription_exec id) false
               (message MessageSubscribeAnnounces id prefix []);
  reject_unhandled handled
    (announcementSubscription_exec id (RwReject 0 (str "unhandled announcement subscription")) handled).

(** A send on a nil channel is never ready: the response is dropped. *)
Definition respond_subscription (a : announcementSubscription.t) (e : option error) : SM unit :=
  match announcementSubscription.response a with
  | Some ch => _ <- send_chan ch (RespErr e); mret tt
  | None => mret tt
  end.

Definition onSubscribeAnnouncesOk (msg : SubscribeAnnouncesOkMessage.t) : SM unit :=
  r <- on Session.pendingOutgointAnnouncementSubscriptions
         Session.set_pendingOutgointAnnouncementSubscriptions
         (fun m => announcementSubscriptionMap.deleteByID m
                     (SubscribeAnnouncesOkMessage.RequestID msg));
  a <- of_option r errUnknownSubscribeAnnouncesPrefix;
  respond_subscription a None.

Definition onSubscribeAnnouncesError (msg : SubscribeAnnouncesErrorMessage.t) : SM unit :=
  r <- on Session.pendingOutgointAnnouncementSubscriptions
         Session.set_pendingOutgointAnnouncementSubscriptions
         (fun m => announcementSubscriptionMap.deleteByID m
                     (SubscribeAnnouncesErrorMessage.RequestID msg));
  a <- of_option r errUnknownSubscribeAnnouncesPrefix;
  respond_subscription a (Some (ProtocolError (SubscribeAnnouncesErrorMessage.ErrorCode msg)
                                  (SubscribeAnnouncesErrorMessage.ReasonPhrase msg))).

Definition onUnsubscribeAnnounces (msg : UnsubscribeAnnouncesMessage.t) : SM unit :=
  Handle nil_exec tt
    (message MessageUnsubscribeAnnounces 0 (UnsubscribeAnnouncesMessage.TrackNamespacePrefix msg) []).

(** The dispatcher. *)
Definition receive (msg : ControlMessage) : SM unit :=
  ready <- get Session.handshakeDone;
  if negb ready then
    match msg with
    | ClientSetup m => onClientSetup m
    | ServerSetup m => onServerSetup m
    | _ => throw errUnexpectedMessageTypeBeforeSetup
    end
  else
    match msg with
    | GoAway m => onGoAway m
    | MaxRequestID m => onMaxRequestID m
    | RequestsBlocked m => onRequestsBlocked m
    | Subscribe m => onSubscribe m
    | SubscribeOk m => onSubscribeOk m
    | SubscribeError m => onSubscribeError m
    | SubscribeUpdate m => onSubscribeUpdate m
    | Unsubscribe m => onUnsubscribe m
    | SubscribeDone m => onSubscribeDone m
    | Fetch m => onFetch m
    | FetchOk m => onFetchOk m
    | FetchError m => onFetchError m
    | FetchCancel m => onFetchCancel m
    | TrackStatusRequest m => onTrackStatusRequest m
    | TrackStatus m => onTrackStatus m
    | Announce m => onAnnounce m
    | AnnounceOk m => onAnnounceOk m
    | AnnounceError m => onAnnounceError m
    | ControlMessages.Unannounce m => onUnannounce m
    | ControlMessages.AnnounceCancel m => onAnnounceCancel m
    | SubscribeAnnounces m => onSubscribeAnnounces m
    | SubscribeAnnouncesOk m => onSubscribeAnnouncesOk m
    | SubscribeAnnouncesError m => onSubscribeAnnouncesError m
    | UnsubscribeAnnounces m => onUnsubscribeAnnounces m
    | _ => throw errUnexpectedMessageType
    end.

(** readControlStream: the messages of the stream, up to the first error. *)
Fixpoint readControlStream (msgs : list ControlMessage) (end_ : error) : SM unit :=
  match msgs with
  | [] => throw end_
  | msg :: msgs => _ <- receive msg; readControlStream msgs end_
  end.

(** * Data streams and datagrams *)

Definition readFetchStream (p : ObjectStreamParser.t) (msgs : list ObjectMessage.t * res unit) : SM unit :=
  m <- get Session.remoteTracks;
  rt <- of_option (remoteTrackMap.findByRequestID m (ObjectStreamParser.Identifier p)) errUnknownRequestID;
  with_remote rt (RemoteTrack.readFetchStream msgs).

Definition readSubgroupStream (p : ObjectStreamParser.t) (msgs : list ObjectMessage.t * res unit) : SM unit :=
  m <- get Session.remoteTracks;
  rt <- of_option (remoteTrackMap.findByTrackAlias m (ObjectStreamParser.Identifier p)) errUnknownRequestID;
  with_remote rt (RemoteTrack.readSubgroupStream msgs).

Definition handleUniStream (p : ObjectStreamParser.t) (msgs : list ObjectMessage.t * res unit) : SM unit :=
  if ObjectStreamParser.Type_ p =? StreamTypeFetch then readFetchStream p msgs
  else readSubgroupStream p msgs.

Definition receiveDatagram (msg : ObjectDatagramMessage.t) : SM unit :=
  m <- get Session.remoteTracks;
  rt <- of_option (remoteTrackMap.findByTrackAlias m (ObjectDatagramMessage.TrackAlias msg))
          errUnknownTrackAlias;
  with_remote rt (modify (RemoteTrack.push (Object.mk (ObjectDatagramMessage.GroupID msg)
    (ObjectDatagramMessage.ObjectID msg) ObjectForwardingPreferenceDatagram 0
    (ObjectDatagramMessage.ObjectPayload msg)))).

(** * Run *)

(** The state Run sets up, before the client's CLIENT_SETUP. *)
Definition new_session (p : Perspective) (protocol : Protocol) (path : gostring)
    (InitialMaxRequestID : Z) : Session.t :=
  Session.mk p protocol false false 0 path InitialMaxRequestID
    (requestIDGenerator.newRequestIDGenerator (perspective_uint64 p) 0 2) 0
    announcementMap.newAnnouncementMap announcementMap.newAnnouncementMap
    announcementSubscriptionMap.newAnnouncementSubscriptionMap
    announcementSubscriptionMap.newAnnouncementSubscriptionMap
    (sequence.newSequence 0 1) remoteTrackMap.newRemoteTrackMap localTrackMap.newLocalTrackMap
    trackStatusRequestMap.newTrackStatusRequestMap [] [] [] [] [].

(** Run up to the wait for the handshake. *)
Definition Run_start : SM unit :=
  p <- get Session.perspective;
  match p with
  | PerspectiveClient => sendClientSetup
  | PerspectiveServer => mret tt
  end.

End Session.

(** An application without callbacks, and one whose SubscribeHandler accepts
    every subscription. *)
Definition no_handlers : Application := {| Handler := None; SubscribeHandler := None |}.
Definition accepts_subscriptions (options : list SubscribeOKOption) : Application := {|
  Handler := None;
  SubscribeHandler := Some (fun _ => Call (SubAccept options) (fun _ => Return)) |}.
(** One whose Handler accepts every request. *)
Definition accepts_requests : Application := {|
  Handler := Some (fun _ => Call RwAccept (fun _ => Return));
  SubscribeHandler := None |}.
