(* ===== verification/SessionInv.v ===== *)
(** The invariant of a session, and that every operation keeps it.

    [hoare Pre m Q] is the contract of an operation: started in a state that
    satisfies the invariant and [Pre], it ends in one that satisfies the
    invariant, extends the first (the stores only grow, a completed handshake
    stays completed), and satisfies [Q] when a value was returned.  It says
    nothing of operations that panic. *)

From stdpp Require Import sets.
From S2P Require Import Prelude VarInt Codec WireTypes Messages ControlMessages Objects Params.
From S2P Require Import ParserSafety Errors State RequestID TrackMaps Tracks Announcements.
From S2P Require Import SessionState Session.
Local Open Scope Z_scope.
Local Open Scope go_scope.

Definition local_id (s : Session.t) (p : nat) : option Z :=
  localTrack.requestID <$> Session.localHeap s !! p.
Definition remote_id (s : Session.t) (p : nat) : option Z :=
  RemoteTrack.requestID <$> Session.remoteHeap s !! p.

(** The entries of a table of tracks. *)
Definition entry {A} (pending open : gmap Z A) (id : Z) (p : A) : Prop :=
  pending !! id = Some p \/ open !! id = Some p.

(** Between two states of a session. *)
Record ext (s s' : Session.t) : Prop := {
  ext_local p id : local_id s p = Some id -> local_id s' p = Some id;
  ext_remote p id : remote_id s p = Some id -> remote_id s' p = Some id;
  ext_chans : (length (Session.chans s) <= length (Session.chans s'))%nat;
  ext_perspective : Session.perspective s' = Session.perspective s;
  ext_done : Session.handshakeDone s = true -> Session.handshakeDone s' = true;
  ext_doneCh : Session.handshakeDoneCh s = true -> Session.handshakeDoneCh s' = true;
  ext_version : Session.version s ∈ SupportedVersions -> Session.version s' ∈ SupportedVersions;
  ext_id : requestIDGenerator.id (Session.requestIDs s) <= requestIDGenerator.id (Session.requestIDs s');
  ext_max : requestIDGenerator.max (Session.requestIDs s) <= requestIDGenerator.max (Session.requestIDs s');
}.

Record inv `{QuicVarint} (s : Session.t) : Prop := {
  (** The tables hold tracks of the requests they are indexed by; no request is
      pending and open at once. *)
  inv_local : localTrackMap.wf (Session.localTracks s);
  inv_local_ids id p :
    entry (localTrackMap.pending (Session.localTracks s)) (localTrackMap.open (Session.localTracks s)) id p ->
    local_id s p = Some id;
  inv_remote : remoteTrackMap.wf (Session.remoteTracks s);
  inv_remote_ids id p :
    entry (remoteTrackMap.pending (Session.remoteTracks s)) (remoteTrackMap.open (Session.remoteTracks s)) id p ->
    remote_id s p = Some id /\ id < requestIDGenerator.id (Session.requestIDs s);
  inv_outgoing : announcementMap.wf (Session.outgoingAnnouncements s);
  inv_incoming : announcementMap.wf (Session.incomingAnnouncements s);
  (** The generator hands out every second ID, of the parity of the side. *)
  inv_interval : requestIDGenerator.interval (Session.requestIDs s) = 2;
  inv_id : 0 <= requestIDGenerator.id (Session.requestIDs s) <= maxVarInt + 2;
  inv_parity : requestIDGenerator.id (Session.requestIDs s) mod 2
               = perspective_uint64 (Session.perspective s);
  inv_max : requestIDGenerator.max (Session.requestIDs s) <= maxVarInt;
  (** The handshake. *)
  inv_done : Session.handshakeDone s = true ->
             Session.handshakeDoneCh s = true /\ Session.version s ∈ SupportedVersions;
  (** Buffers are bounded. *)
  inv_buffers : Forall (fun r => (length (RemoteTrack.buffer r) <= buffer_capacity)%nat /\
                                 (length (RemoteTrack.responseChan r) <= 1)%nat)
                  (Session.remoteHeap s);
  inv_chans : Forall (fun c => (length c <= 1)%nat) (Session.chans s);
  (** What was written is a sequence of frames. *)
  inv_written : exists bs, stream_bytes s = Ok bs;
}.

Section Hoare.
Context {QV : QuicVarint}.

Definition hoare {A} (Pre : Session.t -> Prop) (m : SM A) (Q : A -> Session.t -> Prop) : Prop :=
  forall s r s', inv s -> Pre s -> m s = Ok (r, s') ->
    inv s' /\ ext s s' /\ (forall a, r = Ret a -> Q a s').

(** An operation that keeps the invariant. *)
Definition ok {A} (m : SM A) : Prop := hoare (fun _ => True) m (fun _ _ => True).

Lemma ext_refl s : ext s s.
Proof. by constructor. Qed.

Lemma ext_trans s1 s2 s3 : ext s1 s2 -> ext s2 s3 -> ext s1 s3.
Proof.
  intros H1 H2. constructor.
  - intros. by eapply (ext_local _ _ H2), (ext_local _ _ H1).
  - intros. by eapply (ext_remote _ _ H2), (ext_remote _ _ H1).
  - etrans; [apply (ext_chans _ _ H1)|apply (ext_chans _ _ H2)].
  - etrans; [apply (ext_perspective _ _ H2)|apply (ext_perspective _ _ H1)].
  - intros. by apply (ext_done _ _ H2), (ext_done _ _ H1).
  - intros. by apply (ext_doneCh _ _ H2), (ext_doneCh _ _ H1).
  - intros. by apply (ext_version _ _ H2), (ext_version _ _ H1).
  - etrans; [apply (ext_id _ _ H1)|apply (ext_id _ _ H2)].
  - etrans; [apply (ext_max _ _ H1)|apply (ext_max _ _ H2)].
Qed.

Lemma hoare_bind {A B} Pre (m : SM A) (k : A -> SM B) Q R :
  hoare Pre m Q -> (forall a, hoare (Q a) (k a) R) -> hoare Pre (gm_bind m k) R.
Proof.
  intros Hm Hk s r s' Hi Hp H. apply gm_bind_Ok in H as [(a & s1 & H1 & H2)|(e & H1 & ->)].
  - destruct (Hm _ _ _ Hi Hp H1) as (Hi1 & He1 & HQ).
    destruct (Hk a _ _ _ Hi1 (HQ _ eq_refl) H2) as (Hi2 & He2 & HR).
    split_and!; [done|by eapply ext_trans|done].
  - destruct (Hm _ _ _ Hi Hp H1) as (Hi1 & He1 & _). split_and!; [done|done|]. intros a. done.
Qed.

(** Facts that survive the extension of a state. *)
Definition stable (F : Session.t -> Prop) : Prop := forall s s', ext s s' -> F s -> F s'.

Lemma hoare_frame {A} F Pre (m : SM A) Q :
  stable F -> hoare Pre m Q ->
  hoare (fun s => Pre s /\ F s) m (fun a s => Q a s /\ F s).
Proof.
  intros HF Hm s r s' Hi [Hp Hf] H. destruct (Hm _ _ _ Hi Hp H) as (Hi1 & He1 & HQ).
  split_and!; [done|done|]. intros a Ha. split; [by apply HQ|]. by eapply HF.
Qed.

Lemma hoare_conseq {A} (P P' : Session.t -> Prop) (m : SM A) (Q Q' : A -> Session.t -> Prop) :
  (forall s, P' s -> P s) -> (forall a s, Q a s -> Q' a s) -> hoare P m Q -> hoare P' m Q'.
Proof.
  intros HP HQ Hm s r s' Hi Hp H. destruct (Hm _ _ _ Hi (HP _ Hp) H) as (? & ? & Hq).
  split_and!; [done|done|]. intros a Ha. by apply HQ, Hq.
Qed.

(** Composition when nothing is to be remembered. *)
Lemma ok_bind {A B} (m : SM A) (k : A -> SM B) : ok m -> (forall a, ok (k a)) -> ok (gm_bind m k).
Proof. intros Hm Hk. eapply hoare_bind; [exact Hm|]. intros a. apply Hk. Qed.

(** Composition that keeps a stable fact. *)
Lemma hoare_bind_ok {A B} F (m : SM A) (k : A -> SM B) R :
  stable F -> ok m -> (forall a, hoare F (k a) R) -> hoare F (gm_bind m k) R.
Proof.
  intros HF Hm Hk. eapply hoare_bind.
  - eapply (hoare_conseq (fun s => True /\ F s)); [done| |by apply hoare_frame].
    intros a s [_ H]. exact H.
  - exact Hk.
Qed.

Lemma hoare_ok {A} P (m : SM A) : ok m -> hoare P m (fun _ _ => True).
Proof. intros Hm. by eapply (hoare_conseq (fun _ => True)). Qed.

Lemma ok_ret {A} (a : A) : ok (mret a : SM A).
Proof. intros s r s' Hi _ [= <- <-]. split_and!; [done|apply ext_refl|done]. Qed.

Lemma ok_throw {A} e : ok (throw e : SM A).
Proof. intros s r s' Hi _ [= <- <-]. split_and!; [done|apply ext_refl|done]. Qed.

Lemma ok_panic {A} : ok (panic : SM A).
Proof. by intros s r s' Hi _ H. Qed.

Lemma ok_get {A} (f : Session.t -> A) : ok (get f).
Proof. intros s r s' Hi _ [= <- <-]. split_and!; [done|apply ext_refl|done]. Qed.

Lemma ok_of_option {A} (o : option A) e : ok (of_option o e : SM A).
Proof. destruct o; [apply ok_ret|apply ok_throw]. Qed.

Lemma hoare_attempt {A} P (m : SM A) Q :
  hoare P m Q -> hoare P (attempt m) (fun r s => forall a, r = Ret a -> Q a s).
Proof.
  intros Hm s r s' Hi Hp H. unfold attempt in H. destruct (m s) as [[r1 s1]| | |] eqn:E; [|done..].
  injection H as <- <-. destruct (Hm _ _ _ Hi Hp E) as (? & ? & HQ). split_and!; [done|done|].
  by intros a [= <-].
Qed.

Lemma ok_attempt {A} (m : SM A) : ok m -> ok (attempt m).
Proof.
  intros Hm s r s' Hi _ H. destruct (hoare_attempt _ m _ Hm _ _ _ Hi I H) as (? & ? & _). done.
Qed.

Lemma ok_lift_res {A} (m : res A) : ok (localTrack.lift_res m : SM A).
Proof.
  intros s r s' Hi _ H. unfold localTrack.lift_res in H.
  destruct m; [..|done|done]; injection H as <- <-; (split_and!; [done|apply ext_refl|done]).
Qed.

Lemma ok_if {A} (b : bool) (m n : SM A) : ok m -> ok n -> ok (if b then m else n).
Proof. by destruct b. Qed.

End Hoare.

#[export] Hint Resolve ok_ret ok_throw ok_panic ok_get ok_of_option ok_attempt ok_lift_res ok_if : go.

(** * The operations on the state *)

(** The parts of the invariant that an update does not touch. *)
Ltac inv_auto :=
  match goal with
  | H : inv ?s |- inv _ => destruct H; constructor; try assumption
  | |- ext _ _ => constructor; try done
  end.

Section Primitives.
Context {QV : QuicVarint} {MR : MapRange}.

Lemma ok_step {A} (m : SM A) :
  (forall s r s', inv s -> m s = Ok (r, s') -> inv s' /\ ext s s') -> ok m.
Proof. intros H s r s' Hi _ E. destruct (H _ _ _ Hi E). done. Qed.

Lemma ok_modify (f : Session.t -> Session.t) :
  (forall s, inv s -> inv (f s) /\ ext s (f s)) -> ok (modify f).
Proof. intros H. apply ok_step. intros s r s' Hi [= <- <-]. by apply H. Qed.

Lemma ok_on {F A} (proj : Session.t -> F) upd (f : F -> A * F) :
  (forall s, inv s -> inv (upd (f (proj s)).2 s) /\ ext s (upd (f (proj s)).2 s)) ->
  ok (on proj upd f).
Proof.
  intros H. apply ok_step. intros s r s' Hi E. unfold on in E. specialize (H s Hi).
  destruct (f (proj s)) as [a x]. by injection E as <- <-.
Qed.

Lemma ok_try {F} (proj : Session.t -> F) upd (f : F -> option error * F) :
  (forall s, inv s -> inv (upd (f (proj s)).2 s) /\ ext s (upd (f (proj s)).2 s)) ->
  ok (try_ proj upd f).
Proof.
  intros H. apply ok_step. intros s r s' Hi E. unfold try_ in E. specialize (H s Hi).
  destruct (f (proj s)) as [a x]. by injection E as <- <-.
Qed.

(** ** Writing *)

Lemma compile_all_app ms m bs b :
  compile_all ms = Ok bs -> compileMessage m = Ok b -> compile_all (ms ++ [m]) = Ok (bs ++ b).
Proof.
  revert bs. induction ms as [|m' ms IH]; intros bs H Hm; cbn [compile_all app] in *.
  - injection H as <-. rewrite Hm. cbn. by rewrite app_nil_r.
  - inv_bind H. inv_bind H. injection H as <-. rewrite E. cbn [mbind res_bind].
    rewrite (IH _ E0 Hm). cbn. by rewrite app_assoc.
Qed.

Lemma ok_write msg : ok (write msg).
Proof.
  apply ok_step. intros s r s' Hi H. unfold write in H.
  destruct (compileMessage msg) as [buf| | |] eqn:E; [|injection H as <- <-; split; [done|apply ext_refl]|done..].
  destruct (inv_written s Hi) as [bs Hbs].
  assert (exists bs', compile_all (Session.written s ++ [msg]) = Ok bs') as Hw
    by (eexists; by apply compile_all_app).
  destruct (Session.writes s) as [|[e|] ws]; injection H as <- <-; (split; [inv_auto|inv_auto]).
Qed.

(** ** Request IDs *)

Lemma requestID_parity_step s :
  inv s -> requestIDGenerator.id (Session.requestIDs s) < requestIDGenerator.max (Session.requestIDs s) ->
  let g := Session.requestIDs s in
  uint64 (requestIDGenerator.id g + requestIDGenerator.interval g) = requestIDGenerator.id g + 2 /\
  requestIDGenerator.id g + 2 <= maxVarInt + 2 /\
  (requestIDGenerator.id g + 2) mod 2 = requestIDGenerator.id g mod 2.
Proof.
  intros Hi Hlt g. pose proof (inv_interval s Hi). pose proof (inv_id s Hi). pose proof (inv_max s Hi).
  subst g. rewrite H. unfold maxVarInt in *. split_and!; [apply uint64_small; lia|lia|].
  rewrite <- Z.add_mod_idemp_r by lia. rewrite Z_mod_same_full, Z.add_0_r. done.
Qed.

Lemma ok_requestID_next : ok (on Session.requestIDs Session.set_requestIDs requestIDGenerator.next).
Proof.
  apply ok_on. intros s Hi. unfold requestIDGenerator.next.
  destruct (Z.geb_spec (requestIDGenerator.id (Session.requestIDs s))
              (requestIDGenerator.max (Session.requestIDs s))) as [Hb|Hb]; cbn [snd].
  { split; [inv_auto|inv_auto; cbn; lia]. }
  pose proof (requestID_parity_step s Hi ltac:(lia)) as (Hn & Hl & Hp).
  pose proof (inv_id s Hi). split.
  - inv_auto; cbn.
    + intros id p He. destruct (inv_remote_ids0 id p He). split; [done|]. rewrite Hn. lia.
    + rewrite Hn. lia.
    + rewrite Hn, Hp. done.
  - inv_auto; cbn; rewrite ?Hn; lia.
Qed.

Lemma ok_setMax v : v <= maxVarInt ->
  ok (try_ Session.requestIDs Session.set_requestIDs (fun g => requestIDGenerator.setMax g v)).
Proof.
  intros Hv. apply ok_try. intros s Hi. unfold requestIDGenerator.setMax.
  destruct (Z.ltb_spec v (requestIDGenerator.max (Session.requestIDs s))); cbn [snd].
  - split; [inv_auto|inv_auto; cbn; lia].
  - split; [inv_auto|inv_auto; cbn; lia].
Qed.

(** ** Tables *)

Lemma ok_announcement_add_out a :
  ok (modify (fun s => Session.set_outgoingAnnouncements
        (announcementMap.add (Session.outgoingAnnouncements s) a) s)).
Proof.
  apply ok_modify. intros s Hi. split; [|inv_auto]. inv_auto.
  destruct inv_outgoing0 as [Hp Ha]. split; [|done]. by apply map_Forall_insert_2.
Qed.

Lemma ok_announcement_add_in a :
  ok (modify (fun s => Session.set_incomingAnnouncements
        (announcementMap.add (Session.incomingAnnouncements s) a) s)).
Proof.
  apply ok_modify. intros s Hi. split; [|inv_auto]. inv_auto.
  destruct inv_incoming0 as [Hp Ha]. split; [|done]. by apply map_Forall_insert_2.
Qed.

Lemma announcementMap_confirm_wf m id :
  announcementMap.wf m -> announcementMap.wf (announcementMap.confirmAndGet m id).2.
Proof.
  intros [Hp Ha]. unfold announcementMap.confirmAndGet.
  destruct (_ !! id) eqn:E; [|done]. split; cbn; [by apply map_Forall_delete|].
  apply map_Forall_insert_2; [by apply Hp|done].
Qed.

Lemma announcementMap_reject_wf m id :
  announcementMap.wf m -> announcementMap.wf (announcementMap.reject m id).2.
Proof.
  intros [Hp Ha]. unfold announcementMap.reject.
  destruct (_ !! id) eqn:E; [|done]. split; cbn; [by apply map_Forall_delete|done].
Qed.

Lemma ok_outgoing {A} (f : announcementMap.t -> A * announcementMap.t) :
  (forall m, announcementMap.wf m -> announcementMap.wf (f m).2) ->
  ok (on Session.outgoingAnnouncements Session.set_outgoingAnnouncements f).
Proof.
  intros Hf. apply ok_on. intros s Hi. split; [|inv_auto]. inv_auto. by apply Hf.
Qed.

Lemma ok_incoming {A} (f : announcementMap.t -> A * announcementMap.t) :
  (forall m, announcementMap.wf m -> announcementMap.wf (f m).2) ->
  ok (on Session.incomingAnnouncements Session.set_incomingAnnouncements f).
Proof.
  intros Hf. apply ok_on. intros s Hi. split; [|inv_auto]. inv_auto. by apply Hf.
Qed.

Lemma ok_outgoing_subs {A} (f : announcementSubscriptionMap.t -> A * announcementSubscriptionMap.t) :
  ok (on Session.pendingOutgointAnnouncementSubscriptions
        Session.set_pendingOutgointAnnouncementSubscriptions f).
Proof. apply ok_on. intros s Hi. split; [|inv_auto]. inv_auto. Qed.

Lemma ok_trackStatus {A} (f : trackStatusRequestMap.t -> A * trackStatusRequestMap.t) :
  ok (on Session.outgoingTrackStatusRequests Session.set_outgoingTrackStatusRequests f).
Proof. apply ok_on. intros s Hi. split; [|inv_auto]. inv_auto. Qed.

Lemma ok_modify_subs_out f :
  ok (modify (fun s => Session.set_pendingOutgointAnnouncementSubscriptions (f s) s)).
Proof. apply ok_modify. intros s Hi. split; [|inv_auto]. inv_auto. Qed.

Lemma ok_modify_subs_in f :
  ok (modify (fun s => Session.set_pendingIncomingAnnouncementSubscriptions (f s) s)).
Proof. apply ok_modify. intros s Hi. split; [|inv_auto]. inv_auto. Qed.

Lemma ok_modify_trackStatus f :
  ok (modify (fun s => Session.set_outgoingTrackStatusRequests (f s) s)).
Proof. apply ok_modify. intros s Hi. split; [|inv_auto]. inv_auto. Qed.

Lemma ok_aliases {A} (f : sequence.t -> A * sequence.t) :
  ok (on Session.trackAliases Session.set_trackAliases f).
Proof. apply ok_on. intros s Hi. split; [|inv_auto]. inv_auto. Qed.

Lemma ok_localMaxRequestID v : ok (modify (Session.set_localMaxRequestID v)).
Proof. apply ok_modify. intros s Hi. split; [|inv_auto]. inv_auto. Qed.

Lemma ok_path v : ok (modify (Session.set_path v)).
Proof. apply ok_modify. intros s Hi. split; [|inv_auto]. inv_auto. Qed.

End Primitives.

#[export] Hint Resolve ok_write ok_requestID_next ok_announcement_add_out ok_announcement_add_in
  ok_outgoing ok_incoming ok_outgoing_subs ok_trackStatus ok_modify_subs_out ok_modify_subs_in
  ok_modify_trackStatus ok_aliases ok_localMaxRequestID ok_path
  announcementMap_confirm_wf announcementMap_reject_wf announcementMap_delete_wf : go.

(** * Tracks *)

Section TrackPrimitives.
Context {QV : QuicVarint}.

Lemma local_confirm_keeps (m : localTrackMap.t nat) id :
  localTrackMap.wf m ->
  let m' := (localTrackMap.confirm m id).2 in
  localTrackMap.wf m' /\ forall i p,
    entry (localTrackMap.pending m') (localTrackMap.open m') i p ->
    entry (localTrackMap.pending m) (localTrackMap.open m) i p.
Proof.
  intros Hwf. pose proof (local_confirm m id Hwf) as H.
  unfold localTrackMap.confirm in *. destruct (localTrackMap.pending m !! id) as [a|] eqn:E; [|done].
  destruct H as [_ H]. split; [exact H|]. cbn. intros i p [Hp|Ho].
  - left. by apply lookup_delete_Some in Hp as [_ Hp].
  - apply lookup_insert_Some in Ho as [[<- <-]|[_ Ho]]; [by left|by right].
Qed.

Lemma local_reject_keeps (m : localTrackMap.t nat) id :
  localTrackMap.wf m ->
  let m' := (localTrackMap.reject m id).2 in
  localTrackMap.wf m' /\ forall i p,
    entry (localTrackMap.pending m') (localTrackMap.open m') i p ->
    entry (localTrackMap.pending m) (localTrackMap.open m) i p.
Proof.
  intros Hwf. pose proof (local_reject m id Hwf) as H.
  unfold localTrackMap.reject in *. destruct (localTrackMap.pending m !! id) as [a|] eqn:E; [|done].
  destruct H as [_ H]. split; [exact H|]. cbn. intros i p [Hp|Ho]; [|by right].
  left. by apply lookup_delete_Some in Hp as [_ Hp].
Qed.

Lemma local_delete_keeps (m : localTrackMap.t nat) id :
  localTrackMap.wf m ->
  let m' := (localTrackMap.delete m id).2 in
  localTrackMap.wf m' /\ forall i p,
    entry (localTrackMap.pending m') (localTrackMap.open m') i p ->
    entry (localTrackMap.pending m) (localTrackMap.open m) i p.
Proof.
  intros Hwf. pose proof (local_delete m id Hwf) as H.
  unfold localTrackMap.delete in *. destruct (localTrackMap.findByID m id) as [a|] eqn:E; [|done].
  destruct H as [_ H]. split; [exact H|]. cbn.
  intros i p [Hp|Ho]; [left|right]; by apply lookup_delete_Some in Hp as [_ Hp] || by apply lookup_delete_Some in Ho as [_ Ho].
Qed.

Lemma ok_localTracks {A} (f : localTrackMap.t nat -> A * localTrackMap.t nat) :
  (forall m, localTrackMap.wf m -> localTrackMap.wf (f m).2 /\ forall i p,
     entry (localTrackMap.pending (f m).2) (localTrackMap.open (f m).2) i p ->
     entry (localTrackMap.pending m) (localTrackMap.open m) i p) ->
  ok (on Session.localTracks Session.set_localTracks f).
Proof.
  intros Hf. apply ok_on. intros s Hi. destruct (Hf _ (inv_local s Hi)) as [Hwf He].
  split; [|inv_auto]. inv_auto. intros id p H. by apply inv_local_ids0, He.
Qed.

Lemma ok_local_confirm id :
  ok (on Session.localTracks Session.set_localTracks (fun m => localTrackMap.confirm m id)).
Proof. apply ok_localTracks. intros m. apply local_confirm_keeps. Qed.

Lemma ok_local_reject id :
  ok (on Session.localTracks Session.set_localTracks (fun m => localTrackMap.reject m id)).
Proof. apply ok_localTracks. intros m. apply local_reject_keeps. Qed.

Lemma ok_local_delete id :
  ok (on Session.localTracks Session.set_localTracks (fun m => localTrackMap.delete m id)).
Proof. apply ok_localTracks. intros m. apply local_delete_keeps. Qed.

Lemma hoare_local_add id lt :
  hoare (fun s => local_id s lt = Some id)
    (on Session.localTracks Session.set_localTracks (fun m => localTrackMap.addPending m id lt))
    (fun _ _ => True).
Proof.
  intros s r s' Hi Hlt H. unfold on in H.
  pose proof (local_addPending (Session.localTracks s) id lt (inv_local s Hi)) as Ha.
  destruct (localTrackMap.addPending (Session.localTracks s) id lt) as [b m'] eqn:E.
  destruct Ha as [_ Hwf]. injection H as <- <-. split_and!; [|inv_auto|done].
  inv_auto. cbn. intros i p He.
  unfold localTrackMap.addPending in E.
  destruct (_ !! id); [injection E as <- <-; by apply inv_local_ids0|].
  destruct (_ !! id); [injection E as <- <-; by apply inv_local_ids0|].
  injection E as <- <-. cbn in He. destruct He as [He|He].
  - apply lookup_insert_Some in He as [[<- <-]|[_ He]]; [exact Hlt|].
    apply inv_local_ids0. by left.
  - apply inv_local_ids0. by right.
Qed.

Lemma hoare_alloc_local lt :
  hoare (fun _ => True) (alloc_local lt) (fun p s => local_id s p = Some (localTrack.requestID lt)).
Proof.
  intros s r s' Hi _ [= <- <-].
  assert (forall p id, local_id s p = Some id ->
    local_id (Session.set_localHeap (Session.localHeap s ++ [lt]) s) p = Some id) as Hext.
  { intros p id H. unfold local_id in *. cbn.
    destruct (Session.localHeap s !! p) eqn:E; [|done]. by rewrite (lookup_app_l_Some _ _ _ _ E). }
  split_and!.
  - inv_auto. intros id p H. by apply Hext, inv_local_ids0.
  - inv_auto.
  - intros a [= <-]. unfold local_id. cbn. by rewrite list_lookup_middle.
Qed.

Lemma ok_alloc_local lt : ok (alloc_local lt).
Proof. eapply hoare_conseq; [| |apply hoare_alloc_local]; done. Qed.

(** Methods of a publisher's track do not change its request. *)
Lemma ok_with_local {A} p (m : GM localTrack.t A) :
  (forall lt r lt', m lt = Ok (r, lt') -> localTrack.requestID lt' = localTrack.requestID lt) ->
  ok (with_local p m).
Proof.
  intros Hm. apply ok_step. intros s r s' Hi H. unfold with_local in H.
  destruct (Session.localHeap s !! p) as [lt|] eqn:E; [|done].
  destruct (m lt) as [[r1 lt']| | |] eqn:Em; [|done..]. injection H as <- <-.
  apply Hm in Em.
  assert (forall q id, local_id s q = Some id ->
    local_id (Session.set_localHeap (<[p:=lt']> (Session.localHeap s)) s) q = Some id) as Hext.
  { intros q id H. unfold local_id in *. cbn. destruct (decide (q = p)) as [->|Hne].
    - rewrite list_lookup_insert_eq by (by eapply lookup_lt_Some). rewrite E in H. cbn in *. congruence.
    - by rewrite list_lookup_insert_ne. }
  split; inv_auto. intros id q H. by apply Hext, inv_local_ids0.
Qed.

(** ** Remote tracks *)

Definition good_remote (r : RemoteTrack.t) : Prop :=
  (length (RemoteTrack.buffer r) <= buffer_capacity)%nat /\
  (length (RemoteTrack.responseChan r) <= 1)%nat.

Lemma ok_with_remote {A} p (m : GM RemoteTrack.t A) :
  (forall rt r rt', good_remote rt -> m rt = Ok (r, rt') ->
     RemoteTrack.requestID rt' = RemoteTrack.requestID rt /\ good_remote rt') ->
  ok (with_remote p m).
Proof.
  intros Hm. apply ok_step. intros s r s' Hi H. unfold with_remote in H.
  destruct (Session.remoteHeap s !! p) as [rt|] eqn:E; [|done].
  destruct (m rt) as [[r1 rt']| | |] eqn:Em; [|done..]. injection H as <- <-.
  assert (good_remote rt) as Hg by exact (Forall_lookup_1 _ _ _ _ (inv_buffers s Hi) E).
  destruct (Hm _ _ _ Hg Em) as [Hid Hg'].
  assert (forall q id, remote_id s q = Some id ->
    remote_id (Session.set_remoteHeap (<[p:=rt']> (Session.remoteHeap s)) s) q = Some id) as Hext.
  { intros q id H. unfold remote_id in *. cbn. destruct (decide (q = p)) as [->|Hne].
    - rewrite list_lookup_insert_eq by (by eapply lookup_lt_Some). rewrite E in H. cbn in *. congruence.
    - by rewrite list_lookup_insert_ne. }
  split; inv_auto.
  - intros id q H. destruct (inv_remote_ids0 id q H). split; [by apply Hext|done].
  - by apply Forall_insert.
Qed.

Lemma hoare_alloc_remote rt F :
  stable F -> good_remote rt ->
  hoare F (alloc_remote rt) (fun p s => remote_id s p = Some (RemoteTrack.requestID rt) /\ F s).
Proof.
  intros HF Hg s r s' Hi Hf [= <- <-].
  assert (forall p id, remote_id s p = Some id ->
    remote_id (Session.set_remoteHeap (Session.remoteHeap s ++ [rt]) s) p = Some id) as Hext.
  { intros p id H. unfold remote_id in *. cbn.
    destruct (Session.remoteHeap s !! p) eqn:E; [|done]. by rewrite (lookup_app_l_Some _ _ _ _ E). }
  assert (ext s (Session.set_remoteHeap (Session.remoteHeap s ++ [rt]) s)) as He by inv_auto.
  split_and!.
  - inv_auto.
    + intros id p H. destruct (inv_remote_ids0 id p H). split; [by apply Hext|done].
    + cbn. apply Forall_app. split; [done|]. by constructor.
  - done.
  - intros a [= <-]. split; [|by eapply HF]. unfold remote_id. cbn. by rewrite list_lookup_middle.
Qed.

Lemma remote_shrink_wf (f : remoteTrackMap.t nat -> remoteTrackMap.t nat) s :
  inv s ->
  (let m := Session.remoteTracks s in
   remoteTrackMap.wf (f m) /\ forall i p,
     entry (remoteTrackMap.pending (f m)) (remoteTrackMap.open (f m)) i p ->
     entry (remoteTrackMap.pending m) (remoteTrackMap.open m) i p) ->
  inv (Session.set_remoteTracks (f (Session.remoteTracks s)) s) /\
  ext s (Session.set_remoteTracks (f (Session.remoteTracks s)) s).
Proof.
  intros Hi [Hwf He]. split; inv_auto. intros id p H. by apply inv_remote_ids0, He.
Qed.

Lemma ok_remote_confirm id :
  ok (on Session.remoteTracks Session.set_remoteTracks (fun m => remoteTrackMap.confirm m id)).
Proof.
  apply ok_on. intros s Hi. apply (remote_shrink_wf (fun m => (remoteTrackMap.confirm m id).2)); [done|].
  cbn. pose proof (remote_confirm (Session.remoteTracks s) id (inv_remote s Hi)) as H.
  unfold remoteTrackMap.confirm in *.
  destruct (remoteTrackMap.pending (Session.remoteTracks s) !! id) as [a|] eqn:E;
    [|split; [apply inv_remote, Hi|done]].
  destruct H as [_ H]. split; [exact H|]. cbn. intros i p [Hp|Ho].
  - left. by apply lookup_delete_Some in Hp as [_ Hp].
  - apply lookup_insert_Some in Ho as [[<- <-]|[_ Ho]]; [by left|by right].
Qed.

Lemma ok_remote_reject id :
  ok (on Session.remoteTracks Session.set_remoteTracks (fun m => remoteTrackMap.reject m id)).
Proof.
  apply ok_on. intros s Hi. apply (remote_shrink_wf (fun m => (remoteTrackMap.reject m id).2)); [done|].
  cbn. pose proof (remote_reject (Session.remoteTracks s) id (inv_remote s Hi)) as H.
  unfold remoteTrackMap.reject in *.
  destruct (remoteTrackMap.pending (Session.remoteTracks s) !! id) as [a|] eqn:E;
    [|split; [apply inv_remote, Hi|done]].
  destruct H as [_ H]. split; [exact H|]. cbn. intros i p [Hp|Ho]; [|by right].
  left. by apply lookup_delete_Some in Hp as [_ Hp].
Qed.

Lemma ok_remote_setAlias id alias :
  ok (try_ Session.remoteTracks Session.set_remoteTracks (fun m => remoteTrackMap.setAlias m id alias)).
Proof.
  apply ok_try. intros s Hi.
  apply (remote_shrink_wf (fun m => (remoteTrackMap.setAlias m id alias).2)); [done|].
  cbn. unfold remoteTrackMap.setAlias. pose proof (inv_remote s Hi).
  by destruct (_ !! alias).
Qed.

Lemma hoare_remote_add id rt :
  hoare (fun s => remote_id s rt = Some id /\ id < requestIDGenerator.id (Session.requestIDs s))
    (try_ Session.remoteTracks Session.set_remoteTracks (fun m => remoteTrackMap.addPending m id rt))
    (fun _ _ => True).
Proof.
  intros s r s' Hi [Hrt Hlt] H. unfold try_ in H.
  pose proof (remote_addPending (Session.remoteTracks s) id rt (inv_remote s Hi)) as Ha.
  destruct (remoteTrackMap.addPending (Session.remoteTracks s) id rt) as [b m'] eqn:E.
  destruct Ha as (_ & _ & Hwf). injection H as <- <-. split_and!; [|inv_auto|done].
  inv_auto. cbn. intros i p He.
  unfold remoteTrackMap.addPending in E.
  destruct (_ !! id); [injection E as <- <-; by apply inv_remote_ids0|].
  destruct (_ !! id); [injection E as <- <-; by apply inv_remote_ids0|].
  injection E as <- <-. cbn in He. destruct He as [He|He].
  - apply lookup_insert_Some in He as [[<- <-]|[_ He]]; [done|].
    apply inv_remote_ids0. by left.
  - apply inv_remote_ids0. by right.
Qed.

(** ** Channels *)

Lemma ok_make_chan : ok make_chan.
Proof.
  apply ok_step. intros s r s' Hi [= <- <-]. split.
  - inv_auto. cbn. apply Forall_app. split; [done|]. repeat constructor.
  - inv_auto. cbn. rewrite length_app. lia.
Qed.

Lemma ok_send_chan c x : ok (send_chan c x).
Proof.
  apply ok_step. intros s r s' Hi H. unfold send_chan in H.
  destruct (Session.chans s !! c) as [ch|] eqn:E; [|done].
  pose proof (Forall_lookup_1 _ _ _ _ (inv_chans s Hi) E) as Hl. cbn in Hl.
  destruct (chan_send x ch) as [ch' b] eqn:Es. injection H as <- <-.
  assert (length ch' <= 1)%nat as Hl'.
  { unfold chan_send in Es. destruct ch; injection Es as <- <-; [done|exact Hl]. }
  split.
  - inv_auto. cbn. by apply Forall_insert.
  - inv_auto. cbn. by rewrite length_insert.
Qed.

Lemma ok_recv_chan c : ok (recv_chan c).
Proof.
  apply ok_step. intros s r s' Hi H. unfold recv_chan in H.
  destruct (Session.chans s !! c) as [ch|] eqn:E; [|done].
  pose proof (Forall_lookup_1 _ _ _ _ (inv_chans s Hi) E) as Hl. cbn in Hl.
  destruct ch as [|x ch]; cbn in H; injection H as <- <-; [split; [done|apply ext_refl]|].
  split.
  - inv_auto. cbn. apply Forall_insert; [done|]. cbn in Hl. lia.
  - inv_auto. cbn. by rewrite length_insert.
Qed.

End TrackPrimitives.

#[export] Hint Resolve ok_local_confirm ok_local_reject ok_local_delete ok_alloc_local
  ok_remote_confirm ok_remote_reject ok_remote_setAlias ok_make_chan ok_send_chan ok_recv_chan : go.

(** * The functions of the session *)

Ltac ok_auto :=
  repeat match goal with
  | |- ok (gm_bind _ _) => apply ok_bind; [|intros]
  | |- ok (match ?x with _ => _ end) => destruct x
  | |- ok (let x := _ in _) => cbv zeta
  | |- ok _ => solve [eauto with go]
  end.

Ltac keeps_auto :=
  repeat match goal with
  | |- keeps _ (mbind _ _) => apply keeps_bind; [|intros]
  | |- keeps _ (gm_bind _ _) => apply keeps_bind; [|intros]
  | |- keeps _ (match ?x with _ => _ end) => destruct x
  | |- keeps _ (let x := _ in _) => cbv zeta
  | |- keeps _ (modify _) => apply keeps_modify; intros; cbn; done
  | |- keeps _ _ => solve [eauto with go]
  end.

Section Operations.
Context {QV : QuicVarint} {MR : MapRange} {App : Application}.

Lemma keeps_local_id {A} (m : GM localTrack.t A) :
  (forall n, keeps (fun lt => localTrack.requestID lt = n) m) ->
  forall lt r lt', m lt = Ok (r, lt') -> localTrack.requestID lt' = localTrack.requestID lt.
Proof. intros Hm lt r lt' H. by eapply (Hm (localTrack.requestID lt)). Qed.

Lemma keeps_check_open (P : localTrack.t -> Prop) : keeps P localTrack.check_open.
Proof.
  intros s r s' Hs H. unfold localTrack.check_open in H.
  destruct (localTrack.closed s); by injection H as <- <-.
Qed.

Lemma keeps_lift_res {S A} (P : S -> Prop) (m : res A) : keeps P (localTrack.lift_res m).
Proof.
  intros s r s' Hs H. unfold localTrack.lift_res in H.
  destruct m; [..|done|done]; by injection H as <- <-.
Qed.

Lemma keeps_OpenUniStream {S} (P : S -> Prop) operr : keeps P (localTrack.OpenUniStream operr).
Proof. destruct operr; [apply keeps_throw|apply keeps_ret]. Qed.

Hint Resolve keeps_check_open keeps_lift_res keeps_OpenUniStream : go.

Lemma ok_getFetchStream p operr werr : ok (with_local p (localTrack.getFetchStream operr werr)).
Proof.
  apply ok_with_local, keeps_local_id. intros n. unfold localTrack.getFetchStream. keeps_auto.
Qed.

Lemma ok_sendDatagram p o serr : ok (with_local p (localTrack.sendDatagram o serr)).
Proof.
  apply ok_with_local, keeps_local_id. intros n. unfold localTrack.sendDatagram. keeps_auto.
Qed.

Lemma ok_openSubgroup p g sg prio operr werr :
  ok (with_local p (localTrack.openSubgroup g sg prio operr werr)).
Proof.
  apply ok_with_local, keeps_local_id. intros n. unfold localTrack.openSubgroup. keeps_auto.
Qed.

Lemma ok_unsubscribe_local p : ok (unsubscribe_local p).
Proof. apply ok_with_local, keeps_local_id. intros n. keeps_auto. Qed.

Lemma ok_local_requestID p : ok (local_requestID p).
Proof. apply ok_with_local, keeps_local_id. intros n. keeps_auto. Qed.

Lemma ok_local_close p :
  ok (with_local p (fun p => let '(c, p) := localTrack.close p in Ok (Ret c, p))).
Proof.
  apply ok_with_local. intros lt r lt' H. unfold localTrack.close in H. by injection H as <- <-.
Qed.

Hint Resolve ok_getFetchStream ok_sendDatagram ok_openSubgroup ok_unsubscribe_local
  ok_local_requestID ok_local_close : go.

(** Methods of a subscriber's track. *)
Definition keeps_remote {A} (m : GM RemoteTrack.t A) : Prop :=
  forall n, keeps (fun rt => RemoteTrack.requestID rt = n /\ good_remote rt) m.

Lemma ok_with_remote_keeps {A} p (m : GM RemoteTrack.t A) : keeps_remote m -> ok (with_remote p m).
Proof.
  intros Hm. apply ok_with_remote. intros rt r rt' Hg H.
  by apply (Hm (RemoteTrack.requestID rt) rt r rt').
Qed.

Lemma keeps_remote_get {A} (f : RemoteTrack.t -> A) : keeps_remote (get f).
Proof. intros n. keeps_auto. Qed.

Lemma keeps_remote_push o : keeps_remote (modify (RemoteTrack.push o)).
Proof.
  intros n. apply keeps_modify. intros r [Hid [Hb Hr]]. pose proof (push_capacity o r Hb).
  unfold good_remote, RemoteTrack.push in *. by destruct (_ <? _)%nat.
Qed.

Lemma keeps_remote_done st reason : keeps_remote (modify (RemoteTrack.done st reason)).
Proof. intros n. by apply keeps_modify. Qed.

Lemma keeps_remote_readStream msgs : keeps_remote (RemoteTrack.readStream msgs).
Proof.
  intros n rt r rt' (Hid & Hb & Hc) H. unfold RemoteTrack.readStream in H.
  rewrite foldl_push in H by done.
  assert (RemoteTrack.requestID (RemoteTrack.set_buffer rt
    (take buffer_capacity (RemoteTrack.buffer rt ++ map RemoteTrack.object_of msgs.1))) = n /\
    good_remote (RemoteTrack.set_buffer rt
    (take buffer_capacity (RemoteTrack.buffer rt ++ map RemoteTrack.object_of msgs.1)))) as Hg.
  { split; [done|]. split; [|done]. cbn [RemoteTrack.buffer RemoteTrack.set_buffer].
    rewrite length_take. lia. }
  destruct (msgs.2) as [[]|e| |]; [|case_bool_decide|done|done]; by injection H as <- <-.
Qed.

Lemma keeps_remote_subgroup msgs : keeps_remote (RemoteTrack.readSubgroupStream msgs).
Proof.
  intros n. apply keeps_bind; [by apply keeps_modify|intros]. apply keeps_remote_readStream.
Qed.

Lemma keeps_remote_fetch msgs : keeps_remote (RemoteTrack.readFetchStream msgs).
Proof.
  intros n. apply keeps_bind; [by apply keeps_modify|intros]. apply keeps_bind; [eauto with go|].
  intros c. destruct (c >? 1); [eauto with go|]. apply keeps_remote_readStream.
Qed.

Lemma keeps_remote_ReadObject c ctx :
  keeps_remote (fun r =>
    match RemoteTrack.ReadObject c ctx r with
    | None => Ok (Ret None, r)
    | Some (o, e, r) => Ok (Ret (Some (o, e)), r)
    end).
Proof.
  intros n r x r' (Hid & Hb & Hc) H. destruct c; cbn in H.
  - destruct ctx; cbn in H; injection H as <- <-; done.
  - destruct (RemoteTrack.doneCtx r); cbn in H; injection H as <- <-; done.
  - destruct (RemoteTrack.buffer r) as [|o b] eqn:E; injection H as <- <-.
    + by rewrite <- E in Hb.
    + split; [done|]. split; cbn in *; [lia|done].
Qed.

Lemma keeps_remote_recv :
  keeps_remote (fun r => match chan_recv (RemoteTrack.responseChan r) with
                         | None => Ok (Ret None, r)
                         | Some (e, ch) => Ok (Ret (Some e), RemoteTrack.set_responseChan r ch)
                         end).
Proof.
  intros n r x r' (Hid & Hb & Hc) H. destruct (RemoteTrack.responseChan r) as [|e ch] eqn:E; cbn in H.
  - injection H as <- <-. by rewrite <- E in Hc.
  - injection H as <- <-. split; [done|]. split; [done|]. cbn in *. lia.
Qed.

Lemma keeps_remote_send e :
  keeps_remote (fun r => let '(ch, sent) := chan_send e (RemoteTrack.responseChan r) in
                         Ok (Ret sent, RemoteTrack.set_responseChan r ch)).
Proof.
  intros n r x r' (Hid & Hb & Hc) H. destruct (RemoteTrack.responseChan r) as [|e' ch] eqn:E; cbn in H.
  - injection H as <- <-. split; [done|]. split; [done|]. cbn. lia.
  - injection H as <- <-. split; [done|]. split; [done|]. cbn in *. lia.
Qed.

Lemma keeps_remote_set_info e g c l p : keeps_remote (modify (fun r => RemoteTrack.set_info r e g c l p)).
Proof. intros n. by apply keeps_modify. Qed.

Hint Resolve ok_with_remote_keeps keeps_remote_get keeps_remote_push keeps_remote_done
  keeps_remote_subgroup keeps_remote_fetch keeps_remote_recv keeps_remote_send
  keeps_remote_set_info keeps_remote_ReadObject : go.

(** ** Requests *)

Lemma hoare_getRequestID :
  hoare (fun _ => True) getRequestID
    (fun id s => id < requestIDGenerator.id (Session.requestIDs s)).
Proof.
  intros s r s' Hi _ H. unfold getRequestID in H.
  apply gm_bind_Ok in H as [([x err] & s1 & H1 & H2)|(e & H1 & ->)].
  - destruct (ok_requestID_next s _ s1 Hi I H1) as (Hi1 & He1 & _).
    destruct err as [e|].
    + assert (ok (gm_bind (if bool_decide (e = errRequestIDblocked)
        then attempt (write (RequestsBlocked (RequestsBlockedMessage.mk x))) else mret (Ret tt))
        (fun _ => throw e : SM Z))) as Hok by ok_auto.
      destruct (Hok s1 _ _ Hi1 I H2) as (Hi2 & He2 & _).
      split_and!; [done|by eapply ext_trans|]. intros a ->.
      apply gm_bind_Ok in H2 as [(? & ? & _ & H2)|(? & _ & H2)]; done.
    + injection H2 as <- <-. split_and!; [done|done|]. intros a [= <-].
      unfold on in H1. destruct (requestIDGenerator.next (Session.requestIDs s)) as [[y err] g] eqn:E.
      injection H1 as <- -> <-. cbn.
      unfold requestIDGenerator.next in E.
      destruct (Z.geb_spec (requestIDGenerator.id (Session.requestIDs s))
                  (requestIDGenerator.max (Session.requestIDs s))) as [Hb|Hb]; [done|].
      injection E as <- <-. cbn. destruct (requestID_parity_step s Hi ltac:(lia)) as (-> & _). lia.
  - destruct (ok_requestID_next s _ s' Hi I H1) as (Hi1 & He1 & _). split_and!; done.
Qed.

Lemma ok_getRequestID : ok getRequestID.
Proof. eapply hoare_conseq; [| |apply hoare_getRequestID]; done. Qed.

Hint Resolve ok_getRequestID : go.

Lemma stable_id id : stable (fun s => id < requestIDGenerator.id (Session.requestIDs s)).
Proof. intros s s' He H. pose proof (ext_id _ _ He). lia. Qed.

(** The part of Subscribe and Fetch that registers the track. *)
Lemma ok_new_remote {A} f u (k : Z -> nat -> SM A) :
  (forall id rt, ok (k id rt)) ->
  ok (requestID <- getRequestID;
      rt <- alloc_remote (RemoteTrack.newRemoteTrack requestID f u);
      _ <- try_ Session.remoteTracks Session.set_remoteTracks
             (fun m => remoteTrackMap.addPending m requestID rt);
      k requestID rt).
Proof.
  intros Hk. eapply hoare_bind; [apply hoare_getRequestID|]. intros id. cbn beta.
  eapply hoare_bind.
  { apply hoare_alloc_remote; [apply stable_id|]. split; cbn; lia. }
  intros rt. cbn beta. eapply hoare_bind; [apply hoare_remote_add|]. intros []. apply Hk.
Qed.

Lemma ok_unsubscribe id : ok (unsubscribe id).
Proof. unfold unsubscribe. ok_auto. Qed.
Lemma ok_fetchCancel id : ok (fetchCancel id).
Proof. unfold fetchCancel. ok_auto. Qed.

Hint Resolve ok_unsubscribe ok_fetchCancel : go.

Lemma ok_RemoteTrack_Close rt : ok (RemoteTrack_Close rt).
Proof. unfold RemoteTrack_Close. ok_auto. Qed.

Lemma ok_RemoteTrack_ReadObject rt c ctx : ok (RemoteTrack_ReadObject rt c ctx).
Proof. unfold RemoteTrack_ReadObject. ok_auto. Qed.

Lemma ok_await_track rt ctx : ok (await_track rt ctx).
Proof. unfold await_track. ok_auto. Qed.

Lemma ok_await_err ch ctx : ok (await_err ch ctx).
Proof. unfold await_err. ok_auto. Qed.

Hint Resolve ok_RemoteTrack_Close ok_await_track ok_await_err : go.

Lemma ok_Subscribe_send ns name opts : ok (Subscribe_send ns name opts).
Proof. apply (ok_new_remote Unsubscribes true). intros id rt. ok_auto. Qed.
Lemma ok_Subscribe_wait rt ctx : ok (Subscribe_wait rt ctx).
Proof. unfold Subscribe_wait. ok_auto. Qed.
Lemma ok_UpdateSubscription id opts : ok (UpdateSubscription id opts).
Proof. unfold UpdateSubscription. ok_auto. Qed.
Hint Resolve ok_UpdateSubscription : go.
Lemma ok_RemoteTrack_UpdateSubscription rt opts : ok (RemoteTrack_UpdateSubscription rt opts).
Proof. unfold RemoteTrack_UpdateSubscription. ok_auto. Qed.
Lemma ok_acceptSubscription id opts : ok (acceptSubscriptionWithOptions id opts).
Proof. unfold acceptSubscriptionWithOptions. ok_auto. Qed.
Lemma ok_rejectSubscription id c r : ok (rejectSubscription id c r).
Proof. unfold rejectSubscription. ok_auto. Qed.
Lemma ok_subscriptionDone id c n r : ok (subscriptionDone id c n r).
Proof. unfold subscriptionDone. ok_auto. Qed.
Hint Resolve ok_acceptSubscription ok_rejectSubscription ok_subscriptionDone : go.
Lemma ok_localTrack_close lt c r : ok (localTrack_close lt c r).
Proof. unfold localTrack_close. ok_auto. Qed.
Lemma ok_Fetch_send ns name : ok (Fetch_send ns name).
Proof. apply (ok_new_remote CancelsFetch false). intros id rt. ok_auto. Qed.
Lemma ok_Fetch_wait rt ctx : ok (Fetch_wait rt ctx).
Proof. unfold Fetch_wait. ok_auto. Qed.
Lemma ok_acceptFetch id : ok (acceptFetch id).
Proof. unfold acceptFetch. ok_auto. Qed.
Lemma ok_rejectFetch id c r : ok (rejectFetch id c r).
Proof. unfold rejectFetch. ok_auto. Qed.
Lemma ok_RequestTrackStatus_send ns name : ok (RequestTrackStatus_send ns name).
Proof. unfold RequestTrackStatus_send. ok_auto. Qed.
Lemma ok_RequestTrackStatus_wait tsr ctx : ok (RequestTrackStatus_wait tsr ctx).
Proof. unfold RequestTrackStatus_wait. ok_auto. Qed.
Lemma ok_sendTrackStatus ts : ok (sendTrackStatus ts).
Proof. unfold sendTrackStatus. ok_auto. Qed.
Lemma ok_Announce_send ns : ok (Announce_send ns).
Proof. unfold Announce_send. ok_auto. Qed.
Lemma ok_Announce_wait a ctx : ok (Announce_wait a ctx).
Proof. unfold Announce_wait. ok_auto. Qed.
Lemma ok_acceptAnnouncement id : ok (acceptAnnouncement id).
Proof. unfold acceptAnnouncement. ok_auto. Qed.
Lemma ok_rejectAnnouncement id c r : ok (rejectAnnouncement id c r).
Proof. unfold rejectAnnouncement. ok_auto. Qed.
Lemma ok_Unannounce ns : ok (Unannounce ns).
Proof. unfold Unannounce. ok_auto. Qed.
Lemma ok_AnnounceCancel ns c r : ok (AnnounceCancel ns c r).
Proof. unfold AnnounceCancel. ok_auto. Qed.
Lemma ok_SubscribeAnnouncements_send p : ok (SubscribeAnnouncements_send p).
Proof. unfold SubscribeAnnouncements_send. ok_auto. Qed.
Lemma ok_SubscribeAnnouncements_wait a ctx : ok (SubscribeAnnouncements_wait a ctx).
Proof. unfold SubscribeAnnouncements_wait. ok_auto. Qed.
Lemma ok_acceptAnnouncementSubscription id : ok (acceptAnnouncementSubscription id).
Proof. unfold acceptAnnouncementSubscription. ok_auto. Qed.
Lemma ok_rejectAnnouncementSubscription id c r : ok (rejectAnnouncementSubscription id c r).
Proof. unfold rejectAnnouncementSubscription. ok_auto. Qed.
Lemma ok_UnsubscribeAnnouncements ns : ok (UnsubscribeAnnouncements ns).
Proof. unfold UnsubscribeAnnouncements. ok_auto. Qed.
Lemma ok_sendClientSetup : ok sendClientSetup.
Proof. unfold sendClientSetup. ok_auto. Qed.

Hint Resolve ok_localTrack_close ok_acceptFetch ok_rejectFetch ok_sendTrackStatus
  ok_acceptAnnouncement ok_rejectAnnouncement ok_acceptAnnouncementSubscription
  ok_rejectAnnouncementSubscription : go.

(** ** Handlers *)

Lemma ok_run_handler {A W} (exec : A -> W -> SM (option error * W)) p w :
  (forall a w, ok (exec a w)) -> ok (run_handler exec p w).
Proof.
  intros He. revert w. induction p as [|a k IH]; intros w; cbn [run_handler]; [ok_auto|].
  apply ok_bind; [apply He|]. intros [e w']. apply IH.
Qed.

Lemma ok_try_call m : ok m -> ok (try_call m).
Proof. intros H. unfold try_call. ok_auto. Qed.

Lemma ok_try_local {A} lt (m : GM localTrack.t A) : ok (with_local lt m) -> ok (try_local lt m).
Proof. intros H. unfold try_local. ok_auto. Qed.

Hint Resolve ok_try_call ok_try_local : go.

Lemma ok_Accept options w : ok (SubscribeResponseWriter_Accept options w).
Proof. unfold SubscribeResponseWriter_Accept. ok_auto. Qed.
Lemma ok_Reject code reason w : ok (SubscribeResponseWriter_Reject code reason w).
Proof. unfold SubscribeResponseWriter_Reject. ok_auto. Qed.
Hint Resolve ok_Accept ok_Reject : go.

Lemma ok_subscribe_exec a w : ok (subscribe_exec a w).
Proof. unfold subscribe_exec. ok_auto. Qed.
Lemma ok_announcement_exec id a h : ok (announcement_exec id a h).
Proof. unfold announcement_exec. ok_auto. Qed.
Lemma ok_announcementSubscription_exec id a h : ok (announcementSubscription_exec id a h).
Proof. unfold announcementSubscription_exec. ok_auto. Qed.
Lemma ok_fetch_exec id lt a h : ok (fetch_exec id lt a h).
Proof. unfold fetch_exec. ok_auto. Qed.
Lemma ok_trackStatus_Reject w : ok (trackStatus_Reject w).
Proof. unfold trackStatus_Reject, trackStatus_Accept. ok_auto. Qed.

Lemma ok_trackStatus_exec a w : ok (trackStatus_exec a w).
Proof. unfold trackStatus_exec, trackStatus_Reject, trackStatus_Accept. ok_auto. Qed.
Lemma ok_nil_exec a w : ok (nil_exec a w).
Proof. apply ok_panic. Qed.

Hint Resolve ok_subscribe_exec ok_announcement_exec ok_announcementSubscription_exec
  ok_fetch_exec ok_trackStatus_exec ok_trackStatus_Reject ok_nil_exec : go.

Lemma ok_Handle {W} (exec : rw_call -> W -> SM (option error * W)) w m :
  (forall a w, ok (exec a w)) -> ok (Handle exec w m).
Proof. intros H. unfold Handle. destruct Handler; [by apply ok_run_handler|ok_auto]. Qed.

Lemma ok_reject_unhandled {W} h (r : SM (option error * W)) : ok r -> ok (reject_unhandled h r).
Proof. intros H. unfold reject_unhandled. ok_auto. Qed.

Hint Resolve ok_run_handler ok_Handle ok_reject_unhandled : go.

(** ** Received messages *)

Lemma stable_local_id lt id : stable (fun s => local_id s lt = Some id).
Proof. intros s s' He H. by apply (ext_local _ _ He). Qed.

Lemma hoare_addLocalTrack id lt :
  hoare (fun s => local_id s lt = Some id) (addLocalTrack id lt) (fun _ _ => True).
Proof.
  pose proof (stable_local_id lt id) as HF. unfold addLocalTrack.
  apply (hoare_bind_ok (fun s => local_id s lt = Some id)); [done|ok_auto|]. intros max.
  destruct (id >=? max); [apply hoare_ok; ok_auto|].
  apply (hoare_bind_ok (fun s => local_id s lt = Some id)); [done|ok_auto|]. intros _.
  eapply hoare_bind; [apply hoare_local_add|]. intros b. apply hoare_ok. ok_auto.
Qed.

(** The registration of a track by onSubscribe and onFetch. *)
Lemma ok_new_local {A} id alias d (k : nat -> ret unit -> SM A) :
  (forall lt r, ok (k lt r)) ->
  ok (lt <- alloc_local (localTrack.newLocalTrack id alias d);
      r <- attempt (addLocalTrack id lt);
      k lt r).
Proof.
  intros Hk. eapply hoare_bind; [apply hoare_alloc_local|]. intros lt. cbn beta.
  eapply hoare_bind; [apply hoare_attempt, hoare_addLocalTrack|]. intros r.
  apply hoare_ok, Hk.
Qed.

Lemma ok_onSubscribe m : ok (onSubscribe m).
Proof.
  unfold onSubscribe. apply ok_bind; [ok_auto|]. intros auth.
  destruct (negb _); [ok_auto|]. cbv zeta.
  apply ok_bind; [ok_auto|]. intros alias. apply ok_new_local. intros lt r. ok_auto.
Qed.

Lemma ok_onFetch m : ok (onFetch m).
Proof.
  unfold onFetch. destruct (negb _); [ok_auto|]. cbv zeta.
  apply ok_bind; [ok_auto|]. intros alias. apply ok_new_local. intros lt r. ok_auto.
Qed.

Lemma ok_respond rt e m : ok m -> ok (respond rt e m).
Proof. intros H. unfold respond. ok_auto. Qed.

Lemma ok_confirm_remote id : ok (confirm_remote id).
Proof. unfold confirm_remote. ok_auto. Qed.
Lemma ok_reject_remote id : ok (reject_remote id).
Proof. unfold reject_remote. ok_auto. Qed.
Lemma ok_close_unhandled rt : ok (close_unhandled rt).
Proof. unfold close_unhandled. ok_auto. Qed.
Lemma ok_respond_subscription a e : ok (respond_subscription a e).
Proof. unfold respond_subscription. ok_auto. Qed.

Hint Resolve ok_respond ok_confirm_remote ok_reject_remote ok_close_unhandled
  ok_respond_subscription ok_onSubscribe ok_onFetch : go.

(** *** The handshake *)

Definition supported (s : Session.t) : Prop := Session.version s ∈ SupportedVersions.

Lemma stable_supported : stable supported.
Proof. intros s s' He. apply (ext_version _ _ He). Qed.

Lemma hoare_set_version v :
  v ∈ SupportedVersions ->
  hoare (fun _ => True) (modify (Session.set_version v)) (fun _ s => supported s).
Proof.
  intros Hv s r s' Hi _ [= <- <-]. split_and!; [|inv_auto|done]. inv_auto.
  cbn. intros Hd. split; [by apply inv_done0|done].
Qed.

Lemma hoare_close_ch :
  hoare supported close_handshakeDoneCh
    (fun _ s => supported s /\ Session.handshakeDoneCh s = true).
Proof.
  intros s r s' Hi Hs H. unfold close_handshakeDoneCh, gm_bind, get in H.
  destruct (Session.handshakeDoneCh s) eqn:E; [done|]. injection H as <- <-.
  split_and!; [|inv_auto|done]. inv_auto. cbn. intros Hd. split; [done|]. by apply inv_done0.
Qed.

Lemma hoare_set_done :
  hoare (fun s => supported s /\ Session.handshakeDoneCh s = true)
    (modify (Session.set_handshakeDone true)) (fun _ _ => True).
Proof.
  intros s r s' Hi [Hs Hc] [= <- <-]. split_and!; [|inv_auto|done]. inv_auto. cbn. intros _. done.
Qed.

Lemma hoare_finish :
  hoare supported (_ <- close_handshakeDoneCh; modify (Session.set_handshakeDone true))
    (fun _ _ => True).
Proof. eapply hoare_bind; [apply hoare_close_ch|]. intros []. apply hoare_set_done. Qed.

Lemma ok_onClientSetup m :
  getMaxRequestIDParameter (ClientSetupMessage.SetupParameters m) <= maxVarInt ->
  ok (onClientSetup m).
Proof.
  intros Hmax. unfold onClientSetup. do 2 (apply ok_bind; [ok_auto|intros ?]).
  destruct (negb _); [ok_auto|].
  destruct (find_first _ _) as [[i v]|] eqn:E; [|ok_auto].
  apply find_first_Some in E as [Hv _].
  eapply hoare_bind; [by apply hoare_set_version|]. intros []. cbv zeta beta.
  do 2 (apply (hoare_bind_ok supported); [apply stable_supported|ok_auto|intros ?]).
  apply (hoare_bind_ok supported); [apply stable_supported| |intros ?].
  { destruct (_ >? 0); [by apply ok_setMax|ok_auto]. }
  apply (hoare_bind_ok supported); [apply stable_supported|ok_auto|intros ?].
  apply hoare_finish.
Qed.

Lemma ok_onServerSetup m :
  getMaxRequestIDParameter (ServerSetupMessage.SetupParameters m) <= maxVarInt ->
  ok (onServerSetup m).
Proof.
  intros Hmax. unfold onServerSetup. apply ok_bind; [ok_auto|intros ?].
  destruct (negb _); [ok_auto|]. destruct (negb _) eqn:E; [ok_auto|].
  apply negb_false_iff, bool_decide_eq_true in E.
  eapply hoare_bind; [by apply hoare_set_version|]. intros [].
  apply (hoare_bind_ok supported); [apply stable_supported|by apply ok_setMax|intros ?].
  apply hoare_finish.
Qed.

Lemma ok_receive msg : in_range msg -> ok (receive msg).
Proof.
  intros (_ & [_ Hmax] & _). unfold receive. apply ok_bind; [ok_auto|]. intros ready.
  destruct (negb ready); destruct msg as [m|m|m|m|m|m|m|m|m|m|m|m|m|m|m|m|m|m|m|m|m|m|m|m|m|m|m|m|m];
    try apply ok_throw; cbn in Hmax;
    try (by apply ok_onClientSetup); try (by apply ok_onServerSetup); try (by apply ok_setMax);
    unfold onGoAway, onRequestsBlocked, onSubscribeOk, onSubscribeError, onSubscribeUpdate,
      onUnsubscribe, onSubscribeDone, onFetchOk, onFetchError, onFetchCancel, onTrackStatusRequest,
      onTrackStatus, onAnnounce, onAnnounceOk,
      onAnnounceError, onUnannounce, onAnnounceCancel, onSubscribeAnnounces, onSubscribeAnnouncesOk,
      onSubscribeAnnouncesError, onUnsubscribeAnnounces; ok_auto.
Qed.

Lemma ok_Run_start : ok Run_start.
Proof. unfold Run_start, sendClientSetup. ok_auto. Qed.

Lemma ok_handleUniStream p msgs : ok (handleUniStream p msgs).
Proof. unfold handleUniStream, readFetchStream, readSubgroupStream. ok_auto. Qed.

Lemma ok_receiveDatagram msg : ok (receiveDatagram msg).
Proof. unfold receiveDatagram. ok_auto. Qed.

Lemma inv_new_session p proto path init ws :
  inv (Session.set_writes ws (new_session p proto path init)).
Proof.
  constructor; cbn; try done.
  - by intros id q [H|H].
  - by intros id q [H|H].
  - by destruct p.
  - by destruct p.
  - by exists [].
Qed.

End Operations.

#[export] Hint Resolve ok_Subscribe_send ok_Subscribe_wait ok_UpdateSubscription
  ok_RemoteTrack_UpdateSubscription ok_RemoteTrack_Close ok_RemoteTrack_ReadObject ok_Fetch_send
  ok_Fetch_wait ok_RequestTrackStatus_send ok_RequestTrackStatus_wait ok_Announce_send
  ok_Announce_wait ok_Unannounce ok_AnnounceCancel ok_SubscribeAnnouncements_send
  ok_SubscribeAnnouncements_wait ok_UnsubscribeAnnouncements ok_subscribe_exec
  ok_announcement_exec ok_announcementSubscription_exec ok_fetch_exec ok_trackStatus_exec
  ok_receive ok_handleUniStream ok_receiveDatagram ok_Run_start : go.
