(* ===== verification/SessionSafety.v ===== *)
(** The executions of a session, and what holds in all of them.

    A session is driven by events: calls of the application (on the session, its
    tracks and the response writers it was given, also after the handler has
    returned), messages on the control stream, data streams and datagrams.  An
    event runs to its end before the next one starts; a call that waits is two
    events.  [reachable] closes the initial states under events, whatever the
    transport answers and whatever a peer sends (the parsers deliver messages
    that are [in_range], ParserSafety.v). *)

From stdpp Require Import sets.
From S2P Require Import Prelude VarInt Codec WireTypes Messages ControlMessages Objects Params.
From S2P Require Import ParserSafety Errors State RequestID TrackMaps Tracks Announcements.
From S2P Require Import SessionState Session SessionInv.
Local Open Scope Z_scope.
Local Open Scope go_scope.

(** * Events *)

Inductive call :=
  | CallSubscribe (namespace : Tuple.t) (name : gostring) (options : list SubscribeOption)
  | CallSubscribeWait (rt : nat) (ctx : option error)
  | CallUpdateSubscription (id : Z) (options : list SubscribeUpdateOption)
  | CallTrackUpdate (rt : nat) (options : list SubscribeUpdateOption)
  | CallReadObject (rt : nat) (c : RemoteTrack.read_case) (ctx : option error)
  | CallTrackClose (rt : nat)
  | CallFetch (namespace : Tuple.t) (track : gostring)
  | CallFetchWait (rt : nat) (ctx : option error)
  | CallRequestTrackStatus (namespace : Tuple.t) (track : gostring)
  | CallTrackStatusWait (tsr : trackStatusRequest.t) (ctx : option error)
  | CallAnnounce (namespace : Tuple.t)
  | CallAnnounceWait (a : announcement.t) (ctx : option error)
  | CallUnannounce (namespace : Tuple.t)
  | CallAnnounceCancel (namespace : Tuple.t) (code : Z) (reason : gostring)
  | CallSubscribeAnnouncements (prefix : Tuple.t)
  | CallSubscribeAnnouncementsWait (a : announcementSubscription.t) (ctx : option error)
  | CallUnsubscribeAnnouncements (namespace : Tuple.t)
  | CallSubscribeWriter (c : subscribe_call) (w : SubscribeResponseWriter.t)
  | CallAnnouncementWriter (id : Z) (c : rw_call)
  | CallAnnouncementSubscriptionWriter (id : Z) (c : rw_call)
  | CallFetchWriter (id : Z) (lt : nat) (c : rw_call)
  | CallTrackStatusWriter (c : rw_call) (w : TrackStatus.t * bool).

Inductive event :=
  | Starts
  | Calls (c : call)
  | Receives (msg : ControlMessage)
  | ReceivesStream (p : ObjectStreamParser.t) (msgs : list ObjectMessage.t * res unit)
  | ReceivesDatagram (msg : ObjectDatagramMessage.t).

Definition valid_event (e : event) : Prop :=
  match e with
  | Receives msg => in_range msg
  | _ => True
  end.

Section Executions.
Context {QV : QuicVarint} {MR : MapRange} {App : Application}.

Definition ignore {A} (m : SM A) : SM unit := _ <- m; mret tt.

Definition run_call (c : call) : SM unit :=
  match c with
  | CallSubscribe ns name opts => ignore (Subscribe_send ns name opts)
  | CallSubscribeWait rt ctx => ignore (Subscribe_wait rt ctx)
  | CallUpdateSubscription id opts => UpdateSubscription id opts
  | CallTrackUpdate rt opts => RemoteTrack_UpdateSubscription rt opts
  | CallReadObject rt c ctx => ignore (RemoteTrack_ReadObject rt c ctx)
  | CallTrackClose rt => RemoteTrack_Close rt
  | CallFetch ns track => ignore (Fetch_send ns track)
  | CallFetchWait rt ctx => ignore (Fetch_wait rt ctx)
  | CallRequestTrackStatus ns track => ignore (RequestTrackStatus_send ns track)
  | CallTrackStatusWait tsr ctx => ignore (RequestTrackStatus_wait tsr ctx)
  | CallAnnounce ns => ignore (Announce_send ns)
  | CallAnnounceWait a ctx => ignore (Announce_wait a ctx)
  | CallUnannounce ns => Unannounce ns
  | CallAnnounceCancel ns code reason => AnnounceCancel ns code reason
  | CallSubscribeAnnouncements p => ignore (SubscribeAnnouncements_send p)
  | CallSubscribeAnnouncementsWait a ctx => ignore (SubscribeAnnouncements_wait a ctx)
  | CallUnsubscribeAnnouncements ns => UnsubscribeAnnouncements ns
  | CallSubscribeWriter c w => ignore (subscribe_exec c w)
  | CallAnnouncementWriter id c => ignore (announcement_exec id c false)
  | CallAnnouncementSubscriptionWriter id c => ignore (announcementSubscription_exec id c false)
  | CallFetchWriter id lt c => ignore (fetch_exec id lt c false)
  | CallTrackStatusWriter c w => ignore (trackStatus_exec c w)
  end.

Definition run_event (e : event) : SM unit :=
  match e with
  | Starts => Run_start
  | Calls c => run_call c
  | Receives msg => receive msg
  | ReceivesStream p msgs => handleUniStream p msgs
  | ReceivesDatagram msg => receiveDatagram msg
  end.

(** An event that does not panic leads to a state, whether it failed or not. *)
Inductive step (s s' : Session.t) : Prop :=
  | step_event e r : valid_event e -> run_event e s = Ok (r, s') -> step s s'.

Inductive reachable (p : Perspective) : Session.t -> Prop :=
  | reachable_new proto path init ws :
      reachable p (Session.set_writes ws (new_session p proto path init))
  | reachable_step s s' : reachable p s -> step s s' -> reachable p s'.

(** A run of events, up to the first panic. *)
Fixpoint run_events (es : list event) (s : Session.t) : res Session.t :=
  match es with
  | [] => Ok s
  | e :: es =>
      match run_event e s with
      | Ok (_, s) => run_events es s
      | Err e => Err e
      | Panic => Panic
      | NoFuel => NoFuel
      end
  end.

Lemma run_events_reachable p es s s' :
  reachable p s -> Forall valid_event es -> run_events es s = Ok s' -> reachable p s'.
Proof.
  intros Hr Hes. revert s Hr. induction Hes as [|e es He Hes IH]; intros s Hr H; cbn in H.
  - by injection H as <-.
  - destruct (run_event e s) as [[r s1]| | |] eqn:E; [|done..].
    apply (IH s1); [|done]. eapply reachable_step; [exact Hr|]. by econstructor.
Qed.

Lemma ok_ignore {A} (m : SM A) : ok m -> ok (ignore m).
Proof. intros Hm. unfold ignore. ok_auto. Qed.

Hint Resolve ok_ignore : go.

Lemma ok_run_event e : valid_event e -> ok (run_event e).
Proof.
  intros He. destruct e as [|c|msg|p msgs|msg]; cbn [run_event]; try (by eauto with go).
  destruct c; cbn [run_call]; eauto with go.
Qed.

Lemma step_ext s s' : inv s -> step s s' -> inv s' /\ ext s s'.
Proof. intros Hi [e r He H]. by destruct (ok_run_event e He s r s' Hi I H) as (? & ? & _). Qed.

Lemma reachable_inv p s : reachable p s -> inv s /\ Session.perspective s = p.
Proof.
  induction 1 as [proto path init ws|s s' Hr [IH Hp] Hs]; [by split; [apply inv_new_session|]|].
  destruct (step_ext _ _ IH Hs) as [Hi He]. split; [done|]. by rewrite (ext_perspective _ _ He).
Qed.

End Executions.

(** * What a session writes

    [emits l m]: [m] hands out no request ID, and writes either no request at
    all or exactly one request for each ID of [l].  A TRACK_STATUS_REQUEST is
    none of these requests: RequestTrackStatus files it under a fresh ID and
    writes it with the ID 0 (session.go). *)

(** The IDs of the SUBSCRIBE, FETCH, ANNOUNCE and SUBSCRIBE_ANNOUNCES messages a
    session has written. *)
Definition request_ids (s : Session.t) : list Z := omap request_id (Session.written s).

Definition status_request_zero (msg : ControlMessage) : Prop :=
  match msg with
  | TrackStatusRequest m => TrackStatusRequestMessage.RequestID m = 0
  | _ => True
  end.

Definition status_requests_zero (s : Session.t) : Prop :=
  Forall status_request_zero (Session.written s).

Definition next_id (s : Session.t) : Z := requestIDGenerator.id (Session.requestIDs s).

Definition emits {A} (l : list Z) (m : SM A) : Prop :=
  forall s r s', m s = Ok (r, s') ->
    next_id s' = next_id s /\
    (request_ids s' = request_ids s \/ request_ids s' = request_ids s ++ l) /\
    (status_requests_zero s -> status_requests_zero s').

Lemma emits_bind {A B} l (m : SM A) (k : A -> SM B) :
  emits [] m -> (forall a, emits l (k a)) -> emits l (gm_bind m k).
Proof.
  intros Hm Hk s r s' H. apply gm_bind_Ok in H as [(a & s1 & H1 & H2)|(e & H1 & ->)].
  - destruct (Hm _ _ _ H1) as (Hn1 & Hw1 & Hz1). destruct (Hk _ _ _ _ H2) as (Hn2 & Hw2 & Hz2).
    rewrite app_nil_r in Hw1. assert (request_ids s1 = request_ids s) as Hw by tauto.
    rewrite Hn2, Hn1, <- Hw. auto.
  - destruct (Hm _ _ _ H1) as (Hn1 & Hw1 & Hz1). rewrite app_nil_r in Hw1. split; [done|]. tauto.
Qed.

Lemma emits_bind_silent {A B} l (m : SM A) (k : A -> SM B) :
  emits l m -> (forall a, emits [] (k a)) -> emits l (gm_bind m k).
Proof.
  intros Hm Hk s r s' H. apply gm_bind_Ok in H as [(a & s1 & H1 & H2)|(e & H1 & ->)].
  - destruct (Hm _ _ _ H1) as (Hn1 & Hw1 & Hz1). destruct (Hk _ _ _ _ H2) as (Hn2 & Hw2 & Hz2).
    rewrite app_nil_r in Hw2. assert (request_ids s' = request_ids s1) as -> by tauto.
    rewrite Hn2, Hn1. auto.
  - by apply Hm in H1.
Qed.

Lemma emits_weaken {A} l (m : SM A) : emits [] m -> emits l m.
Proof.
  intros Hm s r s' H. destruct (Hm _ _ _ H) as (Hn & Hw & Hz). rewrite app_nil_r in Hw. split; [done|]. tauto.
Qed.

Lemma emits_attempt {A} l (m : SM A) : emits l m -> emits l (attempt m).
Proof.
  intros Hm s r s' H. unfold attempt in H. destruct (m s) as [[r1 s1]| | |] eqn:E; [|done..].
  injection H as <- <-. by eapply Hm.
Qed.

(** A state change outside of the generator and the stream. *)
Ltac emits_frame :=
  intros s r s' H; cbv [mret GM_ret gm_ret throw panic get modify of_option try_ on alloc_local
    alloc_remote make_chan with_local with_remote send_chan recv_chan localTrack.lift_res] in H;
  repeat case_match; try discriminate; simplify_eq/=; by auto.

Lemma emits_ret {A} (a : A) : emits [] (mret a).
Proof. emits_frame. Qed.
Lemma emits_throw {A} e : emits [] (throw e : SM A).
Proof. emits_frame. Qed.
Lemma emits_panic {A} : emits [] (panic : SM A).
Proof. emits_frame. Qed.
Lemma emits_get {A} (f : Session.t -> A) : emits [] (get f).
Proof. emits_frame. Qed.
Lemma emits_of_option {A} (o : option A) e : emits [] (of_option o e : SM A).
Proof. destruct o; [apply emits_ret|apply emits_throw]. Qed.
Lemma emits_lift_res {A} (m : res A) : emits [] (localTrack.lift_res m : SM A).
Proof. emits_frame. Qed.
Lemma emits_alloc_local lt : emits [] (alloc_local lt).
Proof. emits_frame. Qed.
Lemma emits_alloc_remote rt : emits [] (alloc_remote rt).
Proof. emits_frame. Qed.
Lemma emits_make_chan : emits [] make_chan.
Proof. emits_frame. Qed.
Lemma emits_with_local {A} p (m : GM localTrack.t A) : emits [] (with_local p m).
Proof. emits_frame. Qed.
Lemma emits_with_remote {A} p (m : GM RemoteTrack.t A) : emits [] (with_remote p m).
Proof. emits_frame. Qed.
Lemma emits_send_chan c x : emits [] (send_chan c x).
Proof. emits_frame. Qed.
Lemma emits_recv_chan c : emits [] (recv_chan c).
Proof. emits_frame. Qed.

(** Updates of the parts of the state that requests do not live in. *)
Definition silent_update {F} (upd : F -> Session.t -> Session.t) : Prop :=
  forall x s, Session.written (upd x s) = Session.written s /\
              Session.requestIDs (upd x s) = Session.requestIDs s.

Lemma emits_on {F A} (proj : Session.t -> F) upd (f : F -> A * F) :
  silent_update upd -> emits [] (on proj upd f).
Proof.
  intros Hu s r s' H. unfold on in H. destruct (f (proj s)) as [a x]. injection H as <- <-.
  unfold next_id, request_ids, status_requests_zero. destruct (Hu x s) as [-> ->]. auto.
Qed.

Lemma emits_try {F} (proj : Session.t -> F) upd (f : F -> option error * F) :
  silent_update upd -> emits [] (try_ proj upd f).
Proof.
  intros Hu s r s' H. unfold try_ in H. destruct (f (proj s)) as [a x]. injection H as <- <-.
  unfold next_id, request_ids, status_requests_zero. destruct (Hu x s) as [-> ->]. auto.
Qed.

Lemma emits_modify f :
  (forall s, Session.written (f s) = Session.written s /\
             Session.requestIDs (f s) = Session.requestIDs s) -> emits [] (modify f).
Proof.
  intros Hf s r s' [= <- <-]. unfold next_id, request_ids, status_requests_zero. destruct (Hf s) as [-> ->]. auto.
Qed.

Lemma emits_setMax v :
  emits [] (try_ Session.requestIDs Session.set_requestIDs (fun g => requestIDGenerator.setMax g v)).
Proof.
  intros s r s' H. unfold try_, requestIDGenerator.setMax in H.
  destruct (_ <? _); injection H as <- <-; auto.
Qed.

Create HintDb emits.
#[export] Hint Resolve emits_attempt emits_ret emits_throw emits_panic emits_get emits_of_option
  emits_lift_res emits_alloc_local emits_alloc_remote emits_make_chan emits_with_local
  emits_with_remote emits_send_chan emits_recv_chan emits_setMax : emits.

Section Emits.
Context {QV : QuicVarint} {MR : MapRange} {App : Application}.

Lemma emits_write msg : status_request_zero msg -> emits (option_list (request_id msg)) (write msg).
Proof.
  intros Hz s r s' H. unfold write in H. destruct (compileMessage msg); [|by injection H as <- <-; auto|done..].
  assert (Forall status_request_zero (Session.written s) ->
    Forall status_request_zero (Session.written s ++ [msg])) as Hall
    by (intros ?; apply Forall_app; split; [done|by apply Forall_singleton]).
  unfold request_ids, next_id, status_requests_zero.
  destruct (Session.writes s) as [|[e|] ws]; injection H as <- <-; cbn; split_and!; try done; auto;
    right; rewrite omap_app; f_equal; cbn; by destruct (request_id msg).
Qed.

Lemma emits_write_silent msg :
  request_id msg = None -> status_request_zero msg -> emits [] (write msg).
Proof. intros H Hz. pose proof (emits_write msg Hz) as Hw. by rewrite H in Hw. Qed.

End Emits.

#[export] Hint Extern 2 (emits [] (write _)) => (apply emits_write_silent; solve [reflexivity|exact I]) : emits.
#[export] Hint Extern 2 (emits [] (on _ _ _)) => (apply emits_on; intros ? ?; by split) : emits.
#[export] Hint Extern 3 (emits [] (try_ _ _ _)) => (apply emits_try; intros ? ?; by split) : emits.
#[export] Hint Extern 2 (emits [] (modify _)) => (apply emits_modify; intros ?; by split) : emits.

Ltac emits_auto :=
  repeat match goal with
  | |- emits _ (gm_bind _ _) => apply emits_bind; [|intros]
  | |- emits _ (match ?x with _ => _ end) => destruct x
  | |- emits _ (let x := _ in _) => cbv zeta
  | |- emits _ _ => solve [eauto with emits]
  end.

Section EmitsOperations.
Context {QV : QuicVarint} {MR : MapRange} {App : Application}.

(** ** Calls that write no request *)

Lemma emits_ignore {A} l (m : SM A) : emits l m -> emits l (ignore m).
Proof. intros Hm. apply emits_bind_silent; [done|]. intros. apply emits_ret. Qed.

Lemma emits_addLocalTrack id lt : emits [] (addLocalTrack id lt).
Proof. unfold addLocalTrack. emits_auto. Qed.
Lemma emits_close rt : emits [] (RemoteTrack_Close rt).
Proof. unfold RemoteTrack_Close, unsubscribe, fetchCancel. emits_auto. Qed.
Hint Resolve emits_addLocalTrack emits_close : emits.

Lemma emits_await_track rt ctx : emits [] (await_track rt ctx).
Proof. unfold await_track. emits_auto. Qed.
Lemma emits_await_err ch ctx : emits [] (await_err ch ctx).
Proof. unfold await_err. emits_auto. Qed.
Lemma emits_local_requestID lt : emits [] (local_requestID lt).
Proof. unfold local_requestID. emits_auto. Qed.
Lemma emits_UpdateSubscription id opts : emits [] (UpdateSubscription id opts).
Proof. unfold UpdateSubscription. emits_auto. Qed.
Hint Resolve emits_await_track emits_await_err emits_local_requestID emits_UpdateSubscription : emits.

Lemma emits_try_call m : emits [] m -> emits [] (try_call m).
Proof. intros Hm. unfold try_call. emits_auto. Qed.
Lemma emits_try_local {A} lt (m : GM localTrack.t A) : emits [] (try_local lt m).
Proof. unfold try_local. emits_auto. Qed.
Hint Resolve emits_try_call emits_try_local : emits.

Lemma emits_subscribe_exec a w : emits [] (subscribe_exec a w).
Proof.
  unfold subscribe_exec, SubscribeResponseWriter_Accept, SubscribeResponseWriter_Reject,
    acceptSubscriptionWithOptions, rejectSubscription, localTrack_close, subscriptionDone.
  emits_auto; apply emits_try_call; emits_auto.
Qed.
Lemma emits_announcement_exec id a h : emits [] (announcement_exec id a h).
Proof.
  unfold announcement_exec, acceptAnnouncement, rejectAnnouncement.
  emits_auto; apply emits_try_call; emits_auto.
Qed.
Lemma emits_announcementSubscription_exec id a h : emits [] (announcementSubscription_exec id a h).
Proof.
  unfold announcementSubscription_exec, acceptAnnouncementSubscription,
    rejectAnnouncementSubscription. emits_auto.
Qed.
Lemma emits_rejectFetch id c r : emits [] (rejectFetch id c r).
Proof. unfold rejectFetch. emits_auto. Qed.
Hint Resolve emits_rejectFetch : emits.
Lemma emits_fetch_exec id lt a h : emits [] (fetch_exec id lt a h).
Proof. unfold fetch_exec, acceptFetch. emits_auto; apply emits_try_call; emits_auto. Qed.
Lemma emits_trackStatus_Reject w : emits [] (trackStatus_Reject w).
Proof. unfold trackStatus_Reject, trackStatus_Accept, sendTrackStatus. emits_auto. Qed.
Lemma emits_trackStatus_exec a w : emits [] (trackStatus_exec a w).
Proof.
  unfold trackStatus_exec, trackStatus_Reject, trackStatus_Accept, sendTrackStatus. emits_auto.
Qed.
Lemma emits_nil_exec a w : emits [] (nil_exec a w).
Proof. apply emits_panic. Qed.
Hint Resolve emits_subscribe_exec emits_announcement_exec emits_announcementSubscription_exec
  emits_fetch_exec emits_trackStatus_exec emits_trackStatus_Reject emits_nil_exec : emits.

Lemma emits_run_handler {A W} (exec : A -> W -> SM (option error * W)) p w :
  (forall a w, emits [] (exec a w)) -> emits [] (run_handler exec p w).
Proof.
  intros H. revert w. induction p as [|a k IH]; intros w; cbn [run_handler]; emits_auto.
Qed.
Lemma emits_Handle {W} (exec : rw_call -> W -> SM (option error * W)) w m :
  (forall a w, emits [] (exec a w)) -> emits [] (Handle exec w m).
Proof. intros H. unfold Handle. destruct Handler; [by apply emits_run_handler|apply emits_panic]. Qed.
Lemma emits_reject_unhandled {W} h (r : SM (option error * W)) :
  emits [] r -> emits [] (reject_unhandled h r).
Proof. intros H. unfold reject_unhandled. emits_auto. Qed.
Hint Resolve emits_run_handler emits_Handle emits_reject_unhandled : emits.

(** ** Received messages *)

Lemma emits_respond rt e m : emits [] m -> emits [] (respond rt e m).
Proof. intros H. unfold respond. emits_auto. Qed.
Lemma emits_confirm_remote id : emits [] (confirm_remote id).
Proof. unfold confirm_remote. emits_auto. Qed.
Lemma emits_reject_remote id : emits [] (reject_remote id).
Proof. unfold reject_remote. emits_auto. Qed.
Lemma emits_close_unhandled rt : emits [] (close_unhandled rt).
Proof. unfold close_unhandled. emits_auto. Qed.
Lemma emits_respond_subscription a e : emits [] (respond_subscription a e).
Proof. unfold respond_subscription. emits_auto. Qed.
Hint Resolve emits_respond emits_confirm_remote emits_reject_remote emits_close_unhandled
  emits_respond_subscription : emits.

Lemma emits_SubscribeResponseWriter_Reject c r w :
  emits [] (SubscribeResponseWriter_Reject c r w).
Proof. apply (emits_subscribe_exec (SubReject c r)). Qed.
Hint Resolve emits_SubscribeResponseWriter_Reject : emits.

Lemma emits_receive msg : emits [] (receive msg).
Proof.
  unfold receive. apply emits_bind; [apply emits_get|]. intros ready.
  destruct (negb ready), msg; try apply emits_throw; try apply emits_setMax;
    unfold onClientSetup, onServerSetup, onGoAway, onRequestsBlocked, onSubscribe, onFetch,
      onSubscribeOk, onSubscribeError, onSubscribeUpdate,
      onUnsubscribe, onSubscribeDone, onFetchOk, onFetchError, onFetchCancel, onTrackStatusRequest,
      onTrackStatus, onAnnounce, onAnnounceOk, onAnnounceError, onUnannounce, onAnnounceCancel,
      onSubscribeAnnounces, onSubscribeAnnouncesOk, onSubscribeAnnouncesError,
      onUnsubscribeAnnounces, unsubscribe_local, onMaxRequestID, close_handshakeDoneCh; emits_auto.
Qed.

(** ** Requests *)

(** The next ID is fresh for the requests written, and so are those handed out. *)
Definition fresh (s : Session.t) : Prop :=
  NoDup (request_ids s) /\
  Forall (fun id => 0 <= id < next_id s /\ id mod 2 = perspective_uint64 (Session.perspective s))
    (request_ids s) /\
  status_requests_zero s.

Lemma fresh_emits {A} (m : SM A) s r s' :
  emits [] m -> Session.perspective s' = Session.perspective s ->
  m s = Ok (r, s') -> fresh s -> fresh s'.
Proof.
  intros Hm Hp H (Hn & Hf & Hz). destruct (Hm _ _ _ H) as (Hi & Hw & Hz'). rewrite app_nil_r in Hw.
  assert (request_ids s' = request_ids s) as Hw' by tauto.
  unfold fresh. rewrite Hw', Hi, Hp. auto.
Qed.

(** getRequestID: the ID handed out, or an error. *)
Lemma getRequestID_cases s r s' :
  inv s -> getRequestID s = Ok (r, s') ->
  request_ids s' = request_ids s /\ (status_requests_zero s -> status_requests_zero s') /\
  match r with
  | Ret id => id = next_id s /\ next_id s' = next_id s + 2
  | Error _ => next_id s' = next_id s
  end.
Proof.
  intros Hi H. unfold getRequestID in H. unfold gm_bind at 1, on in H. unfold next_id.
  pose proof (requestID_parity_step s Hi) as Hs. cbv zeta in Hs.
  unfold requestIDGenerator.next in H.
  destruct (Z.geb_spec (requestIDGenerator.id (Session.requestIDs s))
              (requestIDGenerator.max (Session.requestIDs s))) as [Hb|Hb].
  - rewrite bool_decide_eq_true_2 in H by done.
    assert (emits [] (_ <- attempt (write (RequestsBlocked (RequestsBlockedMessage.mk
              (requestIDGenerator.max (Session.requestIDs s)))));
              throw errRequestIDblocked : SM Z)) as Hem by emits_auto.
    destruct (Hem _ _ _ H) as (Hn & Hw & Hz). rewrite app_nil_r in Hw.
    apply gm_bind_Ok in H as [(a & s1 & H1 & H2)|(e & H1 & ->)].
    + injection H2 as <- <-. split; [by destruct Hw|split; [exact Hz|exact Hn]].
    + split; [by destruct Hw|split; [exact Hz|exact Hn]].
  - injection H as <- <-. cbn. destruct (Hs Hb) as (-> & _). done.
Qed.

Lemma fresh_send {A} (k : Z -> SM A) s r s' :
  (forall id, emits [id] (k id)) -> Session.perspective s' = Session.perspective s ->
  gm_bind getRequestID k s = Ok (r, s') -> inv s -> fresh s -> fresh s'.
Proof.
  intros Hk Hp H Hi (Hn & Hf & Hz). pose proof (inv_id s Hi) as Hid. pose proof (inv_parity s Hi) as Hpar.
  apply gm_bind_Ok in H as [(id & s1 & H1 & H2)|(e & H1 & ->)].
  - apply getRequestID_cases in H1 as (Hw & Hz1 & -> & Hnext); [|done].
    destruct (Hk _ _ _ _ H2) as (Hn' & Hw' & Hz'). rewrite Hw in Hw'.
    assert (Forall (fun id => 0 <= id < next_id s' /\
      id mod 2 = perspective_uint64 (Session.perspective s')) (request_ids s)) as Hf'.
    { eapply Forall_impl; [exact Hf|]. cbn. rewrite Hp, Hn', Hnext. intros x [??]. split; [lia|done]. }
    unfold fresh. destruct Hw' as [->| ->]; [auto|]. split_and!.
    + apply NoDup_app. split_and!; [done| |apply NoDup_singleton].
      intros x Hx ->%list_elem_of_singleton. rewrite Forall_forall in Hf.
      destruct (Hf _ Hx) as [[_ Hlt] _]. unfold next_id in *. lia.
    + apply Forall_app. split; [done|]. apply Forall_singleton. unfold next_id in *.
      rewrite Hp, Hn', Hnext. split; [lia|done].
    + auto.
  - apply getRequestID_cases in H1 as (Hw & Hz1 & Hnext); [|done]. unfold fresh.
    rewrite Hw, Hnext, Hp. auto.
Qed.

(** The events that hand out a request ID. *)
Definition requests (m : SM unit) : Prop :=
  exists k : Z -> SM unit, (forall id, emits [id] (k id)) /\
    forall s, m s = gm_bind getRequestID k s.

Lemma requests_ignore {A} (k : Z -> SM A) :
  (forall id, emits [id] (k id)) -> requests (ignore (gm_bind getRequestID k)).
Proof.
  intros Hk. exists (fun id => ignore (k id)).
  split; [intros id; by apply emits_ignore|intros s; apply gm_bind_assoc].
Qed.

Ltac emits_request :=
  repeat match goal with
  | |- emits [_] (let x := _ in _) => cbv zeta
  | |- emits [_] (gm_bind (write _) _) => apply emits_bind_silent; [by apply emits_write|intros; emits_auto]
  | |- emits [_] (gm_bind (attempt (write _)) _) =>
      apply emits_bind_silent; [by apply emits_attempt, emits_write|intros; emits_auto]
  | |- emits [_] (gm_bind _ _) => apply emits_bind; [solve [emits_auto]|intros]
  end.

Lemma requests_Subscribe ns name opts : requests (ignore (Subscribe_send ns name opts)).
Proof. apply requests_ignore. intros id. emits_request. Qed.
Lemma requests_Fetch ns track : requests (ignore (Fetch_send ns track)).
Proof. apply requests_ignore. intros id. emits_request. Qed.
Lemma requests_RequestTrackStatus ns track : requests (ignore (RequestTrackStatus_send ns track)).
Proof. apply requests_ignore. intros id. apply emits_weaken. emits_auto. Qed.
Lemma requests_Announce ns : requests (ignore (Announce_send ns)).
Proof. apply requests_ignore. intros id. emits_request. Qed.
Lemma requests_SubscribeAnnouncements p : requests (ignore (SubscribeAnnouncements_send p)).
Proof. apply requests_ignore. intros id. emits_request. Qed.

Lemma run_event_cases e : emits [] (run_event e) \/ requests (run_event e).
Proof.
  destruct e as [|c|msg|p msgs|msg]; cbn [run_event].
  - left. unfold Run_start, sendClientSetup. emits_auto.
  - destruct c; cbn [run_call];
      solve [right; eauto using requests_Subscribe, requests_Fetch, requests_RequestTrackStatus,
               requests_Announce, requests_SubscribeAnnouncements
            |left; unfold ignore, Subscribe_wait, RemoteTrack_UpdateSubscription,
               RemoteTrack_ReadObject, Fetch_wait, RequestTrackStatus_wait, Announce_wait,
               Unannounce, AnnounceCancel, SubscribeAnnouncements_wait,
               UnsubscribeAnnouncements; emits_auto].
  - left. apply emits_receive.
  - left. unfold handleUniStream, readFetchStream, readSubgroupStream. emits_auto.
  - left. unfold receiveDatagram. emits_auto.
Qed.

Lemma fresh_step s s' : inv s -> fresh s -> step s s' -> fresh s'.
Proof.
  intros Hi Hf Hs. destruct (step_ext _ _ Hi Hs) as [_ He].
  pose proof (ext_perspective _ _ He) as Hp. destruct Hs as [e r Hv H].
  destruct (run_event_cases e) as [Hem|(k & Hk & Heq)].
  - by eapply fresh_emits.
  - rewrite Heq in H. by eapply fresh_send.
Qed.

Lemma reachable_fresh p s : reachable p s -> fresh s.
Proof.
  induction 1 as [proto path init ws|s s' Hr IH Hs]; [by repeat split; constructor|].
  eapply fresh_step; [by eapply reachable_inv|exact IH|exact Hs].
Qed.

(** * Properties *)

(** C4: Every execution of a session keeps its invariant: whatever the
    application calls, the peer sends and the transport answers, the tables of
    tracks index tracks of the request they are filed under, no request is
    pending and open at once, no remote track has an ID that was not handed out,
    a completed handshake has negotiated a supported version, every channel
    and buffer is within its capacity, and the control stream carries whole
    frames.  From one state to a later one, tracks keep their request, the
    handshake stays completed and the limits of the request IDs only grow. *)
Theorem session_invariant p s s' :
  reachable p s -> step s s' ->
  inv s /\ inv s' /\ ext s s' /\ Session.perspective s' = p.
Proof.
  intros Hr Hs. destruct (reachable_inv p s Hr) as [Hi Hp].
  destruct (step_ext _ _ Hi Hs) as [Hi' He]. split_and!; [done..|].
  by rewrite (ext_perspective _ _ He).
Qed.

(** C8: In every execution, the request IDs of the SUBSCRIBE, FETCH, ANNOUNCE and
    SUBSCRIBE_ANNOUNCES messages a session writes are all different, all of the
    parity of its side, and below the next ID the generator hands out; those of
    the two sides of a connection can never coincide.  The fifth kind of request
    is not like that: every TRACK_STATUS_REQUEST is written with the ID 0. *)
Theorem request_ids_distinct p s :
  reachable p s ->
  NoDup (request_ids s) /\
  Forall (fun id => 0 <= id < next_id s /\ id mod 2 = perspective_uint64 p) (request_ids s) /\
  Forall (fun msg => forall m, msg = TrackStatusRequest m -> TrackStatusRequestMessage.RequestID m = 0)
    (Session.written s).
Proof.
  intros Hr. destruct (reachable_fresh p s Hr) as (Hn & Hf & Hz).
  destruct (reachable_inv p s Hr) as [_ <-]. split_and!; [done|done|].
  eapply Forall_impl; [exact Hz|]. by intros msg H m ->.
Qed.

End EmitsOperations.

(** ** At concrete inputs *)

(** A client before and after it has sent its setup message. *)
Definition ex_new : Session.t :=
  Session.set_writes [] (new_session PerspectiveClient ProtocolWebTransport [] 10).
Definition ex_started : Session.t :=
  match run_event (App := no_handlers) Starts ex_new with Ok (_, s) => s | _ => ex_new end.

Lemma ex_started_step : step (App := no_handlers) ex_new ex_started.
Proof. apply (step_event (App := no_handlers) _ _ Starts (Ret tt)); [exact I|]. vm_compute. reflexivity. Qed.

Lemma session_invariant_witness :
  inv ex_started /\ length (Session.written ex_started) = 1%nat.
Proof.
  destruct (session_invariant (App := no_handlers) PerspectiveClient ex_new ex_started) as (_ & H & _).
  - apply reachable_new.
  - apply ex_started_step.
  - split; [exact H|]. vm_compute. reflexivity.
Defined.

(** A client that has made a request of each kind; it was given the limit 100. *)
Definition ex_requests : list event :=
  let ns := [[byte.of_Z 97]] in let name := [byte.of_Z 98] in
  [Starts;
   Receives (ServerSetup (ServerSetupMessage.mk CurrentVersion
     [KeyValuePair.mk MaxRequestIDParameterKey [] 100]));
   Calls (CallSubscribe ns name []); Calls (CallRequestTrackStatus ns name); Calls (CallFetch ns name);
   Calls (CallAnnounce ns); Calls (CallRequestTrackStatus ns name); Calls (CallSubscribeAnnouncements ns)].
Definition ex_requested : Session.t :=
  match run_events (App := no_handlers) ex_requests ex_new with Ok s => s | _ => ex_new end.

Lemma request_ids_distinct_witness :
  request_ids ex_requested = [0; 4; 6; 10] /\ NoDup (request_ids ex_requested) /\
  next_id ex_requested = 12 /\ length (Session.written ex_requested) = 7%nat.
Proof.
  split; [vm_compute; reflexivity|]. split; [|split; vm_compute; reflexivity].
  apply (request_ids_distinct (App := no_handlers) PerspectiveClient).
  apply (run_events_reachable (App := no_handlers) PerspectiveClient ex_requests ex_new).
  - apply reachable_new.
  - constructor; [exact I|]. constructor; [|repeat constructor].
    split; [|vm_compute; intuition congruence]. split; [vm_compute; congruence|].
    constructor; [|constructor]. repeat split; vm_compute; congruence.
  - vm_compute. reflexivity.
Defined.
