(* ===== verification/WellTyped.v ===== *)
(** The values of a session have the types Go gives them, and what one event
    changes.

    Go's integers are modelled as Z: that a field of type uint64 holds a number
    below 2^64 is a theorem about the operations, not a property of the type.
    A call is [call_typed] when its arguments are values of their Go types, an
    application when the calls its handlers make are.  [sound] is the contract
    of an operation: from a typed session it leads to a typed session, its
    answer satisfies [Q], and the session [evolves]: the limit it enforces on the
    peer's requests only grows, no limit it writes is above what it may have told
    ([told_at_most]), its stream is extended, and only what the peer announced raises
    its own limit. *)

From stdpp Require Import sets.
From S2P Require Import Prelude VarInt Codec WireTypes Messages ControlMessages Params.
From S2P Require Import Framing ParserSafety Errors State RequestID TrackMaps Objects Tracks Announcements.
From S2P Require Import SessionState Session SessionInv SessionSafety.
Local Open Scope Z_scope.
Local Open Scope go_scope.

(** * Values of Go types *)

Definition is_uint64 (x : Z) : Prop := 0 <= x < 2 ^ 64.
Definition is_uint8 (x : Z) : Prop := 0 <= x < 2 ^ 8.
Definition is_int64 (x : Z) : Prop := - 2 ^ 63 <= x < 2 ^ 63.

Definition location_typed (l : Location.t) : Prop :=
  is_uint64 (Location.Group l) /\ is_uint64 (Location.Object l).

(** A slice is no longer than memory allows. *)
Definition pair_typed (p : KeyValuePair.t) : Prop :=
  is_uint64 (KeyValuePair.Type_ p) /\ is_uint64 (KeyValuePair.ValueVarInt p) /\
  len (KeyValuePair.ValueBytes p) <= maxAlloc.

Definition params_typed (pp : KVPList.t) : Prop := Forall pair_typed pp.

#[global] Arguments is_uint64 : simpl never.
#[global] Arguments is_uint8 : simpl never.
#[global] Arguments is_int64 : simpl never.
#[global] Arguments location_typed : simpl never.
#[global] Arguments params_typed : simpl never.

(** The setup messages, which only the session makes, are well formed on top. *)
Definition message_typed (msg : ControlMessage) : Prop :=
  match msg with
  | ClientSetup m => ClientSetupMessage.wf m /\
      Forall is_uint64 (ClientSetupMessage.SupportedVersions m) /\
      params_typed (ClientSetupMessage.SetupParameters m)
  | ServerSetup m => ServerSetupMessage.wf m /\ is_uint64 (ServerSetupMessage.SelectedVersion m) /\
      params_typed (ServerSetupMessage.SetupParameters m)
  | GoAway _ => True
  | MaxRequestID m => is_uint64 (MaxRequestIDMessage.RequestID m)
  | RequestsBlocked m => is_uint64 (RequestsBlockedMessage.MaximumRequestID m)
  | Subscribe m => is_uint64 (SubscribeMessage.RequestID m) /\
      is_uint8 (SubscribeMessage.SubscriberPriority m) /\ is_uint8 (SubscribeMessage.GroupOrder m) /\
      is_uint8 (SubscribeMessage.Forward m) /\ is_uint64 (SubscribeMessage.FilterType m) /\
      location_typed (SubscribeMessage.StartLocation m) /\
      is_uint64 (SubscribeMessage.EndGroup m) /\ params_typed (SubscribeMessage.Parameters m)
  | SubscribeOk m => is_uint64 (SubscribeOkMessage.RequestID m) /\
      is_uint64 (SubscribeOkMessage.TrackAlias m) /\ is_int64 (SubscribeOkMessage.Expires m) /\
      is_uint8 (SubscribeOkMessage.GroupOrder m) /\
      location_typed (SubscribeOkMessage.LargestLocation m) /\
      params_typed (SubscribeOkMessage.Parameters m)
  | SubscribeError m => is_uint64 (SubscribeErrorMessage.RequestID m) /\
      is_uint64 (SubscribeErrorMessage.ErrorCode m)
  | Unsubscribe m => is_uint64 (UnsubscribeMessage.RequestID m)
  | SubscribeUpdate m => is_uint64 (SubscribeUpdateMessage.RequestID m) /\
      location_typed (SubscribeUpdateMessage.StartLocation m) /\
      is_uint64 (SubscribeUpdateMessage.EndGroup m) /\
      is_uint8 (SubscribeUpdateMessage.SubscriberPriority m) /\
      is_uint8 (SubscribeUpdateMessage.Forward m) /\
      params_typed (SubscribeUpdateMessage.Parameters m)
  | SubscribeDone m => is_uint64 (SubscribeDoneMessage.RequestID m) /\
      is_uint64 (SubscribeDoneMessage.StatusCode m) /\ is_uint64 (SubscribeDoneMessage.StreamCount m)
  | Fetch m => is_uint64 (FetchMessage.RequestID m) /\
      is_uint8 (FetchMessage.SubscriberPriority m) /\ is_uint8 (FetchMessage.GroupOrder m) /\
      is_uint64 (FetchMessage.FetchType m) /\ is_uint64 (FetchMessage.StartGroup m) /\
      is_uint64 (FetchMessage.StartObject m) /\ is_uint64 (FetchMessage.EndGroup m) /\
      is_uint64 (FetchMessage.EndObject m) /\ is_uint64 (FetchMessage.JoiningSubscribeID m) /\
      is_uint64 (FetchMessage.JoiningStart m) /\ params_typed (FetchMessage.Parameters m)
  | FetchOk m => is_uint64 (FetchOkMessage.RequestID m) /\ is_uint8 (FetchOkMessage.GroupOrder m) /\
      is_uint8 (FetchOkMessage.EndOfTrack m) /\
      location_typed (FetchOkMessage.EndLocation m) /\
      params_typed (FetchOkMessage.SubscribeParameters m)
  | FetchError m => is_uint64 (FetchErrorMessage.RequestID m) /\
      is_uint64 (FetchErrorMessage.ErrorCode m)
  | FetchCancel m => is_uint64 (FetchCancelMessage.RequestID m)
  | TrackStatusRequest m => is_uint64 (TrackStatusRequestMessage.RequestID m) /\
      params_typed (TrackStatusRequestMessage.Parameters m)
  | TrackStatus m => is_uint64 (TrackStatusMessage.RequestID m) /\
      is_uint64 (TrackStatusMessage.StatusCode m) /\
      location_typed (TrackStatusMessage.LargestLocation m) /\
      params_typed (TrackStatusMessage.Parameters m)
  | Announce m => is_uint64 (AnnounceMessage.RequestID m) /\
      params_typed (AnnounceMessage.Parameters m)
  | AnnounceOk m => is_uint64 (AnnounceOkMessage.RequestID m)
  | AnnounceError m => is_uint64 (AnnounceErrorMessage.RequestID m) /\
      is_uint64 (AnnounceErrorMessage.ErrorCode m)
  | ControlMessages.Unannounce _ => True
  | ControlMessages.AnnounceCancel m => is_uint64 (AnnounceCancelMessage.ErrorCode m)
  | SubscribeAnnounces m => is_uint64 (SubscribeAnnouncesMessage.RequestID m) /\
      params_typed (SubscribeAnnouncesMessage.Parameters m)
  | SubscribeAnnouncesOk m => is_uint64 (SubscribeAnnouncesOkMessage.RequestID m)
  | SubscribeAnnouncesError m => is_uint64 (SubscribeAnnouncesErrorMessage.RequestID m) /\
      is_uint64 (SubscribeAnnouncesErrorMessage.ErrorCode m)
  | UnsubscribeAnnounces _ => True
  | Publish _ | PublishOk _ | PublishError _ => False
  end.

Lemma params_typed_nonneg pp : params_typed pp -> nonneg_params pp.
Proof.
  intros H. eapply list.Forall_impl; [exact H|]. unfold pair_typed, is_uint64. intros p Hp. lia.
Qed.

Lemma location_typed_wf l : location_typed l -> Location.wf l.
Proof. unfold location_typed, is_uint64, Location.wf. lia. Qed.

(** What is typed can be encoded. *)
Lemma typed_encodable msg : message_typed msg -> encodable msg.
Proof.
  destruct msg; cbn [message_typed encodable];
    try (unfold is_uint64; tauto || lia);
    intros; destruct_and?; unfold is_uint64 in *;
    split_and?; auto using params_typed_nonneg, location_typed_wf; try lia.
  all: match goal with H : ClientSetupMessage.wf _ |- _ => apply H end.
Qed.

(** * Typed calls *)

Definition subscribe_options_typed (o : SubscribeOptions.t) : Prop :=
  is_uint8 (SubscribeOptions.SubscriberPriority o) /\ is_uint8 (SubscribeOptions.GroupOrder o) /\
  is_uint64 (SubscribeOptions.FilterType o) /\ location_typed (SubscribeOptions.StartLocation o) /\
  is_uint64 (SubscribeOptions.EndGroup o) /\ params_typed (SubscribeOptions.Parameters o).

Definition update_options_typed (o : SubscribeUpdateOptions.t) : Prop :=
  location_typed (SubscribeUpdateOptions.StartLocation o) /\
  is_uint64 (SubscribeUpdateOptions.EndGroup o) /\
  is_uint8 (SubscribeUpdateOptions.SubscriberPriority o) /\
  params_typed (SubscribeUpdateOptions.Parameters o).

Definition ok_options_typed (o : SubscribeOkOptions.t) : Prop :=
  is_int64 (SubscribeOkOptions.Expires o) /\ is_uint8 (SubscribeOkOptions.GroupOrder o) /\
  from_option location_typed True (SubscribeOkOptions.LargestLocation o) /\
  params_typed (SubscribeOkOptions.Parameters o).

(** Options that give typed fields typed values. *)
Definition options_typed {O} (P : O -> Prop) (options : list (O -> O)) : Prop :=
  Forall (fun f => forall o, P o -> P (f o)) options.

Lemma apply_options_typed {O} (P : O -> Prop) options o :
  options_typed P options -> P o -> P (apply_options options o).
Proof.
  intros H. revert o. induction H as [|f options Hf Hopts IH]; intros o Ho; [done|].
  cbn. apply IH, Hf, Ho.
Qed.

Definition subscribe_call_typed (c : subscribe_call) : Prop :=
  match c with
  | SubAccept options => options_typed ok_options_typed options
  | SubReject code _ | SubCloseWithError code _ => is_uint64 code
  | SubSendDatagram _ _ | SubOpenSubgroup _ _ _ _ _ => True
  end.

Definition rw_call_typed (c : rw_call) : Prop :=
  match c with
  | RwReject code _ => is_uint64 code
  | RwSetStatus code _ _ => is_uint64 code
  | RwAccept | RwFetchStream _ _ => True
  end.

Definition call_typed (c : call) : Prop :=
  match c with
  | CallSubscribe _ _ opts => options_typed subscribe_options_typed opts
  | CallUpdateSubscription id opts => is_uint64 id /\ options_typed update_options_typed opts
  | CallTrackUpdate _ opts => options_typed update_options_typed opts
  | CallAnnounceCancel _ code _ => is_uint64 code
  | CallSubscribeWriter c w => subscribe_call_typed c /\ is_uint64 (SubscribeResponseWriter.id w)
  | CallAnnouncementWriter id c => is_uint64 id /\ rw_call_typed c
  | CallAnnouncementSubscriptionWriter id c => is_uint64 id /\ rw_call_typed c
  | CallFetchWriter id _ c => is_uint64 id /\ rw_call_typed c
  | CallTrackStatusWriter c w => rw_call_typed c /\ is_uint64 (TrackStatus.StatusCode w.1)
  | _ => True
  end.

(** An object of a stream or a datagram. *)
Definition object_message_typed (m : ObjectMessage.t) : Prop :=
  is_uint64 (ObjectMessage.GroupID m) /\ is_uint64 (ObjectMessage.SubgroupID m) /\
  is_uint64 (ObjectMessage.ObjectID m).

Definition datagram_typed (m : ObjectDatagramMessage.t) : Prop :=
  is_uint64 (ObjectDatagramMessage.GroupID m) /\ is_uint64 (ObjectDatagramMessage.ObjectID m).

(** What arrives is what a parser has delivered. *)
Definition event_typed (e : event) : Prop :=
  match e with
  | Starts => True
  | Calls c => call_typed c
  | Receives msg => in_range msg /\ kept_in_range msg
  | ReceivesStream _ msgs => Forall object_message_typed msgs.1
  | ReceivesDatagram m => datagram_typed m
  end.

Lemma typed_event_valid e : event_typed e -> valid_event e.
Proof. destruct e; try done. by intros []. Qed.

(** The calls of a program, whatever their answers are. *)
Fixpoint prog_typed {A} (P : A -> Prop) (p : prog A) : Prop :=
  match p with
  | Return => True
  | Call a k => P a /\ forall e, prog_typed P (k e)
  end.

Record application_typed `{Application} : Prop := {
  handler_typed h m : Handler = Some h -> prog_typed rw_call_typed (h m);
  subscribe_handler_typed h m :
    SubscribeHandler = Some h -> prog_typed subscribe_call_typed (h m);
}.
Arguments application_typed : clear implicits.

(** * Typed sessions *)

Definition local_typed (lt : localTrack.t) : Prop :=
  is_uint64 (localTrack.requestID lt) /\ is_uint64 (localTrack.trackAlias lt) /\
  is_uint64 (localTrack.subgroupCount lt).

Definition object_typed (o : Object.t) : Prop :=
  is_uint64 (Object.GroupID o) /\ is_uint64 (Object.ObjectID o) /\
  is_int64 (Object.ForwardingPreference o) /\ is_uint64 (Object.SubGroupID o).

(** The fields of a remote track: an [expires] is a time.Duration. *)
Record remote_typed (rt : RemoteTrack.t) : Prop := {
  rty_requestID : is_uint64 (RemoteTrack.requestID rt);
  rty_expires : is_int64 (RemoteTrack.expires rt);
  rty_groupOrder : is_uint8 (RemoteTrack.groupOrder rt);
  rty_largestLocation : from_option location_typed True (RemoteTrack.largestLocation rt);
  rty_parameters : params_typed (RemoteTrack.parameters rt);
  rty_buffer : Forall object_typed (RemoteTrack.buffer rt);
  rty_subGroupCount : is_uint64 (RemoteTrack.subGroupCount rt);
  rty_fetchCount : is_uint64 (RemoteTrack.fetchCount rt);
}.

(** The tables: their keys, and the numbers of their entries. *)
Definition keys_typed {A} (m : gmap Z A) : Prop := map_Forall (fun id _ => is_uint64 id) m.

Record remote_table_typed (m : remoteTrackMap.t nat) : Prop := {
  rt_nextTrackAlias : is_uint64 (remoteTrackMap.nextTrackAlias m);
  rt_pending : keys_typed (remoteTrackMap.pending m);
  rt_open : keys_typed (remoteTrackMap.open m);
  rt_aliases : map_Forall (fun alias id => is_uint64 alias /\ is_uint64 id)
                 (remoteTrackMap.trackAliasToRequestID m);
}.

Definition local_table_typed (m : localTrackMap.t nat) : Prop :=
  keys_typed (localTrackMap.pending m) /\ keys_typed (localTrackMap.open m).

Definition announcement_typed (id : Z) (a : announcement.t) : Prop :=
  is_uint64 id /\ is_uint64 (announcement.requestID a) /\ params_typed (announcement.parameters a).

Definition announcements_typed (m : announcementMap.t) : Prop :=
  map_Forall announcement_typed (announcementMap.pending m) /\
  map_Forall announcement_typed (announcementMap.announcements m).

Definition announcement_subscriptions_typed (m : announcementSubscriptionMap.t) : Prop :=
  map_Forall (fun id a => is_uint64 id /\ is_uint64 (announcementSubscription.requestID a)) m.

Definition track_status_requests_typed (m : trackStatusRequestMap.t) : Prop :=
  map_Forall (fun id a => is_uint64 id /\ is_uint64 (trackStatusRequest.requestID a)) m.

Definition response_typed (r : response) : Prop :=
  match r with
  | RespErr _ => True
  | RespStatus ts => is_uint64 (TrackStatus.StatusCode ts) /\
      is_uint64 (TrackStatus.LastGroupID ts) /\ is_uint64 (TrackStatus.LastObjectID ts)
  end.

(** Every number of a session but the codes inside its error values. *)
Record typed (s : Session.t) : Prop := {
  ty_limit : is_uint64 (Session.localMaxRequestID s);
  ty_path : len (Session.path s) <= maxAlloc;
  ty_id : is_uint64 (requestIDGenerator.id (Session.requestIDs s));
  ty_max : is_uint64 (requestIDGenerator.max (Session.requestIDs s));
  ty_interval : requestIDGenerator.interval (Session.requestIDs s) = 2;
  ty_alias : is_uint64 (sequence.last (Session.trackAliases s));
  ty_local : Forall local_typed (Session.localHeap s);
  ty_remote : Forall remote_typed (Session.remoteHeap s);
  ty_written : Forall message_typed (Session.written s);
  ty_version : is_uint64 (Session.version s);
  ty_blocked : is_uint64 (Session.highestRequestsBlocked s);
  ty_outgoing : announcements_typed (Session.outgoingAnnouncements s);
  ty_incoming : announcements_typed (Session.incomingAnnouncements s);
  ty_subscribing : announcement_subscriptions_typed (Session.pendingOutgointAnnouncementSubscriptions s);
  ty_subscribed : announcement_subscriptions_typed (Session.pendingIncomingAnnouncementSubscriptions s);
  ty_remoteTracks : remote_table_typed (Session.remoteTracks s);
  ty_localTracks : local_table_typed (Session.localTracks s);
  ty_status : track_status_requests_typed (Session.outgoingTrackStatusRequests s);
  ty_chans : Forall (Forall response_typed) (Session.chans s);
}.

(** * What an event changes *)

(** What the peer may have been told at most: the limit the side enforces
    ([localMaxRequestID]) and, by a server, the 100 that onClientSetup announces
    whatever the limit is. *)
Definition told_at_most (s : Session.t) : Z :=
  match Session.perspective s with
  | PerspectiveClient => Session.localMaxRequestID s
  | PerspectiveServer => Z.max 100 (Session.localMaxRequestID s)
  end.

Definition announced_ok (s : Session.t) : Prop :=
  Forall (fun m => max_announced m <= told_at_most s) (Session.written s).

(** The requests of the peer that have a track. *)
Definition filed (s : Session.t) : gset Z :=
  dom (localTrackMap.pending (Session.localTracks s)) ∪
  dom (localTrackMap.open (Session.localTracks s)).

(** [v]: the limit the event brings (0 if none); [X]: the request it brings. *)
Record evolves (v : Z) (X : gset Z) (s s' : Session.t) : Prop := {
  ev_limit : Session.localMaxRequestID s <= Session.localMaxRequestID s';
  ev_perspective : Session.perspective s' = Session.perspective s;
  ev_written : exists l, Session.written s' = Session.written s ++ l;
  ev_announced : announced_ok s -> announced_ok s';
  ev_max : requestIDGenerator.max (Session.requestIDs s')
           <= Z.max (requestIDGenerator.max (Session.requestIDs s)) v;
  ev_next : next_id s <= requestIDGenerator.max (Session.requestIDs s) + 1 ->
            next_id s' <= requestIDGenerator.max (Session.requestIDs s') + 1;
  ev_filed : filed s' ⊆ filed s ∪ X;
}.

Section Evolution.
Context (v : Z) (X : gset Z).

#[export] Instance evolves_preorder : PreOrder (evolves v X).
Proof.
  split.
  - intros s. constructor; try done; [by exists []; rewrite app_nil_r|lia|set_solver].
  - intros s1 s2 s3 H1 H2. destruct H1 as [L1 P1 [l1 W1] A1 M1 N1 F1], H2 as [L2 P2 [l2 W2] A2 M2 N2 F2].
    constructor; try lia; try congruence; auto; [|set_solver].
    exists (l1 ++ l2). by rewrite W2, W1, app_assoc.
Qed.

(** An update of parts of the state that the relation does not mention. *)
Lemma evolves_same s s' :
  Session.localMaxRequestID s' = Session.localMaxRequestID s ->
  Session.perspective s' = Session.perspective s -> Session.written s' = Session.written s ->
  Session.requestIDs s' = Session.requestIDs s -> filed s' ⊆ filed s ∪ X -> evolves v X s s'.
Proof.
  intros HL HP HW HR HF. constructor; unfold announced_ok, told_at_most, next_id;
    rewrite ?HL, ?HP, ?HW, ?HR; try done; try lia. by exists []; rewrite app_nil_r.
Qed.

Lemma told_mono s s' : evolves v X s s' -> told_at_most s <= told_at_most s'.
Proof. intros []. unfold told_at_most. rewrite ev_perspective0. destruct (Session.perspective s); lia. Qed.

End Evolution.

(** * The contract *)

Section Sound.
Context {QV : QuicVarint} (p : Perspective) (v : Z) (X : gset Z).

Definition sound {A} (m : SM A) (Q : A -> Prop) : Prop :=
  forall s r s', typed s -> Session.perspective s = p -> m s = Ok (r, s') ->
    typed s' /\ evolves v X s s' /\ (forall a, r = Ret a -> Q a).

Definition any {A} : A -> Prop := fun _ => True.

Lemma sound_bind {A B} (m : SM A) (k : A -> SM B) Q R :
  sound m Q -> (forall a, Q a -> sound (k a) R) -> sound (gm_bind m k) R.
Proof.
  intros Hm Hk s r s' Ht Hp H. apply gm_bind_Ok in H as [(a & s1 & H1 & H2)|(e & H1 & ->)].
  - destruct (Hm _ _ _ Ht Hp H1) as (Ht1 & He1 & HQ).
    assert (Session.perspective s1 = p) as Hp1 by (by rewrite (ev_perspective _ _ _ _ He1)).
    destruct (Hk a (HQ _ eq_refl) _ _ _ Ht1 Hp1 H2) as (Ht2 & He2 & HR).
    split_and!; [done|by etrans|done].
  - destruct (Hm _ _ _ Ht Hp H1) as (Ht1 & He1 & _). split_and!; [done|done|]. by intros a.
Qed.

Lemma sound_weaken {A} (m : SM A) (Q R : A -> Prop) :
  sound m Q -> (forall a, Q a -> R a) -> sound m R.
Proof.
  intros Hm HR s r s' Ht Hp H. destruct (Hm _ _ _ Ht Hp H) as (? & ? & HQ). split_and!; auto.
Qed.

Lemma sound_any {A} (m : SM A) Q : sound m Q -> sound m any.
Proof. intros H. by eapply sound_weaken. Qed.

(** Operations that leave the state as it is. *)
Lemma sound_pure {A} (m : SM A) (Q : A -> Prop) :
  (forall s r s', typed s -> Session.perspective s = p -> m s = Ok (r, s') -> s' = s /\ (forall a, r = Ret a -> Q a)) ->
  sound m Q.
Proof. intros Hm s r s' Ht Hp H. destruct (Hm _ _ _ Ht Hp H) as [-> HQ]. split_and!; done. Qed.

Lemma sound_ret {A} (a : A) (Q : A -> Prop) : Q a -> sound (mret a) Q.
Proof. intros HQ. apply sound_pure. intros s r s' _ _ [= <- <-]. split; [done|]. by intros ? [= <-]. Qed.
Lemma sound_throw {A} e (Q : A -> Prop) : sound (throw e) Q.
Proof. apply sound_pure. by intros s r s' _ _ [= <- <-]. Qed.
Lemma sound_panic {A} (Q : A -> Prop) : sound panic Q.
Proof. apply sound_pure. by intros s r s' _ _ H. Qed.
Lemma sound_get {A} (f : Session.t -> A) (Q : A -> Prop) :
  (forall s, typed s -> Session.perspective s = p -> Q (f s)) -> sound (get f) Q.
Proof.
  intros HQ. apply sound_pure. intros s r s' Ht Hp [= <- <-]. split; [done|]. intros ? [= <-]. auto.
Qed.
Lemma sound_get_any {A} (f : Session.t -> A) : sound (get f) any.
Proof. by apply sound_get. Qed.
Lemma sound_of_option {A} (o : option A) e : sound (of_option o e) any.
Proof. destruct o; [by apply sound_ret|apply sound_throw]. Qed.
Lemma sound_lift_res {A} (m : res A) (Q : A -> Prop) :
  (forall a, m = Ok a -> Q a) -> sound (localTrack.lift_res m) Q.
Proof.
  intros HQ. apply sound_pure. intros s r s' _ _ H. unfold localTrack.lift_res in H.
  destruct m; simplify_eq/=; (split; [done|]); [intros ? [= <-]; auto|done].
Qed.

Lemma sound_attempt {A} (m : SM A) Q :
  sound m Q -> sound (attempt m) (fun r => forall a, r = Ret a -> Q a).
Proof.
  intros Hm s r s' Ht Hp H. unfold attempt in H. destruct (m s) as [[r1 s1]| | |] eqn:E; [|done..].
  injection H as <- <-. destruct (Hm _ _ _ Ht Hp E) as (? & ? & HQ). split_and!; [done|done|].
  by intros ? [= <-].
Qed.

Lemma sound_attempt_any {A} (m : SM A) Q : sound m Q -> sound (attempt m) any.
Proof. intros H. by eapply sound_any, sound_attempt. Qed.

(** ** Updates of the state *)

Lemma sound_modify f :
  (forall s, typed s -> typed (f s) /\ evolves v X s (f s)) -> sound (modify f) any.
Proof. intros Hf s r s' Ht Hp [= <- <-]. destruct (Hf s Ht). split_and!; done. Qed.

Lemma sound_on {F A} (proj : Session.t -> F) upd (f : F -> A * F) Q :
  (forall s, typed s -> let '(a, x) := f (proj s) in
     Q a /\ typed (upd x s) /\ evolves v X s (upd x s)) ->
  sound (on proj upd f) Q.
Proof.
  intros Hf s r s' Ht Hp H. unfold on in H. specialize (Hf s Ht). destruct (f (proj s)) as [a x].
  injection H as <- <-. destruct Hf as (? & ? & ?). split_and!; [done..|]. by intros ? [= <-].
Qed.

Lemma sound_try {F} (proj : Session.t -> F) upd (f : F -> option error * F) :
  (forall s, typed s -> typed (upd (f (proj s)).2 s) /\ evolves v X s (upd (f (proj s)).2 s)) ->
  sound (try_ proj upd f) any.
Proof.
  intros Hf s r s' Ht Hp H. unfold try_ in H. specialize (Hf s Ht). destruct (f (proj s)) as [a x].
  injection H as <- <-. destruct Hf. split_and!; done.
Qed.

End Sound.

(** ** The tables *)

(** A part of the session with its own type invariant [T], which [evolves] does
    not mention. *)
Class Field {F} (proj : Session.t -> F) (upd : F -> Session.t -> Session.t) (T : F -> Prop) : Prop := {
  field_typed s : typed s -> T (proj s);
  field_set x s : typed s -> T x -> typed (upd x s);
  field_evolves v X x s : evolves v X s (upd x s);
}.

Ltac field_auto :=
  constructor;
  [by intros s []
  |let H := fresh in intros x s H ?; destruct H; by constructor
  |intros; by apply evolves_same; first [done|cbn; set_solver]].

#[export] Instance remoteTracks_field :
  Field Session.remoteTracks Session.set_remoteTracks remote_table_typed.
Proof. field_auto. Qed.
#[export] Instance outgoingAnnouncements_field :
  Field Session.outgoingAnnouncements Session.set_outgoingAnnouncements announcements_typed.
Proof. field_auto. Qed.
#[export] Instance incomingAnnouncements_field :
  Field Session.incomingAnnouncements Session.set_incomingAnnouncements announcements_typed.
Proof. field_auto. Qed.
#[export] Instance outgoingSubscriptions_field :
  Field Session.pendingOutgointAnnouncementSubscriptions
    Session.set_pendingOutgointAnnouncementSubscriptions announcement_subscriptions_typed.
Proof. field_auto. Qed.
#[export] Instance incomingSubscriptions_field :
  Field Session.pendingIncomingAnnouncementSubscriptions
    Session.set_pendingIncomingAnnouncementSubscriptions announcement_subscriptions_typed.
Proof. field_auto. Qed.
#[export] Instance trackStatusRequests_field :
  Field Session.outgoingTrackStatusRequests Session.set_outgoingTrackStatusRequests
    track_status_requests_typed.
Proof. field_auto. Qed.

Section Fields.
Context {QV : QuicVarint} (p : Perspective) (v : Z) (X : gset Z).
Context {F : Type} (proj : Session.t -> F) (upd : F -> Session.t -> Session.t) (T : F -> Prop).
Context {HF : Field proj upd T}.

Lemma sound_on_field {A} (f : F -> A * F) :
  (forall x, T x -> T (f x).2) -> sound p v X (on proj upd f) any.
Proof.
  intros Hf. apply sound_on. intros s Ht. specialize (Hf _ (field_typed s Ht)).
  destruct (f (proj s)) as [a x]. split_and!; [done|by apply field_set|apply field_evolves].
Qed.

Lemma sound_try_field (f : F -> option error * F) :
  (forall x, T x -> T (f x).2) -> sound p v X (try_ proj upd f) any.
Proof.
  intros Hf. apply sound_try. intros s Ht.
  split; [by apply field_set; [|apply Hf, field_typed]|apply field_evolves].
Qed.

Lemma sound_modify_field (f : F -> F) :
  (forall x, T x -> T (f x)) -> sound p v X (modify (fun s => upd (f (proj s)) s)) any.
Proof.
  intros Hf. apply sound_modify. intros s Ht.
  split; [by apply field_set; [|apply Hf, field_typed]|apply field_evolves].
Qed.

End Fields.

(** ** The operations of the tables *)

Section TableOperations.
Context {MR : MapRange}.

Lemma keys_insert {A} id (a : A) m : is_uint64 id -> keys_typed m -> keys_typed (<[id := a]> m).
Proof. intros. by apply map_Forall_insert_2. Qed.
Lemma keys_delete {A} id (m : gmap Z A) : keys_typed m -> keys_typed (delete id m).
Proof. apply map_Forall_delete. Qed.

Lemma typed_announcements_add a m :
  is_uint64 (announcement.requestID a) -> params_typed (announcement.parameters a) ->
  announcements_typed m -> announcements_typed (announcementMap.add m a).
Proof. intros Hi Hp [H1 H2]. split; [|done]. by apply map_Forall_insert_2. Qed.
Lemma typed_announcements_confirm id m :
  announcements_typed m -> announcements_typed (announcementMap.confirmAndGet m id).2.
Proof.
  intros [H1 H2]. unfold announcementMap.confirmAndGet.
  destruct (announcementMap.pending m !! id) eqn:E; [|done].
  split; [by apply map_Forall_delete|]. apply map_Forall_insert_2; [by eapply H1|done].
Qed.
Lemma typed_announcements_reject id m :
  announcements_typed m -> announcements_typed (announcementMap.reject m id).2.
Proof.
  intros [H1 H2]. unfold announcementMap.reject.
  destruct (announcementMap.pending m !! id) eqn:E; [|done]. split; [by apply map_Forall_delete|done].
Qed.
Lemma typed_announcements_delete ns m :
  announcements_typed m -> announcements_typed (announcementMap.delete m ns).2.
Proof.
  intros [H1 H2]. unfold announcementMap.delete.
  destruct (findAnnouncement (announcementMap.pending m) ns); [split; [by apply map_Forall_delete|done]|].
  destruct (findAnnouncement (announcementMap.announcements m) ns); [|done].
  split; [done|by apply map_Forall_delete].
Qed.

Lemma typed_subscriptions_add a m :
  is_uint64 (announcementSubscription.requestID a) -> announcement_subscriptions_typed m ->
  announcement_subscriptions_typed (announcementSubscriptionMap.add m a).
Proof. intros Hi H. by apply map_Forall_insert_2. Qed.
Lemma typed_subscriptions_delete ns m :
  announcement_subscriptions_typed m ->
  announcement_subscriptions_typed (announcementSubscriptionMap.delete m ns).2.
Proof.
  intros H. unfold announcementSubscriptionMap.delete.
  destruct (findAnnouncementSubscription m ns); [by apply map_Forall_delete|done].
Qed.
Lemma typed_subscriptions_deleteByID id m :
  announcement_subscriptions_typed m ->
  announcement_subscriptions_typed (announcementSubscriptionMap.deleteByID m id).2.
Proof. apply map_Forall_delete. Qed.

Lemma typed_status_add a m :
  is_uint64 (trackStatusRequest.requestID a) -> track_status_requests_typed m ->
  track_status_requests_typed (trackStatusRequestMap.add m a).
Proof. intros Hi H. by apply map_Forall_insert_2. Qed.
Lemma typed_status_delete id m :
  track_status_requests_typed m -> track_status_requests_typed (trackStatusRequestMap.delete m id).2.
Proof. done. Qed.

Lemma typed_remote_addPending id rt m :
  is_uint64 id -> remote_table_typed m -> remote_table_typed (remoteTrackMap.addPending m id rt).2.
Proof.
  intros Hid Hm. unfold remoteTrackMap.addPending.
  destruct (remoteTrackMap.pending m !! id); [done|]. destruct (remoteTrackMap.open m !! id); [done|].
  destruct Hm. constructor; try done. by apply keys_insert.
Qed.
Lemma typed_remote_addPendingWithAlias id rt m :
  is_uint64 id -> remote_table_typed m -> remote_table_typed (remoteTrackMap.addPendingWithAlias m id rt).2.
Proof. exact (typed_remote_addPending id rt m). Qed.
Lemma typed_remote_setAlias id alias m :
  is_uint64 id -> is_uint64 alias -> remote_table_typed m ->
  remote_table_typed (remoteTrackMap.setAlias m id alias).2.
Proof.
  intros Hid Ha Hm. unfold remoteTrackMap.setAlias.
  destruct (remoteTrackMap.trackAliasToRequestID m !! alias); [done|].
  destruct Hm. constructor; try done. by apply map_Forall_insert_2.
Qed.
Lemma typed_remote_confirm id m :
  remote_table_typed m -> remote_table_typed (remoteTrackMap.confirm m id).2.
Proof.
  intros Hm. unfold remoteTrackMap.confirm. destruct (remoteTrackMap.pending m !! id) eqn:E; [|done].
  destruct Hm. constructor; try done; [by apply keys_delete|]. by apply keys_insert; [eapply rt_pending0|].
Qed.
Lemma typed_remote_reject id m :
  remote_table_typed m -> remote_table_typed (remoteTrackMap.reject m id).2.
Proof.
  intros Hm. unfold remoteTrackMap.reject. destruct (remoteTrackMap.pending m !! id) eqn:E; [|done].
  destruct Hm. constructor; try done. by apply keys_delete.
Qed.

Lemma typed_local_add id lt m :
  is_uint64 id -> local_table_typed m -> local_table_typed (localTrackMap.addPending m id lt).2.
Proof.
  intros Hid [H1 H2]. unfold localTrackMap.addPending.
  destruct (localTrackMap.pending m !! id); [done|]. destruct (localTrackMap.open m !! id); [done|].
  split; [by apply keys_insert|done].
Qed.
Lemma typed_local_confirm id m :
  local_table_typed m -> local_table_typed (localTrackMap.confirm m id).2.
Proof.
  intros [H1 H2]. unfold localTrackMap.confirm. destruct (localTrackMap.pending m !! id) eqn:E; [|done].
  split; [by apply keys_delete|]. by apply keys_insert; [eapply H1|].
Qed.
Lemma typed_local_reject id m :
  local_table_typed m -> local_table_typed (localTrackMap.reject m id).2.
Proof.
  intros [H1 H2]. unfold localTrackMap.reject. destruct (localTrackMap.pending m !! id); [|done].
  split; [by apply keys_delete|done].
Qed.
Lemma typed_local_delete id m :
  local_table_typed m -> local_table_typed (localTrackMap.delete m id).2.
Proof.
  intros [H1 H2]. unfold localTrackMap.delete. destruct (localTrackMap.findByID m id); [|done].
  by split; apply keys_delete.
Qed.

End TableOperations.

Create HintDb sound.
Create HintDb typed.

#[export] Hint Resolve sound_throw sound_panic sound_get_any sound_of_option : sound.
#[export] Hint Extern 1 (sound _ _ _ (mret _) _) => (apply sound_ret; first [exact I|assumption]) : sound.
#[export] Hint Resolve typed_announcements_add typed_announcements_confirm typed_announcements_reject
  typed_announcements_delete typed_subscriptions_add typed_subscriptions_delete
  typed_subscriptions_deleteByID typed_status_add typed_status_delete typed_remote_addPending
  typed_remote_addPendingWithAlias typed_remote_setAlias typed_remote_confirm typed_remote_reject
  typed_local_add typed_local_confirm typed_local_reject typed_local_delete : typed.
#[export] Hint Extern 2 (sound _ _ _ (on _ _ _) _) =>
  (eapply sound_on_field; [typeclasses eauto|intros; solve [eauto with typed]]) : sound.
#[export] Hint Extern 3 (sound _ _ _ (try_ _ _ _) _) =>
  (eapply sound_try_field; [typeclasses eauto|intros; solve [eauto with typed]]) : sound.

(** Composition in which the middle values need no fact, unless a hint knows one. *)
Ltac sound_auto :=
  repeat match goal with
  | |- sound _ _ _ (gm_bind _ _) _ =>
      first [eapply sound_bind; [solve [eauto with sound]|intros]
            |apply (sound_bind _ _ _ _ _ any); [|intros]]
  | |- sound _ _ _ (let x := _ in _) _ => cbv zeta
  | |- sound _ _ _ (attempt _) any => first [solve [eauto with sound]|eapply sound_attempt_any]
  | |- sound _ _ _ (match ?x with _ => _ end) _ => destruct x
  | |- sound _ _ _ _ _ => solve [eauto with sound]
  end.

(** * The operations on the state *)

Section SoundPrimitives.
Context {QV : QuicVarint} {MR : MapRange} (p : Perspective) (v : Z) (X : gset Z).

(** ** Writing *)

Lemma typed_wrote s msg ws :
  typed s -> message_typed msg ->
  typed (Session.set_writes ws (Session.set_written (Session.written s ++ [msg]) s)).
Proof. intros [] Hm. constructor; try done. cbn. apply Forall_app. split; [done|]. by apply Forall_singleton. Qed.

Lemma evolves_wrote s msg ws :
  max_announced msg <= told_at_most s ->
  evolves v X s (Session.set_writes ws (Session.set_written (Session.written s ++ [msg]) s)).
Proof.
  intros Hm. constructor; cbn; try done; try lia; [by exists [msg]| |set_solver].
  intros Ha. unfold announced_ok. cbn. apply Forall_app. split; [exact Ha|]. by apply Forall_singleton.
Qed.

(** A write from a given state. *)
Lemma write_step msg s r s' :
  typed s -> message_typed msg -> max_announced msg <= told_at_most s -> write msg s = Ok (r, s') ->
  typed s' /\ evolves v X s s'.
Proof.
  intros Ht Hm Hg H. unfold write in H.
  destruct (compileMessage msg); [|by injection H as <- <-|done..].
  assert (forall ws, typed (Session.set_writes ws s) /\ evolves v X s (Session.set_writes ws s)) as Hw.
  { intros ws. split; [by destruct Ht|]. apply evolves_same; try done. set_solver. }
  destruct (Session.writes s) as [|[e|] ws]; injection H as <- <-; [|apply Hw|].
  - destruct (typed_wrote s msg [] Ht Hm) as []. split; [by constructor|].
    destruct (evolves_wrote s msg [] Hg). by constructor.
  - split; [by apply typed_wrote|by apply evolves_wrote].
Qed.

Lemma sound_write_limit msg :
  message_typed msg ->
  (forall s, typed s -> Session.perspective s = p -> max_announced msg <= told_at_most s) ->
  sound p v X (write msg) any.
Proof.
  intros Hm Hg s r s' Ht Hp H.
  destruct (write_step msg s r s' Ht Hm (Hg s Ht Hp) H). split_and!; done.
Qed.

Lemma told_nonneg s : typed s -> 0 <= told_at_most s.
Proof. intros []. unfold told_at_most, is_uint64 in *. destruct (Session.perspective s); lia. Qed.

Lemma sound_write msg :
  message_typed msg -> max_announced msg <= 0 -> sound p v X (write msg) any.
Proof.
  intros Hm H0. apply sound_write_limit; [done|]. intros s Ht _. pose proof (told_nonneg s Ht). lia.
Qed.

(** ** The stores *)

Lemma sound_alloc_local lt : local_typed lt -> sound p v X (alloc_local lt) any.
Proof.
  intros Hl s r s' Ht Hp [= <- <-]. split_and!; [|by apply evolves_same; try set_solver|done].
  destruct Ht. constructor; try done. cbn. apply Forall_app. split; [done|]. by apply Forall_singleton.
Qed.

Lemma sound_alloc_remote rt : remote_typed rt -> sound p v X (alloc_remote rt) any.
Proof.
  intros Hl s r s' Ht Hp [= <- <-]. split_and!; [|by apply evolves_same; try set_solver|done].
  destruct Ht. constructor; try done. cbn. apply Forall_app. split; [done|]. by apply Forall_singleton.
Qed.

Lemma sound_make_chan : sound p v X make_chan any.
Proof.
  intros s r s' Ht Hp [= <- <-]. split_and!; [|by apply evolves_same; try set_solver|done].
  destruct Ht. constructor; try done. cbn. apply Forall_app. split; [done|]. by apply Forall_singleton.
Qed.

Lemma typed_set_chan c ch s :
  typed s -> Forall response_typed ch -> typed (Session.set_chans (<[c := ch]> (Session.chans s)) s).
Proof. intros [] Hc. constructor; try done. by apply Forall_insert. Qed.

Lemma sound_send_chan c x : response_typed x -> sound p v X (send_chan c x) any.
Proof.
  intros Hx s r s' Ht Hp H. unfold send_chan in H. destruct (_ !! c) as [ch|] eqn:E; [|done].
  pose proof (Forall_lookup_1 _ _ _ _ (ty_chans _ Ht) E) as Hc. unfold chan_send in H.
  destruct ch as [|y ch]; injection H as <- <-; (split_and!; [|by apply evolves_same; try set_solver|done]);
    apply typed_set_chan; auto.
Qed.

Lemma sound_recv_chan c : sound p v X (recv_chan c) any.
Proof.
  intros s r s' Ht Hp H. unfold recv_chan in H. destruct (_ !! c) as [ch|] eqn:E; [|done].
  pose proof (Forall_lookup_1 _ _ _ _ (ty_chans _ Ht) E) as Hc. unfold chan_recv in H.
  destruct ch as [|y ch]; injection H as <- <-; [done|]. apply Forall_cons_1 in Hc as [_ Hc].
  split_and!; [by apply typed_set_chan|by apply evolves_same; try set_solver|done].
Qed.

(** A method of a track. *)
Definition method {T A} (P : T -> Prop) (m : GM T A) (Q : A -> Prop) : Prop :=
  forall t r t', P t -> m t = Ok (r, t') -> P t' /\ (forall a, r = Ret a -> Q a).

Lemma sound_with_local {A} q (m : GM localTrack.t A) Q :
  method local_typed m Q -> sound p v X (with_local q m) Q.
Proof.
  intros Hm s r s' Ht Hp H. unfold with_local in H. destruct (_ !! q) as [lt|] eqn:E; [|done].
  pose proof (Forall_lookup_1 _ _ _ _ (ty_local _ Ht) E) as Hlt.
  destruct (m lt) as [[r1 lt']| | |] eqn:Em; [|done..]. injection H as <- <-.
  destruct (Hm _ _ _ Hlt Em) as [Hlt' HQ].
  split_and!; [|by apply evolves_same; try set_solver|exact HQ].
  destruct Ht. constructor; try done. by apply Forall_insert.
Qed.

Lemma sound_with_remote {A} q (m : GM RemoteTrack.t A) Q :
  method remote_typed m Q -> sound p v X (with_remote q m) Q.
Proof.
  intros Hm s r s' Ht Hp H. unfold with_remote in H. destruct (_ !! q) as [rt|] eqn:E; [|done].
  pose proof (Forall_lookup_1 _ _ _ _ (ty_remote _ Ht) E) as Hrt.
  destruct (m rt) as [[r1 rt']| | |] eqn:Em; [|done..]. injection H as <- <-.
  destruct (Hm _ _ _ Hrt Em) as [Hrt' HQ].
  split_and!; [|by apply evolves_same; try set_solver|exact HQ].
  destruct Ht. constructor; try done. by apply Forall_insert.
Qed.

End SoundPrimitives.

#[export] Hint Resolve sound_alloc_local sound_alloc_remote sound_make_chan sound_send_chan
  sound_recv_chan : sound.

(** ** The methods of tracks *)

Section Methods.
Context {QV : QuicVarint}.

Lemma method_keeps {T A} (P : T -> Prop) (m : GM T A) : keeps P m -> method P m any.
Proof. intros Hm t r t' Ht H. split; [by eapply Hm|done]. Qed.

Lemma method_get {T A} (P : T -> Prop) (f : T -> A) (Q : A -> Prop) :
  (forall t, P t -> Q (f t)) -> method P (get f) Q.
Proof. intros HQ t r t' Ht [= <- <-]. split; [done|]. intros a [= <-]. auto. Qed.

Hint Resolve keeps_lift_res keeps_check_open keeps_OpenUniStream : go.

Lemma local_openSubgroup g sg prio operr werr :
  keeps local_typed (localTrack.openSubgroup g sg prio operr werr).
Proof.
  unfold localTrack.openSubgroup. do 2 (apply keeps_bind; [keeps_auto|intros]).
  apply keeps_bind; [|intros; keeps_auto]. apply keeps_modify. intros lt (H1 & H2 & H3).
  split; [done|]. split; [done|]. apply Z.mod_pos_bound. lia.
Qed.

Lemma local_sendDatagram o serr : keeps local_typed (localTrack.sendDatagram o serr).
Proof. unfold localTrack.sendDatagram. keeps_auto. Qed.

Lemma local_getFetchStream operr werr : keeps local_typed (localTrack.getFetchStream operr werr).
Proof. unfold localTrack.getFetchStream. keeps_auto. Qed.

(** ** The methods of a remote track *)

Lemma push_typed o r : object_typed o -> remote_typed r -> remote_typed (RemoteTrack.push o r).
Proof.
  intros Ho Hr. unfold RemoteTrack.push. destruct (_ <? _)%nat; [|done]. destruct Hr.
  constructor; try done. cbn. apply Forall_app. split; [done|]. by apply Forall_singleton.
Qed.

Lemma remote_push o : object_typed o -> keeps remote_typed (modify (RemoteTrack.push o)).
Proof. intros Ho. apply keeps_modify. intros r. by apply push_typed. Qed.

Lemma object_of_typed m : object_message_typed m -> object_typed (RemoteTrack.object_of m).
Proof. intros (H1 & H2 & H3). by split_and!. Qed.

Lemma remote_readStream (msgs : list ObjectMessage.t * res unit) :
  Forall object_message_typed msgs.1 -> keeps remote_typed (RemoteTrack.readStream msgs).
Proof.
  intros Hm rt r rt' Hr H. unfold RemoteTrack.readStream in H.
  assert (remote_typed (foldl (fun r m => RemoteTrack.push (RemoteTrack.object_of m) r) rt msgs.1)) as Hf.
  { clear H. revert rt Hr. induction Hm as [|m ms Hm Hms IH]; intros rt Hr; [done|]. cbn.
    by apply IH, push_typed, Hr; apply object_of_typed. }
  destruct msgs.2; try case_bool_decide; simplify_eq/=; done.
Qed.

(** The counters wrap at 64 bits. *)
Lemma counts_typed r sg f :
  remote_typed r -> is_uint64 sg -> is_uint64 f -> remote_typed (RemoteTrack.set_counts r sg f).
Proof. intros [] Hs Hf. by constructor. Qed.

Lemma uint64_typed x : is_uint64 (uint64 x).
Proof. apply Z.mod_pos_bound. lia. Qed.

Lemma remote_readFetchStream msgs :
  Forall object_message_typed msgs.1 -> keeps remote_typed (RemoteTrack.readFetchStream msgs).
Proof.
  intros Hm. unfold RemoteTrack.readFetchStream. apply keeps_bind.
  { apply keeps_modify. intros r Hr. apply counts_typed; [done|apply Hr|apply uint64_typed]. }
  intros _. apply keeps_bind; [apply keeps_get|intros n].
  destruct (_ >? _); [apply keeps_throw|by apply remote_readStream].
Qed.

Lemma remote_readSubgroupStream msgs :
  Forall object_message_typed msgs.1 -> keeps remote_typed (RemoteTrack.readSubgroupStream msgs).
Proof.
  intros Hm. unfold RemoteTrack.readSubgroupStream. apply keeps_bind; [|intros _; by apply remote_readStream].
  apply keeps_modify. intros r Hr. apply counts_typed; [done|apply uint64_typed|apply Hr].
Qed.

(** What SUBSCRIBE_OK says of a track. *)
Lemma info_typed r e g b l pp :
  remote_typed r -> is_int64 e -> is_uint8 g -> from_option location_typed True l -> params_typed pp ->
  remote_typed (RemoteTrack.set_info r e g b l pp).
Proof. intros [] He Hg Hl Hp. by constructor. Qed.

Lemma new_remote_typed id f b : is_uint64 id -> remote_typed (RemoteTrack.newRemoteTrack id f b).
Proof. intros Hid. constructor; try done; constructor. Qed.

End Methods.
