(* ===== verification/Typing.v ===== *)
(** The operations of a session keep the types of its values and change what
    [evolves] (WellTyped.v) allows: one lemma per operation, up to every event
    of an execution, and the theorem that every session reached by typed events
    is typed. *)

From stdpp Require Import sets.
From S2P Require Import Prelude VarInt Codec WireTypes Messages ControlMessages Params.
From S2P Require Import Framing ParserSafety Errors State RequestID TrackMaps Objects Tracks Announcements.
From S2P Require Import SessionState Session SessionInv SessionSafety.
From S2P Require Import WellTyped.
Local Open Scope Z_scope.
Local Open Scope go_scope.

(** * The operations of a session *)

Section SoundOperations.
Context {QV : QuicVarint} {MR : MapRange} (p : Perspective) (v : Z) (X : gset Z).

Abbreviation sound := (sound p v X).

Lemma sound_local_keeps {A} q (m : GM localTrack.t A) :
  keeps local_typed m -> sound (with_local q m) any.
Proof. intros Hm. by apply sound_with_local, method_keeps. Qed.

Lemma sound_remote_keeps {A} q (m : GM RemoteTrack.t A) :
  keeps remote_typed m -> sound (with_remote q m) any.
Proof. intros Hm. by apply sound_with_remote, method_keeps. Qed.

Lemma sound_local_requestID lt : sound (local_requestID lt) is_uint64.
Proof. apply sound_with_local, method_get. by intros t []. Qed.

Lemma sound_remote_requestID rt : sound (with_remote rt (get RemoteTrack.requestID)) is_uint64.
Proof. apply sound_with_remote, method_get. apply rty_requestID. Qed.

Lemma sound_remote_get {A} (f : RemoteTrack.t -> A) rt :
  sound (with_remote rt (get (fun r => (f r, RemoteTrack.requestID r)))) (fun x => is_uint64 x.2).
Proof. apply sound_with_remote, method_get. apply rty_requestID. Qed.

Lemma sound_close_count lt :
  sound (with_local lt (fun q => let '(c, q) := localTrack.close q in Ok (Ret c, q)))
    (fun c => from_option is_uint64 True c).
Proof.
  apply sound_with_local. intros t r t' (H1 & H2 & H3) [= <- <-]. split; [done|].
  intros a [= <-]. by destruct (localTrack.subscribeDone t).
Qed.

(** ** Request IDs *)

Lemma sound_nextID :
  sound (on Session.requestIDs Session.set_requestIDs requestIDGenerator.next)
    (fun r => is_uint64 r.1).
Proof.
  apply sound_on. intros s Ht. unfold requestIDGenerator.next.
  destruct (Z.geb_spec (requestIDGenerator.id (Session.requestIDs s))
              (requestIDGenerator.max (Session.requestIDs s))) as [Hb|Hb].
  - split; [apply Ht|]. split; [by destruct Ht|by apply evolves_same; try set_solver].
  - split; [apply Ht|]. split.
    + destruct Ht. constructor; try done. apply Z.mod_pos_bound. lia.
    + pose proof (ty_id _ Ht) as Hid. pose proof (ty_interval _ Ht) as Hi. unfold is_uint64 in Hid.
      constructor; cbn; try done; try lia; [by exists []; rewrite app_nil_r| |set_solver].
      intros _. unfold next_id. cbn. rewrite Hi. etrans; [apply Z.mod_le; lia|lia].
Qed.

Lemma sound_setMax x :
  is_uint64 x -> x <= v ->
  sound (try_ Session.requestIDs Session.set_requestIDs (fun g => requestIDGenerator.setMax g x)) any.
Proof.
  intros Hx Hv. apply sound_try. intros s Ht. unfold requestIDGenerator.setMax.
  destruct (Z.ltb_spec x (requestIDGenerator.max (Session.requestIDs s))); cbn [snd].
  - split; [by destruct Ht|by apply evolves_same; try set_solver].
  - split; [by destruct Ht|]. constructor; cbn; try done; try lia;
      [by exists []; rewrite app_nil_r|unfold next_id; cbn; lia|set_solver].
Qed.

Lemma sound_next_alias : sound (on Session.trackAliases Session.set_trackAliases sequence.next) is_uint64.
Proof.
  apply sound_on. intros s Ht. unfold sequence.next. split; [apply Z.mod_pos_bound; lia|]. split.
  - destruct Ht. constructor; try done. apply Z.mod_pos_bound. lia.
  - apply evolves_same; try done. set_solver.
Qed.

(** ** The table of local tracks *)

Definition narrows {A} (f : localTrackMap.t nat -> A * localTrackMap.t nat) : Prop :=
  forall m, dom (localTrackMap.pending (f m).2) ∪ dom (localTrackMap.open (f m).2)
            ⊆ dom (localTrackMap.pending m) ∪ dom (localTrackMap.open m) ∪ X.

Lemma sound_localTracks {A} (f : localTrackMap.t nat -> A * localTrackMap.t nat) :
  narrows f -> (forall m, local_table_typed m -> local_table_typed (f m).2) ->
  sound (on Session.localTracks Session.set_localTracks f) any.
Proof.
  intros Hf Hk. apply sound_on. intros s Ht. specialize (Hf (Session.localTracks s)).
  specialize (Hk _ (ty_localTracks _ Ht)). destruct (f (Session.localTracks s)) as [a m]. split; [done|].
  split; [destruct Ht; by constructor|by apply evolves_same].
Qed.

Lemma narrows_confirm id : narrows (fun m => localTrackMap.confirm m id).
Proof.
  intros m. unfold localTrackMap.confirm. destruct (localTrackMap.pending m !! id) eqn:E; [|set_solver].
  apply elem_of_dom_2 in E. cbn. rewrite dom_delete_L, dom_insert_L. set_solver.
Qed.
Lemma narrows_reject id : narrows (fun m => localTrackMap.reject m id).
Proof.
  intros m. unfold localTrackMap.reject. destruct (localTrackMap.pending m !! id); [|set_solver].
  cbn. rewrite dom_delete_L. set_solver.
Qed.
Lemma narrows_delete id : narrows (fun m => localTrackMap.delete m id).
Proof.
  intros m. unfold localTrackMap.delete. destruct (localTrackMap.findByID m id); [|set_solver].
  cbn. rewrite !dom_delete_L. set_solver.
Qed.
Lemma narrows_add id lt : id ∈ X -> narrows (fun m => localTrackMap.addPending m id lt).
Proof.
  intros Hid m. unfold localTrackMap.addPending. destruct (localTrackMap.pending m !! id); [set_solver|].
  destruct (localTrackMap.open m !! id); cbn; [set_solver|]. rewrite dom_insert_L. set_solver.
Qed.

(** ** The limit on the peer's requests *)

(** The limit is doubled without overflow: an ID in its upper half is a varint. *)
Lemma double_limit max id :
  is_uint64 max -> id <= maxVarInt -> max / 2 <= id ->
  is_uint64 (uint64 (2 * max)) /\ max <= uint64 (2 * max).
Proof.
  unfold is_uint64, maxVarInt. intros Hm Hid Hle.
  assert (2 * max < 2 ^ 64) by (Z.div_mod_to_equations; lia). rewrite uint64_small by lia. lia.
Qed.

Lemma raise_step s (n : Z) r s' :
  typed s -> is_uint64 n -> Session.localMaxRequestID s <= n ->
  write (MaxRequestID (MaxRequestIDMessage.mk n)) (Session.set_localMaxRequestID n s) = Ok (r, s') ->
  typed s' /\ evolves v X s s'.
Proof.
  intros Ht Hn Hle H.
  assert (typed (Session.set_localMaxRequestID n s)) as Ht1 by (destruct Ht; by constructor).
  assert (evolves v X s (Session.set_localMaxRequestID n s)) as He1.
  { constructor; cbn; try done; try lia; [by exists []; rewrite app_nil_r| |set_solver].
    intros Ha. eapply list.Forall_impl; [exact Ha|]. unfold told_at_most. cbn. intros m.
    destruct (Session.perspective s); lia. }
  destruct (write_step v X (MaxRequestID (MaxRequestIDMessage.mk n)) _ r s' Ht1 Hn) as [Ht2 He2];
    [|exact H|split; [done|by etrans]].
  unfold told_at_most. cbn. destruct (Session.perspective s); lia.
Qed.

(** The block that raises the limit [max] of the state it runs in. *)
Lemma raise_limit_step s id u s' :
  typed s -> id <= maxVarInt ->
  (if id >=? Session.localMaxRequestID s / 2 then
     let newMax := uint64 (2 * Session.localMaxRequestID s) in
     _ <- modify (Session.set_localMaxRequestID newMax);
     _ <- attempt (write (MaxRequestID (MaxRequestIDMessage.mk newMax)));
     mret tt
   else mret tt) s = Ok (u, s') ->
  typed s' /\ evolves v X s s'.
Proof.
  intros Ht Hid H. destruct (Z.geb_spec id (Session.localMaxRequestID s / 2)) as [Hge|];
    [|by injection H as <- <-].
  destruct (double_limit _ id (ty_limit s Ht) Hid Hge) as [Hn Hle].
  cbv zeta in H. cbn [gm_bind modify] in H. unfold gm_bind, modify, attempt in H.
  destruct (write _ _) as [[r1 s1]| | |] eqn:E; [|done..]. injection H as <- <-.
  by eapply raise_step.
Qed.

Lemma sound_addLocalTrack id lt :
  id ∈ X -> 0 <= id <= maxVarInt -> sound (addLocalTrack id lt) any.
Proof.
  intros HX [H0 Hid] s r s' Ht Hp H. unfold addLocalTrack in H.
  apply gm_bind_Ok in H as [(max & s1 & [= <- <-] & H)|(e & [=] & _)].
  destruct (id >=? Session.localMaxRequestID s); [by injection H as <- <-|].
  apply gm_bind_Ok in H as [(u & s1 & H1 & H2)|(e & H1 & ->)].
  - destruct (raise_limit_step s id _ s1 Ht Hid H1) as [Ht1 He1].
    assert (Session.perspective s1 = p) as Hp1 by (by rewrite (ev_perspective _ _ _ _ He1)).
    assert (sound (ok <- on Session.localTracks Session.set_localTracks
                    (fun m => localTrackMap.addPending m id lt);
                   if ok then mret tt else throw errDuplicateRequestID) any) as Hs.
    { eapply sound_bind; [apply sound_localTracks; [by apply narrows_add|intros m; apply typed_local_add]
        |intros b _; sound_auto]. unfold is_uint64, maxVarInt in *. lia. }
    destruct (Hs _ _ _ Ht1 Hp1 H2) as (Ht2 & He2 & _). split_and!; [done|by etrans|done].
  - destruct (raise_limit_step s id _ s' Ht Hid H1). by split_and!.
Qed.

Hint Resolve sound_local_requestID sound_remote_requestID sound_remote_get sound_close_count
  sound_nextID sound_next_alias : sound.
Hint Extern 1 (WellTyped.sound _ _ _ (on Session.localTracks _ _) _) =>
  (apply sound_localTracks; [auto using narrows_confirm, narrows_reject, narrows_delete
    |intros; solve [eauto with typed]]) : sound.

(** ** Messages *)

Lemma params_typed_nil : params_typed [].
Proof. constructor. Qed.
Lemma location_zero_typed : location_typed Location.zero.
Proof. by repeat split. Qed.

Hint Resolve params_typed_nil location_zero_typed : typed.
Hint Extern 1 (is_uint64 _) => (by split) : typed.
Hint Extern 1 (is_uint8 _) => (by split) : typed.

(** A write of a message whose fields are known to be typed. *)
Ltac write_typed :=
  apply sound_write; [cbn -[ToWire]; split_and?; eauto with typed|apply Z.le_refl].
Hint Extern 2 (WellTyped.sound _ _ _ (write _) _) => solve [write_typed] : sound.

Lemma sound_getRequestID : sound getRequestID is_uint64.
Proof.
  unfold getRequestID. eapply sound_bind; [apply sound_nextID|]. intros [id [e|]] Hid; cbn in Hid.
  - apply (sound_bind _ _ _ _ _ any); [|intros; apply sound_throw].
    destruct (bool_decide _); [|by apply sound_ret].
    eapply sound_attempt_any, sound_write; [exact Hid|done].
  - by apply sound_ret.
Qed.

Lemma sound_unsubscribe id : is_uint64 id -> sound (unsubscribe id) any.
Proof. intros Hid. by apply sound_write. Qed.
Lemma sound_fetchCancel id : is_uint64 id -> sound (fetchCancel id) any.
Proof. intros Hid. by apply sound_write. Qed.

Lemma sound_RemoteTrack_Close rt : sound (RemoteTrack_Close rt) any.
Proof.
  unfold RemoteTrack_Close. eapply sound_bind; [apply sound_remote_get|]. intros [[] id] Hid;
    [by apply sound_unsubscribe|by apply sound_fetchCancel].
Qed.

Lemma sound_ReadObject rt c ctx : sound (RemoteTrack_ReadObject rt c ctx) any.
Proof.
  apply sound_remote_keeps. intros r x r' Hr H.
  destruct (RemoteTrack.ReadObject c ctx r) as [[[o e] r1]|] eqn:E; injection H as _ <-; [|done].
  destruct c; cbn in E.
  - by destruct ctx; cbn in E; simplify_eq.
  - by destruct (RemoteTrack.doneCtx r); cbn in E; simplify_eq.
  - destruct (RemoteTrack.buffer r) as [|ob b] eqn:Eb; [done|]. injection E as _ _ <-.
    pose proof (rty_buffer _ Hr) as Hb. rewrite Eb in Hb. apply list.Forall_cons_1 in Hb as [_ Hb].
    destruct Hr. by constructor.
Qed.

Lemma subscribe_default_typed : subscribe_options_typed SubscribeOptions.default.
Proof. repeat split; try constructor; vm_compute; congruence. Qed.
Lemma update_default_typed : update_options_typed SubscribeUpdateOptions.default.
Proof. repeat split; try constructor; vm_compute; congruence. Qed.
Lemma ok_default_typed : ok_options_typed SubscribeOkOptions.default.
Proof. repeat split; try constructor; vm_compute; congruence. Qed.

Lemma ToWire_typed pp : params_typed pp -> params_typed (ToWire pp).
Proof. by rewrite ToWire_id. Qed.

Lemma flag_typed b : is_uint8 (boolToUint8 b).
Proof. by destruct b. Qed.

Hint Resolve sound_getRequestID sound_RemoteTrack_Close sound_ReadObject : sound.
Hint Resolve ToWire_typed flag_typed : typed.

Lemma sound_Subscribe_send ns name opts :
  options_typed subscribe_options_typed opts -> sound (Subscribe_send ns name opts) any.
Proof.
  intros Hopts. unfold Subscribe_send. eapply sound_bind; [apply sound_getRequestID|]. intros id Hid.
  destruct (apply_options_typed _ _ _ Hopts subscribe_default_typed) as (H1 & H2 & H3 & H4 & H5 & H6).
  eapply sound_bind; [by apply sound_alloc_remote, new_remote_typed|intros rt _]. sound_auto.
Qed.

Lemma sound_await_track rt ctx : sound (await_track rt ctx) any.
Proof.
  unfold await_track. destruct ctx; [by apply sound_ret|]. apply sound_remote_keeps.
  intros r x r' Hr H. destruct (chan_recv _) as [[e ch]|]; injection H as _ <-; [|done].
  destruct Hr. by constructor.
Qed.
Hint Resolve sound_await_track : sound.

Lemma sound_Subscribe_wait rt ctx : sound (Subscribe_wait rt ctx) any.
Proof. unfold Subscribe_wait. sound_auto. Qed.

Lemma sound_UpdateSubscription id opts :
  is_uint64 id -> options_typed update_options_typed opts -> sound (UpdateSubscription id opts) any.
Proof.
  intros Hid Hopts. unfold UpdateSubscription.
  destruct (apply_options_typed _ _ _ Hopts update_default_typed) as (H1 & H2 & H3 & H4). sound_auto.
Qed.

Lemma sound_RemoteTrack_UpdateSubscription rt opts :
  options_typed update_options_typed opts -> sound (RemoteTrack_UpdateSubscription rt opts) any.
Proof.
  intros Hopts. unfold RemoteTrack_UpdateSubscription.
  eapply sound_bind; [apply sound_remote_get|]. intros [b id] Hid. cbn in *.
  destruct b; [by apply sound_UpdateSubscription|apply sound_throw].
Qed.

Lemma sound_acceptSubscription id opts :
  is_uint64 id -> ok_options_typed opts -> sound (acceptSubscriptionWithOptions id (Some opts)) any.
Proof.
  intros Hid (H1 & H2 & H3 & H4). unfold acceptSubscriptionWithOptions.
  do 2 (eapply sound_bind; [eauto with sound|intros ? _]).
  change (default SubscribeOkOptions.default (Some opts)) with opts. cbv zeta.
  assert (location_typed (match SubscribeOkOptions.ContentExists opts, SubscribeOkOptions.LargestLocation opts with
                          | true, Some l => l | _, _ => Location.zero end)) as Hl.
  { destruct (SubscribeOkOptions.ContentExists opts); [|auto with typed].
    destruct (SubscribeOkOptions.LargestLocation opts); [done|auto with typed]. }
  eauto with sound.
Qed.

Lemma sound_rejectSubscription id code reason :
  is_uint64 code -> sound (rejectSubscription id code reason) any.
Proof. intros Hc. unfold rejectSubscription. sound_auto. Qed.

Lemma sound_subscriptionDone id code count reason :
  is_uint64 code -> is_uint64 count -> sound (subscriptionDone id code count reason) any.
Proof. intros Hc Hn. unfold subscriptionDone. sound_auto. Qed.

Lemma sound_localTrack_close lt code reason :
  is_uint64 code -> sound (localTrack_close lt code reason) any.
Proof.
  intros Hc. unfold localTrack_close. eapply sound_bind; [apply sound_local_requestID|intros id Hid].
  eapply sound_bind; [apply sound_close_count|intros [count|] Hn];
    [by apply sound_subscriptionDone|by apply sound_ret].
Qed.

Lemma sound_Fetch_send ns track : sound (Fetch_send ns track) any.
Proof.
  unfold Fetch_send. eapply sound_bind; [apply sound_getRequestID|]. intros id Hid.
  eapply sound_bind; [by apply sound_alloc_remote, new_remote_typed|intros rt _]. sound_auto.
Qed.

Lemma sound_Fetch_wait rt ctx : sound (Fetch_wait rt ctx) any.
Proof. unfold Fetch_wait. sound_auto. Qed.

Lemma sound_acceptFetch id : is_uint64 id -> sound (acceptFetch id) any.
Proof. intros Hid. unfold acceptFetch. sound_auto. Qed.

Lemma sound_rejectFetch id code reason : is_uint64 code -> sound (rejectFetch id code reason) any.
Proof. intros Hc. unfold rejectFetch. sound_auto. Qed.

Lemma sound_modify_inert (f : Session.t -> Session.t) :
  (forall s, (typed s -> typed (f s)) /\ evolves v X s (f s)) -> sound (modify f) any.
Proof. intros Hf. apply sound_modify. intros s Ht. destruct (Hf s). auto. Qed.

Hint Extern 2 (WellTyped.sound _ _ _ (modify _) _) =>
  (apply sound_modify_inert; let s := fresh "s" in intros s; split;
   [let Ht := fresh in intros Ht; destruct Ht; by constructor
   |apply evolves_same; first [done|cbn; set_solver]]) : sound.

(** A new entry of a table. *)
Lemma sound_add_outgoing a :
  is_uint64 (announcement.requestID a) -> params_typed (announcement.parameters a) ->
  sound (modify (fun s => Session.set_outgoingAnnouncements
    (announcementMap.add (Session.outgoingAnnouncements s) a) s)) any.
Proof.
  intros Hi Hp. apply (sound_modify_field _ _ _ Session.outgoingAnnouncements _ announcements_typed
    (fun m => announcementMap.add m a)). intros m. by apply typed_announcements_add.
Qed.
Lemma sound_add_incoming a :
  is_uint64 (announcement.requestID a) -> params_typed (announcement.parameters a) ->
  sound (modify (fun s => Session.set_incomingAnnouncements
    (announcementMap.add (Session.incomingAnnouncements s) a) s)) any.
Proof.
  intros Hi Hp. apply (sound_modify_field _ _ _ Session.incomingAnnouncements _ announcements_typed
    (fun m => announcementMap.add m a)). intros m. by apply typed_announcements_add.
Qed.
Lemma sound_add_subscribing a :
  is_uint64 (announcementSubscription.requestID a) ->
  sound (modify (fun s => Session.set_pendingOutgointAnnouncementSubscriptions
    (announcementSubscriptionMap.add (Session.pendingOutgointAnnouncementSubscriptions s) a) s)) any.
Proof.
  intros Hi. apply (sound_modify_field _ _ _ Session.pendingOutgointAnnouncementSubscriptions _
    announcement_subscriptions_typed (fun m => announcementSubscriptionMap.add m a)).
  intros m. by apply typed_subscriptions_add.
Qed.
Lemma sound_add_subscribed a :
  is_uint64 (announcementSubscription.requestID a) ->
  sound (modify (fun s => Session.set_pendingIncomingAnnouncementSubscriptions
    (announcementSubscriptionMap.add (Session.pendingIncomingAnnouncementSubscriptions s) a) s)) any.
Proof.
  intros Hi. apply (sound_modify_field _ _ _ Session.pendingIncomingAnnouncementSubscriptions _
    announcement_subscriptions_typed (fun m => announcementSubscriptionMap.add m a)).
  intros m. by apply typed_subscriptions_add.
Qed.
Lemma sound_add_status a :
  is_uint64 (trackStatusRequest.requestID a) ->
  sound (modify (fun s => Session.set_outgoingTrackStatusRequests
    (trackStatusRequestMap.add (Session.outgoingTrackStatusRequests s) a) s)) any.
Proof.
  intros Hi. apply (sound_modify_field _ _ _ Session.outgoingTrackStatusRequests _
    track_status_requests_typed (fun m => trackStatusRequestMap.add m a)).
  intros m. by apply typed_status_add.
Qed.
Hint Resolve sound_add_outgoing sound_add_incoming sound_add_subscribing sound_add_subscribed
  sound_add_status : sound.
Hint Extern 1 (is_uint64 (_.(announcement.requestID))) => assumption : sound.
Hint Extern 1 (is_uint64 (_.(announcementSubscription.requestID))) => assumption : sound.
Hint Extern 1 (is_uint64 (_.(trackStatusRequest.requestID))) => assumption : sound.
Hint Extern 1 (params_typed (_.(announcement.parameters))) => (cbn; auto using params_typed_nil) : sound.
Hint Extern 1 (response_typed (RespErr _)) => exact I : sound.

Lemma sound_RequestTrackStatus_send ns track : sound (RequestTrackStatus_send ns track) any.
Proof. unfold RequestTrackStatus_send. sound_auto. Qed.

Lemma sound_RequestTrackStatus_wait tsr ctx : sound (RequestTrackStatus_wait tsr ctx) any.
Proof. unfold RequestTrackStatus_wait. sound_auto. Qed.

Lemma sound_sendTrackStatus ts : is_uint64 (TrackStatus.StatusCode ts) -> sound (sendTrackStatus ts) any.
Proof. intros H. unfold sendTrackStatus. eauto with sound typed. Qed.

Lemma sound_Announce_send ns : sound (Announce_send ns) any.
Proof. unfold Announce_send. sound_auto. Qed.

Lemma sound_await_err ch ctx : sound (await_err ch ctx) any.
Proof. unfold await_err. sound_auto. Qed.
Hint Resolve sound_await_err : sound.

Lemma sound_acceptAnnouncement id : is_uint64 id -> sound (acceptAnnouncement id) any.
Proof. intros Hid. unfold acceptAnnouncement. sound_auto. Qed.

Lemma sound_Unannounce ns : sound (Session.Unannounce ns) any.
Proof. unfold Session.Unannounce. sound_auto. Qed.

Lemma sound_AnnounceCancel ns code reason :
  is_uint64 code -> sound (Session.AnnounceCancel ns code reason) any.
Proof. intros Hc. unfold Session.AnnounceCancel. sound_auto. Qed.

Lemma sound_SubscribeAnnouncements_send ns : sound (SubscribeAnnouncements_send ns) any.
Proof. unfold SubscribeAnnouncements_send. sound_auto. Qed.

Lemma sound_SubscribeAnnouncements_wait a ctx : sound (SubscribeAnnouncements_wait a ctx) any.
Proof. unfold SubscribeAnnouncements_wait. sound_auto. Qed.

Lemma sound_UnsubscribeAnnouncements ns : sound (UnsubscribeAnnouncements ns) any.
Proof. unfold UnsubscribeAnnouncements. sound_auto. Qed.

(** ** Response writers *)

Lemma sound_try_call m : sound m any -> sound (try_call m) any.
Proof.
  intros Hm. unfold try_call. apply (sound_bind _ _ _ _ _ any); [by eapply sound_attempt_any|].
  intros r _. by apply sound_ret.
Qed.

Lemma sound_try_local {A} lt (m : GM localTrack.t A) : keeps local_typed m -> sound (try_local lt m) any.
Proof.
  intros Hm. unfold try_local. apply (sound_bind _ _ _ _ _ any);
    [by eapply sound_attempt_any, sound_local_keeps|]. intros r _. by apply sound_ret.
Qed.

(** The answer of a call on a writer: the writer still satisfies [P]. *)
Lemma sound_answer {W} (P : W -> Prop) (m : SM (option error)) (w : W) :
  sound m any -> P w -> sound (e <- m; mret (e, w)) (fun r => P r.2).
Proof. intros Hm Hw. apply (sound_bind _ _ _ _ _ any); [done|]. intros e _. by apply sound_ret. Qed.

Definition writer_typed (w : SubscribeResponseWriter.t) : Prop :=
  is_uint64 (SubscribeResponseWriter.id w).

Lemma sound_SubscribeResponseWriter_Reject code reason w :
  is_uint64 code -> writer_typed w ->
  sound (SubscribeResponseWriter_Reject code reason w) (fun r => writer_typed r.2).
Proof.
  intros Hc Hw. apply (sound_answer writer_typed); [|done]. by apply sound_try_call, sound_rejectSubscription.
Qed.

Lemma sound_subscribe_exec c w :
  subscribe_call_typed c -> writer_typed w -> sound (subscribe_exec c w) (fun r => writer_typed r.2).
Proof.
  intros Hc Hw. destruct c; cbn [subscribe_exec subscribe_call_typed] in *.
  - apply (sound_answer writer_typed); [|done]. apply sound_try_call, sound_acceptSubscription; [done|].
    by apply apply_options_typed, ok_default_typed.
  - by apply sound_SubscribeResponseWriter_Reject.
  - apply (sound_answer writer_typed); [|done]. apply sound_try_local, local_sendDatagram.
  - apply (sound_answer writer_typed); [|done]. apply sound_try_local, local_openSubgroup.
  - apply (sound_answer writer_typed); [|done]. by apply sound_try_call, sound_localTrack_close.
Qed.

Definition no_writer {W} (w : W) : Prop := True.

Lemma sound_announcement_exec id c h :
  is_uint64 id -> rw_call_typed c -> sound (announcement_exec id c h) (fun r => no_writer r.2).
Proof.
  intros Hid Hc. destruct c; cbn [announcement_exec rw_call_typed] in *; try apply sound_panic;
    (apply (sound_answer no_writer); [|done]); apply sound_try_call.
  - by apply sound_acceptAnnouncement.
  - unfold rejectAnnouncement. eauto with sound.
Qed.

Lemma sound_announcementSubscription_exec id c h :
  is_uint64 id -> rw_call_typed c ->
  sound (announcementSubscription_exec id c h) (fun r => no_writer r.2).
Proof.
  intros Hid Hc. destruct c; cbn [announcementSubscription_exec rw_call_typed] in *; try apply sound_panic;
    (apply (sound_answer no_writer); [|done]); apply sound_try_call;
    unfold acceptAnnouncementSubscription, rejectAnnouncementSubscription; eauto with sound.
Qed.

Lemma sound_fetch_exec id lt c h :
  is_uint64 id -> rw_call_typed c -> sound (fetch_exec id lt c h) (fun r => no_writer r.2).
Proof.
  intros Hid Hc. destruct c; cbn [fetch_exec rw_call_typed] in *; try apply sound_panic;
    (apply (sound_answer no_writer); [|done]).
  - by apply sound_try_call, sound_acceptFetch.
  - by apply sound_try_call, sound_rejectFetch.
  - apply sound_try_local, local_getFetchStream.
Qed.

Definition status_typed (w : TrackStatus.t * bool) : Prop := is_uint64 (TrackStatus.StatusCode w.1).

Lemma sound_trackStatus_Accept w :
  status_typed w -> sound (trackStatus_Accept w) (fun r => status_typed r.2).
Proof.
  intros Hw. apply (sound_answer status_typed); [|done]. by apply sound_try_call, sound_sendTrackStatus.
Qed.

Lemma sound_trackStatus_Reject w : sound (trackStatus_Reject w) (fun r => status_typed r.2).
Proof. by apply sound_trackStatus_Accept. Qed.

Lemma sound_trackStatus_exec c w :
  rw_call_typed c -> status_typed w -> sound (trackStatus_exec c w) (fun r => status_typed r.2).
Proof.
  intros Hc Hw. destruct c; cbn [trackStatus_exec rw_call_typed] in *.
  - by apply sound_trackStatus_Accept.
  - apply sound_trackStatus_Reject.
  - by apply sound_ret.
  - apply sound_panic.
Qed.

(** ** Handlers *)

Context {App : Application} (Happ : application_typed App).

Lemma sound_run_handler {A W} (PA : A -> Prop) (PW : W -> Prop) (exec : A -> W -> SM (option error * W)) q w :
  (forall a w, PA a -> PW w -> sound (exec a w) (fun r => PW r.2)) ->
  prog_typed PA q -> PW w -> sound (run_handler exec q w) PW.
Proof.
  intros He. revert w. induction q as [|a k IH]; intros w Hq Hw; cbn [run_handler]; [by apply sound_ret|].
  destruct Hq as [Ha Hk]. eapply sound_bind; [by apply He|]. intros [e w'] Hw'. by apply IH.
Qed.

Lemma sound_Handle {W} (PW : W -> Prop) (exec : rw_call -> W -> SM (option error * W)) w m :
  (forall a w, rw_call_typed a -> PW w -> sound (exec a w) (fun r => PW r.2)) ->
  PW w -> sound (Handle exec w m) PW.
Proof.
  intros He Hw. unfold Handle. destruct Handler as [h|] eqn:Eh; [|apply sound_panic].
  eapply sound_run_handler; [exact He|by eapply (handler_typed Happ)|done].
Qed.

Lemma sound_Handle_nil m : sound (Handle nil_exec tt m) any.
Proof.
  apply (sound_any _ _ _ _ no_writer), sound_Handle; [|done]. intros a w _ _. apply sound_panic.
Qed.

Lemma sound_reject_unhandled {W} h (r : SM (option error * W)) Q :
  sound r Q -> sound (reject_unhandled h r) any.
Proof.
  intros Hr. unfold reject_unhandled. destruct h; [by apply sound_ret|].
  eapply sound_bind; [exact Hr|]. intros [[e|] w] _; [apply sound_throw|by apply sound_ret].
Qed.

(** ** Received messages *)

Lemma sound_respond rt e m : sound m any -> sound (respond rt e m) any.
Proof.
  intros Hm. unfold respond. apply (sound_bind _ _ _ _ _ any).
  - apply sound_remote_keeps. intros r x r' Hr H. destruct (chan_send _ _) as [ch sent].
    injection H as _ <-. destruct Hr. by constructor.
  - intros sent _. destruct sent; [by apply sound_ret|done].
Qed.

Lemma sound_confirm_remote id : sound (confirm_remote id) any.
Proof. unfold confirm_remote. sound_auto. Qed.
Lemma sound_reject_remote id : sound (reject_remote id) any.
Proof. unfold reject_remote. sound_auto. Qed.
Lemma sound_close_unhandled rt : sound (close_unhandled rt) any.
Proof. unfold close_unhandled. sound_auto. Qed.
Lemma sound_respond_subscription a e : sound (respond_subscription a e) any.
Proof.
  unfold respond_subscription. destruct (announcementSubscription.response a); [|by apply sound_ret].
  apply (sound_bind _ _ _ _ _ any); [by apply sound_send_chan|]. intros b _. by apply sound_ret.
Qed.
Lemma sound_unsubscribe_local lt : sound (unsubscribe_local lt) any.
Proof. apply sound_local_keeps, keeps_modify. by intros t. Qed.
Lemma sound_close_handshakeDoneCh : sound close_handshakeDoneCh any.
Proof. unfold close_handshakeDoneCh. sound_auto. Qed.
Lemma sound_remote_modify rt (f : RemoteTrack.t -> RemoteTrack.t) :
  (forall r, remote_typed r -> remote_typed (f r)) -> sound (with_remote rt (modify f)) any.
Proof. intros Hf. by apply sound_remote_keeps, keeps_modify. Qed.

Hint Resolve sound_Handle_nil sound_respond sound_confirm_remote sound_reject_remote
  sound_close_unhandled sound_respond_subscription sound_unsubscribe_local
  sound_close_handshakeDoneCh : sound.
Hint Extern 1 (WellTyped.sound _ _ _ (with_remote _ (modify _)) _) =>
  (apply sound_remote_modify; intros ? []; by constructor) : sound.

Lemma new_local_typed id alias b :
  is_uint64 id -> is_uint64 alias -> local_typed (localTrack.newLocalTrack id alias b).
Proof. intros Hid Ha. split; [done|]. split; [done|by split]. Qed.

Lemma sound_onSubscribe m :
  SubscribeMessage.RequestID m ∈ X -> 0 <= SubscribeMessage.RequestID m <= maxVarInt ->
  sound (onSubscribe m) any.
Proof.
  intros HX Hid. assert (is_uint64 (SubscribeMessage.RequestID m)) as Hu
    by (unfold is_uint64, maxVarInt in *; lia).
  unfold onSubscribe. apply (sound_bind _ _ _ _ _ any); [by apply sound_lift_res|intros auth _].
  destruct (negb _); [apply sound_throw|]. cbv zeta.
  eapply sound_bind; [apply sound_next_alias|intros alias Ha].
  eapply sound_bind; [by apply sound_alloc_local, new_local_typed|intros lt _].
  apply (sound_bind _ _ _ _ _ any); [by eapply sound_attempt_any, sound_addLocalTrack|intros [u|e] _].
  - apply (sound_bind _ _ _ _ _ writer_typed).
    + destruct SubscribeHandler as [h|] eqn:Eh; [|by apply sound_ret].
      eapply sound_run_handler; [|by eapply (subscribe_handler_typed Happ)|done].
      intros. by apply sound_subscribe_exec.
    + intros w Hw. eapply sound_reject_unhandled, sound_SubscribeResponseWriter_Reject; [by split|done].
  - destruct (bool_decide _); (apply sound_write; [by split|done]).
Qed.

Lemma sound_onFetch m :
  FetchMessage.RequestID m ∈ X -> 0 <= FetchMessage.RequestID m <= maxVarInt -> sound (onFetch m) any.
Proof.
  intros HX Hid. assert (is_uint64 (FetchMessage.RequestID m)) as Hu
    by (unfold is_uint64, maxVarInt in *; lia).
  unfold onFetch. destruct (negb _); [apply sound_throw|]. cbv zeta.
  eapply sound_bind; [apply sound_next_alias|intros alias Ha].
  eapply sound_bind; [by apply sound_alloc_local, new_local_typed|intros lt _].
  apply (sound_bind _ _ _ _ _ any); [by eapply sound_attempt_any, sound_addLocalTrack|intros [u|e] _].
  - apply (sound_bind _ _ _ _ _ no_writer).
    + apply sound_Handle; [|done]. intros. by apply sound_fetch_exec.
    + intros h _. eapply sound_reject_unhandled, sound_fetch_exec; [done|by split].
  - eapply sound_bind; [by apply sound_rejectFetch; split|intros; apply sound_throw].
Qed.

Lemma sound_onTrackStatusRequest m : sound (onTrackStatusRequest m) any.
Proof.
  unfold onTrackStatusRequest. destruct (negb _); [apply sound_throw|]. cbv zeta.
  apply (sound_bind _ _ _ _ _ status_typed).
  - apply sound_Handle; [|by split]. intros. by apply sound_trackStatus_exec.
  - intros w _. eapply sound_reject_unhandled, sound_trackStatus_Reject.
Qed.

Lemma sound_onAnnounce m :
  is_uint64 (AnnounceMessage.RequestID m) -> params_typed (AnnounceMessage.Parameters m) ->
  sound (onAnnounce m) any.
Proof.
  intros Hid Hpar. unfold onAnnounce. destruct (negb _); [apply sound_throw|]. cbv zeta.
  eapply sound_bind; [eauto with sound|intros ch _].
  eapply sound_bind; [by apply sound_add_incoming|intros u _].
  apply (sound_bind _ _ _ _ _ no_writer).
  - apply sound_Handle; [|done]. intros. by apply sound_announcement_exec.
  - intros h _. eapply sound_reject_unhandled, sound_announcement_exec; [done|by split].
Qed.

Lemma sound_onSubscribeAnnounces m :
  is_uint64 (SubscribeAnnouncesMessage.RequestID m) -> sound (onSubscribeAnnounces m) any.
Proof.
  intros Hid. unfold onSubscribeAnnounces. cbv zeta. eapply sound_bind; [by apply sound_add_subscribed|intros u _].
  apply (sound_bind _ _ _ _ _ no_writer).
  - apply sound_Handle; [|done]. intros. by apply sound_announcementSubscription_exec.
  - intros h _. eapply sound_reject_unhandled, sound_announcementSubscription_exec; [done|by split].
Qed.

Lemma sound_set_version x : is_uint64 x -> sound (modify (Session.set_version x)) any.
Proof.
  intros Hx. apply sound_modify. intros s Ht.
  split; [destruct Ht; by constructor|by apply evolves_same; try set_solver].
Qed.
Lemma sound_set_done : sound (modify (Session.set_handshakeDone true)) any.
Proof. eauto with sound. Qed.
Lemma sound_set_path x : len x <= maxAlloc -> sound (modify (Session.set_path x)) any.
Proof.
  intros Hx. apply sound_modify. intros s Ht.
  split; [destruct Ht; by constructor|by apply evolves_same; try set_solver].
Qed.

Hint Resolve sound_set_done : sound.

Lemma validatePathParameter_len pp b path :
  KVPList.wf pp -> validatePathParameter pp b = Ok path -> len path <= maxAlloc.
Proof.
  intros Hwf H. unfold validatePathParameter in H. destruct (find_first _ pp) as [[i q]|] eqn:E.
  - apply find_first_In in E. destruct (_ && _); [done|]. injection H as <-.
    unfold KVPList.wf in Hwf. rewrite List.Forall_forall in Hwf. by destruct (Hwf _ E) as (_ & _ & ? & _).
  - destruct b; [done|]. injection H as <-. vm_compute. congruence.
Qed.

Lemma varint_uint64 x : 0 <= x <= maxVarInt -> is_uint64 x.
Proof. unfold is_uint64, maxVarInt. lia. Qed.

Lemma parsed_params_typed pp : parsed_params pp -> params_typed pp.
Proof.
  intros [Hwf Hv]. unfold KVPList.wf in Hwf. apply list.Forall_forall. intros q Hq.
  rewrite list.Forall_forall in Hwf, Hv. destruct (Hwf _ Hq) as (H1 & H2 & H3 & _), (Hv _ Hq) as [H4 H5].
  unfold pair_typed, is_uint64, maxVarInt in *. lia.
Qed.

Lemma parsed_location_typed l : parsed_location l -> location_typed l.
Proof. unfold parsed_location, location_typed, Location.wf, is_uint64, maxVarInt. lia. Qed.

Lemma FromWire_typed pp : params_typed pp -> params_typed (FromWire pp).
Proof. by rewrite FromWire_id. Qed.

(** SUBSCRIBE_OK gives its fields to the track. *)
Lemma sound_onSubscribeOk m :
  in_range (SubscribeOk m) -> kept_in_range (SubscribeOk m) -> sound (onSubscribeOk m) any.
Proof.
  intros [[(H1 & H2 & _ & H3 & _) He] _] (Hid & Ha & Hl & Hp). cbn -[Z.pow maxVarInt] in *.
  apply parsed_location_typed in Hl. apply parsed_params_typed in Hp.
  unfold onSubscribeOk. eapply sound_bind; [eauto with sound|intros rt _].
  apply (sound_bind _ _ _ _ _ any).
  { eapply sound_try_field; [typeclasses eauto|]. intros x.
    apply typed_remote_setAlias; apply varint_uint64; lia. }
  intros _ _. apply (sound_bind _ _ _ _ _ any); [|intros; eauto with sound].
  apply sound_remote_modify. intros r Hr. apply info_typed; try done.
  - unfold is_uint8. lia.
  - by destruct (SubscribeOkMessage.ContentExists m).
  - by apply FromWire_typed.
Qed.

(** TRACK_STATUS gives its fields to the caller that waits. *)
Lemma sound_onTrackStatus m : kept_in_range (TrackStatus m) -> sound (onTrackStatus m) any.
Proof.
  intros [Hs Hl]. apply parsed_location_typed in Hl as [Hg Ho]. unfold onTrackStatus.
  do 2 (eapply sound_bind; [eauto with sound|intros ? _]).
  apply (sound_bind _ _ _ _ _ any); [|intros; by apply sound_ret].
  apply sound_send_chan. by split; [apply varint_uint64|].
Qed.

(** What a side is told of the limit on its requests: only a client heeds a
    SERVER_SETUP. *)
Definition limit_received (msg : ControlMessage) : Z :=
  match msg, p with
  | ServerSetup _, PerspectiveServer => 0
  | _, _ => max_announced msg
  end.

(** The requests that open a track at the side that receives them. *)
Definition subscription_id (msg : ControlMessage) : option Z :=
  match msg with
  | Subscribe m => Some (SubscribeMessage.RequestID m)
  | Fetch m => Some (FetchMessage.RequestID m)
  | _ => None
  end.

Lemma supported_uint64 x : x ∈ SupportedVersions -> is_uint64 x.
Proof. unfold SupportedVersions. intros H. set_unfold. destruct_or?; subst; by split. Qed.

Lemma setup_params_typed x : 0 <= x < 2 ^ 64 -> params_typed [KeyValuePair.mk MaxRequestIDParameterKey [] x].
Proof.
  intros Hx. constructor; [|constructor]. split; [by split|]. split; [exact Hx|].
  vm_compute. congruence.
Qed.

Lemma sound_onClientSetup m :
  KVPList.wf (ClientSetupMessage.SetupParameters m) ->
  0 <= getMaxRequestIDParameter (ClientSetupMessage.SetupParameters m) <= maxVarInt ->
  getMaxRequestIDParameter (ClientSetupMessage.SetupParameters m) <= v ->
  sound (onClientSetup m) any.
Proof.
  intros Hwf Hr Hv. unfold onClientSetup.
  apply (sound_bind _ _ _ _ _ (fun q => q = p)); [by apply sound_get|intros ? ->].
  eapply sound_bind; [eauto with sound|intros protocol _].
  destruct (negb _) eqn:E; [apply sound_throw|]. apply negb_false_iff, bool_decide_eq_true in E.
  destruct (find_first _ _) as [[i version]|] eqn:Ev; [|apply sound_throw].
  apply find_first_In in Ev. apply List.in_rev, list_elem_of_In in Ev.
  eapply sound_bind; [by apply sound_set_version, supported_uint64|intros [] _].
  eapply sound_bind; [apply sound_lift_res; intros path; by apply validatePathParameter_len|intros path Hpath].
  eapply sound_bind; [by apply sound_set_path|intros [] _]. cbv zeta.
  apply (sound_bind _ _ _ _ _ any).
  { destruct (_ >? 0); [|by apply sound_ret]. apply sound_setMax; [by apply varint_uint64|done]. }
  intros _ _. apply (sound_bind _ _ _ _ _ any); [|intros; sound_auto].
  apply supported_uint64 in Ev. apply sound_write_limit.
  - split; [|split; [done|by apply setup_params_typed]]. split; [apply Ev|].
    constructor; [|constructor]. repeat split; vm_compute; congruence.
  - intros s Ht Hp. cbn. unfold told_at_most. rewrite Hp, E. lia.
Qed.

Lemma sound_onServerSetup m :
  (p = PerspectiveClient ->
   0 <= getMaxRequestIDParameter (ServerSetupMessage.SetupParameters m) <= maxVarInt /\
   getMaxRequestIDParameter (ServerSetupMessage.SetupParameters m) <= v) ->
  sound (onServerSetup m) any.
Proof.
  intros Hr. unfold onServerSetup.
  apply (sound_bind _ _ _ _ _ (fun q => q = p)); [by apply sound_get|intros ? ->].
  destruct (negb _) eqn:E; [apply sound_throw|]. apply negb_false_iff, bool_decide_eq_true in E.
  destruct (Hr E) as [Hm Hv]. destruct (negb _) eqn:Es; [apply sound_throw|].
  apply negb_false_iff, bool_decide_eq_true in Es.
  eapply sound_bind; [by apply sound_set_version, supported_uint64|intros [] _].
  eapply sound_bind; [by apply sound_setMax; [apply varint_uint64|]|intros [] _]. sound_auto.
Qed.

Lemma sound_receive msg :
  in_range msg -> kept_in_range msg -> limit_received msg <= v ->
  (forall id, subscription_id msg = Some id -> id ∈ X) ->
  sound (receive msg) any.
Proof.
  intros Hin Hk Hv HX. pose proof Hin as (Hr & Hmax & Hid). unfold receive. eapply sound_bind; [apply sound_get_any|intros ready _].
  destruct (negb ready), msg; try apply sound_throw; cbn in Hr, Hmax, Hid, Hv, HX.
  1: by apply sound_onClientSetup; [apply Hr|..].
  1: { apply sound_onServerSetup. intros ->. by split. }
  all: try (by apply sound_onSubscribeOk).
  all: try (by apply sound_onTrackStatus).
  all: unfold onGoAway, onRequestsBlocked, onSubscribeError, onSubscribeUpdate,
      onUnsubscribe, onSubscribeDone, onFetchOk, onFetchError, onFetchCancel,
      onAnnounceOk, onAnnounceError, onUnannounce, onAnnounceCancel,
      onSubscribeAnnouncesOk, onSubscribeAnnouncesError, onUnsubscribeAnnounces.
  all: try solve [sound_auto].
  - apply sound_setMax; [by apply varint_uint64|done].
  - apply sound_onSubscribe; [auto|]. destruct Hr as [Hr _]. lia.
  - apply sound_onFetch; [auto|]. destruct Hr as [Hr _]. lia.
  - apply sound_onTrackStatusRequest.
  - apply sound_onAnnounce; [|by apply parsed_params_typed]. destruct Hr as [Hr _].
    unfold is_uint64, maxVarInt in *. lia.
  - apply sound_onSubscribeAnnounces. destruct Hr as [Hr _]. unfold is_uint64, maxVarInt in *. lia.
Qed.

(** ** The other events *)

Lemma sound_ignore {A} (m : SM A) Q : sound m Q -> sound (ignore m) any.
Proof. intros Hm. unfold ignore. eapply sound_bind; [exact Hm|]. intros. by apply sound_ret. Qed.

Lemma sound_run_call c : call_typed c -> sound (run_call c) any.
Proof.
  intros Hc. destruct c; cbn [run_call call_typed] in *; destruct_and?;
    try (eapply sound_ignore); eauto using sound_Subscribe_send, sound_Subscribe_wait,
      sound_UpdateSubscription, sound_RemoteTrack_UpdateSubscription, sound_ReadObject,
      sound_RemoteTrack_Close, sound_Fetch_send, sound_Fetch_wait, sound_RequestTrackStatus_send,
      sound_RequestTrackStatus_wait, sound_Announce_send, sound_await_err, sound_Unannounce,
      sound_AnnounceCancel, sound_SubscribeAnnouncements_send, sound_SubscribeAnnouncements_wait,
      sound_UnsubscribeAnnouncements, sound_subscribe_exec, sound_announcement_exec,
      sound_announcementSubscription_exec, sound_fetch_exec, sound_trackStatus_exec.
Qed.

Lemma client_setup_typed max path (b : bool) :
  is_uint64 max -> len path <= maxAlloc ->
  let params := [KeyValuePair.mk MaxRequestIDParameterKey [] max] in
  message_typed (ClientSetup (ClientSetupMessage.mk SupportedVersions
    (if b then params ++ [KeyValuePair.mk PathParameterKey path 0] else params))).
Proof.
  intros Hm Hp params.
  assert (params_typed params) as Ht by (by apply setup_params_typed).
  assert (KVPList.wf params) as Hw.
  { constructor; [|constructor]. split_and!; [done|apply Hm|by vm_compute|done]. }
  assert (params_typed (params ++ [KeyValuePair.mk PathParameterKey path 0])) as Ht'.
  { apply Forall_app. split; [done|]. constructor; [|constructor]. by split; [split|split; [split|]]. }
  assert (KVPList.wf (params ++ [KeyValuePair.mk PathParameterKey path 0])) as Hw'.
  { apply Forall_app. split; [done|]. constructor; [|constructor]. by split_and!. }
  split; [split; [by repeat constructor|by destruct b]|]. split; [by repeat constructor|by destruct b].
Qed.

(** The client announces the limit it grants. *)
Lemma sound_Run_start : sound Run_start any.
Proof.
  unfold Run_start. apply (sound_bind _ _ _ _ _ (fun q => q = p)); [by apply sound_get|intros ? ->].
  destruct p eqn:Ep; [|by apply sound_ret]. intros s r s' Ht Hp H. unfold sendClientSetup in H.
  apply gm_bind_Ok in H as [(max & s1 & [= <- <-] & H)|(e & [=] & _)].
  apply gm_bind_Ok in H as [(path & s1 & [= <- <-] & H)|(e & [=] & _)].
  apply gm_bind_Ok in H as [(protocol & s1 & [= <- <-] & H)|(e & [=] & _)].
  pose proof (fun b => client_setup_typed _ _ b (ty_limit _ Ht) (ty_path _ Ht)) as Hm. cbv zeta in H, Hm.
  match type of H with write ?msg _ = _ =>
    assert (message_typed msg /\ max_announced msg <= told_at_most s) as [Hm' Hg] end.
  { unfold told_at_most. rewrite Hp.
    destruct (decide _); (split; [|by apply Z.le_refl]); [apply (Hm true)|apply (Hm false)]. }
  by destruct (write_step v X _ _ _ _ Ht Hm' Hg H) as [? ?].
Qed.

Lemma sound_streams q msgs :
  Forall object_message_typed msgs.1 -> sound (handleUniStream q msgs) any.
Proof.
  intros Hm. unfold handleUniStream, readFetchStream, readSubgroupStream.
  destruct (_ =? _); (do 2 (eapply sound_bind; [eauto with sound|intros ? _])); apply sound_remote_keeps;
    [by apply remote_readFetchStream|by apply remote_readSubgroupStream].
Qed.

Lemma sound_datagram m : datagram_typed m -> sound (receiveDatagram m) any.
Proof.
  intros [Hg Ho]. unfold receiveDatagram. do 2 (eapply sound_bind; [eauto with sound|intros ? _]).
  apply sound_remote_keeps, remote_push. split; [done|]. split; [done|]. by split.
Qed.

End SoundOperations.

(** * Events *)

Section Events.
Context {QV : QuicVarint} {MR : MapRange} {App : Application} (Happ : application_typed App).

(** The limit an event brings to a side, and the request. *)
Definition event_limit (p : Perspective) (e : event) : Z :=
  match e with
  | Receives msg => limit_received p msg
  | _ => 0
  end.

Definition event_requests (e : event) : gset Z :=
  match e with
  | Receives msg => list_to_set (option_list (subscription_id msg))
  | _ => ∅
  end.

Lemma run_event_sound p e :
  event_typed e -> sound p (event_limit p e) (event_requests e) (run_event e) any.
Proof.
  intros He. destruct e as [|c|msg|q msgs|m]; cbn [event_limit event_requests event_typed run_event] in *.
  - apply sound_Run_start.
  - by apply sound_run_call.
  - destruct He. apply sound_receive; [done|done|done|done|]. intros id ->. set_solver.
  - by apply sound_streams.
  - by apply sound_datagram.
Qed.

(** The states a session reaches by typed events. *)
Inductive typed_reachable (p : Perspective) : Session.t -> Prop :=
  | typed_new proto path init ws :
      is_uint64 init -> len path <= maxAlloc ->
      typed_reachable p (Session.set_writes ws (new_session p proto path init))
  | typed_event s e r s' :
      typed_reachable p s -> event_typed e -> run_event e s = Ok (r, s') -> typed_reachable p s'.

Lemma typed_reachable_reachable p s : typed_reachable p s -> reachable p s.
Proof.
  induction 1 as [proto path init ws Hi Hl|s e r s' Hr IH He H]; [apply reachable_new|].
  eapply reachable_step; [exact IH|]. econstructor; [by apply typed_event_valid|exact H].
Qed.

Lemma typed_new_session p proto path init ws :
  is_uint64 init -> len path <= maxAlloc ->
  typed (Session.set_writes ws (new_session p proto path init)).
Proof.
  intros Hi Hl. constructor; cbn; try done; try (by destruct p);
    repeat (apply map_Forall_empty || constructor); done.
Qed.

Lemma run_events_typed p es s s' :
  typed_reachable p s -> Forall event_typed es -> run_events es s = Ok s' -> typed_reachable p s'.
Proof.
  intros Hr Hes. revert s Hr. induction Hes as [|e es He Hes IH]; intros s Hr H; cbn in H.
  - by injection H as <-.
  - destruct (run_event e s) as [[r s1]| | |] eqn:E; [|done..].
    apply (IH s1); [|done]. by eapply typed_event.
Qed.

(** C5: With calls whose arguments are values of their Go types, an application
    whose handlers make only such calls, control messages as the parser delivers
    them and objects with 64-bit IDs, and whatever the transport answers, every
    integer of a session stays within its machine type: the limits, the version
    and the generators; the keys, aliases and entries of all tables of tracks,
    announcements and status requests; every field of every local and remote
    track, its counters and the objects in its buffer among them; the answers in
    its channels; and every field of every message it has written, so that each
    of these can be encoded.  Only the codes inside error values are left out. *)
Theorem session_typed p s :
  typed_reachable p s -> typed s /\ Forall encodable (Session.written s).
Proof.
  intros Hr. assert (typed s) as Ht.
  { induction Hr as [proto path init ws Hi Hl|s e r s' Hr IH He H]; [by apply typed_new_session|].
    destruct (reachable_inv p s (typed_reachable_reachable _ _ Hr)) as [_ Hp].
    by destruct (run_event_sound p e He s r s' IH Hp H). }
  split; [exact Ht|]. eapply list.Forall_impl; [apply Ht|apply typed_encodable].
Qed.

End Events.

(** ** The option functions of the library are typed *)

Section Options.

Ltac option_typed :=
  intros; unfold subscribe_options_typed, ok_options_typed in *; destruct_and?; by split_and?.

Lemma WithSubscriberPriority_typed x o :
  is_uint8 x -> subscribe_options_typed o -> subscribe_options_typed (WithSubscriberPriority x o).
Proof. option_typed. Qed.
Lemma WithSubscribeGroupOrder_typed x o :
  is_uint8 x -> subscribe_options_typed o -> subscribe_options_typed (WithSubscribeGroupOrder x o).
Proof. option_typed. Qed.
Lemma WithFilterType_typed x o :
  is_uint64 x -> subscribe_options_typed o -> subscribe_options_typed (WithFilterType x o).
Proof. option_typed. Qed.
Lemma WithStartLocation_typed l o :
  location_typed l -> subscribe_options_typed o -> subscribe_options_typed (WithStartLocation l o).
Proof. option_typed. Qed.
Lemma WithEndGroup_typed x o :
  is_uint64 x -> subscribe_options_typed o -> subscribe_options_typed (WithEndGroup x o).
Proof. option_typed. Qed.
Lemma WithSubscribeParameters_typed pp o :
  params_typed pp -> subscribe_options_typed o ->
  subscribe_options_typed (WithSubscribeParameters pp o).
Proof. option_typed. Qed.

Lemma set_token_typed token pp :
  len token <= maxAlloc -> params_typed pp -> params_typed (set_token token pp).
Proof.
  intros Ht. induction 1 as [|q pp (H1 & H2 & H3) Hpp IH]; cbn [set_token].
  - constructor; [|constructor]. by split_and!.
  - destruct (_ =? _); constructor; by split_and?.
Qed.

Lemma WithAuthorizationToken_typed token o :
  len token <= maxAlloc -> subscribe_options_typed o ->
  subscribe_options_typed (WithAuthorizationToken token o).
Proof.
  intros Ht Ho. unfold WithAuthorizationToken. destruct (len token >? 0); [|done].
  apply WithSubscribeParameters_typed; [|done]. apply set_token_typed; [done|apply Ho].
Qed.

Lemma WithExpires_typed x o : is_int64 x -> ok_options_typed o -> ok_options_typed (WithExpires x o).
Proof. option_typed. Qed.
Lemma WithLargestLocation_typed l o :
  from_option location_typed True l -> ok_options_typed o -> ok_options_typed (WithLargestLocation l o).
Proof. option_typed. Qed.

End Options.

(** ** At a concrete input *)

(** A client that was given the limit 100, has subscribed with a token and has
    received an object. *)
Definition ex_typed_events : list event :=
  [Starts;
   Receives (ServerSetup (ServerSetupMessage.mk CurrentVersion
     [KeyValuePair.mk MaxRequestIDParameterKey [] 100]));
   Calls (CallSubscribe [[byte.of_Z 97]] [byte.of_Z 98]
     [WithSubscriberPriority 7; WithAuthorizationToken [byte.of_Z 115]]);
   Receives (SubscribeOk (SubscribeOkMessage.mk 0 0 0 1 false Location.zero []));
   ReceivesDatagram (ObjectDatagramMessage.mk 0 3 4 0 None [byte.of_Z 1] 0)].
Definition ex_typed_session : Session.t :=
  match run_events (App := no_handlers) ex_typed_events ex_new with Ok s => s | _ => ex_new end.

Lemma ex_typed_events_typed : Forall event_typed ex_typed_events.
Proof.
  constructor; [exact I|]. constructor.
  - split; [|exact I]. split; [|vm_compute; intuition congruence]. split; [vm_compute; congruence|].
    constructor; [|constructor]. repeat split; vm_compute; congruence.
  - constructor; [|constructor; [|constructor; [|constructor]]].
    + constructor; [|constructor; [|constructor]]; intros o.
      * by apply WithSubscriberPriority_typed.
      * apply WithAuthorizationToken_typed. vm_compute. congruence.
    + split.
      * split; [|unfold maxVarInt; cbn; lia]. cbn -[Z.pow].
        unfold SubscribeOkMessage.wf, Location.wf, KVPList.wf. cbn -[Z.pow]. split; [|lia].
        split_and!; try lia; done || constructor.
      * split; [by vm_compute|]. split; [by vm_compute|]. split; [apply parsed_location_zero|].
        split; constructor.
    + by split.
Qed.

Lemma no_handlers_typed : application_typed no_handlers.
Proof. by constructor. Qed.

Lemma session_typed_witness :
  typed ex_typed_session /\ length (Session.written ex_typed_session) = 2%nat /\
  map RemoteTrack.buffer (Session.remoteHeap ex_typed_session) = [[Object.mk 3 4 0 0 [byte.of_Z 1]]].
Proof.
  destruct (session_typed (App := no_handlers) no_handlers_typed PerspectiveClient ex_typed_session)
    as [H _].
  - apply (run_events_typed (App := no_handlers) PerspectiveClient ex_typed_events ex_new).
    + apply (typed_new (App := no_handlers) PerspectiveClient ProtocolWebTransport [] 10 []);
        [by split|by vm_compute].
    + apply ex_typed_events_typed.
    + vm_compute. reflexivity.
  - split; [exact H|]. split; vm_compute; reflexivity.
Defined.
