(* ===== verification/System.v ===== *)
(** Two sessions connected by a control stream.

    Each side has its session, the number of bytes of the peer's stream it has
    read, and whether its control goroutine still reads.  A step is a local
    event of a side (a call of the application, the start of Run, an object),
    or the arrival of a message: the parser reads it from the bytes the peer has
    written and the reader has not consumed, and the session receives what was
    parsed.  Nothing else links the sides; the interleaving of their steps is
    arbitrary, the sides' transports may refuse writes, and a side may stop
    reading at any time. *)

From stdpp Require Import sets.
From S2P Require Import Prelude VarInt Codec WireTypes Messages ControlMessages Params.
From S2P Require Import Framing ParserSafety Errors State RequestID TrackMaps Objects Tracks Announcements.
From S2P Require Import SessionState Session SessionInv SessionSafety WellTyped Typing.
Local Open Scope Z_scope.
Local Open Scope go_scope.

(** * What becomes of a message on its way *)

Section Transmission.
Context {QV : QuicVarint} {QVL : QuicVarintLaws}.

(** The first field of the parsed message is the one that was written. *)
Lemma run_head {A} x (k : Z -> parser A) (P : A -> Prop) e a :
  0 <= x <= maxVarInt -> spec true (k x) P ->
  run (y ← varint; k y) (qv_enc x ++ e) = Ok a -> P a.
Proof.
  intros Hx Hk H. destruct (rt_varint x ltac:(lia) [] (qv_enc x)) as (e' & He & Hv).
  { by rewrite qv_Append_enc. }
  cbn in He. subst e'. unfold run, mbind, res_bind, M_bind in H. rewrite Hv in H.
  specialize (Hk e). destruct (k x e) as [[a' rest]| | |]; [|done..]. by injection H as <-.
Qed.

Lemma Subscribe_parse_head x e m :
  0 <= x <= maxVarInt -> SubscribeMessage.parse (qv_enc x ++ e) = Ok m ->
  SubscribeMessage.RequestID m = x.
Proof.
  intros Hx. apply (run_head x _ (fun m => SubscribeMessage.RequestID m = x)); [done|]. by spec_solve.
Qed.

Lemma Fetch_parse_head x e m :
  0 <= x <= maxVarInt -> FetchMessage.parse (qv_enc x ++ e) = Ok m -> FetchMessage.RequestID m = x.
Proof.
  intros Hx. apply (run_head x _ (fun m => FetchMessage.RequestID m = x)); [done|]. by spec_solve.
Qed.

(** The messages that tell a limit. *)
Definition tells_limit (msg : ControlMessage) : bool :=
  match msg with ClientSetup _ | ServerSetup _ | MaxRequestID _ => true | _ => false end.

(** They arrive as they were written. *)
Lemma limit_message_exact msg body :
  message_typed msg -> tells_limit msg = true ->
  compileMessage msg = Ok (frame (ControlMessage.Type_ msg) body) ->
  ControlMessage.parse (ControlMessage.Type_ msg) body = Ok msg.
Proof.
  intros Ht Hm Hc. assert (ControlMessage.wf msg /\ ControlMessage.faithful msg) as [Hwf Hf].
  { destruct msg; try discriminate; cbn in Ht; (split; [|done]); [apply Ht..|by destruct Ht]. }
  destruct (compileMessage_frame _ _ _ _ (ControlMessage_reads _ Hwf Hf) Hc) as (body' & Hb & _ & Hp).
  unfold frame in Hb. apply app_inv_head in Hb. by injection Hb as _ _ ->.
Qed.

(** A written message is read as one message: the parser consumes its frame and
    no more, and what it delivers asks for no other request and tells no
    higher limit. *)
Lemma transmitted p msg out rest fin msg' rd :
  message_typed msg -> compileMessage msg = Ok out ->
  ControlMessageParser_Parse (mkReader (out ++ rest) fin) = Ok (msg', rd) ->
  rd = mkReader rest fin /\ event_typed (Receives msg') /\ limit_received p msg' <= Z.max 0 (max_announced msg) /\
  (forall id, subscription_id msg' = Some id -> subscription_id msg = Some id).
Proof.
  intros Ht Hc H. destruct (Parse_frame_outcome (mkReader (out ++ rest) fin)) as [_ Hr].
  destruct (Hr _ _ H) as (Hin & Hkept & _). clear Hr.
  assert (event_typed (Receives msg')) as Hev by (by split).
  pose proof (typed_encodable msg Ht) as He.
  destruct (compileMessage_cases msg He) as [Hcase [Hpanic|[body Hbody]]];
    rewrite ?Hpanic, ?Hbody in Hcase; [congruence|].
  rewrite Hc in Hcase. destruct (Z.gtb_spec (len body) 65535) as [|Hlen]; [done|].
  injection Hcase as ->. rewrite Parse_frame in H by (done || apply Type_bounds).
  destruct (ControlMessage.parse (ControlMessage.Type_ msg) body) as [m'| | |] eqn:Ep; [|done..].
  injection H as -> <-. split; [done|]. split; [done|].
  destruct (tells_limit msg) eqn:Hl.
  { rewrite (limit_message_exact msg body Ht Hl Hc) in Ep. injection Ep as <-. split; [|auto].
    destruct msg, p; cbn -[Z.max]; lia. }
  clear Hin Hkept Hev Hlen Hc. destruct msg; try contradiction; try discriminate Hl; unfold ControlMessage.parse in Ep;
    cbn in Ep; unfold fmap, res_fmap in Ep;
    (match type of Ep with match ?q with _ => _ end = _ => destruct q as [c| | |] eqn:Ec end;
       [injection Ep as <-|done..]; cbn -[Z.max]; split; [destruct p; lia|]; try done).
  - intros id [= <-]. destruct (Subscribe_head m body He Hbody) as [Hid [e ->]].
    by rewrite (Subscribe_parse_head _ _ _ Hid Ec).
  - intros id [= <-]. destruct (Fetch_head m body He Hbody) as [Hid [e ->]].
    by rewrite (Fetch_parse_head _ _ _ Hid Ec).
Qed.

End Transmission.

(** * The system *)

Module side.
Record t := mk {
  session : Session.t;
  consumed : nat;
  reading : bool }.
End side.

(** The states of the two sides. *)
Definition system : Type := Perspective -> side.t.

Definition peer (p : Perspective) : Perspective :=
  match p with
  | PerspectiveClient => PerspectiveServer
  | PerspectiveServer => PerspectiveClient
  end.

Definition update (p : Perspective) (x : side.t) (sy : system) : system :=
  fun q => if decide (q = p) then x else sy q.

Definition session_of (sy : system) (p : Perspective) : Session.t := side.session (sy p).

Section Connected.
Context {QV : QuicVarint} {QVL : QuicVarintLaws} {MR : MapRange} (apps : Perspective -> Application).

(** The bytes of the peer's stream that a side has not read. *)
Definition unread (sy : system) (p : Perspective) : list byte :=
  match stream_bytes (session_of sy (peer p)) with
  | Ok bs => drop (side.consumed (sy p)) bs
  | _ => []
  end.

(** The next message of the stream, and how many bytes it takes. *)
Definition next_message (sy : system) (p : Perspective) (fin : error) : res (ControlMessage * nat) :=
  match ControlMessageParser_Parse (mkReader (unread sy p) fin) with
  | Ok (msg, rd) => Ok (msg, (length (unread sy p) - length (rd_bytes rd))%nat)
  | Err e => Err e
  | Panic => Panic
  | NoFuel => NoFuel
  end.

Definition is_ret {A} (r : ret A) : bool := match r with Ret _ => true | Error _ => false end.

Definition is_local (e : event) : bool := match e with Receives _ => false | _ => true end.

Inductive system_step (sy : system) : system -> Prop :=
  | step_local p e r s' :
      is_local e = true -> event_typed e ->
      run_event (App := apps p) e (session_of sy p) = Ok (r, s') ->
      system_step sy (update p (side.mk s' (side.consumed (sy p)) (side.reading (sy p))) sy)
  | step_deliver p fin msg n r s' :
      side.reading (sy p) = true ->
      next_message sy p fin = Ok (msg, n) ->
      run_event (App := apps p) (Receives msg) (session_of sy p) = Ok (r, s') ->
      system_step sy (update p (side.mk s' (side.consumed (sy p) + n) (is_ret r)) sy)
  | step_stop p :
      system_step sy (update p (side.mk (session_of sy p) (side.consumed (sy p)) false) sy).

(** Both sides before Run: whatever limits they grant. *)
Inductive system_initial : system -> Prop :=
  | initial_system (sy : system) :
      (forall p, exists proto path init ws,
         is_uint64 init /\ len path <= maxAlloc /\
         sy p = side.mk (Session.set_writes ws (new_session p proto path init)) 0 true) ->
      system_initial sy.

Inductive system_reachable : system -> Prop :=
  | system_start sy : system_initial sy -> system_reachable sy
  | system_next sy sy' : system_reachable sy -> system_step sy sy' -> system_reachable sy'.

(** The steps as a function: a schedule of local events and arrivals. *)
Inductive action :=
  | Local (p : Perspective) (e : event)
  | Deliver (p : Perspective).

Definition run_action (a : action) (sy : system) : option system :=
  match a with
  | Local p e =>
      if is_local e then
        match run_event (App := apps p) e (session_of sy p) with
        | Ok (r, s') => Some (update p (side.mk s' (side.consumed (sy p)) (side.reading (sy p))) sy)
        | _ => None
        end
      else None
  | Deliver p =>
      if side.reading (sy p) then
        match next_message sy p io_EOF with
        | Ok (msg, n) =>
            match run_event (App := apps p) (Receives msg) (session_of sy p) with
            | Ok (r, s') => Some (update p (side.mk s' (side.consumed (sy p) + n) (is_ret r)) sy)
            | _ => None
            end
        | _ => None
        end
      else None
  end.

Fixpoint run_schedule (l : list action) (sy : system) : option system :=
  match l with
  | [] => Some sy
  | a :: l => sy ← run_action a sy; run_schedule l sy
  end.

Definition action_typed (a : action) : Prop :=
  match a with Local _ e => event_typed e | Deliver _ => True end.

Lemma run_action_step a sy sy' : action_typed a -> run_action a sy = Some sy' -> system_step sy sy'.
Proof.
  intros Ha H. destruct a as [p e|p]; cbn [run_action] in H.
  - destruct (is_local e) eqn:El; [|done].
    destruct (run_event e _) as [[r s']| | |] eqn:E; [|done..]. injection H as <-. by econstructor.
  - destruct (side.reading (sy p)) eqn:Er; [|done].
    destruct (next_message sy p io_EOF) as [[msg n]| | |] eqn:En; [|done..].
    destruct (run_event _ _) as [[r s']| | |] eqn:E; [|done..]. injection H as <-. by econstructor.
Qed.

Lemma run_schedule_reachable l sy sy' :
  Forall action_typed l -> system_reachable sy -> run_schedule l sy = Some sy' -> system_reachable sy'.
Proof.
  intros Hl. revert sy. induction Hl as [|a l Ha Hl IH]; intros sy Hr H; [by injection H as <-|].
  cbn [run_schedule] in H. destruct (run_action a sy) as [sy1|] eqn:E; [|done]. cbn in H.
  apply (IH sy1); [|exact H]. eapply system_next; [exact Hr|]. by eapply run_action_step.
Qed.

(** * The invariant of one side *)

Record good_side (p : Perspective) (s : Session.t) : Prop := {
  gs_typed : typed s;
  gs_reachable : reachable (App := apps p) p s;
  gs_announced : announced_ok s;
  gs_next : next_id s <= requestIDGenerator.max (Session.requestIDs s) + 1;
}.

(** The requests among the first [k] messages a side has written. *)
Definition sent_requests (k : nat) (s : Session.t) : gset Z :=
  list_to_set (omap subscription_id (take k (Session.written s))).

(** [k] messages of the peer [q] have been read by [s]. *)
Record linked (s : Session.t) (consumed k : nat) (q : Session.t) : Prop := {
  ln_count : (k <= length (Session.written q))%nat;
  ln_bytes : exists bs, compile_all (take k (Session.written q)) = Ok bs /\ length bs = consumed;
  ln_filed : filed s ⊆ sent_requests k q;
  ln_max : requestIDGenerator.max (Session.requestIDs s) <= told_at_most q;
}.

Definition system_inv (sy : system) : Prop :=
  forall p, good_side p (session_of sy p) /\
    exists k, linked (session_of sy p) (side.consumed (sy p)) k (session_of sy (peer p)).

Lemma peer_neq p : peer p <> p.
Proof. by destruct p. Qed.
Lemma peer_peer p : peer (peer p) = p.
Proof. by destruct p. Qed.

Lemma session_update_eq p x sy : session_of (update p x sy) p = side.session x.
Proof. unfold session_of, update. by rewrite decide_True. Qed.
Lemma session_update_ne p q x sy : q <> p -> session_of (update p x sy) q = session_of sy q.
Proof. intros H. unfold session_of, update. by rewrite decide_False. Qed.

(** ** An event of a side *)

Lemma good_event p e s r s' :
  application_typed (apps p) -> event_typed e -> good_side p s ->
  run_event (App := apps p) e s = Ok (r, s') ->
  good_side p s' /\ evolves (event_limit p e) (event_requests e) s s'.
Proof.
  intros Happ He [Ht Hr Ha Hn] H.
  destruct (reachable_inv p s Hr) as [_ Hp].
  destruct (run_event_sound Happ p e He s r s' Ht Hp H) as (Ht' & Hev & _).
  split; [|exact Hev]. constructor; [done| |by apply (ev_announced _ _ _ _ Hev)|by apply (ev_next _ _ _ _ Hev)].
  eapply reachable_step; [exact Hr|]. econstructor; [by apply typed_event_valid|exact H].
Qed.

(** What a side has been sent stays a prefix of what its peer writes. *)
Lemma linked_sender v X s c k q q' :
  linked s c k q -> evolves v X q q' -> linked s c k q'.
Proof.
  intros [Hk Hb Hf Hm] He. destruct (ev_written _ _ _ _ He) as [l Hl].
  assert (take k (Session.written q') = take k (Session.written q)) as Ht
    by (rewrite Hl; by apply take_app_le).
  constructor.
  - rewrite Hl, length_app. lia.
  - by rewrite Ht.
  - unfold sent_requests. by rewrite Ht.
  - etrans; [exact Hm|]. by eapply told_mono.
Qed.

Lemma linked_local s c k q s' :
  typed s -> linked s c k q -> evolves 0 ∅ s s' -> linked s' c k q.
Proof.
  intros Ht [Hk Hb Hf Hm] He. constructor; [done|done| |].
  - etrans; [apply (ev_filed _ _ _ _ He)|]. set_solver.
  - pose proof (ev_max _ _ _ _ He). pose proof (ty_max _ Ht). unfold is_uint64 in *. lia.
Qed.

(** ** The arrival of a message *)

Lemma compile_all_split a b bs :
  compile_all (a ++ b) = Ok bs ->
  exists x y, compile_all a = Ok x /\ compile_all b = Ok y /\ bs = x ++ y.
Proof.
  revert bs. induction a as [|m a IH]; intros bs H; cbn [app compile_all] in *.
  - by exists [], bs.
  - inv_bind H. inv_bind H. injection H as <-. destruct (IH _ E0) as (u & w & Hu & Hw & ->).
    exists (x ++ u), w. rewrite E. cbn. rewrite Hu. cbn. by rewrite app_assoc.
Qed.

(** The unread bytes are the frames of the messages not read. *)
Lemma unread_frames s c k q bs :
  linked s c k q -> stream_bytes q = Ok bs ->
  compile_all (drop k (Session.written q)) = Ok (drop c bs).
Proof.
  intros [_ (pre & Hpre & Hl) _ _] Hbs. unfold stream_bytes in Hbs.
  rewrite <- (take_drop k (Session.written q)) in Hbs.
  apply compile_all_split in Hbs as (x & y & Hx & Hy & ->). rewrite Hy.
  rewrite Hpre in Hx. injection Hx as <-. rewrite <- Hl. by rewrite drop_app_length.
Qed.

(** The parser reads the next message the peer has written. *)
Lemma next_is_written p c k q bs fin msg rd s :
  good_side p q -> linked s c k q -> stream_bytes q = Ok bs ->
  ControlMessageParser_Parse (mkReader (drop c bs) fin) = Ok (msg, rd) ->
  exists m out, Session.written q !! k = Some m /\ compileMessage m = Ok out /\ message_typed m /\
    ControlMessageParser_Parse (mkReader (out ++ rd_bytes rd) fin) = Ok (msg, rd) /\
    drop c bs = out ++ rd_bytes rd.
Proof.
  intros Hq Hl Hbs H. pose proof (unread_frames _ _ _ _ _ Hl Hbs) as Hu.
  destruct (drop k (Session.written q)) as [|m ms] eqn:Ed.
  { injection Hu as Hu. rewrite <- Hu in H. unfold ControlMessageParser_Parse, mbind, M_bind in H.
    by rewrite qv_Read_nil in H. }
  assert (Session.written q !! k = Some m) as Hk.
  { rewrite <- (Nat.add_0_r k), <- lookup_drop, Ed. done. }
  cbn [compile_all] in Hu. inv_bind Hu. inv_bind Hu. injection Hu as Hu.
  pose proof (Forall_lookup_1 _ _ _ _ (ty_written _ (gs_typed _ _ Hq)) Hk) as Ht.
  rewrite <- Hu in *. destruct (transmitted p m _ _ _ _ _ Ht E H) as [-> _]. cbn [rd_bytes].
  by exists m, x.
Qed.

Lemma sent_requests_S k q m :
  Session.written q !! k = Some m ->
  sent_requests (S k) q = sent_requests k q ∪ list_to_set (option_list (subscription_id m)).
Proof.
  intros H. unfold sent_requests. rewrite (take_S_r _ _ _ H), omap_app, list_to_set_app_L.
  f_equal.
Qed.

Lemma linked_deliver p s s' c k q bs fin msg rd :
  good_side p s -> good_side (peer p) q -> linked s c k q -> stream_bytes q = Ok bs ->
  ControlMessageParser_Parse (mkReader (drop c bs) fin) = Ok (msg, rd) ->
  evolves (limit_received p msg) (event_requests (Receives msg)) s s' ->
  linked s' (c + (length (drop c bs) - length (rd_bytes rd))) (S k) q.
Proof.
  intros Hs Hq Hl Hbs H He.
  destruct (next_is_written _ _ _ _ _ _ _ _ _ Hq Hl Hbs H) as (m & out & Hk & Hc & Ht & Hp & Hu).
  destruct (transmitted p m _ _ _ _ _ Ht Hc Hp) as (_ & _ & Hlim & Hsub).
  destruct Hl as [Hcount (pre & Hpre & Hlen) Hf Hm]. constructor.
  - by apply lookup_lt_Some in Hk.
  - exists (pre ++ out). rewrite (take_S_r _ _ _ Hk).
    rewrite (compile_all_app _ _ _ _ Hpre Hc). split; [done|].
    rewrite Hu, !length_app. lia.
  - etrans; [apply (ev_filed _ _ _ _ He)|]. rewrite (sent_requests_S _ _ _ Hk).
    apply union_mono; [done|]. cbn. destruct (subscription_id msg) as [id|]; [|set_solver].
    by rewrite (Hsub id eq_refl).
  - pose proof (ev_max _ _ _ _ He).
    assert (max_announced m <= told_at_most q) as Ha.
    { pose proof (gs_announced _ _ Hq) as Ha. unfold announced_ok in Ha.
      rewrite list.Forall_forall in Ha. apply Ha. by eapply list_elem_of_lookup_2. }
    pose proof (told_nonneg q (gs_typed _ _ Hq)). lia.
Qed.

(** The next message, when [k] have been read. *)
Lemma next_message_linked sy p fin msg n k :
  system_inv sy -> next_message sy p fin = Ok (msg, n) ->
  linked (session_of sy p) (side.consumed (sy p)) k (session_of sy (peer p)) ->
  exists m out rest, Session.written (session_of sy (peer p)) !! k = Some m /\
    compileMessage m = Ok out /\ n = length out /\ message_typed m /\ event_typed (Receives msg) /\
    ControlMessageParser_Parse (mkReader (out ++ rest) fin) = Ok (msg, mkReader rest fin) /\
    (forall id, subscription_id msg = Some id -> subscription_id m = Some id) /\
    (forall s', evolves (limit_received p msg) (event_requests (Receives msg)) (session_of sy p) s' ->
       linked s' (side.consumed (sy p) + n) (S k) (session_of sy (peer p))).
Proof.
  intros Hi Hn Hk. destruct (Hi p) as [Hg _], (Hi (peer p)) as [Hq _].
  destruct (reachable_inv _ _ (gs_reachable _ _ Hq)) as [Hinv _].
  destruct (inv_written _ Hinv) as [bs Hbs].
  unfold next_message, unread in Hn. rewrite Hbs in Hn.
  destruct (ControlMessageParser_Parse _) as [[msg' rd]| | |] eqn:Ep; [|done..].
  injection Hn as -> <-.
  destruct (next_is_written (peer p) _ _ _ _ _ _ _ _ Hq Hk Hbs Ep) as (m & out & Hm & Hc & Ht & Hp & Hu).
  destruct (transmitted p m _ _ _ _ _ Ht Hc Hp) as (Hrd & Hin & _ & Hsub).
  exists m, out, (rd_bytes rd). split_and!; try done.
  - rewrite Hu, length_app. lia.
  - by rewrite <- Hrd.
  - intros s' He. eapply (linked_deliver p); [exact Hg|exact Hq|exact Hk|exact Hbs|exact Ep|exact He].
Qed.

(** ** The invariant holds *)

Context (Happ : forall p, application_typed (apps p)).

Lemma system_inv_initial sy : system_initial sy -> system_inv sy.
Proof.
  intros [sy' H] p. assert (forall q, good_side q (session_of sy' q)) as Hg.
  { intros q. destruct (H q) as (proto & path & init & ws & Hi & Hl & Hq).
    unfold session_of. rewrite Hq. constructor; cbn.
    - by apply typed_new_session.
    - apply reachable_new.
    - constructor.
    - unfold next_id. cbn. by destruct q. }
  split; [apply Hg|]. exists 0%nat.
  pose proof (told_nonneg _ (gs_typed _ _ (Hg (peer p)))).
  destruct (H p) as (proto & path & init & ws & Hi & Hl & Hq).
  unfold session_of in *. rewrite Hq in *. by constructor; cbn; [lia|exists []|set_solver|].
Qed.

(** A step of side [p] that leaves the session [s'] behind. *)
Lemma system_inv_update p x c sy v X :
  system_inv sy -> side.consumed x = c -> good_side p (side.session x) ->
  evolves v X (session_of sy p) (side.session x) ->
  (exists k, linked (side.session x) c k (session_of sy (peer p))) ->
  system_inv (update p x sy).
Proof.
  intros Hi <- Hg He Hl q. destruct (decide (q = p)) as [->|Hne].
  - rewrite session_update_eq, session_update_ne by apply peer_neq. split; [done|].
    unfold update. by rewrite decide_True.
  - assert (q = peer p) as -> by (by destruct q, p).
    rewrite peer_peer, session_update_eq, session_update_ne by apply peer_neq.
    destruct (Hi (peer p)) as [Hgq [k Hk]]. split; [done|]. exists k.
    rewrite peer_peer in Hk. unfold update. rewrite decide_False by apply peer_neq.
    by eapply linked_sender.
Qed.

Lemma system_inv_step sy sy' : system_inv sy -> system_step sy sy' -> system_inv sy'.
Proof.
  intros Hi Hs. destruct Hs as [p e r s' Hl He H|p fin msg n r s' Hrd Hn H|p].
  - destruct (Hi p) as [Hg [k Hk]]. destruct (good_event p e _ r s' (Happ p) He Hg H) as [Hg' Hev].
    eapply system_inv_update; [done|done|done|exact Hev|]. exists k. cbn.
    eapply linked_local; [apply Hg|exact Hk|]. by destruct e.
  - destruct (Hi p) as [Hg [k Hk]].
    destruct (next_message_linked _ _ _ _ _ _ Hi Hn Hk) as (m & out & rest & _ & _ & _ & _ & Hr & _ & _ & Hl).
    destruct (good_event p (Receives msg) _ r s' (Happ p) Hr Hg H) as [Hg' Hev].
    eapply system_inv_update; [done|done|done|exact Hev|]. exists (S k). by apply Hl.
  - destruct (Hi p) as [Hg [k Hk]].
    eapply (system_inv_update p _ _ _ 0 ∅); [done|done|done|done|]. by exists k.
Qed.

Lemma system_reachable_inv sy : system_reachable sy -> system_inv sy.
Proof. induction 1; [by apply system_inv_initial|by eapply system_inv_step]. Qed.

(** ** Requests in flight *)

(** The IDs a side has used are below the limit it was told. *)
Lemma request_ids_below p s :
  good_side p s ->
  Forall (fun id => 0 <= id < requestIDGenerator.max (Session.requestIDs s) /\
                    id mod 2 = perspective_uint64 p) (request_ids s).
Proof.
  intros [_ Hr _ Hn]. destruct (reachable_fresh p s Hr) as (_ & Hf & _).
  destruct (reachable_inv p s Hr) as [Hi Hp]. pose proof (inv_parity s Hi) as Hpar.
  rewrite Hp in *. eapply list.Forall_impl; [exact Hf|]. cbn. intros id [Hid Hmod].
  split; [|done]. fold (next_id s) in Hpar. split; [lia|].
  destruct (Z.eq_dec id (next_id s - 1)) as [->|]; [|lia].
  exfalso. rewrite <- Hpar in Hmod. clear - Hmod. Z.div_mod_to_equations. lia.
Qed.

Lemma subscription_request msg id : subscription_id msg = Some id -> request_id msg = Some id.
Proof. by destruct msg. Qed.

(** A request that has not been read is none of those that have. *)
Lemma sent_requests_fresh k s m id :
  NoDup (request_ids s) -> Session.written s !! k = Some m -> subscription_id m = Some id ->
  id ∉ sent_requests k s.
Proof.
  intros Hd Hk Hid Hin. unfold sent_requests in Hin.
  apply elem_of_list_to_set, list_elem_of_omap in Hin as (m' & Hin & Hid').
  unfold request_ids in Hd. rewrite <- (take_drop k (Session.written s)), omap_app in Hd.
  apply NoDup_app in Hd as (_ & Hd & _). apply (Hd id).
  - apply list_elem_of_omap. exists m'. split; [done|]. by apply subscription_request.
  - apply list_elem_of_omap. exists m. split; [|by apply subscription_request].
    apply (list_elem_of_lookup_2 _ 0). by rewrite lookup_drop, Nat.add_0_r.
Qed.

(** addLocalTrack takes a request that is within the limit and new. *)
Lemma addLocalTrack_accepts id lt s r s' :
  id < Session.localMaxRequestID s -> id ∉ filed s -> addLocalTrack id lt s = Ok (r, s') -> r = Ret tt.
Proof.
  intros Hid Hf H. unfold addLocalTrack in H.
  apply gm_bind_Ok in H as [(max & s1 & [= <- <-] & H)|(e & [=] & _)].
  replace (id >=? Session.localMaxRequestID s) with false in H by lia.
  apply gm_bind_Ok in H as [(u & s1 & H1 & H2)|(e & H1 & ->)].
  - assert (Session.localTracks s1 = Session.localTracks s) as Hl.
    { destruct (id >=? _); [|by injection H1 as _ <-].
      unfold gm_bind, modify, attempt in H1. destruct (write _ _) as [[r1 s2]| | |] eqn:Ew; [|done..].
      injection H1 as _ <-. unfold write in Ew.
      destruct (compileMessage _); [|by injection Ew as _ <-|done..].
      cbn in Ew. destruct (Session.writes s) as [|[e|] ws]; by injection Ew as _ <-. }
    unfold gm_bind, on, localTrackMap.addPending in H2. rewrite Hl in H2. unfold filed in Hf.
    destruct (localTrackMap.pending _ !! id) eqn:Ep; [apply elem_of_dom_2 in Ep; set_solver|].
    destruct (localTrackMap.open _ !! id) eqn:Eo; [apply elem_of_dom_2 in Eo; set_solver|].
    by injection H2 as <- _.
  - destruct (id >=? _); [|done]. unfold gm_bind, modify, attempt in H1.
    by destruct (write _ _) as [[r1 s2]| | |].
Qed.

(** * Properties *)

(** C6: Flow control between two connected sessions.  Whatever both
    applications do and however their steps and the arrival of messages
    interleave: no side ever believes in a higher limit than the other enforces,
    with one exception, a server whose limit is below 100: it announces 100 all
    the same, and its client believes in at most that.  Every SUBSCRIBE, FETCH,
    ANNOUNCE and SUBSCRIBE_ANNOUNCES a side has written has an ID of its parity
    below the limit it was told. *)
Theorem limits_agree sy p :
  system_reachable sy ->
  let learnt := requestIDGenerator.max (Session.requestIDs (session_of sy p)) in
  let enforced := Session.localMaxRequestID (session_of sy (peer p)) in
  (learnt <= enforced \/ (peer p = PerspectiveServer /\ enforced < learnt <= 100)) /\
  Forall (fun id => 0 <= id < learnt /\ id mod 2 = perspective_uint64 p)
    (request_ids (session_of sy p)).
Proof.
  intros Hr. destruct (system_reachable_inv sy Hr p) as [Hg [k [_ _ _ Hm]]]. cbv zeta.
  split; [|by apply request_ids_below].
  destruct (system_reachable_inv sy Hr (peer p)) as [Hq _]. unfold told_at_most in Hm.
  destruct (reachable_inv _ _ (gs_reachable _ _ Hq)) as [_ Hp]. rewrite Hp in Hm.
  destruct (peer p); [by left|]. destruct (Z_le_gt_dec (requestIDGenerator.max (Session.requestIDs (session_of sy p)))
    (Session.localMaxRequestID (session_of sy PerspectiveServer))); [by left|right]. split; [done|lia].
Qed.

(** C7: No false refusals between two connected sessions.  When the next message
    on a side's control stream is a SUBSCRIBE or a FETCH, and the side, if it is
    a server, enforces no less than the limit of 100 it announces (a limit only
    grows, so that an InitialMaxRequestID of 100 or more is enough), then the
    request is below the limit, not of the side's own parity and not yet known,
    and addLocalTrack accepts it: the request is answered neither with too many
    requests nor as a duplicate. *)
Theorem requests_accepted sy p fin msg n id lt r s' :
  system_reachable sy ->
  next_message sy p fin = Ok (msg, n) -> subscription_id msg = Some id ->
  (p = PerspectiveServer -> 100 <= Session.localMaxRequestID (session_of sy p)) ->
  0 <= id < Session.localMaxRequestID (session_of sy p) /\
  id mod 2 = perspective_uint64 (peer p) /\ (id ∉ filed (session_of sy p)) /\
  (addLocalTrack id lt (session_of sy p) = Ok (r, s') -> r = Ret tt).
Proof.
  intros Hr Hn Hid H100. pose proof (system_reachable_inv sy Hr) as Hi.
  destruct (Hi p) as [_ [k Hk]].
  destruct (next_message_linked _ _ _ _ _ _ Hi Hn Hk) as (m & out & rest & Hm & _ & _ & _ & _ & _ & Hsub & _).
  apply Hsub in Hid. destruct (Hi (peer p)) as [Hq [k' Hk']]. rewrite peer_peer in Hk'.
  pose proof (request_ids_below _ _ Hq) as Hb. rewrite list.Forall_forall in Hb.
  assert (id ∈ request_ids (session_of sy (peer p))) as Hin.
  { apply list_elem_of_omap. exists m. split; [by eapply list_elem_of_lookup_2|by apply subscription_request]. }
  destruct (Hb _ Hin) as [Hlt Hpar].
  assert (told_at_most (session_of sy p) <= Session.localMaxRequestID (session_of sy p)) as Hgr.
  { unfold told_at_most. destruct (reachable_inv _ _ (gs_reachable _ _ (proj1 (Hi p)))) as [_ ->].
    destruct p; [lia|]. specialize (H100 eq_refl). lia. }
  assert (0 <= id < Session.localMaxRequestID (session_of sy p)) as Hrange.
  { pose proof (ln_max _ _ _ _ Hk'). lia. }
  assert (id ∉ filed (session_of sy p)) as Hfresh.
  { intros Hf. apply (ln_filed _ _ _ _ Hk) in Hf. revert Hf. eapply sent_requests_fresh; [|done|done].
    by destruct (reachable_fresh _ _ (gs_reachable _ _ Hq)). }
  split_and!; try done; try lia. apply addLocalTrack_accepts; [lia|done].
Qed.

End Connected.

(** ** At a concrete input *)

Definition ex_apps : Perspective -> Application := fun _ => no_handlers.

(** A client that grants 10 requests and a server that grants 100, not started. *)
Definition ex_system : system := fun p =>
  side.mk (Session.set_writes []
    (new_session p ProtocolWebTransport []
       (match p with PerspectiveClient => 10 | PerspectiveServer => 100 end))) 0 true.

(** The handshake, and a SUBSCRIBE that has not arrived. *)
Definition ex_schedule : list action :=
  [Local PerspectiveClient Starts; Local PerspectiveServer Starts;
   Deliver PerspectiveServer; Deliver PerspectiveClient;
   Local PerspectiveClient (Calls (CallSubscribe [[byte.of_Z 97]] [byte.of_Z 98] []))].

Definition ex_in_flight : system :=
  match run_schedule ex_apps ex_schedule ex_system with Some sy => sy | None => ex_system end.

Lemma ex_in_flight_reachable : system_reachable ex_apps ex_in_flight.
Proof.
  apply (run_schedule_reachable ex_apps ex_schedule ex_system).
  - repeat constructor.
  - apply system_start. constructor. intros p. exists ProtocolWebTransport, [].
    exists (match p with PerspectiveClient => 10 | PerspectiveServer => 100 end), [].
    split; [by destruct p|]. split; [by vm_compute|done].
  - assert (match run_schedule ex_apps ex_schedule ex_system with Some _ => true | None => false end
            = true) as Hrun by (vm_compute; reflexivity).
    unfold ex_in_flight. by destruct (run_schedule ex_apps ex_schedule ex_system).
Qed.

Lemma ex_apps_typed p : application_typed (ex_apps p).
Proof. apply no_handlers_typed. Qed.

(** The client learns the server's limit of 100; a server that enforces 10 is
    the exception. *)
Definition ex_low : system :=
  let init := fun p => side.mk (Session.set_writes []
    (new_session p ProtocolWebTransport [] 10)) 0 true in
  match run_schedule ex_apps ex_schedule init with Some sy => sy | None => init end.

Lemma limits_agree_witness :
  requestIDGenerator.max (Session.requestIDs (session_of ex_in_flight PerspectiveClient)) = 100 /\
  Forall (fun id => 0 <= id < 100 /\ id mod 2 = 0) (request_ids (session_of ex_in_flight PerspectiveClient)) /\
  requestIDGenerator.max (Session.requestIDs (session_of ex_low PerspectiveClient)) = 100 /\
  Session.localMaxRequestID (session_of ex_low PerspectiveServer) = 10.
Proof.
  split; [vm_compute; reflexivity|]. split; [|split; vm_compute; reflexivity].
  exact (proj2 (limits_agree ex_apps ex_apps_typed ex_in_flight PerspectiveClient ex_in_flight_reachable)).
Defined.

(** The SUBSCRIBE in flight reaches the server with ID 0, which accepts it. *)
Lemma requests_accepted_witness :
  exists msg n, next_message ex_in_flight PerspectiveServer io_EOF = Ok (msg, n) /\
    subscription_id msg = Some 0 /\ 0 ∉ filed (session_of ex_in_flight PerspectiveServer).
Proof.
  exists (Subscribe (SubscribeMessage.mk 0 [[byte.of_Z 97]] [byte.of_Z 98] 128 GroupOrderAscending 1
    FilterTypeLatestObject (Location.mk 0 0) 0 [])), 14%nat.
  assert (next_message ex_in_flight PerspectiveServer io_EOF =
    Ok (Subscribe (SubscribeMessage.mk 0 [[byte.of_Z 97]] [byte.of_Z 98] 128 GroupOrderAscending 1
      FilterTypeLatestObject (Location.mk 0 0) 0 []), 14%nat)) as Hn by (vm_compute; reflexivity).
  split; [exact Hn|]. split; [reflexivity|].
  destruct (requests_accepted ex_apps ex_apps_typed ex_in_flight PerspectiveServer io_EOF _ _ 0 0
    (Ret tt) (session_of ex_in_flight PerspectiveServer) ex_in_flight_reachable Hn eq_refl)
    as (_ & _ & H & _); [intros _; vm_compute; congruence|exact H].
Defined.
