(* ===== verification/SystemQueue.v ===== *)
(** The control stream between two sessions implements two queues of messages.

    The abstract system has no bytes: each side has an inbox of the messages its
    peer has written and it has not received.  [arrives] is what the codec makes
    of one message (itself, for the messages it carries without loss).  Every
    state that the system of System.v reaches, with its byte streams, framing,
    offsets and parser, is one that the abstract system reaches, with the same
    sessions: messages arrive whole, once, and in the order of writing. *)

From stdpp Require Import sets.
From S2P Require Import Prelude VarInt Codec WireTypes Messages ControlMessages Params.
From S2P Require Import Framing ParserSafety Errors State RequestID TrackMaps Objects Tracks Announcements.
From S2P Require Import SessionState Session SessionInv SessionSafety WellTyped Typing System.
Local Open Scope Z_scope.
Local Open Scope go_scope.

(** * The abstract system *)

Module queues.
Record t := mk {
  session : Perspective -> Session.t;
  inbox : Perspective -> list ControlMessage;
  reading : Perspective -> bool }.
End queues.

(** The value of one side is replaced. *)
Definition set_at {A} (p : Perspective) (x : A) (f : Perspective -> A) : Perspective -> A :=
  fun q => if decide (q = p) then x else f q.

Section Queues.
Context {QV : QuicVarint} {QVL : QuicVarintLaws} {MR : MapRange} (apps : Perspective -> Application).

Definition arrives (m msg : ControlMessage) : Prop :=
  exists out, compileMessage m = Ok out /\
    ControlMessageParser_Parse (mkReader out io_EOF) = Ok (msg, mkReader [] io_EOF).

Inductive queue_step (qs : queues.t) : queues.t -> Prop :=
  | queue_local p e r s' new :
      is_local e = true -> event_typed e ->
      run_event (App := apps p) e (queues.session qs p) = Ok (r, s') ->
      Session.written s' = Session.written (queues.session qs p) ++ new ->
      queue_step qs (queues.mk (set_at p s' (queues.session qs))
        (set_at (peer p) (queues.inbox qs (peer p) ++ new) (queues.inbox qs)) (queues.reading qs))
  | queue_deliver p m ms msg r s' new :
      queues.reading qs p = true -> queues.inbox qs p = m :: ms -> arrives m msg ->
      run_event (App := apps p) (Receives msg) (queues.session qs p) = Ok (r, s') ->
      Session.written s' = Session.written (queues.session qs p) ++ new ->
      queue_step qs (queues.mk (set_at p s' (queues.session qs))
        (set_at (peer p) (queues.inbox qs (peer p) ++ new) (set_at p ms (queues.inbox qs)))
        (set_at p (is_ret r) (queues.reading qs)))
  | queue_stop p :
      queue_step qs (queues.mk (queues.session qs) (queues.inbox qs)
        (set_at p false (queues.reading qs))).

(** Sessions that have not run, and empty inboxes. *)
Inductive queue_initial : queues.t -> Prop :=
  | initial_queues sessions :
      (forall p, exists proto path init ws, is_uint64 init /\ len path <= maxAlloc /\
         sessions p = Session.set_writes ws (new_session p proto path init)) ->
      queue_initial (queues.mk sessions (fun _ => []) (fun _ => true)).

Inductive queue_reachable : queues.t -> Prop :=
  | queue_start qs : queue_initial qs -> queue_reachable qs
  | queue_next qs qs' : queue_reachable qs -> queue_step qs qs' -> queue_reachable qs'.

(** * The abstraction relation *)

(** The inbox of a side holds the messages whose bytes it has not read. *)
Definition represents_side (sy : system) (qs : queues.t) (p : Perspective) : Prop :=
  queues.session qs p = session_of sy p /\ queues.reading qs p = side.reading (sy p) /\
  exists k, linked (session_of sy p) (side.consumed (sy p)) k (session_of sy (peer p)) /\
    queues.inbox qs p = drop k (Session.written (session_of sy (peer p))).

Definition represents (sy : system) (qs : queues.t) : Prop := forall p, represents_side sy qs p.

Lemma set_at_eq {A} p (x : A) f : set_at p x f p = x.
Proof. unfold set_at. by rewrite decide_True. Qed.
Lemma set_at_ne {A} p q (x : A) f : q <> p -> set_at p x f q = f q.
Proof. intros H. unfold set_at. by rewrite decide_False. Qed.

(** The offset determines how many messages were read. *)
Lemma arrival m out rest fin msg rd :
  message_typed m -> compileMessage m = Ok out ->
  ControlMessageParser_Parse (mkReader (out ++ rest) fin) = Ok (msg, rd) -> arrives m msg.
Proof.
  intros Ht Hc H. exists out. split; [done|].
  destruct (compileMessage_cases m (typed_encodable m Ht)) as [Hcase [Hp|[body Hb]]];
    rewrite ?Hp, ?Hb in Hcase; [congruence|].
  destruct (Z.gtb_spec (len body) 65535); [congruence|]. rewrite Hcase in Hc. injection Hc as <-.
  rewrite <- (app_nil_r (frame _ body)).
  rewrite Parse_frame in H |- * by (done || apply Type_bounds).
  destruct (ControlMessage.parse _ body); [|done..]. by injection H as -> _.
Qed.

(** The step of one side, when the inbox of the other is extended by what was
    written. *)
Lemma represents_update sy qs p x ib new rd k v X :
  represents sy qs ->
  evolves v X (session_of sy p) (side.session x) ->
  Session.written (side.session x) = Session.written (session_of sy p) ++ new ->
  linked (side.session x) (side.consumed x) k (session_of sy (peer p)) ->
  ib p = drop k (Session.written (session_of sy (peer p))) ->
  ib (peer p) = queues.inbox qs (peer p) ++ new ->
  rd p = side.reading x -> rd (peer p) = queues.reading qs (peer p) ->
  represents (update p x sy) (queues.mk (set_at p (side.session x) (queues.session qs)) ib rd).
Proof.
  intros Hrep He Hw Hl Hib Hib' Hrd Hrd' q. destruct (decide (q = p)) as [->|Hne].
  - unfold represents_side. cbn. rewrite set_at_eq, session_update_eq.
    rewrite session_update_ne by apply peer_neq.
    unfold update at 1 2. rewrite decide_True by done. split_and!; [done|done|]. by exists k.
  - assert (q = peer p) as -> by (by destruct q, p).
    destruct (Hrep (peer p)) as (Hs & Hr & k' & Hk' & Hi'). rewrite peer_peer in *.
    unfold represents_side. cbn. rewrite set_at_ne by apply peer_neq.
    rewrite peer_peer, session_update_eq. rewrite session_update_ne by apply peer_neq.
    unfold update at 1 2. rewrite decide_False by apply peer_neq. split_and!; [done|by rewrite Hrd'|].
    exists k'. split; [by eapply linked_sender|].
    rewrite Hib', Hi', Hw. symmetry. apply drop_app_le. apply (ln_count _ _ _ _ Hk').
Qed.

Context (Happ : forall p, application_typed (apps p)).

Lemma represents_step sy qs sy' :
  system_inv apps sy -> represents sy qs -> system_step apps sy sy' ->
  exists qs', queue_step qs qs' /\ represents sy' qs'.
Proof.
  intros Hi Hrep Hs. destruct Hs as [p e r s' Hl He H|p fin msg n r s' Hrd Hn H|p];
    destruct (Hi p) as [Hg _]; destruct (Hrep p) as (Hsp & Hrp & k & Hk & Hib).
  - destruct (good_event apps p e _ r s' (Happ p) He Hg H) as [_ Hev].
    destruct (ev_written _ _ _ _ Hev) as [new Hw].
    eexists. split; [apply (queue_local _ p e r s' new Hl He); by rewrite Hsp|].
    eapply represents_update; [exact Hrep|exact Hev|exact Hw| | | | |]; cbn.
    + eapply linked_local; [apply Hg|exact Hk|]. by destruct e.
    + rewrite set_at_ne by (by destruct p). exact Hib.
    + by rewrite set_at_eq.
    + exact Hrp.
    + done.
  - destruct (next_message_linked apps sy p fin msg n k Hi Hn Hk)
      as (m & out & rest & Hm & Hc & _ & Ht & Hin & Hparse & _ & Hlink).
    destruct (good_event apps p (Receives msg) _ r s' (Happ p) Hin Hg H) as [_ Hev].
    destruct (ev_written _ _ _ _ Hev) as [new Hw].
    assert (queues.inbox qs p = m :: drop (S k) (Session.written (session_of sy (peer p)))) as Hib'
      by (rewrite Hib; by apply drop_S).
    eexists. split.
    { eapply (queue_deliver _ p m _ msg r s' new); [by rewrite Hrp|exact Hib'| |by rewrite Hsp..].
      by eapply arrival. }
    eapply represents_update; [exact Hrep|exact Hev|exact Hw|by apply Hlink| | | |]; cbn.
    + rewrite set_at_ne by (by destruct p). by rewrite set_at_eq.
    + by rewrite set_at_eq.
    + by rewrite set_at_eq.
    + by rewrite set_at_ne by apply peer_neq.
  - eexists. split; [apply (queue_stop _ p)|]. intros q.
    destruct (Hrep q) as (Hs & Hr & k' & Hk' & Hi'). unfold represents_side. cbn.
    assert (forall q', session_of (update p (side.mk (session_of sy p) (side.consumed (sy p)) false) sy) q'
                       = session_of sy q') as Hso.
    { intros q'. unfold session_of, update. by destruct (decide (q' = p)) as [->|]. }
    rewrite !Hso. unfold update, set_at. destruct (decide (q = p)) as [->|]; cbn;
      (split_and!; [done|done|by exists k']).
Qed.

(** A message at the head of an inbox is the next message of the stream. *)
Lemma head_is_next sy p fin k m ms :
  system_inv apps sy ->
  linked (session_of sy p) (side.consumed (sy p)) k (session_of sy (peer p)) ->
  drop k (Session.written (session_of sy (peer p))) = m :: ms ->
  ControlMessage.wf m -> ControlMessage.faithful m ->
  exists n, next_message sy p fin = Ok (m, n).
Proof.
  intros Hi Hk Hd Hwf Hf. destruct (Hi (peer p)) as [Hq _].
  destruct (reachable_inv _ _ (gs_reachable _ _ _ Hq)) as [Hinv _].
  destruct (inv_written _ Hinv) as [bs Hbs]. pose proof (unread_frames _ _ _ _ _ Hk Hbs) as Hu.
  rewrite Hd in Hu. cbn [compile_all] in Hu. inv_bind Hu. inv_bind Hu. injection Hu as Hu.
  unfold next_message, unread. rewrite Hbs, <- Hu.
  destruct (compileMessage_frame _ _ _ _ (ControlMessage_reads _ Hwf Hf) E) as (body & -> & Hl & Hp).
  rewrite Parse_frame by (done || apply Type_bounds). rewrite Hp. by eexists.
Qed.

(** * Properties *)

(** C3: The control stream is a pair of queues: every state of two sessions
    connected by byte streams is a state of the same two sessions connected by
    queues of messages, reached by the same events in the same order; the
    inboxes hold exactly the messages written and not yet received, and a
    message the codec carries without loss, at the head of an inbox, is what the
    parser reads next. *)
Theorem stream_refines_queues sy :
  system_reachable apps sy ->
  exists qs, queue_reachable qs /\
    forall p, queues.session qs p = session_of sy p /\ queues.reading qs p = side.reading (sy p) /\
      (exists received, Session.written (session_of sy (peer p)) = received ++ queues.inbox qs p /\
        exists bs, compile_all received = Ok bs /\ length bs = side.consumed (sy p)) /\
      (forall m ms fin, queues.inbox qs p = m :: ms ->
        ControlMessage.wf m -> ControlMessage.faithful m ->
        exists n, next_message sy p fin = Ok (m, n)).
Proof.
  intros Hr. assert (exists qs, queue_reachable qs /\ represents sy qs) as (qs & Hq & Hrep).
  { induction Hr as [sy Hs|sy sy' Hr (qs & Hq & Hrep) Hs].
    - exists (queues.mk (session_of sy) (fun _ => []) (fun _ => true)).
      pose proof (system_inv_initial apps sy Hs) as Hi. destruct Hs as [sy Hs]. split.
      + apply queue_start. constructor. intros p. destruct (Hs p) as (proto & path & init & ws & ? & ? & E).
        exists proto, path, init, ws. split_and!; [done..|]. unfold session_of. by rewrite E.
      + intros p. destruct (Hi p) as [_ [k Hk]]. unfold represents_side. cbn.
        split; [done|]. split; [by destruct (Hs p) as (? & ? & ? & ? & _ & _ & ->)|].
        exists k. split; [exact Hk|]. unfold session_of.
        destruct (Hs (peer p)) as (? & ? & ? & ? & _ & _ & ->). cbn. by rewrite drop_nil.
    - pose proof (system_reachable_inv apps Happ sy Hr) as Hi.
      destruct (represents_step _ _ _ Hi Hrep Hs) as (qs' & Hs' & Hrep').
      exists qs'. split; [by eapply queue_next|done]. }
  exists qs. split; [done|]. intros p. destruct (Hrep p) as (Hs & Hrd & k & Hk & Hib).
  pose proof (system_reachable_inv apps Happ sy Hr) as Hi. rewrite Hib. split_and!; [done|done| |].
  - exists (take k (Session.written (session_of sy (peer p)))).
    rewrite take_drop. split; [done|]. apply (ln_bytes _ _ _ _ Hk).
  - intros m ms fin Hd Hwf Hf. by eapply head_is_next.
Qed.

End Queues.

(** ** At a concrete input *)

(** Two sessions after the handshake, and a SUBSCRIBE on its way. *)
Lemma stream_refines_queues_witness :
  exists qs, queue_reachable ex_apps qs /\
    queues.session qs PerspectiveServer = session_of ex_in_flight PerspectiveServer.
Proof.
  destruct (stream_refines_queues ex_apps ex_apps_typed ex_in_flight ex_in_flight_reachable)
    as (qs & Hq & H).
  exists qs. split; [exact Hq|]. apply H.
Defined.
