(* ===== verification/Sending.v ===== *)
(** Writing control messages: which messages fit a frame, and what a write does
    to the session. *)

From S2P Require Import Prelude VarInt Codec WireTypes Messages ControlMessages Framing Errors.
From S2P Require Import State SessionState.
Local Open Scope Z_scope.
Local Open Scope go_scope.

(** * Sizes *)

(** [f] appends at most [n] bytes. *)
Definition bounded (n : Z) (f : appender) : Prop :=
  forall buf, exists e, f buf = Ok (buf ++ e) /\ len e <= n.

(** The message fits a frame. *)
Definition fits `{QuicVarint} (msg : ControlMessage) : Prop :=
  exists buf, compileMessage msg = Ok buf.

Section Sizes.
Context {QV : QuicVarint} {QVL : QuicVarintLaws}.

Lemma bounded_seq n m f g : bounded n f -> bounded m g -> bounded (n + m) (fun buf => f buf ≫= g).
Proof.
  intros Hf Hg buf. destruct (Hf buf) as (e1 & H1 & L1). destruct (Hg (buf ++ e1)) as (e2 & H2 & L2).
  exists (e1 ++ e2). rewrite H1. cbn [mbind res_bind]. rewrite H2, app_assoc, len_app.
  split; [done|lia].
Qed.

Lemma bounded_varint x : 0 <= x <= maxVarInt -> bounded 8 (qv_Append x).
Proof.
  intros Hx buf. exists (qv_enc x). rewrite qv_Append_enc by done.
  split; [done|]. by apply qv_enc_len.
Qed.

Lemma bounded_byte b : bounded 1 (append_byte b).
Proof. intros buf. eexists. split; [done|]. by vm_compute. Qed.

Lemma bounded_bytes bs : bounded (len bs) (append_bytes bs).
Proof. intros buf. exists bs. done. Qed.

Lemma bounded_VarIntBytes bs : len bs <= 65535 -> bounded (8 + len bs) (appendVarIntBytes bs).
Proof.
  intros Hl. apply bounded_seq; [|apply bounded_bytes]. apply bounded_varint.
  pose proof (len_nonneg bs). unfold maxVarInt. lia.
Qed.

Lemma bounded_Location l :
  0 <= Location.Group l <= maxVarInt -> 0 <= Location.Object l <= maxVarInt ->
  bounded 16 (Location.append l).
Proof. intros H1 H2. apply (bounded_seq 8 8); by apply bounded_varint. Qed.

Lemma bounded_no_parameters : bounded 8 (KVPList.appendNum []).
Proof.
  intros buf. exists (qv_enc 0). unfold KVPList.appendNum. rewrite qv_Append_enc by (vm_compute; split; discriminate).
  split; [done|]. apply qv_enc_len. vm_compute. split; discriminate.
Qed.

(** A parameter with a number, and one with bytes. *)
Lemma bounded_number_parameter ty v :
  0 <= ty <= maxVarInt -> ty mod 2 = 0 -> 0 <= v <= maxVarInt ->
  bounded 16 (KeyValuePair.append (KeyValuePair.mk ty [] v)).
Proof.
  intros Ht He Hv buf. unfold KeyValuePair.append. cbn [KeyValuePair.Type_ KeyValuePair.ValueVarInt].
  rewrite He. cbn [Z.eqb]. by apply (bounded_seq 8 8 (qv_Append ty) (qv_Append v));
    apply bounded_varint.
Qed.

Lemma bounded_bytes_parameter ty bs :
  0 <= ty <= maxVarInt -> ty mod 2 = 1 -> len bs <= 65535 ->
  bounded (16 + len bs) (KeyValuePair.append (KeyValuePair.mk ty bs 0)).
Proof.
  intros Ht He Hl buf. unfold KeyValuePair.append. cbn [KeyValuePair.Type_ KeyValuePair.ValueBytes].
  rewrite He. cbn [Z.eqb Pos.eqb]. pose proof (bounded_seq 8 (8 + len bs) (qv_Append ty)
    (appendVarIntBytes bs)) as Hb. replace (16 + len bs) with (8 + (8 + len bs)) by lia.
  apply Hb; [by apply bounded_varint|by apply bounded_VarIntBytes].
Qed.

Lemma bounded_append_cons n m p pp :
  bounded n (KeyValuePair.append p) -> bounded m (KVPList.append pp) ->
  bounded (n + m) (KVPList.append (p :: pp)).
Proof. intros Hp Hpp. by apply (bounded_seq n m). Qed.

Lemma bounded_append_nil : bounded 0 (KVPList.append []).
Proof. intros buf. exists []. rewrite app_nil_r. done. Qed.

Lemma bounded_fits n msg : bounded n (ControlMessage.Append msg) -> n <= 65535 -> fits msg.
Proof.
  intros Hb Hn. unfold fits, compileMessage. rewrite qv_Append_enc by apply Type_bounds.
  cbn [app mbind res_bind]. set (pre := qv_enc _).
  destruct (Hb (pre ++ [byte.of_Z 0; byte.of_Z 0])) as (e & -> & He). cbn [mbind res_bind].
  replace (Z.of_nat (length pre) + 2) with (len (pre ++ [byte.of_Z 0; byte.of_Z 0]))
    by (rewrite len_app, !len_cons, len_nil; unfold len; lia).
  rewrite slice_from_app. cbn [mbind res_bind]. unfold math_MaxUint16.
  replace (len e >? 65535) with false by lia. by eexists.
Qed.

(** ** The messages the session answers with *)

Lemma fits_MaxRequestID v : 0 <= v <= maxVarInt -> fits (MaxRequestID (MaxRequestIDMessage.mk v)).
Proof. intros Hv. apply (bounded_fits 8); [by apply bounded_varint|lia]. Qed.

Lemma fits_RequestsBlocked v : 0 <= v <= maxVarInt -> fits (RequestsBlocked (RequestsBlockedMessage.mk v)).
Proof. intros Hv. apply (bounded_fits 8); [by apply bounded_varint|lia]. Qed.

Lemma fits_AnnounceOk v : 0 <= v <= maxVarInt -> fits (AnnounceOk (AnnounceOkMessage.mk v)).
Proof. intros Hv. apply (bounded_fits 8); [by apply bounded_varint|lia]. Qed.

Lemma fits_Unsubscribe v : 0 <= v <= maxVarInt -> fits (Unsubscribe (UnsubscribeMessage.mk v)).
Proof. intros Hv. apply (bounded_fits 8); [by apply bounded_varint|lia]. Qed.

Lemma fits_SubscribeDone id code count reason :
  0 <= id <= maxVarInt -> 0 <= code <= maxVarInt -> 0 <= count <= maxVarInt -> len reason <= 60000 ->
  fits (SubscribeDone (SubscribeDoneMessage.mk id code count reason)).
Proof.
  intros Hid Hc Hn Hr. apply (bounded_fits (8 + (8 + (8 + (8 + len reason))))); [|lia].
  do 3 (apply bounded_seq; [by apply bounded_varint|]). apply bounded_VarIntBytes. cbn. lia.
Qed.

Lemma fits_SubscribeError id code reason :
  0 <= id <= maxVarInt -> 0 <= code <= maxVarInt -> len reason <= 60000 ->
  fits (SubscribeError (SubscribeErrorMessage.mk id code reason)).
Proof.
  intros Hid Hc Hr. apply (bounded_fits (8 + (8 + (8 + len reason)))); [|lia].
  repeat (apply bounded_seq; [by apply bounded_varint|]). apply bounded_VarIntBytes. cbn. lia.
Qed.

Lemma fits_ServerSetup v m :
  0 <= v <= maxVarInt -> 0 <= m <= maxVarInt ->
  fits (ServerSetup (ServerSetupMessage.mk v [KeyValuePair.mk MaxRequestIDParameterKey [] m])).
Proof.
  intros Hv Hm. apply (bounded_fits (8 + (8 + (16 + 0)))); [|lia].
  apply bounded_seq; [by apply bounded_varint|].
  apply bounded_seq; [apply bounded_varint; vm_compute; split; discriminate|].
  apply bounded_append_cons; [|apply bounded_append_nil].
  apply bounded_number_parameter; [vm_compute; split; discriminate|done|done].
Qed.

Lemma fits_TrackStatus id code :
  0 <= id <= maxVarInt -> 0 <= code <= maxVarInt ->
  fits (TrackStatus (TrackStatusMessage.mk id code Location.zero [])).
Proof.
  intros Hid Hc. apply (bounded_fits (8 + (8 + (16 + 8)))); [|lia].
  repeat (apply bounded_seq; [by apply bounded_varint|]).
  apply bounded_seq; [|apply bounded_no_parameters].
  apply bounded_Location; vm_compute; split; discriminate.
Qed.

End Sizes.

(** * What a write does *)

(** The answer the transport has for the next write, and the state after it. *)
Definition next_answer (s : Session.t) : option error :=
  match Session.writes s with
  | Some e :: _ => Some e
  | _ => None
  end.

Definition wrote (msg : ControlMessage) (s : Session.t) : Session.t :=
  match Session.writes s with
  | [] => Session.set_written (Session.written s ++ [msg]) s
  | _ :: ws => Session.set_writes ws (Session.set_written (Session.written s ++ [msg]) s)
  end.

Section Writes.
Context {QV : QuicVarint}.

Lemma write_fits msg s :
  fits msg -> next_answer s = None -> write msg s = Ok (Ret tt, wrote msg s).
Proof.
  intros [buf Hb] Ha. unfold write, next_answer, wrote in *. rewrite Hb.
  by destruct (Session.writes s) as [|[e|] ws].
Qed.

Lemma write_fails msg s e :
  fits msg -> next_answer s = Some e ->
  write msg s = Ok (Error e, Session.set_writes (tail (Session.writes s)) s).
Proof.
  intros [buf Hb] Ha. unfold write, next_answer in *. rewrite Hb.
  by destruct (Session.writes s) as [|[e'|] ws]; simplify_eq/=.
Qed.

(** A varint that does not fit panics. *)
Lemma write_MaxRequestID_panics {QVL : QuicVarintLaws} v s :
  maxVarInt < v -> write (MaxRequestID (MaxRequestIDMessage.mk v)) s = Panic.
Proof.
  intros Hv. unfold write, compileMessage. rewrite qv_Append_enc by apply Type_bounds.
  cbn [app mbind res_bind ControlMessage.Append]. unfold MaxRequestIDMessage.Append.
  cbn [MaxRequestIDMessage.RequestID]. by rewrite qv_Append_panic.
Qed.

End Writes.

(** What a write leaves alone. *)
Lemma wrote_written msg s : Session.written (wrote msg s) = Session.written s ++ [msg].
Proof. unfold wrote. by destruct (Session.writes s). Qed.
Lemma wrote_localTracks msg s : Session.localTracks (wrote msg s) = Session.localTracks s.
Proof. unfold wrote. by destruct (Session.writes s). Qed.
Lemma wrote_remoteTracks msg s : Session.remoteTracks (wrote msg s) = Session.remoteTracks s.
Proof. unfold wrote. by destruct (Session.writes s). Qed.
Lemma wrote_localHeap msg s : Session.localHeap (wrote msg s) = Session.localHeap s.
Proof. unfold wrote. by destruct (Session.writes s). Qed.
Lemma wrote_remoteHeap msg s : Session.remoteHeap (wrote msg s) = Session.remoteHeap s.
Proof. unfold wrote. by destruct (Session.writes s). Qed.
Lemma wrote_requestIDs msg s : Session.requestIDs (wrote msg s) = Session.requestIDs s.
Proof. unfold wrote. by destruct (Session.writes s). Qed.
Lemma wrote_localMax msg s : Session.localMaxRequestID (wrote msg s) = Session.localMaxRequestID s.
Proof. unfold wrote. by destruct (Session.writes s). Qed.
Lemma wrote_writes msg s : Session.writes (wrote msg s) = tail (Session.writes s).
Proof. unfold wrote. by destruct (Session.writes s) eqn:E; cbn; rewrite ?E. Qed.
Lemma wrote_handshakeDone msg s : Session.handshakeDone (wrote msg s) = Session.handshakeDone s.
Proof. unfold wrote. by destruct (Session.writes s). Qed.
Lemma wrote_handshakeDoneCh msg s : Session.handshakeDoneCh (wrote msg s) = Session.handshakeDoneCh s.
Proof. unfold wrote. by destruct (Session.writes s). Qed.
Lemma wrote_perspective msg s : Session.perspective (wrote msg s) = Session.perspective s.
Proof. unfold wrote. by destruct (Session.writes s). Qed.
Lemma wrote_version msg s : Session.version (wrote msg s) = Session.version s.
Proof. unfold wrote. by destruct (Session.writes s). Qed.
Lemma wrote_path msg s : Session.path (wrote msg s) = Session.path s.
Proof. unfold wrote. by destruct (Session.writes s). Qed.

Lemma wrote_chans msg s : Session.chans (wrote msg s) = Session.chans s.
Proof. unfold wrote. by destruct (Session.writes s). Qed.
Lemma wrote_outgoing msg s : Session.outgoingAnnouncements (wrote msg s) = Session.outgoingAnnouncements s.
Proof. unfold wrote. by destruct (Session.writes s). Qed.
Lemma wrote_incoming msg s : Session.incomingAnnouncements (wrote msg s) = Session.incomingAnnouncements s.
Proof. unfold wrote. by destruct (Session.writes s). Qed.
Lemma wrote_trackStatus msg s :
  Session.outgoingTrackStatusRequests (wrote msg s) = Session.outgoingTrackStatusRequests s.
Proof. unfold wrote. by destruct (Session.writes s). Qed.
Lemma wrote_trackAliases msg s : Session.trackAliases (wrote msg s) = Session.trackAliases s.
Proof. unfold wrote. by destruct (Session.writes s). Qed.

Create Rewrite HintDb wrote.
#[export] Hint Rewrite wrote_written wrote_localTracks wrote_remoteTracks wrote_localHeap
  wrote_remoteHeap wrote_requestIDs wrote_localMax wrote_handshakeDone wrote_handshakeDoneCh
  wrote_perspective wrote_version wrote_path wrote_chans wrote_outgoing wrote_incoming
  wrote_trackStatus wrote_trackAliases wrote_writes : wrote.

(** The state of a sequence of operations, one after the other. *)
Section Runs.
Context {S : Type}.

Lemma run_bind {A B} (m : GM S A) (k : A -> GM S B) s a s' :
  m s = Ok (Ret a, s') -> gm_bind m k s = k a s'.
Proof. intros H. unfold gm_bind. by rewrite H. Qed.

Lemma run_bind_error {A B} (m : GM S A) (k : A -> GM S B) s e s' :
  m s = Ok (Error e, s') -> gm_bind m k s = Ok (Error e, s').
Proof. intros H. unfold gm_bind. by rewrite H. Qed.

Lemma run_bind_panic {A B} (m : GM S A) (k : A -> GM S B) s :
  m s = Panic -> gm_bind m k s = Panic.
Proof. intros H. unfold gm_bind. by rewrite H. Qed.

Lemma run_attempt {A} (m : GM S A) s r s' : m s = Ok (r, s') -> attempt m s = Ok (Ret r, s').
Proof. intros H. unfold attempt. by rewrite H. Qed.

Lemma run_attempt_panic {A} (m : GM S A) s : m s = Panic -> attempt m s = Panic.
Proof. intros H. unfold attempt. by rewrite H. Qed.

End Runs.
