(* ===== verification/Handshake.v ===== *)
(** The setup of a session: nothing is served before it, it happens once, and what a
    client and a server that run it know of each other. *)

From Stdlib Require Import String.
From S2P Require Import Prelude VarInt Codec WireTypes Messages ControlMessages Framing Params Errors State.
From S2P Require Import RequestID Announcements SessionState Session ParserSafety SessionSafety.
From S2P Require Import Sending.
Local Open Scope Z_scope.
Local Open Scope go_scope.

Definition is_setup (msg : ControlMessage) : bool :=
  match msg with
  | ClientSetup _ | ServerSetup _ => true
  | _ => false
  end.

(** The message sendClientSetup writes. *)
Definition client_setup (s : Session.t) : ClientSetupMessage.t :=
  ClientSetupMessage.mk SupportedVersions
    (let params := [KeyValuePair.mk MaxRequestIDParameterKey [] (Session.localMaxRequestID s)] in
     if decide (Session.protocol s = ProtocolQUIC)
     then params ++ [KeyValuePair.mk PathParameterKey (Session.path s) 0] else params).

Section Handshake.
Context {QV : QuicVarint} {QVL : QuicVarintLaws} {MR : MapRange} {App : Application}.

(** Before the setup is complete, every message but a setup message is
    refused and changes nothing; once it is complete, a second setup message is
    refused and changes nothing. *)
Theorem handshake_gate s msg :
  (Session.handshakeDone s = is_setup msg) ->
  exists e, receive msg s = Ok (Error e, s) /\
    e = (if is_setup msg then errUnexpectedMessageType else errUnexpectedMessageTypeBeforeSetup).
Proof.
  intros H. unfold receive. rewrite (run_bind _ _ s (Session.handshakeDone s) s) by done.
  rewrite H. destruct msg; cbn [is_setup negb]; by eexists.
Qed.

(** A server refuses a ServerSetup and a client a ClientSetup, and changes
    nothing; so does a server that supports none of the versions offered, and a
    client that does not support the version selected. *)
Theorem setup_refused s cs ss :
  Session.handshakeDone s = false ->
  (Session.perspective s = PerspectiveClient ->
     receive (ClientSetup cs) s = Ok (Error errClientReceivedClientSetup, s)) /\
  (Session.perspective s = PerspectiveServer ->
     receive (ServerSetup ss) s = Ok (Error errServerReceveidServerSetup, s)) /\
  (Session.perspective s = PerspectiveServer ->
     (forall v, v ∈ SupportedVersions -> v ∉ ClientSetupMessage.SupportedVersions cs) ->
     receive (ClientSetup cs) s = Ok (Error errIncompatibleVersions, s)) /\
  (Session.perspective s = PerspectiveClient ->
     ServerSetupMessage.SelectedVersion ss ∉ SupportedVersions ->
     receive (ServerSetup ss) s = Ok (Error errIncompatibleVersions, s)).
Proof.
  intros Hd. unfold receive. repeat split; intros Hp; try intros Hv;
    rewrite (run_bind _ _ s (Session.handshakeDone s) s) by done; rewrite Hd; cbn [negb];
    unfold onClientSetup, onServerSetup, gm_bind, get; rewrite Hp.
  - done.
  - done.
  - rewrite bool_decide_eq_true_2 by done. cbn [negb].
    destruct (find_first _ _) as [[i v]|] eqn:E; [|done].
    apply find_first_Some in E as [Hin Hb]. apply bool_decide_eq_true in Hb.
    by destruct (Hv v).
  - rewrite bool_decide_eq_true_2 by done. cbn [negb]. by rewrite bool_decide_eq_false_2.
Qed.

(** ** The exchange *)

Definition setup_parameters_size (s : Session.t) : Z := 16 + (16 + len (Session.path s)).

Lemma bounded_setup_parameters s :
  0 <= Session.localMaxRequestID s <= maxVarInt -> len (Session.path s) <= 60000 ->
  bounded (setup_parameters_size s) (KVPList.append (ClientSetupMessage.SetupParameters (client_setup s))).
Proof.
  intros Hm Hp. pose proof (len_nonneg (Session.path s)). unfold client_setup, setup_parameters_size.
  assert (0 <= 0 <= maxVarInt) as H0 by (vm_compute; split; discriminate).
  cbn [ClientSetupMessage.SetupParameters]. destruct (decide _); cbn [app].
  - rewrite <- (Z.add_0_r (16 + len _)). apply bounded_append_cons.
    { apply bounded_number_parameter; [vm_compute; split; discriminate|done|done]. }
    apply bounded_append_cons; [|apply bounded_append_nil].
    apply bounded_bytes_parameter; [vm_compute; split; discriminate|done|lia].
  - intros buf. destruct (bounded_append_cons 16 0 _ [] (bounded_number_parameter
      MaxRequestIDParameterKey (Session.localMaxRequestID s) ltac:(vm_compute; split; discriminate)
      eq_refl Hm) bounded_append_nil buf) as (e & He & Hl). exists e. split; [done|lia].
Qed.

Lemma fits_client_setup s :
  0 <= Session.localMaxRequestID s <= maxVarInt -> len (Session.path s) <= 60000 ->
  fits (ClientSetup (client_setup s)).
Proof.
  intros Hm Hp.
  apply (bounded_fits (8 + ((8 + 0) + (8 + setup_parameters_size s)))); [|unfold setup_parameters_size; lia].
  apply bounded_seq; [apply bounded_varint; vm_compute; split; discriminate|].
  apply bounded_seq.
  { apply (bounded_seq 8 0); [apply bounded_varint; vm_compute; split; discriminate|].
    intros buf. exists []. by rewrite app_nil_r. }
  apply bounded_seq; [|by apply bounded_setup_parameters].
  apply bounded_varint. unfold client_setup. cbn. destruct (decide _); vm_compute; split; discriminate.
Qed.

(** The ServerSetup a server answers with. *)
Definition server_setup : ServerSetupMessage.t :=
  ServerSetupMessage.mk CurrentVersion [KeyValuePair.mk MaxRequestIDParameterKey [] 100].

Lemma fits_server_setup : fits (ServerSetup server_setup).
Proof. apply fits_ServerSetup; vm_compute; split; discriminate. Qed.

Definition announce_max (max : Z) (s : Session.t) : Session.t :=
  Session.set_requestIDs (requestIDGenerator.setMax (Session.requestIDs s) max).2 s.

Definition complete (s : Session.t) : Session.t :=
  Session.set_handshakeDone true (Session.set_handshakeDoneCh true s).

Lemma finish s :
  Session.handshakeDoneCh s = false ->
  (_ <- close_handshakeDoneCh; modify (Session.set_handshakeDone true)) s = Ok (Ret tt, complete s).
Proof. intros H. unfold close_handshakeDoneCh, gm_bind, get. by rewrite H. Qed.

(** A first announcement of a maximum, the generator still at 0. *)
Lemma first_max v s :
  requestIDGenerator.max (Session.requestIDs s) = 0 -> 0 <= v ->
  try_ Session.requestIDs Session.set_requestIDs (fun g => requestIDGenerator.setMax g v) s =
  Ok (Ret tt, announce_max v s).
Proof.
  intros Hz Hv. unfold try_, announce_max, requestIDGenerator.setMax. rewrite Hz.
  by replace (v <? 0) with false by lia.
Qed.

Lemma onClientSetup_accepts m path s :
  Session.perspective s = PerspectiveServer ->
  CurrentVersion ∈ ClientSetupMessage.SupportedVersions m ->
  validatePathParameter (ClientSetupMessage.SetupParameters m)
    (bool_decide (Session.protocol s = ProtocolQUIC)) = Ok path ->
  Session.handshakeDoneCh s = false -> next_answer s = None ->
  requestIDGenerator.max (Session.requestIDs s) = 0 ->
  0 < getMaxRequestIDParameter (ClientSetupMessage.SetupParameters m) ->
  onClientSetup m s = Ok (Ret tt, complete (wrote (ServerSetup server_setup)
    (announce_max (getMaxRequestIDParameter (ClientSetupMessage.SetupParameters m))
      (Session.set_path path (Session.set_version CurrentVersion s))))).
Proof.
  intros Hp Hv Hpath Hch Ha Hz Hm. unfold onClientSetup.
  rewrite (run_bind _ _ s PerspectiveServer s) by (unfold get; by rewrite Hp).
  rewrite (run_bind _ _ s (Session.protocol s) s) by done. cbn [negb bool_decide decide].
  rewrite bool_decide_eq_true_2 by done. cbn [negb].
  replace (find_first _ _) with (Some (0%nat, CurrentVersion))
    by (cbn; by rewrite bool_decide_eq_true_2).
  rewrite (run_bind _ _ s tt (Session.set_version CurrentVersion s)) by done.
  unfold Tracks.localTrack.lift_res. rewrite Hpath.
  rewrite (run_bind _ _ _ path (Session.set_version CurrentVersion s)) by done.
  rewrite (run_bind _ _ _ tt (Session.set_path path (Session.set_version CurrentVersion s))) by done.
  cbv zeta. set (v := getMaxRequestIDParameter _) in *. replace (v >? 0) with true by lia.
  rewrite (run_bind _ _ _ tt _ (first_max v (Session.set_path path
    (Session.set_version CurrentVersion s)) Hz ltac:(lia))).
  rewrite (run_bind _ _ _ tt _ (write_fits _ (announce_max v (Session.set_path path
    (Session.set_version CurrentVersion s))) fits_server_setup Ha)).
  apply finish. by autorewrite with wrote.
Qed.

Lemma onServerSetup_accepts m s :
  Session.perspective s = PerspectiveClient ->
  ServerSetupMessage.SelectedVersion m ∈ SupportedVersions ->
  Session.handshakeDoneCh s = false ->
  requestIDGenerator.max (Session.requestIDs s) = 0 ->
  0 <= getMaxRequestIDParameter (ServerSetupMessage.SetupParameters m) ->
  onServerSetup m s = Ok (Ret tt, complete
    (announce_max (getMaxRequestIDParameter (ServerSetupMessage.SetupParameters m))
      (Session.set_version (ServerSetupMessage.SelectedVersion m) s))).
Proof.
  intros Hp Hv Hch Hz Hm. unfold onServerSetup.
  rewrite (run_bind _ _ s PerspectiveClient s) by (unfold get; by rewrite Hp).
  rewrite (bool_decide_eq_true_2 (PerspectiveClient = PerspectiveClient)) by done. cbn [negb].
  rewrite (bool_decide_eq_true_2 (_ ∈ _)) by done. cbn [negb].
  rewrite (run_bind _ _ s tt (Session.set_version (ServerSetupMessage.SelectedVersion m) s)) by done.
  rewrite (run_bind _ _ _ tt _ (first_max _ (Session.set_version
    (ServerSetupMessage.SelectedVersion m) s) Hz Hm)). by apply finish.
Qed.

(** The setup messages are in the ranges of the codec. *)
Lemma client_setup_codable proto path max :
  0 <= max -> len path <= maxAlloc ->
  codable (ClientSetup (client_setup (new_session PerspectiveClient proto path max))).
Proof.
  intros Hm Hp. cbn [codable ControlMessage.wf]. unfold ClientSetupMessage.wf. split.
  - apply list.Forall_cons. split; [vm_compute; congruence|apply list.Forall_nil, I].
  - assert (KeyValuePair.wf (KeyValuePair.mk MaxRequestIDParameterKey [] max)) as H1 by (by split_and!).
    assert (KeyValuePair.wf (KeyValuePair.mk PathParameterKey path 0)) as H2 by (by split_and!).
    unfold client_setup. by destruct (decide _); repeat (apply list.Forall_cons; split); [..|apply list.Forall_nil, I].
Qed.

Lemma server_setup_codable : codable (ServerSetup server_setup).
Proof.
  split; [vm_compute; congruence|].
  apply list.Forall_cons. split; [|apply list.Forall_nil, I]. split_and!; vm_compute; congruence.
Qed.

(** C15: A client and a server that exchange their setup messages on a new
    connection (the transport takes both writes), each parsed from its frame as it
    was written, complete the handshake: they select the same version, the server
    gets the client's path on QUIC and the limit the client announced.  They need
    not agree on the limit of the server: it keeps its own and announces 100
    whatever that is, and 100 is what the client learns. *)
Theorem handshake_completes proto path path' maxc maxs :
  0 < maxc <= maxVarInt -> len path <= 60000 ->
  let c0 := new_session PerspectiveClient proto path maxc in
  let s0 := new_session PerspectiveServer proto path' maxs in
  exists c1 s1 c2 answer,
    Run_start c0 = Ok (Ret tt, c1) /\
    Session.written c1 = [ClientSetup (client_setup c0)] /\
    crosses (ClientSetup (client_setup c0)) (ClientSetup (client_setup c0)) /\
    receive (ClientSetup (client_setup c0)) s0 = Ok (Ret tt, s1) /\
    Session.written s1 = [ServerSetup answer] /\
    crosses (ServerSetup answer) (ServerSetup answer) /\
    receive (ServerSetup answer) c1 = Ok (Ret tt, c2) /\
    Session.handshakeDone c2 = true /\ Session.handshakeDone s1 = true /\
    Session.version c2 = CurrentVersion /\ Session.version s1 = CurrentVersion /\
    Session.path s1 = (if decide (proto = ProtocolQUIC) then path else []) /\
    requestIDGenerator.max (Session.requestIDs s1) = maxc /\
    requestIDGenerator.max (Session.requestIDs c2) = 100 /\
    Session.localMaxRequestID s1 = maxs.
Proof.
  intros Hm Hp c0 s0.
  assert (getMaxRequestIDParameter (ClientSetupMessage.SetupParameters (client_setup c0)) = maxc) as Hg
    by (unfold client_setup; by destruct (decide _)).
  exists (wrote (ClientSetup (client_setup c0)) c0).
  exists (complete (wrote (ServerSetup server_setup) (announce_max maxc
    (Session.set_path (if decide (proto = ProtocolQUIC) then path else [])
      (Session.set_version CurrentVersion s0))))).
  eexists. exists server_setup. split.
  { apply write_fits; [|done]. apply fits_client_setup; [|done]. cbn. lia. }
  split; [by rewrite wrote_written|]. split.
  { apply codable_crosses; [apply client_setup_codable; [lia|unfold maxAlloc; lia]| |done].
    apply fits_client_setup; [|done]. cbn. lia. }
  split.
  { unfold receive. rewrite (run_bind _ _ s0 false s0) by done. cbn [negb].
    erewrite onClientSetup_accepts; [by rewrite Hg|done|by left| |done..|rewrite Hg; lia].
    unfold client_setup. by destruct proto. }
  split; [done|]. split.
  { apply codable_crosses; [apply server_setup_codable|apply fits_server_setup|done]. }
  split.
  { unfold receive. rewrite (run_bind _ _ _ false (wrote (ClientSetup (client_setup c0)) c0)) by done.
    apply onServerSetup_accepts; try done. by left. }
  assert (requestIDGenerator.max (requestIDGenerator.setMax
    (requestIDGenerator.newRequestIDGenerator 1 0 2) maxc).2 = maxc) as Hmax.
  { unfold requestIDGenerator.setMax. cbn. by replace (maxc <? 0) with false by lia. }
  repeat split; done.
Qed.

End Handshake.

(** ** At concrete inputs *)

Definition ex_client : Session.t :=
  new_session PerspectiveClient ProtocolQUIC (str "/moq") 10.
Definition ex_server : Session.t := new_session PerspectiveServer ProtocolQUIC [] 64.

Lemma handshake_gate_witness :
  exists e, receive (App := no_handlers) (MaxRequestID (MaxRequestIDMessage.mk 5)) ex_server
    = Ok (Error e, ex_server) /\ e = errUnexpectedMessageTypeBeforeSetup.
Proof. apply (handshake_gate (App := no_handlers) ex_server (MaxRequestID _)). reflexivity. Defined.

Lemma setup_refused_witness :
  receive (App := no_handlers) (ServerSetup (ServerSetupMessage.mk 1 [])) ex_client
  = Ok (Error errIncompatibleVersions, ex_client).
Proof.
  apply (setup_refused (App := no_handlers) ex_client (client_setup ex_client)).
  - reflexivity.
  - reflexivity.
  - refine (bool_decide_eq_false_1 _ _). reflexivity.
Defined.

Lemma handshake_completes_witness :
  exists s1, receive (App := no_handlers) (ClientSetup (client_setup ex_client)) ex_server
    = Ok (Ret tt, s1) /\ Session.path s1 = str "/moq" /\ Session.localMaxRequestID s1 = 64.
Proof.
  destruct (handshake_completes (App := no_handlers) ProtocolQUIC (str "/moq") [] 10 64)
    as (c1 & s1 & c2 & answer & _ & _ & _ & H & _ & _ & _ & _ & _ & _ & _ & Hp & _ & _ & Hm).
  - vm_compute. split; congruence.
  - vm_compute. congruence.
  - exists s1. split; [exact H|]. split; [exact Hp|exact Hm].
Defined.

(** A client and a server after the handshake. *)
Definition established_client : Session.t :=
  complete (announce_max 100 (Session.set_version CurrentVersion
    (wrote (ClientSetup (client_setup ex_client)) ex_client))).
Definition established_server : Session.t :=
  complete (wrote (ServerSetup server_setup) (announce_max 10 (Session.set_path (str "/moq")
    (Session.set_version CurrentVersion ex_server)))).

Lemma established_client_reachable (App : Application) :
  reachable (App := App) PerspectiveClient established_client.
Proof.
  apply (run_events_reachable PerspectiveClient [Starts; Receives (ServerSetup server_setup)] ex_client).
  - apply (reachable_new PerspectiveClient ProtocolQUIC (str "/moq") 10 []).
  - constructor; [exact I|]. constructor; [|constructor]. split; [|vm_compute; intuition congruence].
    split; [vm_compute; congruence|]. constructor; [|constructor].
    repeat split; vm_compute; congruence.
  - vm_compute. reflexivity.
Qed.

Lemma established_server_reachable (App : Application) :
  reachable (App := App) PerspectiveServer established_server.
Proof.
  apply (run_events_reachable PerspectiveServer [Receives (ClientSetup (client_setup ex_client))] ex_server).
  - apply (reachable_new PerspectiveServer ProtocolQUIC [] 64 []).
  - constructor; [|constructor]. split; [|vm_compute; intuition congruence].
    split; [repeat constructor; vm_compute; congruence|].
    repeat constructor; vm_compute; congruence.
  - vm_compute. reflexivity.
Qed.
