(* ===== verification/Requests.v ===== *)
(** Requests: the limit on the requests of a peer, and what a SUBSCRIBE does at
    the subscriber and at the publisher. *)

From Stdlib Require Import String.
From S2P Require Import Prelude VarInt Codec WireTypes Messages ControlMessages Params Errors State.
From S2P Require Import RequestID TrackMaps Tracks Announcements SessionState Session SessionInv.
From S2P Require Import SessionSafety Sending Handshake.
Local Open Scope Z_scope.
Local Open Scope go_scope.

(** * The limit on the requests of a peer *)

(** The state after a MAX_REQUEST_ID message; a failed write is only logged. *)
Definition raise_limit (s : Session.t) : Session.t :=
  let newMax := uint64 (2 * Session.localMaxRequestID s) in
  let s := Session.set_localMaxRequestID newMax s in
  match next_answer s with
  | None => wrote (MaxRequestID (MaxRequestIDMessage.mk newMax)) s
  | Some _ => Session.set_writes (tail (Session.writes s)) s
  end.

(** The limit is raised when a request gets into its upper half. *)
Definition limit_checked (id : Z) (s : Session.t) : Session.t :=
  if id >=? Session.localMaxRequestID s / 2 then raise_limit s else s.

(** The new maximum can be announced. *)
Definition can_raise (id : Z) (s : Session.t) : Prop :=
  id < Session.localMaxRequestID s / 2 \/ uint64 (2 * Session.localMaxRequestID s) <= maxVarInt.

Section Limit.
Context {QV : QuicVarint} {QVL : QuicVarintLaws}.

Lemma raise_limit_run {A} (k : SM A) s :
  uint64 (2 * Session.localMaxRequestID s) <= maxVarInt ->
  (let newMax := uint64 (2 * Session.localMaxRequestID s) in
   _ <- (_ <- modify (Session.set_localMaxRequestID newMax);
         _ <- attempt (write (MaxRequestID (MaxRequestIDMessage.mk newMax))); mret tt); k) s
  = k (raise_limit s).
Proof.
  intros Hm. cbv zeta.
  set (s1 := Session.set_localMaxRequestID (uint64 (2 * Session.localMaxRequestID s)) s).
  assert (fits (MaxRequestID (MaxRequestIDMessage.mk (uint64 (2 * Session.localMaxRequestID s))))) as Hf
    by (apply fits_MaxRequestID; split; [apply Z.mod_pos_bound; lia|done]).
  rewrite gm_bind_assoc. rewrite (run_bind _ _ s tt s1) by done. rewrite gm_bind_assoc.
  unfold raise_limit. fold s1. destruct (next_answer s1) as [e|] eqn:E.
  - by rewrite (run_bind _ _ _ _ _ (run_attempt _ _ _ _ (write_fails _ _ _ Hf E))).
  - by rewrite (run_bind _ _ _ _ _ (run_attempt _ _ _ _ (write_fits _ _ Hf E))).
Qed.

Lemma raise_limit_tables s :
  Session.localTracks (raise_limit s) = Session.localTracks s /\
  Session.localHeap (raise_limit s) = Session.localHeap s.
Proof. unfold raise_limit. destruct (next_answer _); [done|]. by autorewrite with wrote. Qed.

Ltac addLocalTrack_start s :=
  unfold addLocalTrack; rewrite (run_bind _ _ s (Session.localMaxRequestID s) s) by done.

(** addLocalTrack, branch by branch. *)
Lemma addLocalTrack_over id lt s :
  Session.localMaxRequestID s <= id ->
  addLocalTrack id lt s = Ok (Error errMaxRequestIDViolated, s).
Proof. intros H. addLocalTrack_start s. by replace (_ >=? _) with true by lia. Qed.

Lemma addPending_free {A} (m : localTrackMap.t A) id lt :
  localTrackMap.findByID m id = None ->
  localTrackMap.addPending m id lt = (true, localTrackMap.mk (<[id := lt]> (localTrackMap.pending m))
    (localTrackMap.open m)).
Proof.
  unfold localTrackMap.findByID, localTrackMap.addPending.
  destruct (localTrackMap.pending m !! id); [done|]. by intros ->.
Qed.

Lemma addPending_used {A} (m : localTrackMap.t A) id lt :
  is_Some (localTrackMap.findByID m id) -> localTrackMap.addPending m id lt = (false, m).
Proof.
  intros [p Hf]. unfold localTrackMap.findByID, localTrackMap.addPending in *.
  destruct (localTrackMap.pending m !! id); [done|]. by rewrite Hf.
Qed.

Lemma addLocalTrack_below id lt s :
  id < Session.localMaxRequestID s -> can_raise id s ->
  addLocalTrack id lt s =
    (ok <- on Session.localTracks Session.set_localTracks (fun m => localTrackMap.addPending m id lt);
     if ok then mret tt else throw errDuplicateRequestID) (limit_checked id s).
Proof.
  intros Hlt Hr. addLocalTrack_start s. unfold can_raise, limit_checked in *.
  replace (id >=? Session.localMaxRequestID s) with false by lia.
  destruct (Z.geb_spec id (Session.localMaxRequestID s / 2)) as [Hg|Hg]; [|done].
  apply raise_limit_run. destruct Hr; [lia|done].
Qed.

Lemma limit_checked_localTracks id s : Session.localTracks (limit_checked id s) = Session.localTracks s.
Proof. unfold limit_checked. destruct (_ >=? _); [|done]. apply raise_limit_tables. Qed.

Lemma limit_checked_localHeap id s : Session.localHeap (limit_checked id s) = Session.localHeap s.
Proof. unfold limit_checked. destruct (_ >=? _); [|done]. apply raise_limit_tables. Qed.

Lemma addLocalTrack_files id lt s :
  id < Session.localMaxRequestID s -> can_raise id s ->
  localTrackMap.findByID (Session.localTracks s) id = None ->
  addLocalTrack id lt s = Ok (Ret tt,
    let s' := limit_checked id s in
    Session.set_localTracks (localTrackMap.mk
      (<[id := lt]> (localTrackMap.pending (Session.localTracks s)))
      (localTrackMap.open (Session.localTracks s))) s').
Proof.
  intros Hlt Hr Hf. rewrite addLocalTrack_below by done. unfold gm_bind, on.
  by rewrite limit_checked_localTracks, addPending_free.
Qed.

Lemma addLocalTrack_duplicate id lt s :
  id < Session.localMaxRequestID s -> can_raise id s ->
  is_Some (localTrackMap.findByID (Session.localTracks s) id) ->
  addLocalTrack id lt s = Ok (Error errDuplicateRequestID,
    Session.set_localTracks (Session.localTracks s) (limit_checked id s)).
Proof.
  intros Hlt Hr Hf. rewrite addLocalTrack_below by done. unfold gm_bind, on.
  by rewrite limit_checked_localTracks, addPending_used.
Qed.

Lemma addLocalTrack_panics id lt s :
  id < Session.localMaxRequestID s -> ~ can_raise id s -> addLocalTrack id lt s = Panic.
Proof.
  intros Hlt Hr. addLocalTrack_start s. unfold can_raise in Hr.
  set (max := Session.localMaxRequestID s) in *. replace (id >=? max) with false by lia.
  replace (id >=? max / 2) with true by lia. apply run_bind_panic.
  rewrite (run_bind _ _ s tt (Session.set_localMaxRequestID (uint64 (2 * max)) s)) by done.
  apply run_bind_panic, run_attempt_panic. apply write_MaxRequestID_panics. lia.
Qed.

(** addLocalTrack on every branch.  A request ID at or over the limit is
    refused and changes nothing.  Below it, a request in the upper half first
    doubles the limit and announces it; then a new ID is filed as pending, and
    one that is already pending or open is refused.  When the doubled limit is
    not a varint the session panics, whatever else the request says. *)
Theorem addLocalTrack_spec id lt s :
  (Session.localMaxRequestID s <= id ->
     addLocalTrack id lt s = Ok (Error errMaxRequestIDViolated, s)) /\
  (id < Session.localMaxRequestID s -> can_raise id s ->
     localTrackMap.findByID (Session.localTracks s) id = None ->
     addLocalTrack id lt s = Ok (Ret tt,
       let s' := limit_checked id s in
       Session.set_localTracks (localTrackMap.mk
         (<[id := lt]> (localTrackMap.pending (Session.localTracks s)))
         (localTrackMap.open (Session.localTracks s))) s')) /\
  (id < Session.localMaxRequestID s -> can_raise id s ->
     is_Some (localTrackMap.findByID (Session.localTracks s) id) ->
     exists s', addLocalTrack id lt s = Ok (Error errDuplicateRequestID, s') /\
       Session.localTracks s' = Session.localTracks s) /\
  (id < Session.localMaxRequestID s -> ~ can_raise id s -> addLocalTrack id lt s = Panic).
Proof.
  split; [|split; [|split]].
  - apply addLocalTrack_over.
  - apply addLocalTrack_files.
  - intros Hlt Hr Hf. eexists. split; [by apply addLocalTrack_duplicate|done].
  - apply addLocalTrack_panics.
Qed.

End Limit.

(** * A received SUBSCRIBE *)

(** The state with a track for the message, before it is filed. *)
Definition subscribed (msg : SubscribeMessage.t) (s : Session.t) : Session.t :=
  let '(alias, seq) := sequence.next (Session.trackAliases s) in
  Session.set_localHeap (Session.localHeap s ++
    [localTrack.newLocalTrack (SubscribeMessage.RequestID msg) alias true])
    (Session.set_trackAliases seq s).

(** The message the SubscribeHandler gets. *)
Definition public_subscribe (msg : SubscribeMessage.t) (auth : gostring) : PublicSubscribe.t :=
  PublicSubscribe.mk (SubscribeMessage.RequestID msg) 0 (SubscribeMessage.TrackNamespace msg)
    (SubscribeMessage.TrackName msg) auth (SubscribeMessage.SubscriberPriority msg)
    (SubscribeMessage.GroupOrder msg) (SubscribeMessage.Forward msg)
    (SubscribeMessage.FilterType msg) None None (FromWire (SubscribeMessage.Parameters msg)).

(** Filing the track of a message. *)
Definition filed (id : Z) (lt : nat) (s : Session.t) : Session.t :=
  Session.set_localTracks (localTrackMap.mk
    (<[id := lt]> (localTrackMap.pending (Session.localTracks s)))
    (localTrackMap.open (Session.localTracks s))) (limit_checked id s).

Definition new_writer (msg : SubscribeMessage.t) (s : Session.t) : SubscribeResponseWriter.t :=
  SubscribeResponseWriter.mk (SubscribeMessage.RequestID msg) (sequence.next (Session.trackAliases s)).1
    (length (Session.localHeap s)) false.

Section Subscribe.
Context {QV : QuicVarint} {QVL : QuicVarintLaws} {MR : MapRange} {App : Application}.

Lemma validateAuthParameter_Ok pp : exists auth, validateAuthParameter pp = Ok auth.
Proof. unfold validateAuthParameter. destruct (find_first _ _) as [[i p]|]; by eexists. Qed.

Lemma subscribed_tables msg s :
  Session.localTracks (subscribed msg s) = Session.localTracks s /\
  Session.localMaxRequestID (subscribed msg s) = Session.localMaxRequestID s /\
  Session.localHeap (subscribed msg s) = Session.localHeap s ++
    [localTrack.newLocalTrack (SubscribeMessage.RequestID msg)
       (sequence.next (Session.trackAliases s)).1 true] /\
  Session.writes (subscribed msg s) = Session.writes s /\
  Session.written (subscribed msg s) = Session.written s.
Proof. done. Qed.

(** What is left of onSubscribe once the track is made. *)
Lemma onSubscribe_run msg s auth :
  validateAuthParameter (SubscribeMessage.Parameters msg) = Ok auth ->
  valid_namespace (SubscribeMessage.TrackNamespace msg) = true ->
  let id := SubscribeMessage.RequestID msg in
  onSubscribe msg s =
    (r <- attempt (addLocalTrack id (length (Session.localHeap s)));
     match r with
     | Error e =>
         let '(code, reason) :=
           if bool_decide (e = errMaxRequestIDViolated)
           then (ErrorCodeTooManyRequests, str "too many subscribes")
           else (ErrorCodeInternal, str "internal") in
         write (SubscribeError (SubscribeErrorMessage.mk id code reason))
     | Ret _ =>
         srw <- match SubscribeHandler with
                | Some h => run_handler subscribe_exec (h (public_subscribe msg auth)) (new_writer msg s)
                | None => mret (new_writer msg s)
                end;
         reject_unhandled (SubscribeResponseWriter.handled srw)
           (SubscribeResponseWriter_Reject 0 (str "unhandled subscription") srw)
     end) (subscribed msg s).
Proof.
  intros Ha Hn. cbv zeta. unfold onSubscribe, localTrack.lift_res.
  rewrite Ha. rewrite (run_bind _ _ s auth s) by done. rewrite Hn. cbn [negb].
  unfold new_writer, subscribed, public_subscribe, on, alloc_local. cbv zeta.
  unfold gm_bind at 1. destruct (sequence.next (Session.trackAliases s)) as [alias sq].
  unfold gm_bind at 1. cbn [fst Session.localHeap Session.set_trackAliases]. reflexivity.
Qed.

(** A SUBSCRIBE that is refused is answered and leaves the tables of tracks
    as they are: one with no namespace or with more than 32 elements fails the
    session without an answer; one over the limit gets a SUBSCRIBE_ERROR with
    the code of too many requests; one whose ID is in use gets an internal
    error. *)
Theorem onSubscribe_refuses msg s :
  let id := SubscribeMessage.RequestID msg in
  0 <= id <= maxVarInt -> next_answer (subscribed msg s) = None ->
  (valid_namespace (SubscribeMessage.TrackNamespace msg) = false ->
     onSubscribe msg s = Ok (Error errInvalidNamespaceLength, s)) /\
  (valid_namespace (SubscribeMessage.TrackNamespace msg) = true ->
   Session.localMaxRequestID s <= id ->
     onSubscribe msg s = Ok (Ret tt,
       wrote (SubscribeError (SubscribeErrorMessage.mk id ErrorCodeTooManyRequests
                (str "too many subscribes"))) (subscribed msg s))) /\
  (valid_namespace (SubscribeMessage.TrackNamespace msg) = true ->
   id < Session.localMaxRequestID s / 2 ->
   is_Some (localTrackMap.findByID (Session.localTracks s) id) ->
     onSubscribe msg s = Ok (Ret tt,
       wrote (SubscribeError (SubscribeErrorMessage.mk id ErrorCodeInternal (str "internal")))
         (subscribed msg s))).
Proof.
  intros id Hid Ha. destruct (validateAuthParameter_Ok (SubscribeMessage.Parameters msg)) as [auth Hauth].
  assert (forall code reason, (code = ErrorCodeTooManyRequests \/ code = ErrorCodeInternal) ->
    len reason <= 60000 -> fits (SubscribeError (SubscribeErrorMessage.mk id code reason))) as Hf.
  { intros code reason Hc Hr. apply fits_SubscribeError; [done| |done].
    destruct Hc as [->| ->]; vm_compute; split; discriminate. }
  split; [|split].
  - intros Hn. unfold onSubscribe, localTrack.lift_res. rewrite Hauth.
    rewrite (run_bind _ _ s auth s) by done. by rewrite Hn.
  - intros Hn Hm. rewrite (onSubscribe_run _ _ auth) by done. fold id.
    rewrite (run_bind _ _ _ _ _ (run_attempt _ _ _ _ (addLocalTrack_over id _ (subscribed msg s) Hm))).
    rewrite bool_decide_eq_true_2 by done. apply write_fits; [|done].
    apply Hf; [by left|by vm_compute].
  - intros Hn Hlt Hdup. rewrite (onSubscribe_run _ _ auth) by done. fold id.
    assert (id < Session.localMaxRequestID s) as Hlt' by (Z.div_mod_to_equations; lia).
    pose proof (addLocalTrack_duplicate id (length (Session.localHeap s)) (subscribed msg s) Hlt'
      (or_introl Hlt) Hdup) as Hadd.
    assert (limit_checked id (subscribed msg s) = subscribed msg s) as Hchk
      by (unfold limit_checked; by replace (_ >=? _) with false by (cbn; lia)).
    rewrite Hchk in Hadd. clear Hchk.
    rewrite (run_bind _ _ _ _ _ (run_attempt _ _ _ _ Hadd)).
    rewrite bool_decide_eq_false_2 by done. apply write_fits; [|done].
    apply Hf; [by right|by vm_compute].
Qed.

(** ** Accepting *)

(** The SUBSCRIBE_OK of a list of options. *)
Definition subscribe_ok (id : Z) (options : list SubscribeOKOption) : SubscribeOkMessage.t :=
  let opts := apply_options options SubscribeOkOptions.default in
  SubscribeOkMessage.mk id 0 (SubscribeOkOptions.Expires opts) (SubscribeOkOptions.GroupOrder opts)
    (SubscribeOkOptions.ContentExists opts)
    (match SubscribeOkOptions.ContentExists opts, SubscribeOkOptions.LargestLocation opts with
     | true, Some l => l
     | _, _ => Location.zero
     end)
    (ToWire (SubscribeOkOptions.Parameters opts)).

(** The track of a request, moved from pending to open. *)
Definition opened (id : Z) (lt : nat) (s : Session.t) : Session.t :=
  Session.set_localTracks (localTrackMap.mk (localTrackMap.pending (Session.localTracks s))
    (<[id := lt]> (localTrackMap.open (Session.localTracks s)))) (limit_checked id s).

Lemma confirm_filed {A} id lt s (k : option nat -> SM A) :
  localTrackMap.findByID (Session.localTracks s) id = None ->
  gm_bind (on Session.localTracks Session.set_localTracks (fun m => localTrackMap.confirm m id)) k
    (filed id lt s) = k (Some lt) (opened id lt s).
Proof.
  intros Hf. assert (localTrackMap.pending (Session.localTracks s) !! id = None) as Hp
    by (unfold localTrackMap.findByID in Hf; by destruct (localTrackMap.pending _ !! id)).
  unfold on, gm_bind, localTrackMap.confirm, filed. cbn [Session.localTracks Session.set_localTracks
    localTrackMap.pending localTrackMap.open]. by rewrite lookup_insert_eq, delete_insert_eq, delete_id.
Qed.

Lemma onSubscribe_accepts msg h options s :
  let id := SubscribeMessage.RequestID msg in
  let s1 := subscribed msg s in
  SubscribeHandler = Some h ->
  (forall auth, h (public_subscribe msg auth) = Call (SubAccept options) (fun _ => Return)) ->
  valid_namespace (SubscribeMessage.TrackNamespace msg) = true ->
  id < Session.localMaxRequestID s -> can_raise id s ->
  localTrackMap.findByID (Session.localTracks s) id = None ->
  fits (SubscribeOk (subscribe_ok id options)) ->
  next_answer (limit_checked id s1) = None ->
  onSubscribe msg s = Ok (Ret tt,
    wrote (SubscribeOk (subscribe_ok id options)) (opened id (length (Session.localHeap s)) s1)).
Proof.
  intros id s1 Hh Hm Hn Hlt Hr Hf Hfit Ha.
  destruct (validateAuthParameter_Ok (SubscribeMessage.Parameters msg)) as [auth Hauth].
  rewrite (onSubscribe_run _ _ auth) by done. fold id s1. set (lt := length (Session.localHeap s)).
  pose proof (addLocalTrack_files id lt s1 Hlt Hr Hf) as Hadd. cbv zeta in Hadd.
  rewrite (run_bind _ _ _ _ _ (run_attempt _ _ _ _ Hadd)).
  rewrite Hh, Hm. cbn [run_handler]. fold (filed id lt s1).
  assert (acceptSubscriptionWithOptions id (Some (apply_options options SubscribeOkOptions.default))
    (filed id lt s1) = Ok (Ret tt, wrote (SubscribeOk (subscribe_ok id options)) (opened id lt s1))) as Hacc.
  { unfold acceptSubscriptionWithOptions. rewrite confirm_filed by exact Hf. by apply write_fits. }
  unfold subscribe_exec, SubscribeResponseWriter_Accept, try_call. cbn [SubscribeResponseWriter.id
    SubscribeResponseWriter.set_handled new_writer]. fold id.
  unfold gm_bind, attempt. rewrite Hacc. reflexivity.
Qed.

(** ** Rejecting *)

(** A pending request is dropped from the table. *)
Definition rejected (id : Z) (s : Session.t) : Session.t :=
  Session.set_localTracks (localTrackMap.mk (delete id (localTrackMap.pending (Session.localTracks s)))
    (localTrackMap.open (Session.localTracks s))) s.

(** A new request that is filed and rejected leaves the table as it was. *)
Lemma filed_rejected id lt s :
  localTrackMap.findByID (Session.localTracks s) id = None ->
  Session.localTracks (rejected id (filed id lt s)) = Session.localTracks s.
Proof.
  intros Hf. assert (localTrackMap.pending (Session.localTracks s) !! id = None) as Hp
    by (unfold localTrackMap.findByID in Hf; by destruct (localTrackMap.pending _ !! id)).
  unfold rejected, filed. cbn. rewrite delete_insert_eq, delete_id by done. by destruct (Session.localTracks s).
Qed.

Lemma local_requestID_run lt track s :
  Session.localHeap s !! lt = Some track ->
  local_requestID lt s = Ok (Ret (localTrack.requestID track), s).
Proof.
  intros Hh. unfold local_requestID, with_local. rewrite Hh. cbn [get].
  rewrite list_insert_id by done. by destruct s.
Qed.

Lemma rejectSubscription_run id code reason lt track s :
  let e := SubscribeErrorMessage.mk (localTrack.requestID track) code reason in
  localTrackMap.pending (Session.localTracks s) !! id = Some lt ->
  Session.localHeap s !! lt = Some track -> fits (SubscribeError e) -> next_answer s = None ->
  rejectSubscription id code reason s = Ok (Ret tt, wrote (SubscribeError e) (rejected id s)).
Proof.
  intros e Hp Hh Hf Ha. unfold rejectSubscription, on. unfold gm_bind at 1, localTrackMap.reject.
  rewrite Hp. cbn [of_option]. rewrite (run_bind _ _ _ _ _ eq_refl). fold (rejected id s).
  by rewrite (run_bind _ _ _ _ _ (local_requestID_run lt track (rejected id s) Hh)), write_fits.
Qed.

(** The writer of a request that was filed rejects it. *)
Lemma new_writer_rejects msg code reason s :
  let id := SubscribeMessage.RequestID msg in
  let s1 := subscribed msg s in
  let e := SubscribeErrorMessage.mk id code reason in
  fits (SubscribeError e) -> next_answer (limit_checked id s1) = None ->
  SubscribeResponseWriter_Reject code reason (new_writer msg s) (filed id (length (Session.localHeap s)) s1)
  = Ok (Ret (None, SubscribeResponseWriter.set_handled (new_writer msg s)),
        wrote (SubscribeError e) (rejected id (filed id (length (Session.localHeap s)) s1))).
Proof.
  intros id s1 e Hfit Ha. set (lt := length (Session.localHeap s)).
  pose proof (rejectSubscription_run id code reason lt (localTrack.newLocalTrack id
    (sequence.next (Session.trackAliases s)).1 true) (filed id lt s1)) as Hrej. cbv zeta in Hrej.
  unfold SubscribeResponseWriter_Reject, try_call. cbn [SubscribeResponseWriter.id
    SubscribeResponseWriter.set_handled new_writer]. fold id.
  unfold gm_bind, attempt. rewrite Hrej; [reflexivity| | |exact Hfit|exact Ha].
  - apply lookup_insert_eq.
  - unfold filed. cbn [Session.localHeap Session.set_localTracks].
    rewrite limit_checked_localHeap. by apply list_lookup_middle.
Qed.

(** A SUBSCRIBE below the limit that the application rejects or, without a
    SubscribeHandler, leaves to the session. *)
Lemma onSubscribe_rejects msg code reason s :
  let id := SubscribeMessage.RequestID msg in
  let s1 := subscribed msg s in
  let e := SubscribeErrorMessage.mk id code reason in
  match SubscribeHandler with
  | Some h => forall auth, h (public_subscribe msg auth) = Call (SubReject code reason) (fun _ => Return)
  | None => code = 0 /\ reason = str "unhandled subscription"
  end ->
  valid_namespace (SubscribeMessage.TrackNamespace msg) = true ->
  id < Session.localMaxRequestID s -> can_raise id s ->
  localTrackMap.findByID (Session.localTracks s) id = None ->
  fits (SubscribeError e) -> next_answer (limit_checked id s1) = None ->
  onSubscribe msg s = Ok (Ret tt,
    wrote (SubscribeError e) (rejected id (filed id (length (Session.localHeap s)) s1))).
Proof.
  intros id s1 e Hh Hn Hlt Hr Hf Hfit Ha.
  destruct (validateAuthParameter_Ok (SubscribeMessage.Parameters msg)) as [auth Hauth].
  rewrite (onSubscribe_run _ _ auth) by done. fold id s1. set (lt := length (Session.localHeap s)).
  pose proof (addLocalTrack_files id lt s1 Hlt Hr Hf) as Hadd. cbv zeta in Hadd.
  rewrite (run_bind _ _ _ _ _ (run_attempt _ _ _ _ Hadd)). fold (filed id lt s1).
  pose proof (new_writer_rejects msg code reason s Hfit Ha) as Hrej.
  cbv zeta in Hrej. fold id s1 lt e in Hrej.
  destruct SubscribeHandler as [h|]; [rewrite Hh|destruct Hh as [-> ->]];
    cbn [run_handler subscribe_exec]; unfold gm_bind at 1; [unfold gm_bind at 1|];
    cbn [reject_unhandled SubscribeResponseWriter.handled new_writer mret GM_ret gm_ret];
    [rewrite Hrej; reflexivity|]; unfold gm_bind; rewrite Hrej; reflexivity.
Qed.

End Subscribe.

(** ** At concrete inputs *)

Lemma addLocalTrack_spec_witness :
  addLocalTrack 64 0 established_server = Ok (Error errMaxRequestIDViolated, established_server) /\
  (exists s, addLocalTrack 2 0 established_server = Ok (Ret tt, s)).
Proof.
  split.
  - apply (addLocalTrack_spec 64 0 established_server). vm_compute. congruence.
  - eexists. apply (addLocalTrack_spec 2 0 established_server); [vm_compute; congruence| |reflexivity].
    left. vm_compute. reflexivity.
Defined.

Definition ex_subscribe_over_limit : SubscribeMessage.t :=
  SubscribeMessage.mk 100 [str "live"] (str "video") 128 1 1 FilterTypeLatestObject
    (Location.mk 0 0) 0 [].

Lemma onSubscribe_refuses_witness :
  onSubscribe (App := no_handlers) ex_subscribe_over_limit established_server =
  Ok (Ret tt, wrote (SubscribeError (SubscribeErrorMessage.mk 100 ErrorCodeTooManyRequests
                (str "too many subscribes"))) (subscribed ex_subscribe_over_limit established_server)).
Proof.
  apply (onSubscribe_refuses (App := no_handlers) ex_subscribe_over_limit established_server).
  - vm_compute. split; congruence.
  - reflexivity.
  - reflexivity.
  - vm_compute. congruence.
Defined.
