(* ===== verification/Exchanges.v ===== *)
(** Exchanges between two sessions: a request of one, the answer of the other,
    and what the caller of the request gets. *)

From Stdlib Require Import String.
From S2P Require Import Prelude VarInt Codec WireTypes Messages ControlMessages Framing Params Errors State.
From S2P Require Import RequestID TrackMaps Tracks Announcements SessionState Session SessionInv.
From S2P Require Import SessionSafety Sending Handshake Requests.
Local Open Scope Z_scope.
Local Open Scope go_scope.

(** * The subscriber *)

(** The SUBSCRIBE of a list of options. *)
Definition subscribe_message (id : Z) (ns : Tuple.t) (name : gostring)
    (options : list SubscribeOption) : SubscribeMessage.t :=
  let opts := apply_options options SubscribeOptions.default in
  SubscribeMessage.mk id ns name (SubscribeOptions.SubscriberPriority opts)
    (SubscribeOptions.GroupOrder opts) (boolToUint8 (SubscribeOptions.Forward opts))
    (SubscribeOptions.FilterType opts) (SubscribeOptions.StartLocation opts)
    (SubscribeOptions.EndGroup opts) (ToWire (SubscribeOptions.Parameters opts)).

(** The state with a new track for the next request, pending. *)
Definition requested (f : unsubscribe_func) (u : bool) (s : Session.t) : Session.t :=
  let s := Session.set_requestIDs (requestIDGenerator.next (Session.requestIDs s)).2 s in
  let id := next_id s - 2 in
  let rt := length (Session.remoteHeap s) in
  let m := Session.remoteTracks s in
  Session.set_remoteTracks (remoteTrackMap.mk (remoteTrackMap.nextTrackAlias m)
    (<[id := rt]> (remoteTrackMap.pending m)) (remoteTrackMap.open m)
    (remoteTrackMap.trackAliasToRequestID m))
    (Session.set_remoteHeap (Session.remoteHeap s ++ [RemoteTrack.newRemoteTrack id f u]) s).

(** The track once the answer was read. *)
Definition accepted_track (m : SubscribeOkMessage.t) (rt : RemoteTrack.t) : RemoteTrack.t :=
  RemoteTrack.set_info rt (SubscribeOkMessage.Expires m) (SubscribeOkMessage.GroupOrder m)
    (SubscribeOkMessage.ContentExists m)
    (if SubscribeOkMessage.ContentExists m then Some (SubscribeOkMessage.LargestLocation m) else None)
    (FromWire (SubscribeOkMessage.Parameters m)).

Section Subscriber.
Context {QV : QuicVarint} {MR : MapRange} {App : Application}.

Lemma getRequestID_run s :
  next_id s < requestIDGenerator.max (Session.requestIDs s) ->
  getRequestID s = Ok (Ret (next_id s),
    Session.set_requestIDs (requestIDGenerator.next (Session.requestIDs s)).2 s).
Proof.
  intros H. unfold getRequestID, gm_bind, on, next_id, requestIDGenerator.next in *.
  by replace (_ >=? _) with false by lia.
Qed.

(** The ID a request got, from the state after it. *)
Lemma requested_id s :
  inv s -> next_id s < requestIDGenerator.max (Session.requestIDs s) ->
  next_id (Session.set_requestIDs (requestIDGenerator.next (Session.requestIDs s)).2 s) - 2 = next_id s.
Proof.
  intros Hi Hlt. pose proof (requestID_parity_step s Hi Hlt) as (H1 & _ & _).
  unfold next_id, requestIDGenerator.next in *. cbn in *. replace (_ >=? _) with false by lia. cbn. lia.
Qed.

(** A fresh ID is in no table. *)
Lemma fresh_remote s id :
  inv s -> next_id s <= id ->
  remoteTrackMap.pending (Session.remoteTracks s) !! id = None /\
  remoteTrackMap.open (Session.remoteTracks s) !! id = None.
Proof.
  intros Hi Hid. unfold next_id in Hid.
  assert (forall p, ~ entry (remoteTrackMap.pending (Session.remoteTracks s))
    (remoteTrackMap.open (Session.remoteTracks s)) id p) as Hn.
  { intros p Hp. apply (inv_remote_ids s Hi) in Hp as [_ Hlt]. lia. }
  split; [destruct (remoteTrackMap.pending _ !! id) as [p|] eqn:E
         |destruct (remoteTrackMap.open _ !! id) as [p|] eqn:E]; try done;
    exfalso; apply (Hn p); [by left|by right].
Qed.

(** Registering the track of a request never finds its ID in use. *)
Lemma register_run {A} f u (k : Z -> nat -> SM A) s :
  inv s -> next_id s < requestIDGenerator.max (Session.requestIDs s) ->
  (requestID <- getRequestID;
   rt <- alloc_remote (RemoteTrack.newRemoteTrack requestID f u);
   _ <- try_ Session.remoteTracks Session.set_remoteTracks
          (fun m => remoteTrackMap.addPending m requestID rt);
   k requestID rt) s
  = k (next_id s) (length (Session.remoteHeap s)) (requested f u s).
Proof.
  intros Hi Hlt. rewrite (run_bind _ _ _ _ _ (getRequestID_run s Hlt)).
  pose proof (requested_id s Hi Hlt) as Hn. set (s1 := Session.set_requestIDs _ s) in *.
  destruct (fresh_remote s (next_id s) Hi ltac:(lia)) as [Hp Ho].
  unfold gm_bind at 1, alloc_remote. cbn beta iota. unfold gm_bind at 1, try_.
  cbn [Session.remoteTracks Session.set_remoteHeap Session.set_requestIDs]. subst s1.
  unfold remoteTrackMap.addPending. cbn [Session.remoteTracks Session.set_requestIDs].
  rewrite Hp, Ho. unfold requested. cbv zeta. rewrite Hn. reflexivity.
Qed.

Lemma Subscribe_send_run ns name options s :
  let m := subscribe_message (next_id s) ns name options in
  inv s -> next_id s < requestIDGenerator.max (Session.requestIDs s) -> next_answer s = None ->
  fits (Subscribe m) ->
  Subscribe_send ns name options s =
    Ok (Ret (length (Session.remoteHeap s)), wrote (Subscribe m) (requested Unsubscribes true s)).
Proof.
  intros m Hi Hlt Ha Hf. unfold Subscribe_send. etrans; [by apply (register_run Unsubscribes true
    (fun id rt => _ <- write (Subscribe (subscribe_message id ns name options)); mret rt))|].
  by rewrite (run_bind _ _ _ _ _ (write_fits (Subscribe m) (requested Unsubscribes true s) Hf Ha)).
Qed.

(** C33: Subscribe below the peer's limit registers a track under a fresh request
    ID and writes the SUBSCRIBE of its options: it never fails because the ID
    is in use.  At the limit it fails and registers nothing; when the write
    fails, so does the call, but the track stays registered. *)
Theorem Subscribe_spec p s ns name options :
  reachable p s ->
  let m := subscribe_message (next_id s) ns name options in
  let rt := length (Session.remoteHeap s) in
  fits (Subscribe m) ->
  (next_id s < requestIDGenerator.max (Session.requestIDs s) -> next_answer s = None ->
     Subscribe_send ns name options s = Ok (Ret rt, wrote (Subscribe m) (requested Unsubscribes true s))) /\
  (forall e, next_id s < requestIDGenerator.max (Session.requestIDs s) -> next_answer s = Some e ->
     exists s', Subscribe_send ns name options s = Ok (Error e, s') /\
       remoteTrackMap.pending (Session.remoteTracks s') !! next_id s = Some rt) /\
  (requestIDGenerator.max (Session.requestIDs s) <= next_id s ->
   forall r s', Subscribe_send ns name options s = Ok (r, s') ->
     (exists e, r = Error e) /\ Session.remoteTracks s' = Session.remoteTracks s).
Proof.
  intros Hr m rt Hf. destruct (reachable_inv p s Hr) as [Hi _].
  split; [intros; by apply Subscribe_send_run|split].
  - intros e Hlt Ha. eexists. split.
    { unfold Subscribe_send. etrans; [by apply (register_run Unsubscribes true (fun id rt =>
        _ <- write (Subscribe (subscribe_message id ns name options)); mret rt))|].
      by apply run_bind_error, write_fails. }
    cbn. rewrite (requested_id s Hi Hlt). by rewrite lookup_insert_eq.
  - intros Hge r s' H. unfold Subscribe_send, getRequestID, requestIDGenerator.next, on, next_id in *.
    rewrite gm_bind_assoc in H. unfold gm_bind at 1 in H.
    replace (_ >=? _) with true in H by lia.
    rewrite bool_decide_eq_true_2 in H by done. rewrite gm_bind_assoc in H.
    apply gm_bind_Ok in H as [(a & s1 & H1 & H2)|(e & H1 & ->)].
    + injection H2 as <- <-. split; [by eexists|].
      unfold attempt, write in H1. destruct (compileMessage _); [|by injection H1 as _ <-|done..].
      by destruct (Session.writes _) as [|[e|] ws]; injection H1 as _ <-.
    + unfold attempt in H1. by destruct (write _ _) as [[? ?]| | |].
Qed.

(** ** The answer *)

Lemma onSubscribeOk_run m s rt track :
  let id := SubscribeOkMessage.RequestID m in
  let alias := SubscribeOkMessage.TrackAlias m in
  let tracks := Session.remoteTracks s in
  remoteTrackMap.pending tracks !! id = Some rt ->
  remoteTrackMap.trackAliasToRequestID tracks !! alias = None ->
  Session.remoteHeap s !! rt = Some track ->
  RemoteTrack.responseChan track = [] ->
  onSubscribeOk m s = Ok (Ret tt,
    Session.set_remoteHeap (<[rt := RemoteTrack.set_responseChan (accepted_track m track) [None]]>
      (Session.remoteHeap s))
    (Session.set_remoteTracks (remoteTrackMap.mk (remoteTrackMap.nextTrackAlias tracks)
      (delete id (remoteTrackMap.pending tracks)) (<[id := rt]> (remoteTrackMap.open tracks))
      (<[alias := id]> (remoteTrackMap.trackAliasToRequestID tracks))) s)).
Proof.
  intros id alias tracks Hp Ha Hh Hc. unfold onSubscribeOk, confirm_remote. rewrite gm_bind_assoc.
  unfold on, gm_bind at 1, remoteTrackMap.confirm. fold id tracks. rewrite Hp.
  unfold gm_bind at 1, gm_bind at 1, try_, remoteTrackMap.setAlias.
  cbn [mret GM_ret gm_ret Session.remoteTracks Session.set_remoteTracks
    remoteTrackMap.trackAliasToRequestID remoteTrackMap.nextTrackAlias remoteTrackMap.pending
    remoteTrackMap.open]. fold alias. rewrite Ha.
  assert (rt < length (Session.remoteHeap s))%nat as Hlt by (by apply lookup_lt_Some in Hh).
  unfold respond, with_remote, gm_bind, modify. cbn [Session.remoteHeap Session.set_remoteTracks].
  rewrite Hh. cbn [Session.remoteHeap Session.set_remoteHeap]. rewrite list_lookup_insert_eq by done.
  cbn. rewrite Hc. cbn. rewrite list_insert_insert_eq. reflexivity.
Qed.

Lemma Subscribe_wait_run rt track s :
  Session.remoteHeap s !! rt = Some track -> RemoteTrack.responseChan track = [None] ->
  exists s', Subscribe_wait rt None s = Ok (Ret (Some rt), s') /\
    Session.remoteTracks s' = Session.remoteTracks s /\
    Session.remoteHeap s' = <[rt := RemoteTrack.set_responseChan track []]> (Session.remoteHeap s).
Proof.
  intros Hh Hc. assert (rt < length (Session.remoteHeap s))%nat as Hlt by (by apply lookup_lt_Some in Hh).
  unfold Subscribe_wait, await_track, with_remote, gm_bind, get. rewrite Hh. cbn [Session.remoteHeap
    Session.set_remoteHeap]. rewrite list_lookup_insert_eq by done. rewrite Hc. cbn.
  eexists. split; [done|]. cbn. by rewrite list_insert_insert_eq.
Qed.

(** ** The refusal *)

Lemma respond_run rt track e k s :
  Session.remoteHeap s !! rt = Some track -> RemoteTrack.responseChan track = [] ->
  respond rt e k s = Ok (Ret tt,
    Session.set_remoteHeap (<[rt := RemoteTrack.set_responseChan track [e]]> (Session.remoteHeap s)) s).
Proof.
  intros Hh Hc. unfold respond, with_remote. unfold gm_bind. rewrite Hh, Hc. reflexivity.
Qed.

Lemma onSubscribeError_run m s rt track :
  let tracks := Session.remoteTracks s in
  let id := SubscribeErrorMessage.RequestID m in
  remoteTrackMap.pending tracks !! id = Some rt -> Session.remoteHeap s !! rt = Some track ->
  RemoteTrack.responseChan track = [] ->
  onSubscribeError m s = Ok (Ret tt,
    Session.set_remoteHeap (<[rt := RemoteTrack.set_responseChan track
      [Some (ProtocolError (SubscribeErrorMessage.ErrorCode m) (SubscribeErrorMessage.ReasonPhrase m))]]>
      (Session.remoteHeap s))
    (Session.set_remoteTracks (remoteTrackMap.mk (remoteTrackMap.nextTrackAlias tracks)
      (delete id (remoteTrackMap.pending tracks)) (remoteTrackMap.open tracks)
      (remoteTrackMap.trackAliasToRequestID tracks)) s)).
Proof.
  intros tracks id Hp Hh Hc. unfold onSubscribeError, reject_remote, on. rewrite gm_bind_assoc.
  unfold gm_bind at 1, remoteTrackMap.reject. fold tracks id. rewrite Hp. cbn [of_option].
  rewrite (run_bind _ _ _ _ _ eq_refl). by rewrite (respond_run _ track).
Qed.

(** The waiting caller takes the error and drops the request, if it is still pending. *)
Lemma Subscribe_wait_refused rt track e s :
  Session.remoteHeap s !! rt = Some track -> RemoteTrack.responseChan track = [Some e] ->
  remoteTrackMap.pending (Session.remoteTracks s) !! RemoteTrack.requestID track = None ->
  exists s', Subscribe_wait rt None s = Ok (Error e, s') /\
    Session.remoteTracks s' = Session.remoteTracks s.
Proof.
  intros Hh Hc Hp. assert (rt < length (Session.remoteHeap s))%nat as Hlt by (by apply lookup_lt_Some in Hh).
  unfold Subscribe_wait, await_track, with_remote, on, gm_bind, get, remoteTrackMap.reject. rewrite Hh.
  cbn [Session.remoteHeap Session.set_remoteHeap]. rewrite list_lookup_insert_eq by done. rewrite Hc.
  cbn. rewrite Hp. eexists. split; [done|]. cbn. by destruct (Session.remoteTracks s).
Qed.

End Subscriber.

(** An application that rejects every subscription. *)
Definition rejects_subscriptions (code : Z) (reason : gostring) : Application := {|
  Handler := None;
  SubscribeHandler := Some (fun _ => Call (SubReject code reason) (fun _ => Return)) |}.

(** * Subscriptions *)

Section Subscriptions.
Context {QV : QuicVarint} {QVL : QuicVarintLaws} {MR : MapRange}.
Context (Ac : Application) (okoptions : list SubscribeOKOption).

Lemma receive_ready {App : Application} s A (k : bool -> SM A) :
  Session.handshakeDone s = true -> gm_bind (get Session.handshakeDone) k s = k true s.
Proof. intros H. rewrite (run_bind _ _ s true s); [done|]. unfold get. by rewrite H. Qed.

Lemma limit_checked_written id s :
  exists l, Session.written (limit_checked id s) = Session.written s ++ l.
Proof.
  unfold limit_checked, raise_limit. destruct (_ >=? _); [|exists []; by rewrite app_nil_r].
  cbv zeta. destruct (next_answer _); [exists []; by rewrite app_nil_r|].
  eexists. by rewrite wrote_written.
Qed.

(** The track of the subscription, at the subscriber. *)
Lemma requested_track f u s :
  inv s -> next_id s < requestIDGenerator.max (Session.requestIDs s) ->
  let s' := requested f u s in
  remoteTrackMap.pending (Session.remoteTracks s') !! next_id s = Some (length (Session.remoteHeap s)) /\
  remoteTrackMap.trackAliasToRequestID (Session.remoteTracks s') =
    remoteTrackMap.trackAliasToRequestID (Session.remoteTracks s) /\
  Session.remoteHeap s' !! length (Session.remoteHeap s) =
    Some (RemoteTrack.newRemoteTrack (next_id s) f u) /\
  Session.written s' = Session.written s /\ Session.handshakeDone s' = Session.handshakeDone s.
Proof.
  intros Hi Hlt s'. subst s'. unfold requested. cbv zeta. cbn. rewrite (requested_id s Hi Hlt).
  rewrite lookup_insert_eq, list_lookup_middle by done. done.
Qed.

(** Dropping the request leaves the table as it was. *)
Lemma requested_dropped f u s :
  inv s -> next_id s < requestIDGenerator.max (Session.requestIDs s) ->
  let m := Session.remoteTracks (requested f u s) in
  remoteTrackMap.mk (remoteTrackMap.nextTrackAlias m) (delete (next_id s) (remoteTrackMap.pending m))
    (remoteTrackMap.open m) (remoteTrackMap.trackAliasToRequestID m) = Session.remoteTracks s.
Proof.
  intros Hi Hlt m. destruct (fresh_remote s (next_id s) Hi ltac:(lia)) as [Hp _].
  subst m. unfold requested. cbv zeta. cbn. rewrite (requested_id s Hi Hlt).
  rewrite delete_insert_eq, delete_id by done. by destruct (Session.remoteTracks s).
Qed.

(** A subscription that the handler of the publisher accepts; [ok'] is what the
    subscriber reads for the SUBSCRIBE_OK. *)
Lemma accepted_exchange Ap h pc c p ns name options ok' :
  reachable (App := Ac) pc c ->
  let id := next_id c in
  let m := subscribe_message id ns name options in
  let ok := subscribe_ok id okoptions in
  SubscribeOkMessage.RequestID ok' = id -> SubscribeOkMessage.TrackAlias ok' = 0 ->
  SubscribeHandler (Application := Ap) = Some h ->
  (forall auth, h (public_subscribe m auth) = Call (SubAccept okoptions) (fun _ => Return)) ->
  Session.handshakeDone c = true -> Session.handshakeDone p = true ->
  id < requestIDGenerator.max (Session.requestIDs c) -> next_answer c = None ->
  remoteTrackMap.trackAliasToRequestID (Session.remoteTracks c) !! 0 = None ->
  fits (Subscribe m) -> fits (SubscribeOk ok) ->
  valid_namespace ns = true -> id < Session.localMaxRequestID p -> can_raise id p ->
  localTrackMap.findByID (Session.localTracks p) id = None ->
  next_answer (limit_checked id (subscribed m p)) = None ->
  exists rt c1 p1 c2 c3 l,
    Subscribe_send ns name options c = Ok (Ret rt, c1) /\
    Session.written c1 = Session.written c ++ [Subscribe m] /\
    receive (App := Ap) (Subscribe m) p = Ok (Ret tt, p1) /\
    Session.written p1 = Session.written p ++ l ++ [SubscribeOk ok] /\
    (localTrackMap.open (Session.localTracks p1) !! id = Some (length (Session.localHeap p)) /\
     Session.localHeap p1 !! length (Session.localHeap p) =
       Some (localTrack.newLocalTrack id (sequence.next (Session.trackAliases p)).1 true)) /\
    receive (App := Ac) (SubscribeOk ok') c1 = Ok (Ret tt, c2) /\
    Subscribe_wait rt None c2 = Ok (Ret (Some rt), c3) /\
    remoteTrackMap.open (Session.remoteTracks c3) !! id = Some rt /\
    remoteTrackMap.findByTrackAlias (Session.remoteTracks c3) 0 = Some rt /\
    Session.remoteHeap c3 !! rt =
      Some (accepted_track ok' (RemoteTrack.newRemoteTrack id Unsubscribes true)).
Proof.
  intros Hr id m ok Hid' Hal' Hh Hm Hc Hp Hlt Ha Halias Hf Hfo Hn Hlim Hraise Hfree Hap.
  destruct (reachable_inv (App := Ac) pc c Hr) as [Hi _].
  destruct (requested_track Unsubscribes true c Hi Hlt) as (Hpend & Hal & Hheap & Hw & Hd).
  set (c0 := requested Unsubscribes true c) in *. set (rt := length (Session.remoteHeap c)) in *.
  set (track := RemoteTrack.newRemoteTrack (next_id c) Unsubscribes true) in *.
  pose proof (Subscribe_send_run ns name options c Hi Hlt Ha Hf) as Hsend.
  fold id m c0 rt in Hsend.
  pose proof (onSubscribe_accepts (App := Ap) m h okoptions p Hh Hm
    Hn Hlim Hraise Hfree Hfo Hap) as Hacc.
  destruct (limit_checked_written id (subscribed m p)) as [l Hl].
  pose proof (onSubscribeOk_run ok' (wrote (Subscribe m) c0) rt track) as Hok. cbv zeta in Hok.
  rewrite Hid', Hal' in Hok. autorewrite with wrote in Hok. specialize (Hok Hpend). rewrite Hal in Hok.
  specialize (Hok Halias Hheap eq_refl).
  set (c2 := Session.set_remoteHeap _ _) in Hok.
  destruct (Subscribe_wait_run rt (RemoteTrack.set_responseChan (accepted_track ok' track) [None]) c2)
    as (c3 & Hwait & Ht3 & Hh3); [|done|].
  { subst c2. cbn. apply list_lookup_insert_eq. by apply lookup_lt_Some in Hheap. }
  eexists rt, _, _, c2, c3, l. split; [exact Hsend|]. split; [by rewrite wrote_written, Hw|].
  split.
  { unfold receive. rewrite (receive_ready (App := Ap)) by done. cbn [negb]. exact Hacc. }
  split; [rewrite wrote_written; unfold opened; cbn [Session.written Session.set_localTracks];
          rewrite app_assoc; f_equal; exact Hl|].
  split.
  { split; [autorewrite with wrote; cbn; apply lookup_insert_eq|].
    rewrite wrote_localHeap. unfold opened. cbn [Session.localHeap Session.set_localTracks].
    rewrite limit_checked_localHeap. by apply list_lookup_middle. }
  split.
  { unfold receive. rewrite (receive_ready (App := Ac)) by (autorewrite with wrote; by rewrite Hd).
    cbn [negb]. exact Hok. }
  split; [exact Hwait|]. rewrite Ht3. subst c2. cbn. split; [by rewrite lookup_insert_eq|].
  split.
  { unfold remoteTrackMap.findByTrackAlias, remoteTrackMap.findByRequestID. cbn.
    by rewrite !lookup_insert_eq. }
  rewrite Hh3. cbn. rewrite list_insert_insert_eq. apply list_lookup_insert_eq.
  by apply lookup_lt_Some in Hheap.
Qed.

(** The SUBSCRIBE_OK as the subscriber reads it: its Expires is a million times
    as long. *)
Definition arrived_ok (m : SubscribeOkMessage.t) : SubscribeOkMessage.t :=
  SubscribeOkMessage.with_Expires
    (int64 (SubscribeOkMessage.Expires m * SubscribeOkMessage.Millisecond)) m.

(** C14: A subscription from end to end, over the bytes of the control streams.
    The subscriber's Subscribe writes a SUBSCRIBE, whose frame the publisher
    parses as that SUBSCRIBE; the publisher, whose handler accepts, opens a track
    for it and writes a SUBSCRIBE_OK with the handler's options; the subscriber
    parses its frame, as the same message but for the Expires, which is
    multiplied by a million, and Subscribe returns the track, open, found by its ID and
    alias 0, with that expiry and with the group order, largest location and
    parameters of the options.  The options are in the ranges the parser accepts
    ([codable]), and the subscriber has no other track with alias 0. *)
Theorem subscription_exchange pc c p ns name options :
  reachable (App := Ac) pc c ->
  let id := next_id c in
  let m := subscribe_message id ns name options in
  let ok := subscribe_ok id okoptions in
  Session.handshakeDone c = true -> Session.handshakeDone p = true ->
  id < requestIDGenerator.max (Session.requestIDs c) -> next_answer c = None ->
  remoteTrackMap.trackAliasToRequestID (Session.remoteTracks c) !! 0 = None ->
  codable (Subscribe m) -> codable (SubscribeOk ok) ->
  fits (Subscribe m) -> fits (SubscribeOk ok) ->
  valid_namespace ns = true -> id < Session.localMaxRequestID p -> can_raise id p ->
  localTrackMap.findByID (Session.localTracks p) id = None ->
  next_answer (limit_checked id (subscribed m p)) = None ->
  exists rt c1 p1 c2 c3 l,
    Subscribe_send ns name options c = Ok (Ret rt, c1) /\
    Session.written c1 = Session.written c ++ [Subscribe m] /\
    crosses (Subscribe m) (Subscribe m) /\
    receive (App := accepts_subscriptions okoptions) (Subscribe m) p = Ok (Ret tt, p1) /\
    Session.written p1 = Session.written p ++ l ++ [SubscribeOk ok] /\
    localTrackMap.open (Session.localTracks p1) !! id = Some (length (Session.localHeap p)) /\
    crosses (SubscribeOk ok) (SubscribeOk (arrived_ok ok)) /\
    receive (App := Ac) (SubscribeOk (arrived_ok ok)) c1 = Ok (Ret tt, c2) /\
    Subscribe_wait rt None c2 = Ok (Ret (Some rt), c3) /\
    remoteTrackMap.open (Session.remoteTracks c3) !! id = Some rt /\
    remoteTrackMap.findByTrackAlias (Session.remoteTracks c3) 0 = Some rt /\
    Session.remoteHeap c3 !! rt =
      Some (accepted_track (arrived_ok ok) (RemoteTrack.newRemoteTrack id Unsubscribes true)).
Proof.
  intros Hr id m ok Hc Hp Hlt Ha Halias Hcm Hco Hf Hfo Hn Hlim Hraise Hfree Hap.
  destruct (accepted_exchange (accepts_subscriptions okoptions) (fun _ => Call (SubAccept okoptions) (fun _ => Return))
    pc c p ns name options (arrived_ok ok) Hr eq_refl eq_refl eq_refl (fun _ => eq_refl)
    Hc Hp Hlt Ha Halias Hf Hfo Hn Hlim Hraise Hfree Hap)
    as (rt & c1 & p1 & c2 & c3 & l & H1 & H2 & H3 & H4 & [H5 _] & H6 & H7).
  exists rt, c1, p1, c2, c3, l. do 2 (split; [done|]). split; [by apply codable_crosses|].
  do 3 (split; [done|]). split; [by apply codable_crosses|]. by split.
Qed.

(** A subscription that the handler of the publisher rejects. *)
Lemma refused_exchange Ap h pc c p ns name options code reason :
  reachable (App := Ac) pc c ->
  let id := next_id c in
  let m := subscribe_message id ns name options in
  let e := SubscribeErrorMessage.mk id code reason in
  SubscribeHandler (Application := Ap) = Some h ->
  (forall auth, h (public_subscribe m auth) = Call (SubReject code reason) (fun _ => Return)) ->
  Session.handshakeDone c = true -> Session.handshakeDone p = true ->
  id < requestIDGenerator.max (Session.requestIDs c) -> next_answer c = None ->
  fits (Subscribe m) -> fits (SubscribeError e) ->
  valid_namespace ns = true -> id < Session.localMaxRequestID p -> can_raise id p ->
  localTrackMap.findByID (Session.localTracks p) id = None ->
  next_answer (limit_checked id (subscribed m p)) = None ->
  exists rt c1 p1 c2 c3 l,
    Subscribe_send ns name options c = Ok (Ret rt, c1) /\
    Session.written c1 = Session.written c ++ [Subscribe m] /\
    receive (App := Ap) (Subscribe m) p = Ok (Ret tt, p1) /\
    Session.written p1 = Session.written p ++ l ++ [SubscribeError e] /\
    Session.localTracks p1 = Session.localTracks p /\
    receive (App := Ac) (SubscribeError e) c1 = Ok (Ret tt, c2) /\
    Subscribe_wait rt None c2 = Ok (Error (ProtocolError code reason), c3) /\
    Session.remoteTracks c3 = Session.remoteTracks c.
Proof.
  intros Hr id m e Hh Hm Hc Hp Hlt Ha Hf Hfe Hn Hlim Hraise Hfree Hap.
  destruct (reachable_inv (App := Ac) pc c Hr) as [Hi _].
  destruct (requested_track Unsubscribes true c Hi Hlt) as (Hpend & _ & Hheap & Hw & Hd).
  pose proof (Subscribe_send_run ns name options c Hi Hlt Ha Hf) as Hsend.
  set (c0 := requested Unsubscribes true c) in *. set (rt := length (Session.remoteHeap c)) in *.
  set (track := RemoteTrack.newRemoteTrack (next_id c) Unsubscribes true) in *.
  pose proof (onSubscribe_rejects (App := Ap) m code reason p) as Hrej. cbv zeta in Hrej. rewrite Hh in Hrej.
  specialize (Hrej Hm Hn Hlim Hraise Hfree Hfe Hap).
  destruct (limit_checked_written id (subscribed m p)) as [l Hl].
  pose proof (onSubscribeError_run e (wrote (Subscribe m) c0) rt track) as Herr. cbv zeta in Herr.
  autorewrite with wrote in Herr. specialize (Herr Hpend Hheap eq_refl).
  set (c2 := Session.set_remoteHeap _ _) in Herr.
  destruct (Subscribe_wait_refused rt (RemoteTrack.set_responseChan track [Some (ProtocolError code reason)])
    (ProtocolError code reason) c2) as (c3 & Hwait & Ht3); [|done| |].
  { subst c2. cbn. apply list_lookup_insert_eq. by apply lookup_lt_Some in Hheap. }
  { apply lookup_delete_eq. }
  eexists rt, _, _, c2, c3, l. split; [exact Hsend|]. split; [by rewrite wrote_written, Hw|].
  split.
  { unfold receive. rewrite (receive_ready (App := Ap)) by done. exact Hrej. }
  split; [rewrite wrote_written; cbn [Session.written rejected filed Session.set_localTracks];
          rewrite app_assoc; f_equal; exact Hl|].
  split; [rewrite wrote_localTracks; exact (filed_rejected _ _ (subscribed m p) Hfree)|].
  split.
  { unfold receive. rewrite (receive_ready (App := Ac)) by (autorewrite with wrote; by rewrite Hd). exact Herr. }
  split; [exact Hwait|]. rewrite Ht3. by apply requested_dropped.
Qed.

(** A refused subscription from end to end.  The subscriber's Subscribe
    writes a SUBSCRIBE; the publisher, whose handler rejects it with a code and
    a reason, writes a SUBSCRIBE_ERROR; the subscriber reads it and Subscribe
    returns the ProtocolError with that code and reason.  The tables of tracks
    of both sides are what they were before. *)
Theorem refused_subscription_exchange pc c p ns name options code reason :
  reachable (App := Ac) pc c ->
  let id := next_id c in
  let m := subscribe_message id ns name options in
  let e := SubscribeErrorMessage.mk id code reason in
  Session.handshakeDone c = true -> Session.handshakeDone p = true ->
  id < requestIDGenerator.max (Session.requestIDs c) -> next_answer c = None ->
  fits (Subscribe m) -> fits (SubscribeError e) ->
  valid_namespace ns = true -> id < Session.localMaxRequestID p -> can_raise id p ->
  localTrackMap.findByID (Session.localTracks p) id = None ->
  next_answer (limit_checked id (subscribed m p)) = None ->
  exists rt c1 p1 c2 c3 l,
    Subscribe_send ns name options c = Ok (Ret rt, c1) /\
    Session.written c1 = Session.written c ++ [Subscribe m] /\
    receive (App := rejects_subscriptions code reason) (Subscribe m) p = Ok (Ret tt, p1) /\
    Session.written p1 = Session.written p ++ l ++ [SubscribeError e] /\
    Session.localTracks p1 = Session.localTracks p /\
    receive (App := Ac) (SubscribeError e) c1 = Ok (Ret tt, c2) /\
    Subscribe_wait rt None c2 = Ok (Error (ProtocolError code reason), c3) /\
    Session.remoteTracks c3 = Session.remoteTracks c.
Proof.
  intros Hr id m e. by apply (refused_exchange (rejects_subscriptions code reason) (fun _ => Call (SubReject code reason) (fun _ => Return))
    pc c p ns name options code reason Hr).
Qed.

End Subscriptions.

(** * Announcements *)

Section Announcements.
Context {QV : QuicVarint} {QVL : QuicVarintLaws} {MR : MapRange}.
Context (Ac : Application).

Definition announce_message (id : Z) (ns : Tuple.t) : AnnounceMessage.t := AnnounceMessage.mk id ns [].

(** The announcer's record of an announcement. *)
Definition announced_record (ns : Tuple.t) (s : Session.t) : announcement.t :=
  announcement.mk (next_id s) ns [] (length (Session.chans s)).

(** The state with the announcement pending. *)
Definition announcing (ns : Tuple.t) (s : Session.t) : Session.t :=
  Session.set_outgoingAnnouncements
    (announcementMap.add (Session.outgoingAnnouncements s) (announced_record ns s))
    (Session.set_chans (Session.chans s ++ [[]])
      (Session.set_requestIDs (requestIDGenerator.next (Session.requestIDs s)).2 s)).

Lemma Announce_send_run {App : Application} ns s :
  next_id s < requestIDGenerator.max (Session.requestIDs s) -> next_answer s = None ->
  fits (Announce (announce_message (next_id s) ns)) ->
  Announce_send ns s = Ok (Ret (announced_record ns s),
    wrote (Announce (announce_message (next_id s) ns)) (announcing ns s)).
Proof.
  intros Hlt Ha Hf. unfold Announce_send. rewrite (run_bind _ _ _ _ _ (getRequestID_run s Hlt)).
  unfold gm_bind at 1, make_chan. cbn [Session.chans Session.set_requestIDs]. cbv zeta.
  fold (announced_record ns s). unfold gm_bind at 1, modify. cbn [Session.outgoingAnnouncements
    Session.set_chans Session.set_requestIDs]. fold (announcing ns s).
  rewrite (run_bind _ _ _ _ _ (run_attempt _ _ _ _ (write_fits _ (announcing ns s) Hf Ha))).
  reflexivity.
Qed.

(** A send on the channel of a waiting caller. *)
Lemma send_chan_run c x s :
  Session.chans s !! c = Some [] ->
  send_chan c x s = Ok (Ret true, Session.set_chans (<[c := [x]]> (Session.chans s)) s).
Proof. intros H. unfold send_chan. by rewrite H. Qed.

Lemma await_err_run c s :
  Session.chans s !! c = Some [RespErr None] ->
  exists s', await_err c None s = Ok (Ret (Some tt), s') /\
    Session.outgoingAnnouncements s' = Session.outgoingAnnouncements s.
Proof.
  intros H. unfold await_err, gm_bind, recv_chan. rewrite H. by eexists.
Qed.

(** ANNOUNCE_OK arrives for a pending announcement. *)
Lemma onAnnounceOk_run id a s :
  announcementMap.pending (Session.outgoingAnnouncements s) !! id = Some a ->
  Session.chans s !! announcement.response a = Some [] ->
  onAnnounceOk (AnnounceOkMessage.mk id) s = Ok (Ret tt,
    Session.set_chans (<[announcement.response a := [RespErr None]]> (Session.chans s))
      (Session.set_outgoingAnnouncements (announcementMap.mk
        (delete id (announcementMap.pending (Session.outgoingAnnouncements s)))
        (<[id := a]> (announcementMap.announcements (Session.outgoingAnnouncements s)))) s)).
Proof.
  intros Ha Hc. unfold onAnnounceOk, on, gm_bind at 1, announcementMap.confirmAndGet.
  cbn [AnnounceOkMessage.RequestID]. rewrite Ha. unfold gm_bind. by rewrite send_chan_run.
Qed.

(** ANNOUNCE arrives at a session whose handler accepts it: the announcement is
    recorded and ANNOUNCE_OK is written. *)
Definition announcement_taken (id : Z) (ns : Tuple.t) (s : Session.t) : Session.t :=
  let b := announcement.mk id ns [] (length (Session.chans s)) in
  Session.set_incomingAnnouncements (announcementMap.mk
    (delete id (<[id := b]> (announcementMap.pending (Session.incomingAnnouncements s))))
    (<[id := b]> (announcementMap.announcements (Session.incomingAnnouncements s))))
    (Session.set_chans (Session.chans s ++ [[]]) s).

Lemma onAnnounce_accepts id ns s :
  0 <= id <= maxVarInt -> valid_namespace ns = true -> next_answer s = None ->
  onAnnounce (App := accepts_requests) (announce_message id ns) s =
    Ok (Ret tt, wrote (AnnounceOk (AnnounceOkMessage.mk id)) (announcement_taken id ns s)).
Proof.
  intros Hid Hn Hs. unfold onAnnounce. cbn [AnnounceMessage.TrackNamespace announce_message]. rewrite Hn. cbn [negb].
  unfold gm_bind, make_chan, modify, Handle, run_handler. cbn.
  unfold try_call, acceptAnnouncement, gm_bind, attempt, on, announcementMap.confirmAndGet. cbn.
  rewrite lookup_insert_eq.
  by rewrite (write_fits (AnnounceOk (AnnounceOkMessage.mk id)) (announcement_taken id ns s) (fits_AnnounceOk id Hid)).
Qed.

(** C19: An announcement from end to end.  Announce writes an ANNOUNCE; the
    peer, whose handler accepts, files the announcement and writes an
    ANNOUNCE_OK; the announcer reads it and Announce returns, with the
    announcement confirmed on both sides. *)
Theorem announcement_exchange pc c p ns :
  reachable (App := Ac) pc c ->
  let id := next_id c in
  let m := announce_message id ns in
  Session.handshakeDone c = true -> Session.handshakeDone p = true ->
  id < requestIDGenerator.max (Session.requestIDs c) ->
  next_answer c = None -> next_answer p = None ->
  fits (Announce m) -> valid_namespace ns = true ->
  exists a b c1 p1 c2 c3,
    Announce_send ns c = Ok (Ret a, c1) /\
    Session.written c1 = Session.written c ++ [Announce m] /\
    receive (App := accepts_requests) (Announce m) p = Ok (Ret tt, p1) /\
    Session.written p1 = Session.written p ++ [AnnounceOk (AnnounceOkMessage.mk id)] /\
    receive (App := Ac) (AnnounceOk (AnnounceOkMessage.mk id)) c1 = Ok (Ret tt, c2) /\
    Announce_wait a None c2 = Ok (Ret (Some tt), c3) /\
    announcementMap.announcements (Session.outgoingAnnouncements c3) !! id = Some a /\
    announcementMap.announcements (Session.incomingAnnouncements p1) !! id = Some b /\
    announcement.namespace a = ns /\ announcement.namespace b = ns.
Proof.
  intros Hr id m Hc Hp Hlt Ha Hap Hf Hn. destruct (reachable_inv (App := Ac) pc c Hr) as [Hi _].
  assert (0 <= id <= maxVarInt) as Hid.
  { pose proof (inv_id c Hi). pose proof (inv_max c Hi). unfold id, next_id in *. lia. }
  pose proof (Announce_send_run (App := Ac) ns c Hlt Ha Hf) as Hsend. fold id m in Hsend.
  set (a := announced_record ns c) in *. set (c1 := wrote (Announce m) (announcing ns c)) in *.
  assert (Session.chans c1 !! length (Session.chans c) = Some []) as Hch
    by (subst c1; autorewrite with wrote; by apply list_lookup_middle).
  assert (length (Session.chans c) < length (Session.chans c1))%nat as Hl by (by apply lookup_lt_Some in Hch).
  assert (receive (App := accepts_requests) (Announce m) p =
    Ok (Ret tt, wrote (AnnounceOk (AnnounceOkMessage.mk id)) (announcement_taken id ns p))) as Hpeer.
  { unfold receive. rewrite (receive_ready (App := accepts_requests)) by done. by apply onAnnounce_accepts. }
  assert (announcementMap.pending (Session.outgoingAnnouncements c1) !! id = Some a) as Hpend
    by (subst c1; autorewrite with wrote; apply lookup_insert_eq).
  pose proof (onAnnounceOk_run id a c1 Hpend Hch) as Hok. set (c2 := Session.set_chans _ _) in Hok.
  assert (receive (App := Ac) (AnnounceOk (AnnounceOkMessage.mk id)) c1 = Ok (Ret tt, c2)) as Hrec.
  { unfold receive. rewrite (receive_ready (App := Ac)); [exact Hok|]. subst c1. by autorewrite with wrote. }
  destruct (await_err_run (length (Session.chans c)) c2) as (c3 & Hw & Ho); [by apply list_lookup_insert_eq|].
  eexists a, _, c1, _, c2, c3. split; [exact Hsend|].
  split; [subst c1; by rewrite wrote_written|]. split; [exact Hpeer|].
  split; [by rewrite wrote_written|]. split; [exact Hrec|]. split; [exact Hw|].
  split; [rewrite Ho; apply lookup_insert_eq|]. autorewrite with wrote. split; [apply lookup_insert_eq|done].
Qed.

End Announcements.

(** ** At concrete inputs *)

Lemma Subscribe_spec_witness :
  exists s, Subscribe_send [str "live"] (str "video") [] established_client = Ok (Ret 0%nat, s).
Proof.
  eexists. apply (Subscribe_spec (App := no_handlers) PerspectiveClient established_client
    [str "live"] (str "video") []).
  - apply established_client_reachable.
  - eexists. vm_compute. reflexivity.
  - vm_compute. reflexivity.
  - reflexivity.
Defined.

(** A message given by a term is in the ranges of the codec. *)
Ltac codable_term :=
  cbn [codable ControlMessage.wf];
  unfold SubscribeMessage.wf, SubscribeOkMessage.wf, SubscribeErrorMessage.wf, Tuple.wf, Location.wf, KVPList.wf;
  split_and!; first [apply list.Forall_nil; exact I|vm_compute; intuition congruence].

(** The publisher accepts for three microseconds; the subscriber is told three seconds. *)
Lemma subscription_exchange_witness :
  exists c1 p1 c2 c3,
    Subscribe_send [str "live"] (str "video") [] established_client = Ok (Ret 0%nat, c1) /\
    receive (App := accepts_subscriptions [WithExpires 3000])
      (Subscribe (subscribe_message 0 [str "live"] (str "video") [])) established_server
      = Ok (Ret tt, p1) /\
    receive (App := no_handlers) (SubscribeOk (arrived_ok (subscribe_ok 0 [WithExpires 3000]))) c1 = Ok (Ret tt, c2) /\
    Subscribe_wait 0 None c2 = Ok (Ret (Some 0%nat), c3) /\
    RemoteTrack.Expires <$> Session.remoteHeap c3 !! 0%nat = Some 3000000000.
Proof.
  destruct (subscription_exchange no_handlers [WithExpires 3000] PerspectiveClient established_client
    established_server [str "live"] (str "video") [])
    as (rt & c1 & p1 & c2 & c3 & l & H1 & _ & _ & H2 & _ & _ & _ & H3 & H4 & _ & _ & H5).
  - apply established_client_reachable.
  - reflexivity.
  - reflexivity.
  - vm_compute. reflexivity.
  - reflexivity.
  - reflexivity.
  - codable_term.
  - codable_term.
  - eexists. vm_compute. reflexivity.
  - eexists. vm_compute. reflexivity.
  - reflexivity.
  - vm_compute. reflexivity.
  - left. vm_compute. reflexivity.
  - reflexivity.
  - reflexivity.
  - assert (rt = 0%nat) as ->.
    { pose proof H1 as H. vm_compute in H. congruence. }
    exists c1, p1, c2, c3. rewrite H5. repeat split; assumption.
Defined.

Lemma refused_subscription_exchange_witness :
  exists rt c1 c2 c3,
    Subscribe_send [str "live"] (str "video") [] established_client = Ok (Ret rt, c1) /\
    receive (App := no_handlers) (SubscribeError (SubscribeErrorMessage.mk 0 4 (str "no such track"))) c1
      = Ok (Ret tt, c2) /\
    Subscribe_wait rt None c2 = Ok (Error (ProtocolError 4 (str "no such track")), c3).
Proof.
  destruct (refused_subscription_exchange no_handlers PerspectiveClient established_client
    established_server [str "live"] (str "video") [] 4 (str "no such track"))
    as (rt & c1 & p1 & c2 & c3 & l & H1 & _ & _ & _ & _ & H2 & H3 & _).
  - apply established_client_reachable.
  - reflexivity.
  - reflexivity.
  - vm_compute. reflexivity.
  - reflexivity.
  - eexists. vm_compute. reflexivity.
  - eexists. vm_compute. reflexivity.
  - reflexivity.
  - vm_compute. reflexivity.
  - left. vm_compute. reflexivity.
  - reflexivity.
  - reflexivity.
  - exists rt, c1, c2, c3. split; [exact H1|]. split; [exact H2|exact H3].
Defined.

Lemma announcement_exchange_witness :
  exists a c1 p1, Announce_send [str "live"] established_server = Ok (Ret a, c1) /\
    receive (App := accepts_requests) (Announce (announce_message 1 [str "live"])) established_client
      = Ok (Ret tt, p1).
Proof.
  destruct (announcement_exchange no_handlers PerspectiveServer established_server established_client
    [str "live"]) as (a & b & c1 & p1 & c2 & c3 & H1 & _ & H2 & _).
  - apply established_server_reachable.
  - reflexivity.
  - reflexivity.
  - vm_compute. reflexivity.
  - reflexivity.
  - reflexivity.
  - eexists. vm_compute. reflexivity.
  - reflexivity.
  - exists a, c1, p1. split; [exact H1|exact H2].
Defined.
