(* ===== verification/Fetches.v ===== *)
(** Fetches between two sessions: a FETCH of one, the answer of the other, and
    what the caller of Fetch gets. *)

From Stdlib Require Import String.
From S2P Require Import Prelude VarInt Codec WireTypes Messages ControlMessages Params Errors State.
From S2P Require Import RequestID TrackMaps Tracks Announcements SessionState Session SessionInv.
From S2P Require Import SessionSafety Sending Handshake Requests Exchanges.
Local Open Scope Z_scope.
Local Open Scope go_scope.

(** The FETCH of a track, and its answer. *)
Definition fetch_message (id : Z) (ns : Tuple.t) (track : gostring) : FetchMessage.t :=
  FetchMessage.mk id 0 0 FetchTypeStandalone ns track 0 0 0 0 0 0 [].
Definition fetch_ok (id : Z) : FetchOkMessage.t := FetchOkMessage.mk id 1 0 (Location.mk 0 0) [].

(** The publisher's state with a track for the message, before it is filed. *)
Definition fetched (msg : FetchMessage.t) (s : Session.t) : Session.t :=
  let '(alias, seq) := sequence.next (Session.trackAliases s) in
  Session.set_localHeap (Session.localHeap s ++
    [localTrack.newLocalTrack (FetchMessage.RequestID msg) alias false])
    (Session.set_trackAliases seq s).

(** * The two sides *)

Section Fetches.
Context {QV : QuicVarint} {QVL : QuicVarintLaws} {MR : MapRange}.

Lemma fits_FetchOk id : 0 <= id <= maxVarInt -> fits (FetchOk (fetch_ok id)).
Proof.
  intros Hid. apply (bounded_fits (8 + (1 + (1 + (16 + 8))))); [|lia].
  apply bounded_seq; [by apply bounded_varint|].
  repeat (apply bounded_seq; [apply bounded_byte|]).
  apply bounded_seq; [|apply bounded_no_parameters].
  apply bounded_Location; vm_compute; split; discriminate.
Qed.

Lemma Fetch_send_run ns track s :
  let m := fetch_message (next_id s) ns track in
  inv s -> next_id s < requestIDGenerator.max (Session.requestIDs s) -> next_answer s = None ->
  fits (Fetch m) ->
  Fetch_send ns track s =
    Ok (Ret (length (Session.remoteHeap s)), wrote (Fetch m) (requested CancelsFetch false s)).
Proof.
  intros m Hi Hlt Ha Hf. unfold Fetch_send. etrans; [by apply (register_run CancelsFetch false
    (fun id rt => r <- attempt (write (Fetch (fetch_message id ns track)));
       match r with
       | Error e => _ <- on Session.remoteTracks Session.set_remoteTracks
                          (fun m => remoteTrackMap.reject m id); throw e
       | Ret _ => mret rt
       end))|].
  by rewrite (run_bind _ _ _ _ _ (run_attempt _ _ _ _
    (write_fits (Fetch m) (requested CancelsFetch false s) Hf Ha))).
Qed.

(** An accepted FETCH. *)
Lemma onFetch_accepts {App : Application} msg h s :
  let id := FetchMessage.RequestID msg in
  let s1 := fetched msg s in
  Handler = Some h -> (forall m, h m = Call RwAccept (fun _ => Return)) ->
  valid_namespace (FetchMessage.TrackNamespace msg) = true ->
  id < Session.localMaxRequestID s -> can_raise id s ->
  localTrackMap.findByID (Session.localTracks s) id = None ->
  0 <= id <= maxVarInt -> next_answer (limit_checked id s1) = None ->
  onFetch msg s = Ok (Ret tt,
    wrote (FetchOk (fetch_ok id)) (opened id (length (Session.localHeap s)) s1)).
Proof.
  intros id s1 Hh Hm Hn Hlt Hr Hf Hid Ha. unfold onFetch. rewrite Hn. cbn [negb]. fold id.
  set (lt := length (Session.localHeap s)).
  unfold on at 1, alloc_local. unfold gm_bind at 1. unfold fetched in s1.
  destruct (sequence.next (Session.trackAliases s)) as [alias sq].
  unfold gm_bind at 1. cbn [Session.localHeap Session.set_trackAliases]. fold id lt in s1 |- *. fold s1.
  pose proof (addLocalTrack_files id lt s1 Hlt Hr Hf) as Hadd. cbv zeta in Hadd.
  rewrite (run_bind _ _ _ _ _ (run_attempt _ _ _ _ Hadd)). fold (filed id lt s1).
  assert (acceptFetch id (filed id lt s1) = Ok (Ret tt, wrote (FetchOk (fetch_ok id)) (opened id lt s1))) as Hacc.
  { unfold acceptFetch. rewrite confirm_filed by exact Hf. apply write_fits; [by apply fits_FetchOk|done]. }
  unfold Handle. rewrite Hh, Hm. cbn [run_handler fetch_exec]. unfold try_call, gm_bind, attempt.
  rewrite Hacc. reflexivity.
Qed.

(** The answer reaches the caller. *)
Lemma onFetchOk_run {App : Application} m s rt track :
  let tracks := Session.remoteTracks s in
  let id := FetchOkMessage.RequestID m in
  remoteTrackMap.pending tracks !! id = Some rt -> Session.remoteHeap s !! rt = Some track ->
  RemoteTrack.responseChan track = [] ->
  onFetchOk m s = Ok (Ret tt,
    Session.set_remoteHeap (<[rt := RemoteTrack.set_responseChan track [None]]> (Session.remoteHeap s))
    (Session.set_remoteTracks (remoteTrackMap.mk (remoteTrackMap.nextTrackAlias tracks)
      (delete id (remoteTrackMap.pending tracks)) (<[id := rt]> (remoteTrackMap.open tracks))
      (remoteTrackMap.trackAliasToRequestID tracks)) s)).
Proof.
  intros tracks id Hp Hh Hc. unfold onFetchOk, confirm_remote, on. rewrite gm_bind_assoc.
  unfold gm_bind at 1, remoteTrackMap.confirm. fold tracks id. rewrite Hp.
  rewrite (run_bind _ _ _ _ _ eq_refl). by rewrite (respond_run _ track).
Qed.

Lemma Fetch_wait_run rt track s :
  Session.remoteHeap s !! rt = Some track -> RemoteTrack.responseChan track = [None] ->
  exists s', Fetch_wait rt None s = Ok (Ret (Some rt), s') /\
    Session.remoteTracks s' = Session.remoteTracks s /\
    Session.remoteHeap s' = <[rt := RemoteTrack.set_responseChan track []]> (Session.remoteHeap s).
Proof.
  intros Hh Hc. assert (rt < length (Session.remoteHeap s))%nat as Hlt by (by apply lookup_lt_Some in Hh).
  unfold Fetch_wait, await_track, with_remote, gm_bind, get. rewrite Hh. cbn [Session.remoteHeap
    Session.set_remoteHeap]. rewrite list_lookup_insert_eq by done. rewrite Hc. cbn.
  eexists. split; [done|]. cbn. by rewrite list_insert_insert_eq.
Qed.

Lemma fetched_written msg s : Session.written (fetched msg s) = Session.written s.
Proof. done. Qed.

(** * The exchange *)

(** C31: A fetch from end to end.  Fetch writes a FETCH; the publisher, whose
    handler accepts, opens a local track for it and writes a FETCH_OK; the
    fetching side reads it and Fetch returns its track, which is then open
    under the ID of the request. *)
Theorem fetch_exchange (Ac : Application) pc c p ns track :
  reachable (App := Ac) pc c ->
  let id := next_id c in
  let m := fetch_message id ns track in
  Session.handshakeDone c = true -> Session.handshakeDone p = true ->
  id < requestIDGenerator.max (Session.requestIDs c) -> next_answer c = None ->
  fits (Fetch m) -> valid_namespace ns = true -> id < Session.localMaxRequestID p -> can_raise id p ->
  localTrackMap.findByID (Session.localTracks p) id = None ->
  next_answer (limit_checked id (fetched m p)) = None ->
  exists rt c1 p1 c2 c3 l lt,
    Fetch_send ns track c = Ok (Ret rt, c1) /\
    Session.written c1 = Session.written c ++ [Fetch m] /\
    receive (App := accepts_requests) (Fetch m) p = Ok (Ret tt, p1) /\
    Session.written p1 = Session.written p ++ l ++ [FetchOk (fetch_ok id)] /\
    localTrackMap.open (Session.localTracks p1) !! id = Some lt /\
    Session.localHeap p1 !! lt =
      Some (localTrack.newLocalTrack id (sequence.next (Session.trackAliases p)).1 false) /\
    receive (App := Ac) (FetchOk (fetch_ok id)) c1 = Ok (Ret tt, c2) /\
    Fetch_wait rt None c2 = Ok (Ret (Some rt), c3) /\
    remoteTrackMap.open (Session.remoteTracks c3) !! id = Some rt /\
    remoteTrackMap.pending (Session.remoteTracks c3) !! id = None /\
    Session.remoteHeap c3 !! rt = Some (RemoteTrack.newRemoteTrack id CancelsFetch false).
Proof.
  intros Hr id m Hc Hp Hlt Ha Hf Hn Hlim Hraise Hfree Hap.
  destruct (reachable_inv (App := Ac) pc c Hr) as [Hi _].
  destruct (requested_track CancelsFetch false c Hi Hlt) as (Hpend & _ & Hheap & Hw & Hd).
  pose proof (Fetch_send_run ns track c Hi Hlt Ha Hf) as Hsend. fold id m in Hsend.
  assert (0 <= id <= maxVarInt) as Hid.
  { pose proof (inv_id c Hi). pose proof (inv_max c Hi). unfold id, next_id in *. lia. }
  pose proof (onFetch_accepts (App := accepts_requests) m _ p eq_refl (fun _ => eq_refl) Hn Hlim Hraise
    Hfree Hid Hap) as Hacc.
  destruct (limit_checked_written id (fetched m p)) as [l Hl].
  set (c0 := requested CancelsFetch false c) in *. set (rt := length (Session.remoteHeap c)) in *.
  set (rtrack := RemoteTrack.newRemoteTrack (next_id c) CancelsFetch false) in *.
  pose proof (onFetchOk_run (App := Ac) (fetch_ok id) (wrote (Fetch m) c0) rt rtrack) as Hok.
  cbv zeta in Hok. autorewrite with wrote in Hok. specialize (Hok Hpend Hheap eq_refl).
  set (c2 := Session.set_remoteHeap _ _) in Hok.
  assert (rt < length (Session.remoteHeap c0))%nat as Hrt by (by apply lookup_lt_Some in Hheap).
  destruct (Fetch_wait_run rt (RemoteTrack.set_responseChan rtrack [None]) c2)
    as (c3 & Hwait & Ht3 & Hh3); [by apply list_lookup_insert_eq|done|].
  eexists rt, _, _, c2, c3, l, _. split; [exact Hsend|]. split; [by rewrite wrote_written, Hw|].
  split. { unfold receive. rewrite (receive_ready (App := accepts_requests)) by done. exact Hacc. }
  split; [rewrite wrote_written, app_assoc; f_equal; exact Hl|].
  split; [autorewrite with wrote; apply lookup_insert_eq|].
  split.
  { autorewrite with wrote. unfold opened. cbn [Session.localHeap Session.set_localTracks].
    rewrite limit_checked_localHeap. by apply list_lookup_middle. }
  split.
  { unfold receive. rewrite (receive_ready (App := Ac)) by (autorewrite with wrote; by rewrite Hd). exact Hok. }
  split; [exact Hwait|]. rewrite Ht3, Hh3. split; [apply lookup_insert_eq|].
  split; [apply lookup_delete_eq|]. subst c2. cbn. rewrite list_insert_insert_eq.
  by apply list_lookup_insert_eq.
Qed.

End Fetches.

(** ** At concrete inputs *)

Lemma fetch_exchange_witness :
  exists rt c1 p1 c2,
    Fetch_send [str "live"] (str "video") established_client = Ok (Ret rt, c1) /\
    receive (App := accepts_requests) (Fetch (fetch_message 0 [str "live"] (str "video")))
      established_server = Ok (Ret tt, p1) /\
    receive (App := no_handlers) (FetchOk (fetch_ok 0)) c1 = Ok (Ret tt, c2).
Proof.
  destruct (fetch_exchange no_handlers PerspectiveClient established_client established_server
    [str "live"] (str "video")) as (rt & c1 & p1 & c2 & c3 & l & lt & H1 & _ & H2 & _ & _ & _ & H3 & _).
  - apply established_client_reachable.
  - reflexivity.
  - reflexivity.
  - vm_compute. reflexivity.
  - reflexivity.
  - eexists. vm_compute. reflexivity.
  - reflexivity.
  - vm_compute. reflexivity.
  - left. vm_compute. reflexivity.
  - reflexivity.
  - reflexivity.
  - exists rt, c1, p1, c2. split; [exact H1|]. split; [exact H2|exact H3].
Defined.
