(* ===== verification/Deviations.v ===== *)
(** Where sessions fail: executions in which a session panics, loses a request
    or refuses a legitimate one. *)

From Stdlib Require Import String.
From S2P Require Import Prelude VarInt Codec WireTypes Messages ControlMessages Framing Params ParserSafety.
From S2P Require Import Errors State RequestID TrackMaps Tracks Announcements SessionState Session.
From S2P Require Import SessionInv SessionSafety Sending Handshake Requests Exchanges.
Local Open Scope Z_scope.
Local Open Scope go_scope.

(** * The limit on requests *)

(** A SUBSCRIBE with an ID of the peer's choice. *)
Definition flood_message (id : Z) : SubscribeMessage.t :=
  SubscribeMessage.mk id [str "a"] [] 0 0 0 FilterTypeLatestObject (Location.mk 0 0) 0 [].

Lemma flood_message_in_range id :
  0 <= id <= maxVarInt -> in_range (Subscribe (flood_message id)).
Proof.
  intros [Hid Hmax]. split; [|split; [split; vm_compute; congruence|exact Hmax]].
  cbn [in_range_fields ControlMessage.wf]. unfold SubscribeMessage.wf.
  split; [exact Hid|]. split; [vm_compute; congruence|].
  do 4 (split; [split; vm_compute; congruence|]). split; [split; vm_compute; congruence|].
  split; [reflexivity|]. split; [vm_compute; congruence|]. split; [reflexivity|constructor].
Qed.

Section Flood.
Context {QV : QuicVarint} {QVL : QuicVarintLaws} {MR : MapRange} {App : Application}.

(** When doubling the limit gives a number that is not a varint, the next
    SUBSCRIBE in the upper half of the limit makes the session panic, whatever
    the application. *)
Lemma subscribe_panics msg s :
  Session.handshakeDone s = true ->
  valid_namespace (SubscribeMessage.TrackNamespace msg) = true ->
  let max := Session.localMaxRequestID s in
  max / 2 <= SubscribeMessage.RequestID msg < max -> maxVarInt < uint64 (2 * max) ->
  receive (Subscribe msg) s = Panic.
Proof.
  intros Hd Hn max [Hge Hlt] Hm. unfold receive. rewrite receive_ready by done. cbn [negb].
  destruct (validateAuthParameter_Ok (SubscribeMessage.Parameters msg)) as [auth Hauth].
  rewrite (onSubscribe_run _ _ auth) by done. apply run_bind_panic, run_attempt_panic.
  apply addLocalTrack_panics; [exact Hlt|]. unfold can_raise. cbn. fold max. lia.
Qed.

(** A SUBSCRIBE nobody handles: the limit is doubled, the request rejected. *)
Lemma unhandled_doubles s :
  SubscribeHandler = None -> Session.handshakeDone s = true -> Session.writes s = [] ->
  let max := Session.localMaxRequestID s in
  let id := max / 2 in
  0 < max -> 2 * max <= maxVarInt ->
  (forall id, localTrackMap.findByID (Session.localTracks s) id = None) ->
  exists s', receive (Subscribe (flood_message id)) s = Ok (Ret tt, s') /\
    Session.localMaxRequestID s' = 2 * max /\ Session.handshakeDone s' = true /\
    Session.writes s' = [] /\
    (forall id, localTrackMap.findByID (Session.localTracks s') id = None).
Proof.
  intros Happ Hd Hw max id Hmax Hr Hfree. unfold receive. rewrite receive_ready by done. cbn [negb].
  assert (0 <= id < max) as Hid by (unfold id; Z.div_mod_to_equations; lia).
  set (m := flood_message id). set (s1 := subscribed m s).
  assert (uint64 (2 * max) = 2 * max) as Hu by (apply uint64_small; unfold maxVarInt in *; lia).
  assert (limit_checked id s1 = raise_limit s1) as Hlim
    by (unfold limit_checked; cbn; fold max; by replace (id >=? max / 2) with true by (unfold id; lia)).
  assert (Session.writes (raise_limit s1) = [] /\ Session.localMaxRequestID (raise_limit s1) = 2 * max /\
    Session.handshakeDone (raise_limit s1) = true) as (Hw1 & Hm1 & Hd1).
  { unfold raise_limit, next_answer, wrote. cbn. rewrite Hw. cbn. rewrite Hw. by fold max. }
  pose proof (onSubscribe_rejects m 0 (str "unhandled subscription") s) as Hrej. cbv zeta in Hrej.
  rewrite Hrej; [|by rewrite Happ|done|apply Hid|right; cbn; fold max; lia|apply Hfree| |].
  - eexists. split; [done|]. autorewrite with wrote. split_and!.
    + change (Session.localMaxRequestID (limit_checked id s1) = 2 * max). by rewrite Hlim.
    + change (Session.handshakeDone (limit_checked id s1) = true). by rewrite Hlim.
    + change (tail (Session.writes (limit_checked id s1)) = []). by rewrite Hlim, Hw1.
    + intros i. rewrite filed_rejected; apply Hfree.
  - apply fits_SubscribeError; cbn; [unfold maxVarInt in *; lia|split; vm_compute; congruence|].
    vm_compute. congruence.
  - change (SubscribeMessage.RequestID m) with id. fold s1. unfold next_answer. by rewrite Hlim, Hw1.
Qed.

(** C38: A peer brings down any session that handles no subscriptions (each is
    rejected), with at most 62 SUBSCRIBEs of a range every parser accepts: each
    one asks for the middle of the limit, which the session then doubles, until
    the limit is not a varint any more and writing it panics. *)
Theorem request_flood_panics s :
  SubscribeHandler = None -> Session.handshakeDone s = true -> Session.writes s = [] ->
  0 < Session.localMaxRequestID s <= maxVarInt ->
  (forall id, localTrackMap.findByID (Session.localTracks s) id = None) ->
  exists ids, (length ids <= 62)%nat /\ Forall (fun id => valid_event (Receives (Subscribe (flood_message id)))) ids /\
    run_events (map (fun id => Receives (Subscribe (flood_message id))) ids) s = Panic.
Proof.
  intros Happ. assert (forall n s, Session.handshakeDone s = true -> Session.writes s = [] ->
    0 < Session.localMaxRequestID s <= maxVarInt ->
    maxVarInt < Session.localMaxRequestID s * 2 ^ Z.of_nat n ->
    (forall id, localTrackMap.findByID (Session.localTracks s) id = None) ->
    exists ids, (length ids <= n)%nat /\ Forall (fun id => 0 <= id <= maxVarInt) ids /\
      run_events (map (fun id => Receives (Subscribe (flood_message id))) ids) s = Panic) as Hind.
  { clear s. induction n as [|n IH]; intros s Hd Hw Hm Hn Hfree; [cbn in Hn; lia|].
    set (max := Session.localMaxRequestID s) in *.
    assert (0 <= max / 2 < max) as Hid by (Z.div_mod_to_equations; lia).
    destruct (Z_le_gt_dec (2 * max) maxVarInt) as [Hle|Hgt].
    - destruct (unhandled_doubles s Happ Hd Hw) as (s' & Hr & Hm' & Hd' & Hw' & Hf');
        [lia|exact Hle|exact Hfree|]. fold max in Hr, Hm'.
      destruct (IH s' Hd' Hw') as (ids & Hl & Hids & Hrun); [lia| |exact Hf'|].
      { rewrite Hm'. rewrite Nat2Z.inj_succ, Z.pow_succ_r in Hn by lia. lia. }
      exists (max / 2 :: ids). split; [cbn; lia|]. split; [constructor; [lia|done]|].
      cbn [map run_events run_event]. by rewrite Hr.
    - exists [max / 2]. split; [cbn; lia|]. split; [constructor; [lia|constructor]|].
      cbn [map run_events run_event].
      rewrite (subscribe_panics (flood_message (max / 2)) s Hd eq_refl); [done|cbn; fold max; lia|].
      fold max. unfold maxVarInt in *. rewrite uint64_small by lia. lia. }
  intros Hd Hw Hm Hfree. destruct (Hind 62%nat s Hd Hw Hm) as (ids & Hl & Hids & Hrun);
    [cbn; unfold maxVarInt; lia|exact Hfree|].
  exists ids. split; [exact Hl|]. split; [|exact Hrun].
  eapply Forall_impl; [exact Hids|]. intros id Hid. by apply flood_message_in_range.
Qed.

End Flood.

(** * Requests that get no answer *)

Section Lost.
Context {QV : QuicVarint} {QVL : QuicVarintLaws} {MR : MapRange}.

(** What accepting a subscription writes. *)
Lemma acceptSubscription_writes id opts p p' :
  acceptSubscriptionWithOptions id opts p = Ok (Ret tt, p') ->
  exists ok, Session.written p' = Session.written p ++ [SubscribeOk ok] /\ fits (SubscribeOk ok) /\
    SubscribeOkMessage.RequestID ok = id /\ SubscribeOkMessage.TrackAlias ok = 0.
Proof.
  unfold acceptSubscriptionWithOptions, on. unfold gm_bind at 1.
  destruct (localTrackMap.confirm _ id) as [[lt|] m]; [|done]. cbn [of_option]. unfold gm_bind. cbn [mret GM_ret gm_ret].
  cbv zeta. set (ok := SubscribeOkMessage.mk _ _ _ _ _ _ _). intros H. exists ok.
  unfold write in H. destruct (compileMessage (SubscribeOk ok)) as [buf| | |] eqn:E; [|done..].
  split; [|by split; [exists buf|]]. cbn in H. by destruct (Session.writes p) as [|[e|] ws]; simplify_eq/=.
Qed.

(** A SUBSCRIBE_OK whose alias is taken. *)
Lemma onSubscribeOk_taken (App : Application) s rt track ok :
  let id := SubscribeOkMessage.RequestID ok in
  Session.handshakeDone s = true ->
  remoteTrackMap.pending (Session.remoteTracks s) !! id = Some rt ->
  Session.remoteHeap s !! rt = Some track -> RemoteTrack.responseChan track = [] ->
  is_Some (remoteTrackMap.trackAliasToRequestID (Session.remoteTracks s) !! SubscribeOkMessage.TrackAlias ok) ->
  exists s', receive (SubscribeOk ok) s = Ok (Error errDuplicateTrackAliasBug, s') /\
    Subscribe_wait rt None s' = Ok (Ret None, s').
Proof.
  intros id Hd Hp Hh Hc [a Ha]. unfold receive. rewrite receive_ready by done. cbn [negb].
  unfold onSubscribeOk, confirm_remote. rewrite gm_bind_assoc. unfold on, gm_bind at 1, remoteTrackMap.confirm.
  fold id. rewrite Hp. rewrite (run_bind _ _ _ _ _ eq_refl).
  assert (rt < length (Session.remoteHeap s))%nat as Hlt by (by apply lookup_lt_Some in Hh).
  eexists. split.
  { unfold gm_bind, try_, remoteTrackMap.setAlias. cbn. rewrite Ha. reflexivity. }
  unfold Subscribe_wait, await_track, with_remote, gm_bind, get. cbn.
  rewrite Hh. cbn. rewrite list_lookup_insert_eq by done. rewrite Hc. cbn.
  rewrite !list_insert_insert_eq, (list_insert_id _ _ _ Hh). reflexivity.
Qed.

(** C39: A session can hold one accepted subscription at most.  However a publisher
    accepts a subscription, and whatever alias it gave the track, the SUBSCRIBE_OK
    it writes has the alias 0.  When its options are in the ranges the parser
    accepts, it is parsed by a subscriber that already has a track of alias 0, whose
    control stream ends with an error then, and the call of Subscribe that waits
    for it is not told. *)
Theorem second_subscription_fails (App : Application) id opts p p' s rt track :
  acceptSubscriptionWithOptions id opts p = Ok (Ret tt, p') ->
  Session.handshakeDone s = true ->
  remoteTrackMap.pending (Session.remoteTracks s) !! id = Some rt ->
  Session.remoteHeap s !! rt = Some track -> RemoteTrack.responseChan track = [] ->
  is_Some (remoteTrackMap.trackAliasToRequestID (Session.remoteTracks s) !! 0) ->
  exists ok, Session.written p' = Session.written p ++ [SubscribeOk ok] /\
    SubscribeOkMessage.TrackAlias ok = 0 /\
    (codable (SubscribeOk ok) ->
     crosses (SubscribeOk ok) (SubscribeOk (arrived_ok ok)) /\
     exists s', receive (SubscribeOk (arrived_ok ok)) s = Ok (Error errDuplicateTrackAliasBug, s') /\
       Subscribe_wait rt None s' = Ok (Ret None, s')).
Proof.
  intros Hacc Hd Hp Hh Hc Ha.
  destruct (acceptSubscription_writes _ _ _ _ Hacc) as (ok & Hw & Hf & Hid & Hal). exists ok.
  split; [exact Hw|]. split; [exact Hal|]. intros Hco. split; [by apply codable_crosses|].
  apply (onSubscribeOk_taken _ _ _ track); cbn; rewrite ?Hid, ?Hal; done.
Qed.

(** A track status request is never answered, but for the first request of
    a client: the request goes out with the ID 0 in place of its own, every
    TRACK_STATUS a session answers with carries the ID 0 as well, and the
    requester does not know it. *)
Theorem track_status_unanswered (App : Application) p s ns track :
  reachable p s -> Session.handshakeDone s = true ->
  next_id s < requestIDGenerator.max (Session.requestIDs s) -> next_answer s = None ->
  fits (TrackStatusRequest (TrackStatusRequestMessage.mk 0 ns track [])) ->
  next_id s <> 0 -> Session.outgoingTrackStatusRequests s !! 0 = None ->
  exists tsr s1, RequestTrackStatus_send ns track s = Ok (Ret tsr, s1) /\
    Session.written s1 = Session.written s ++
      [TrackStatusRequest (TrackStatusRequestMessage.mk 0 ns track [])] /\
    (forall ts q r q', sendTrackStatus ts q = Ok (Ret r, q') ->
       exists answer, Session.written q' = Session.written q ++ [TrackStatus answer] /\
         receive (TrackStatus answer) s1 = Ok (Error errUnknownTrackStatusRequest, s1)) /\
    RequestTrackStatus_wait tsr None s1 = Ok (Ret None, s1).
Proof.
  intros Hr Hd Hlt Ha Hf Hn0 Hno. unfold RequestTrackStatus_send.
  rewrite (run_bind _ _ _ _ _ (getRequestID_run s Hlt)).
  unfold gm_bind at 1, make_chan. cbn [Session.chans Session.set_requestIDs]. cbv zeta.
  unfold gm_bind at 1, modify. cbn [Session.outgoingTrackStatusRequests Session.set_chans
    Session.set_requestIDs]. set (tsr := trackStatusRequest.mk _ _ _ _).
  set (s0 := Session.set_outgoingTrackStatusRequests _ _).
  rewrite (run_bind _ _ _ _ _ (run_attempt _ _ _ _ (write_fits _ s0 Hf Ha))).
  eexists tsr, _. split; [reflexivity|]. split; [by rewrite wrote_written|]. split.
  - intros ts q r q' H. exists (TrackStatusMessage.mk 0 (TrackStatus.StatusCode ts) Location.zero []).
    split.
    { unfold sendTrackStatus, write in H. destruct (compileMessage _); [|done..].
      by destruct (Session.writes q) as [|[e|] ws]; simplify_eq/=. }
    unfold receive. rewrite receive_ready by (autorewrite with wrote; exact Hd). cbn [negb].
    unfold onTrackStatus, on. unfold gm_bind at 1, trackStatusRequestMap.delete.
    cbn [TrackStatusMessage.RequestID]. autorewrite with wrote. subst s0.
    cbn [Session.outgoingTrackStatusRequests Session.set_outgoingTrackStatusRequests].
    unfold trackStatusRequestMap.add. cbn [trackStatusRequest.requestID tsr].
    assert (forall x, <[next_id s := x]> (Session.outgoingTrackStatusRequests s : gmap Z _) !! 0 = None) as Hz
      by (intros x; rewrite lookup_insert_ne by done; exact Hno).
    change (@lookup Z trackStatusRequest.t trackStatusRequestMap.t _ 0 _) with
      (<[next_id s := tsr]> (Session.outgoingTrackStatusRequests s : gmap Z _) !! 0).
    rewrite Hz. unfold gm_bind, of_option, throw.
    f_equal. f_equal. unfold wrote. by destruct (Session.writes _).
  - unfold RequestTrackStatus_wait, gm_bind, recv_chan. autorewrite with wrote.
    cbn [trackStatusRequest.response tsr]. subst s0. cbn. by rewrite list_lookup_middle.
Qed.

(** A FETCH over the limit is not answered: the session fails with an
    unknown request ID, and writes nothing. *)
Theorem fetch_over_limit (App : Application) msg s :
  Session.handshakeDone s = true -> valid_namespace (FetchMessage.TrackNamespace msg) = true ->
  let id := FetchMessage.RequestID msg in
  Session.localMaxRequestID s <= id -> localTrackMap.pending (Session.localTracks s) !! id = None ->
  exists s', receive (Fetch msg) s = Ok (Error errUnknownRequestID, s') /\
    Session.written s' = Session.written s.
Proof.
  intros Hd Hn id Hid Hp. unfold receive. rewrite receive_ready by done. cbn [negb].
  unfold onFetch. rewrite Hn. cbn [negb]. cbv zeta. fold id.
  unfold on at 1. unfold gm_bind at 1. destruct (sequence.next (Session.trackAliases s)) as [alias sq].
  unfold alloc_local. unfold gm_bind at 1. cbn [Session.localHeap Session.set_trackAliases].
  set (s1 := Session.set_localHeap _ _).
  rewrite (run_bind _ _ _ _ _ (run_attempt _ _ _ _ (addLocalTrack_over id _ s1 Hid))).
  exists (Session.set_localTracks (Session.localTracks s) s1). split; [apply run_bind_error|done].
  unfold rejectFetch, on. unfold gm_bind at 1, localTrackMap.reject.
  change (Session.localTracks s1) with (Session.localTracks s). rewrite Hp. reflexivity.
Qed.

(** Unannounce is inverted: withdrawing an announcement that was made
    fails, and tells the peer nothing; withdrawing one that was not made
    writes an UNANNOUNCE. *)
Theorem unannounce_inverted ns s :
  announcementMap.wf (Session.outgoingAnnouncements s) ->
  let made := exists k a, (announcementMap.pending (Session.outgoingAnnouncements s) !! k = Some a \/
    announcementMap.announcements (Session.outgoingAnnouncements s) !! k = Some a) /\
    announcement.namespace a = ns in
  fits (ControlMessages.Unannounce (UnannounceMessage.mk ns)) -> next_answer s = None ->
  (made -> exists s', Unannounce ns s = Ok (Error errUnknownAnnouncementNamespace, s') /\
     Session.written s' = Session.written s) /\
  (~ made -> exists s', Unannounce ns s = Ok (Ret tt, s') /\
     Session.written s' = Session.written s ++ [ControlMessages.Unannounce (UnannounceMessage.mk ns)]).
Proof.
  intros Hwf made Hf Ha. pose proof (announcementMap_delete_cases _ ns Hwf) as Hdel.
  unfold Unannounce, on. destruct (announcementMap.delete _ ns) as [[] m'] eqn:E.
  - destruct Hdel as (k & a & Hns & Hcase). split.
    + intros _. eexists. split; [by unfold gm_bind; rewrite E|done].
    + intros Hno. exfalso. apply Hno. exists k, a. split; [|done]. by destruct Hcase as [[]|(_ & ? & _)]; auto.
  - destruct Hdel as [-> Hnone]. split.
    + intros (k & a & Hk & Hns). exfalso. by apply (Hnone k a Hk).
    + intros _. set (s1 := Session.set_outgoingAnnouncements (Session.outgoingAnnouncements s) s).
      eexists. split.
      { unfold gm_bind. rewrite E. by apply (write_fits _ s1 Hf). }
      by rewrite wrote_written.
Qed.

(** A session whose application has no Handler panics when the peer sends
    a GOAWAY, a SUBSCRIBE_ANNOUNCES or an UNSUBSCRIBE_ANNOUNCES, or, with a
    valid namespace, an ANNOUNCE, an ANNOUNCE_CANCEL or a TRACK_STATUS_REQUEST. *)
Theorem nil_handler_panics (App : Application) s msg :
  Handler = None -> Session.handshakeDone s = true ->
  match msg with
  | GoAway _ | SubscribeAnnounces _ | UnsubscribeAnnounces _ => True
  | Announce m => valid_namespace (AnnounceMessage.TrackNamespace m) = true
  | ControlMessages.AnnounceCancel m => valid_namespace (AnnounceCancelMessage.TrackNamespace m) = true
  | TrackStatusRequest m => valid_namespace (TrackStatusRequestMessage.TrackNamespace m) = true
  | _ => False
  end -> receive msg s = Panic.
Proof.
  intros Happ Hd Hm. unfold receive. rewrite receive_ready by done. cbn [negb].
  assert (forall W (exec : rw_call -> W -> SM (option error * W)) w m s', Handle exec w m s' = Panic) as Hh
    by (intros; unfold Handle; by rewrite Happ).
  destruct msg; try done; cbn [onGoAway];
    unfold onGoAway, onAnnounce, onAnnounceCancel, onTrackStatusRequest, onSubscribeAnnounces,
      onUnsubscribeAnnounces; try rewrite Hm; cbn [negb]; cbv zeta;
    try unfold make_chan, modify, gm_bind at 1; try unfold gm_bind at 1; try unfold gm_bind at 1;
    rewrite ?Hh; reflexivity.
Qed.

End Lost.

(** ** At concrete inputs *)

Lemma request_flood_panics_witness :
  exists ids, (length ids <= 62)%nat /\
    run_events (App := no_handlers)
      (map (fun id => Receives (Subscribe (flood_message id))) ids) established_server = Panic.
Proof.
  destruct (request_flood_panics (App := no_handlers) established_server) as (ids & Hl & _ & H).
  - reflexivity.
  - reflexivity.
  - reflexivity.
  - vm_compute. split; congruence.
  - reflexivity.
  - exists ids. split; [exact Hl|exact H].
Defined.

(** A client with one open subscription, and a second one pending. *)
Definition two_subscriptions : Session.t :=
  match run_events (App := no_handlers)
    [Calls (CallSubscribe [str "live"] (str "video") []); Receives (SubscribeOk (subscribe_ok 0 []));
     Calls (CallSubscribe [str "live"] (str "audio") [])] established_client with
  | Ok s => s
  | _ => established_client
  end.

(** A publisher with the track of the second subscription pending under alias 1. *)
Definition second_publisher : Session.t :=
  Session.set_localTracks (localTrackMap.mk {[2 := 0%nat]} ∅)
    (Session.set_localHeap [localTrack.newLocalTrack 2 1 true] established_server).

Lemma second_subscription_fails_witness :
  exists p' s', acceptSubscriptionWithOptions 2 None second_publisher = Ok (Ret tt, p') /\
    Session.written p' = Session.written second_publisher ++ [SubscribeOk (subscribe_ok 2 [])] /\
    receive (App := no_handlers) (SubscribeOk (subscribe_ok 2 [])) two_subscriptions
    = Ok (Error errDuplicateTrackAliasBug, s').
Proof.
  eexists. assert (acceptSubscriptionWithOptions 2 None second_publisher = Ok (Ret tt, _)) as Hacc
    by (vm_compute; reflexivity).
  destruct (second_subscription_fails no_handlers 2 None second_publisher _ two_subscriptions 1
    (RemoteTrack.newRemoteTrack 2 Unsubscribes true) Hacc) as (ok & Hw & _ & H).
  - vm_compute. reflexivity.
  - vm_compute. reflexivity.
  - vm_compute. reflexivity.
  - vm_compute. reflexivity.
  - vm_compute. eexists. reflexivity.
  - assert (ok = subscribe_ok 2 []) as ->.
    { vm_compute in Hw. injection Hw as <-. vm_compute. reflexivity. }
    destruct (H ltac:(codable_term)) as [_ (s' & Hr & _)].
    exists s'. split; [exact Hacc|]. split; [exact Hw|]. exact Hr.
Defined.

Lemma track_status_unanswered_witness :
  exists tsr s1, RequestTrackStatus_send [str "live"] (str "video") established_server
    = Ok (Ret tsr, s1) /\ RequestTrackStatus_wait tsr None s1 = Ok (Ret None, s1).
Proof.
  destruct (track_status_unanswered no_handlers PerspectiveServer established_server [str "live"]
    (str "video")) as (tsr & s1 & H & _ & _ & Hw).
  - apply established_server_reachable.
  - reflexivity.
  - vm_compute. reflexivity.
  - reflexivity.
  - eexists. vm_compute. reflexivity.
  - vm_compute. congruence.
  - reflexivity.
  - exists tsr, s1. split; [exact H|exact Hw].
Defined.

Lemma fetch_over_limit_witness :
  exists s', receive (App := no_handlers)
    (Fetch (FetchMessage.mk 64 0 0 FetchTypeStandalone [str "live"] (str "video") 0 0 0 0 0 0 []))
    established_server = Ok (Error errUnknownRequestID, s').
Proof.
  destruct (fetch_over_limit no_handlers
    (FetchMessage.mk 64 0 0 FetchTypeStandalone [str "live"] (str "video") 0 0 0 0 0 0 [])
    established_server) as (s' & H & _).
  - reflexivity.
  - reflexivity.
  - vm_compute. congruence.
  - reflexivity.
  - exists s'. exact H.
Defined.

(** A server that has announced a namespace. *)
Definition announced : Session.t :=
  match run_events (App := no_handlers) [Calls (CallAnnounce [str "live"])] established_server with
  | Ok s => s
  | _ => established_server
  end.

Lemma unannounce_inverted_witness :
  exists s', Unannounce [str "live"] announced = Ok (Error errUnknownAnnouncementNamespace, s').
Proof.
  destruct (unannounce_inverted [str "live"] announced) as [H _].
  - apply inv_outgoing, (reachable_inv (App := no_handlers) PerspectiveServer).
    apply (run_events_reachable (App := no_handlers) PerspectiveServer
      [Calls (CallAnnounce [str "live"])] established_server).
    + apply established_server_reachable.
    + repeat constructor.
    + vm_compute. reflexivity.
  - eexists. vm_compute. reflexivity.
  - reflexivity.
  - destruct H as (s' & H & _).
    + exists 1. eexists. split; [left; vm_compute; reflexivity|reflexivity].
    + exists s'. exact H.
Defined.

Lemma nil_handler_panics_witness :
  receive (App := no_handlers) (GoAway (GoAwayMessage.mk [])) established_client = Panic.
Proof. apply (nil_handler_panics no_handlers); [reflexivity|reflexivity|exact I]. Defined.
