(* ===== verification/Xor.v ===== *)
(** Forward error correction with XOR parity (fec/xor/xor.go): the Encoder adds
    a parity packet to every block of data packets, the Decoder recovers the
    one packet of a block that was lost.

    [int] is 64 bits wide.  The mutexes make each method one step.  Payloads are
    values: neither side writes to a slice it was given. *)

From S2P Require Import Prelude State.
Local Open Scope Z_scope.

Module xor.

Module Config.
Record t := mk { BlockSize : Z }.
End Config.

(** [make([][]byte, 0, n)]: a slice header is 24 bytes. *)
Definition make_buffer (n : Z) : res (list (list byte)) :=
  _ ← make_slice 24 n; Ok [].

(** * The encoder *)

Module Encoder.
Record t := mk {
  config : Config.t;
  blockID : Z;
  seqID : Z;
  buffer : list (list byte) }.
End Encoder.

Definition NewEncoder (config : Config.t) : res Encoder.t :=
  buffer ← make_buffer (Config.BlockSize config);
  Ok (Encoder.mk config 0 0 buffer).

(** [for i := 0; i < len(packet); i++ { parity[i] ^= packet[i] }] *)
Fixpoint xor_packet (parity packet : list byte) : res (list byte) :=
  match packet, parity with
  | [], _ => Ok parity
  | _ :: _, [] => Panic
  | y :: packet, x :: parity => parity ← xor_packet parity packet; Ok (byte.xor x y :: parity)
  end.

Fixpoint xor_packets (parity : list byte) (packets : list (list byte)) : res (list byte) :=
  match packets with
  | [] => Ok parity
  | packet :: packets => parity ← xor_packet parity packet; xor_packets parity packets
  end.

Definition maxLen (packets : list (list byte)) : nat :=
  foldl (fun maxLen packet => if (maxLen <? length packet)%nat then length packet else maxLen) 0%nat packets.

Definition zeros (n : nat) : list byte := replicate n (byte.of_Z 0).

(** [None] is the nil slice. *)
Definition generateParity (packets : list (list byte)) : res (option (list byte)) :=
  match packets with
  | [] => Ok None
  | _ => parity ← xor_packets (zeros (maxLen packets)) packets; Ok (Some parity)
  end.

Definition flushEncoder (enc : Encoder.t) : res Encoder.t :=
  buffer ← make_buffer (Config.BlockSize (Encoder.config enc));
  Ok (Encoder.mk (Encoder.config enc) (int64 (Encoder.blockID enc + 1)) 0 buffer).

Definition TryEncode (payload : list byte) (e : Encoder.t) :
    res (option (list byte) * Z * Z * Encoder.t) :=
  let e := Encoder.mk (Encoder.config e) (Encoder.blockID e) (int64 (Encoder.seqID e + 1))
             (Encoder.buffer e ++ [payload]) in
  let blockID := Encoder.blockID e in
  let seqID := Encoder.seqID e in
  if seqID <? Config.BlockSize (Encoder.config e) then Ok (None, blockID, seqID, e)
  else
    parityData ← generateParity (Encoder.buffer e);
    e ← flushEncoder e;
    Ok (parityData, blockID, seqID, e).

(** * The decoder *)

Module Block.
Record t := mk {
  dataPackets : gmap Z (list byte);
  parityPacket : list byte;
  receivedData : Z;
  hasParity : bool;
  size : Z }.
Definition new (size : Z) : t := mk ∅ [] 0 false size.
End Block.

Module Decoder.
Record t := mk { config : Config.t; blocks : gmap Z Block.t }.
End Decoder.

Definition NewDecoder (config : Config.t) : Decoder.t := Decoder.mk config ∅.

Definition set_blocks (d : Decoder.t) (b : gmap Z Block.t) : Decoder.t :=
  Decoder.mk (Decoder.config d) b.

(** XOR over the shorter of the two. *)
Fixpoint xor_prefix (recovered packet : list byte) : list byte :=
  match recovered, packet with
  | x :: recovered, y :: packet => byte.xor x y :: xor_prefix recovered packet
  | _, _ => recovered
  end.

(** The first sequence number of the block that was not received. *)
Definition missingSeq (block : Block.t) : option Z :=
  snd <$> find_first (fun i => bool_decide (Block.dataPackets block !! i = None))
            (seqZ 0 (Block.size block)).

Section Decoder.
Context {MR : MapRange}.

Definition recoverMissingPacket (block : Block.t) : option (list byte) :=
  if negb (Block.hasParity block) || negb (Block.receivedData block =? int64 (Block.size block - 1))
  then None
  else
    match missingSeq block with
    | None => None
    | Some _ =>
        Some (foldl xor_prefix (Block.parityPacket block) (map snd (range (Block.dataPackets block))))
    end.

Definition store (block : Block.t) (seqInBlock : Z) (payload : list byte) (isParity : bool) : Block.t :=
  if isParity then
    Block.mk (Block.dataPackets block) payload (Block.receivedData block) true (Block.size block)
  else
    match Block.dataPackets block !! seqInBlock with
    | Some _ => block
    | None => Block.mk (<[seqInBlock := payload]> (Block.dataPackets block)) (Block.parityPacket block)
                (int64 (Block.receivedData block + 1)) (Block.hasParity block) (Block.size block)
    end.

(** The payload to deliver, if any, and whether it was recovered. *)
Definition TryDecode (blockID seqInBlock : Z) (payload : list byte) (isParity : bool) (d : Decoder.t) :
    option (list byte) * bool * Decoder.t :=
  let block :=
    match Decoder.blocks d !! blockID with
    | Some block => block
    | None => Block.new (Config.BlockSize (Decoder.config d))
    end in
  let block := store block seqInBlock payload isParity in
  let kept := set_blocks d (<[blockID := block]> (Decoder.blocks d)) in
  let dropped := set_blocks d (delete blockID (Decoder.blocks d)) in
  if Block.receivedData block =? Block.size block then (Some payload, false, dropped)
  else
    let recovered :=
      if Block.hasParity block && (Block.receivedData block =? int64 (Block.size block - 1))
      then recoverMissingPacket block else None in
    match recovered with
    | Some recovered => (Some recovered, true, dropped)
    | None => if negb isParity then (Some payload, false, kept) else (None, false, kept)
    end.

(** Keeps the last 10 blocks. *)
Definition CleanupOldBlocks (currentBlockID : Z) (d : Decoder.t) : Decoder.t :=
  set_blocks d (filter (fun kv => ~ kv.1 < int64 (currentBlockID - 10)) (Decoder.blocks d)).

End Decoder.

End xor.

(** * Sequences of calls *)

(** The packets of a block, as they arrive. *)
Inductive arrival :=
  | Data (seq : Z) (payload : list byte)
  | Parity (payload : list byte).

Section Calls.
Context {MR : MapRange}.

Fixpoint encode_all (payloads : list (list byte)) (e : xor.Encoder.t) :
    res (list (option (list byte) * Z * Z) * xor.Encoder.t) :=
  match payloads with
  | [] => Ok ([], e)
  | payload :: payloads =>
      '(parity, b, s, e) ← xor.TryEncode payload e;
      '(outs, e) ← encode_all payloads e;
      Ok ((parity, b, s) :: outs, e)
  end.

Definition decode (b : Z) (a : arrival) (d : xor.Decoder.t) : option (list byte) * bool * xor.Decoder.t :=
  match a with
  | Data seq payload => xor.TryDecode b seq payload false d
  | Parity payload => xor.TryDecode b (-1) payload true d
  end.

Fixpoint decode_all (b : Z) (l : list arrival) (d : xor.Decoder.t) :
    list (option (list byte) * bool) * xor.Decoder.t :=
  match l with
  | [] => ([], d)
  | a :: l =>
      let '(payload, recovered, d) := decode b a d in
      let '(outs, d) := decode_all b l d in
      ((payload, recovered) :: outs, d)
  end.

(** The data packets of a block, numbered as TryEncode numbers them: from 1. *)
Definition data_packets (payloads : list (list byte)) : list arrival :=
  imap (fun i payload => Data (Z.of_nat i + 1) payload) payloads.

(** What a packet gives that completes nothing: a data packet its payload, a
    parity packet nothing. *)
Definition plain (a : arrival) : option (list byte) * bool :=
  match a with
  | Data _ payload => (Some payload, false)
  | Parity _ => (None, false)
  end.

End Calls.

(** * XOR *)

Section XorLemmas.

Lemma unsigned_xor a b : byte.unsigned (byte.xor a b) = Z.lxor (byte.unsigned a) (byte.unsigned b).
Proof.
  unfold byte.xor. rewrite byte.unsigned_of_Z. unfold byte.wrap.
  pose proof (byte.unsigned_range a). pose proof (byte.unsigned_range b).
  apply Z.mod_small. split; [apply Z.lxor_nonneg; lia|].
  destruct (Z.eq_dec (Z.lxor (byte.unsigned a) (byte.unsigned b)) 0) as [->|Hne]; [lia|].
  apply Z.log2_lt_pow2.
  { assert (0 <= Z.lxor (byte.unsigned a) (byte.unsigned b)) by (apply Z.lxor_nonneg; lia). lia. }
  eapply Z.le_lt_trans; [apply Z.log2_lxor; lia|]. apply Z.max_lub_lt.
  - destruct (Z.eq_dec (byte.unsigned a) 0) as [->|]; [done|]. apply Z.log2_lt_pow2; lia.
  - destruct (Z.eq_dec (byte.unsigned b) 0) as [->|]; [done|]. apply Z.log2_lt_pow2; lia.
Qed.

Lemma xor_comm a b : byte.xor a b = byte.xor b a.
Proof. apply byte.unsigned_inj. rewrite !unsigned_xor. apply Z.lxor_comm. Qed.
Lemma xor_assoc a b c : byte.xor a (byte.xor b c) = byte.xor (byte.xor a b) c.
Proof. apply byte.unsigned_inj. rewrite !unsigned_xor. by rewrite Z.lxor_assoc. Qed.
Lemma xor_zero_r a : byte.xor a (byte.of_Z 0) = a.
Proof. apply byte.unsigned_inj. rewrite unsigned_xor. apply Z.lxor_0_r. Qed.
Lemma xor_zero_l a : byte.xor (byte.of_Z 0) a = a.
Proof. rewrite xor_comm. apply xor_zero_r. Qed.
Lemma xor_self a : byte.xor a a = byte.of_Z 0.
Proof. apply byte.unsigned_inj. rewrite unsigned_xor. apply Z.lxor_nilpotent. Qed.

(** The sum of a list of bytes. *)
Definition xor_sum (l : list byte) : byte := foldr byte.xor (byte.of_Z 0) l.

#[export] Instance xor_sum_perm : Proper ((≡ₚ) ==> (=)) xor_sum.
Proof.
  intros l1 l2 Hl. unfold xor_sum. apply (foldr_permutation (=) byte.xor _ _ _); [|exact Hl].
  intros j1 a1 j2 a2 b _ _ _. by rewrite !xor_assoc, (xor_comm a1).
Qed.

Lemma foldl_xor a l : foldl byte.xor a l = byte.xor a (xor_sum l).
Proof.
  revert a. induction l as [|b l IH]; intros a; cbn; [by rewrite xor_zero_r|].
  by rewrite IH, xor_assoc.
Qed.

(** The byte of a packet, zero beyond its end. *)
Definition at_ (i : nat) (p : list byte) : byte := default (byte.of_Z 0) (p !! i).

Lemma at_zeros i n : at_ i (xor.zeros n) = byte.of_Z 0.
Proof.
  unfold at_, xor.zeros. destruct (_ !! i) as [b|] eqn:E; [|done].
  by apply lookup_replicate in E as [-> _].
Qed.

Lemma at_beyond i p : (length p <= i)%nat -> at_ i p = byte.of_Z 0.
Proof. intros H. unfold at_. by rewrite lookup_ge_None_2. Qed.

Lemma at_app_zeros i p n : at_ i (p ++ xor.zeros n) = at_ i p.
Proof.
  destruct (Nat.lt_ge_cases i (length p)) as [H|H].
  - unfold at_. by rewrite lookup_app_l.
  - rewrite (at_beyond i p) by done. unfold at_. rewrite lookup_app_r by done. apply at_zeros.
Qed.

Lemma at_ext p q : length p = length q -> (forall i, (i < length p)%nat -> at_ i p = at_ i q) -> p = q.
Proof.
  intros Hl H. apply list_eq. intros i. destruct (Nat.lt_ge_cases i (length p)) as [Hi|Hi].
  - specialize (H i Hi). unfold at_ in H.
    destruct (lookup_lt_is_Some_2 p i Hi) as [x Hx].
    destruct (lookup_lt_is_Some_2 q i ltac:(lia)) as [y Hy].
    rewrite Hx, Hy in *. cbn in H. by subst.
  - by rewrite !lookup_ge_None_2 by lia.
Qed.

Lemma xor_packet_spec parity packet :
  (length packet <= length parity)%nat ->
  exists r, xor.xor_packet parity packet = Ok r /\ length r = length parity /\
    forall i, at_ i r = byte.xor (at_ i parity) (at_ i packet).
Proof.
  revert packet. induction parity as [|x parity IH]; intros [|y packet] H; cbn in H; try lia.
  - exists []. split_and!; [done..|]. intros i. by rewrite !at_beyond, xor_self by (cbn; lia).
  - exists (x :: parity). split_and!; [done..|]. intros i.
    by rewrite (at_beyond i []), xor_zero_r by (cbn; lia).
  - destruct (IH packet ltac:(lia)) as (r & Hr & Hl & Hi). exists (byte.xor x y :: r).
    cbn [xor.xor_packet]. rewrite Hr. split_and!; [done|cbn; lia|]. intros [|i]; [done|apply Hi].
Qed.

Lemma xor_packets_spec packets parity :
  Forall (fun p => length p <= length parity)%nat packets ->
  exists r, xor.xor_packets parity packets = Ok r /\ length r = length parity /\
    forall i, at_ i r = byte.xor (at_ i parity) (xor_sum (map (at_ i) packets)).
Proof.
  revert parity. induction packets as [|p packets IH]; intros parity H.
  - exists parity. split_and!; [done..|]. intros i. by rewrite xor_zero_r.
  - apply Forall_cons_1 in H as [Hp H].
    destruct (xor_packet_spec parity p Hp) as (r & Hr & Hl & Hi).
    destruct (IH r) as (r' & Hr' & Hl' & Hi'); [by rewrite Hl|].
    exists r'. cbn [xor.xor_packets]. rewrite Hr. cbn [mbind res_bind]. split_and!; [done|lia|].
    intros i. rewrite Hi', Hi. cbn. by rewrite xor_assoc.
Qed.

Lemma xor_prefix_spec r p :
  length (xor.xor_prefix r p) = length r /\
  forall i, (i < length r)%nat -> at_ i (xor.xor_prefix r p) = byte.xor (at_ i r) (at_ i p).
Proof.
  revert p. induction r as [|x r IH]; intros [|y p]; cbn.
  - split; [done|]. lia.
  - split; [done|]. lia.
  - split; [done|]. intros i _. by rewrite (at_beyond i []), xor_zero_r by (cbn; lia).
  - destruct (IH p) as [Hl Hi]. split; [lia|]. intros [|i] H; [done|]. apply Hi. lia.
Qed.

Lemma foldl_xor_prefix r packets :
  length (foldl xor.xor_prefix r packets) = length r /\
  forall i, (i < length r)%nat ->
    at_ i (foldl xor.xor_prefix r packets) = byte.xor (at_ i r) (xor_sum (map (at_ i) packets)).
Proof.
  revert r. induction packets as [|p packets IH]; intros r; cbn.
  - split; [done|]. intros i _. by rewrite xor_zero_r.
  - destruct (xor_prefix_spec r p) as [Hl Hi]. destruct (IH (xor.xor_prefix r p)) as [Hl' Hi'].
    split; [lia|]. intros i Hlt. rewrite Hi', Hi by lia. by rewrite xor_assoc.
Qed.

(** The longest packet. *)
Lemma maxLen_acc packets m :
  foldl (fun maxLen packet => if (maxLen <? length packet)%nat then length packet else maxLen) m packets
  = Nat.max m (xor.maxLen packets).
Proof.
  unfold xor.maxLen. revert m. induction packets as [|p packets IH]; intros m; cbn [foldl]; [lia|].
  rewrite IH, (IH (if (0 <? length p)%nat then length p else 0%nat)).
  destruct (Nat.ltb_spec m (length p)), (Nat.ltb_spec 0 (length p)); lia.
Qed.

Lemma maxLen_cons p packets : xor.maxLen (p :: packets) = Nat.max (length p) (xor.maxLen packets).
Proof.
  unfold xor.maxLen at 1. cbn [foldl]. rewrite maxLen_acc.
  destruct (Nat.ltb_spec 0 (length p)); lia.
Qed.

Lemma maxLen_bound packets : Forall (fun p => length p <= xor.maxLen packets)%nat packets.
Proof.
  induction packets as [|p packets IH]; constructor; rewrite maxLen_cons; [lia|].
  eapply Forall_impl; [exact IH|]. cbn. lia.
Qed.

(** The parity of a block: as long as its longest packet, and in each place the
    sum of the bytes there. *)
Lemma generateParity_spec packets :
  packets <> [] ->
  exists parity, xor.generateParity packets = Ok (Some parity) /\
    length parity = xor.maxLen packets /\
    forall i, at_ i parity = xor_sum (map (at_ i) packets).
Proof.
  intros Hne. pose proof (length_replicate (xor.maxLen packets) (byte.of_Z 0)) as Hz.
  destruct (xor_packets_spec packets (xor.zeros (xor.maxLen packets))) as (r & Hr & Hl & Hi).
  { unfold xor.zeros. rewrite Hz. apply maxLen_bound. }
  exists r. unfold xor.generateParity. rewrite Hr. destruct packets as [|p packets]; [done|].
  split_and!; [done|by rewrite Hl|]. intros i. by rewrite Hi, at_zeros, xor_zero_l.
Qed.

(** All packets but one, and the parity, give the one. *)
Lemma recover_sum packets others lost parity :
  packets ≡ₚ lost :: others ->
  length parity = xor.maxLen packets ->
  (forall i, at_ i parity = xor_sum (map (at_ i) packets)) ->
  foldl xor.xor_prefix parity others = lost ++ xor.zeros (xor.maxLen packets - length lost).
Proof.
  intros Hp Hl Hi. destruct (foldl_xor_prefix parity others) as [Hl' Hi'].
  assert (length lost <= xor.maxLen packets)%nat as Hmax.
  { pose proof (maxLen_bound packets) as Hb. rewrite Forall_forall in Hb. apply Hb. rewrite Hp. by left. }
  apply at_ext.
  - rewrite Hl', length_app. unfold xor.zeros. rewrite length_replicate. lia.
  - intros i Hlt. rewrite Hi', Hi by lia. rewrite at_app_zeros.
    rewrite (Permutation_map (at_ i) Hp). cbn.
    by rewrite <- xor_assoc, xor_self, xor_zero_r.
Qed.

End XorLemmas.

(** * The encoder *)

Section Encoder.

(** An encoder at the start of a block. *)
Definition at_block_start (e : xor.Encoder.t) : Prop :=
  xor.Encoder.seqID e = 0 /\ xor.Encoder.buffer e = [].

Definition next_block (e : xor.Encoder.t) : xor.Encoder.t :=
  xor.Encoder.mk (xor.Encoder.config e) (int64 (xor.Encoder.blockID e + 1)) 0 [].

(** What TryEncode answers over a block. *)
Definition block_outputs (parity : list byte) (b : Z) (k n : nat) : list (option (list byte) * Z * Z) :=
  map (fun i => (None, b, Z.of_nat i)) (seq k (n - k)) ++ [(Some parity, b, Z.of_nat n)].

Lemma make_buffer_Ok n : 0 <= n -> n * 24 <= maxAlloc -> xor.make_buffer n = Ok [].
Proof.
  intros H1 H2. unfold xor.make_buffer, make_slice.
  by replace ((0 <=? n) && (n * 24 <=? maxAlloc)) with true by lia.
Qed.

Lemma encode_block payloads e n parity :
  xor.Config.BlockSize (xor.Encoder.config e) = Z.of_nat n -> Z.of_nat n * 24 <= maxAlloc ->
  xor.Encoder.seqID e = len (xor.Encoder.buffer e) -> payloads <> [] ->
  (length (xor.Encoder.buffer e) + length payloads = n)%nat ->
  xor.generateParity (xor.Encoder.buffer e ++ payloads) = Ok (Some parity) ->
  encode_all payloads e = Ok (block_outputs parity (xor.Encoder.blockID e)
    (S (length (xor.Encoder.buffer e))) n, next_block e).
Proof.
  revert e. induction payloads as [|p payloads IH]; intros e Hn Hcap Hs Hne Hl Hg; [done|].
  assert (maxAlloc < 2 ^ 62) by (vm_compute; congruence).
  cbn [encode_all]. unfold xor.TryEncode. cbn [xor.Encoder.seqID xor.Encoder.config
    xor.Encoder.buffer xor.Encoder.blockID]. rewrite Hn, Hs. cbn [length] in Hl.
  rewrite int64_small by (unfold len in *; lia).
  set (k := length (xor.Encoder.buffer e)) in *.
  assert (len (xor.Encoder.buffer e) = Z.of_nat k) as -> by done.
  destruct payloads as [|q payloads].
  - replace (Z.of_nat k + 1 <? Z.of_nat n) with false by (cbn in Hl; lia).
    rewrite Hg. cbn [mbind res_bind]. unfold xor.flushEncoder.
    cbn [xor.Encoder.config xor.Encoder.blockID]. rewrite Hn, make_buffer_Ok by lia.
    cbn [mbind res_bind encode_all]. unfold block_outputs.
    replace (n - S k)%nat with 0%nat by (cbn in Hl; lia). cbn. repeat f_equal. cbn in Hl. lia.
  - replace (Z.of_nat k + 1 <? Z.of_nat n) with true by (cbn in Hl; lia).
    cbn [mbind res_bind].
    rewrite IH; cbn [xor.Encoder.seqID xor.Encoder.config xor.Encoder.buffer xor.Encoder.blockID].
    + cbn [mbind res_bind]. rewrite length_app. fold k. cbn [length].
      replace (k + 1)%nat with (S k) by lia. unfold block_outputs.
      replace (n - S k)%nat with (S (n - S (S k))) by (cbn in Hl; lia). cbn [seq map app].
      replace (Z.of_nat k + 1) with (Z.of_nat (S k)) by lia. reflexivity.
    + done.
    + done.
    + rewrite len_app, len_cons, len_nil. unfold len. fold k. lia.
    + done.
    + rewrite length_app. fold k. cbn in *. lia.
    + rewrite <- app_assoc. done.
Qed.

End Encoder.

(** * The decoder *)

Definition datas (l : list arrival) : list (Z * list byte) :=
  omap (fun a => match a with Data s p => Some (s, p) | Parity _ => None end) l.
Definition parities (l : list arrival) : list (list byte) :=
  omap (fun a => match a with Data _ _ => None | Parity p => Some p end) l.

(** The record of a block of size [n] after the packets [l]. *)
Definition arrived (n : Z) (l : list arrival) : xor.Block.t :=
  xor.Block.mk (list_to_map (datas l)) (default [] (last (parities l))) (len (datas l))
    (match last (parities l) with Some _ => true | None => false end) n.

Definition current (d : xor.Decoder.t) (b : Z) : xor.Block.t :=
  default (xor.Block.new (xor.Config.BlockSize (xor.Decoder.config d))) (xor.Decoder.blocks d !! b).

Section Decoder.
Context {MR : MapRange}.

Lemma counts l : len (datas l) + len (parities l) = len l.
Proof.
  unfold len. enough (length (datas l) + length (parities l) = length l)%nat by lia.
  induction l as [|[] l IH]; unfold datas, parities in *; cbn; lia.
Qed.

Lemma datas_snoc l a :
  datas (l ++ [a]) = datas l ++ match a with Data s p => [(s, p)] | Parity _ => [] end.
Proof. unfold datas. rewrite omap_app. by destruct a. Qed.
Lemma parities_snoc l a :
  parities (l ++ [a]) = parities l ++ match a with Data _ _ => [] | Parity p => [p] end.
Proof. unfold parities. rewrite omap_app. by destruct a. Qed.

(** Storing one more packet. *)
Lemma store_arrived n l a :
  NoDup (datas (l ++ [a])).*1 -> len (datas l) < 2 ^ 62 ->
  match a with
  | Data s p => xor.store (arrived n l) s p false
  | Parity p => xor.store (arrived n l) (-1) p true
  end = arrived n (l ++ [a]).
Proof.
  intros Hnd Hlen. unfold arrived. rewrite datas_snoc, parities_snoc in *.
  destruct a as [s p|p]; cbn [xor.store xor.Block.dataPackets xor.Block.parityPacket
    xor.Block.receivedData xor.Block.hasParity xor.Block.size].
  - rewrite app_nil_r. rewrite fmap_app in Hnd. apply NoDup_app in Hnd as (_ & Hs & _).
    assert (s ∉ (datas l).*1) as Hfresh by (intros Hin; apply (Hs _ Hin); by left).
    rewrite (not_elem_of_list_to_map_1 _ _ Hfresh), list_to_map_snoc by done.
    pose proof (len_nonneg (datas l)). rewrite int64_small by lia. by rewrite len_app.
  - by rewrite app_nil_r, last_snoc.
Qed.

(** A sequence number is missing while packets are. *)
Lemma missingSeq_Some n l :
  len (datas l) < n -> exists i, xor.missingSeq (arrived n l) = Some i.
Proof.
  intros Hlt. unfold xor.missingSeq, arrived. cbn [xor.Block.dataPackets xor.Block.size].
  destruct (find_first _ _) as [[i x]|] eqn:E; [by eexists|]. exfalso.
  assert (seqZ 0 n ⊆+ (datas l).*1) as Hsub.
  { apply NoDup_submseteq; [apply NoDup_seqZ|]. intros i Hi.
    apply (find_first_None _ _ _ E), bool_decide_eq_false in Hi.
    destruct (decide (i ∈ (datas l).*1)) as [|Hno]; [done|]. exfalso. apply Hi.
    by apply not_elem_of_list_to_map_1. }
  apply submseteq_length in Hsub. rewrite length_seqZ, length_fmap in Hsub. unfold len in Hlt. lia.
Qed.

(** ** Packets that complete nothing, and the one that does *)

Lemma decode_stored b d l a n :
  xor.Config.BlockSize (xor.Decoder.config d) = n ->
  current d b = arrived n l ->
  match a with
  | Data s p => xor.store (arrived n l) s p false
  | Parity p => xor.store (arrived n l) (-1) p true
  end = arrived n (l ++ [a]) ->
  decode b a d =
    let block := arrived n (l ++ [a]) in
    let kept := xor.set_blocks d (<[b := block]> (xor.Decoder.blocks d)) in
    let dropped := xor.set_blocks d (delete b (xor.Decoder.blocks d)) in
    let payload := match a with Data _ p => p | Parity p => p end in
    if xor.Block.receivedData block =? n then (Some payload, false, dropped)
    else
      match (if xor.Block.hasParity block && (xor.Block.receivedData block =? int64 (n - 1))
             then xor.recoverMissingPacket block else None) with
      | Some recovered => (Some recovered, true, dropped)
      | None => (plain a, kept)
      end.
Proof.
  intros Hn Hcur Hst. unfold current in Hcur. rewrite Hn in Hcur.
  destruct a as [s p|p]; cbn [decode plain]; unfold xor.TryDecode; rewrite Hn;
    replace (match xor.Decoder.blocks d !! b with Some block => block | None => xor.Block.new n end)
      with (arrived n l) by (rewrite <- Hcur; by destruct (_ !! b));
    rewrite Hst; done.
Qed.

Lemma decode_all_app b l1 l2 d :
  decode_all b (l1 ++ l2) d =
  let '(outs1, d1) := decode_all b l1 d in
  let '(outs2, d2) := decode_all b l2 d1 in (outs1 ++ outs2, d2).
Proof.
  revert d. induction l1 as [|a l1 IH]; intros d; cbn [app decode_all].
  - by destruct (decode_all b l2 d).
  - destruct (decode b a d) as [[payload recovered] d1]. rewrite IH.
    destruct (decode_all b l1 d1) as [outs1 d2]. by destruct (decode_all b l2 d2).
Qed.

Lemma decode_pending b d l a n :
  xor.Config.BlockSize (xor.Decoder.config d) = n -> n < 2 ^ 62 ->
  current d b = arrived n l -> NoDup (datas (l ++ [a])).*1 -> len (l ++ [a]) < n ->
  exists d', decode b a d = (plain a, d') /\ current d' b = arrived n (l ++ [a]) /\
    xor.Decoder.config d' = xor.Decoder.config d /\
    delete b (xor.Decoder.blocks d') = delete b (xor.Decoder.blocks d).
Proof.
  intros Hn Hmax Hcur Hnd Hlen. pose proof (counts (l ++ [a])) as Hc.
  pose proof (counts l) as Hc'. pose proof (len_nonneg (parities l)).
  pose proof (len_nonneg (datas (l ++ [a]))). pose proof (len_nonneg (parities (l ++ [a]))).
  assert (len (datas l) < 2 ^ 62) as Hdl
    by (rewrite len_app, len_cons, len_nil in Hlen; lia).
  pose proof (store_arrived n l a Hnd Hdl) as Hst.
  exists (xor.set_blocks d (<[b := arrived n (l ++ [a])]> (xor.Decoder.blocks d))).
  split; [|split; [|split; [done|]]].
  2: { unfold current. cbn [xor.Decoder.blocks xor.set_blocks]. by rewrite lookup_insert_eq. }
  2: { cbn [xor.Decoder.blocks xor.set_blocks]. by rewrite delete_insert_eq. }
  assert ((xor.Block.receivedData (arrived n (l ++ [a])) =? n) = false) as Hr
    by (cbn [xor.Block.receivedData arrived]; lia).
  assert ((xor.Block.hasParity (arrived n (l ++ [a])) &&
    (xor.Block.receivedData (arrived n (l ++ [a])) =? int64 (n - 1))) = false) as Hp.
  { cbn [xor.Block.receivedData xor.Block.hasParity arrived]. rewrite int64_small by lia.
    destruct (parities (l ++ [a])) as [|q qs]; [done|]. rewrite len_cons in Hc.
    pose proof (len_nonneg qs). by replace (_ =? _) with false by lia; rewrite andb_false_r. }
  rewrite (decode_stored b d l a n Hn Hcur Hst). cbv zeta. rewrite Hr.
  change (xor.Block.size (arrived n (l ++ [a]))) with n. rewrite Hp. by destruct a.
Qed.

Lemma decode_prefix b d l n :
  xor.Config.BlockSize (xor.Decoder.config d) = n -> n < 2 ^ 62 ->
  xor.Decoder.blocks d !! b = None -> NoDup (datas l).*1 -> len l < n ->
  exists d', decode_all b l d = (map plain l, d') /\ current d' b = arrived n l /\
    xor.Decoder.config d' = xor.Decoder.config d /\
    delete b (xor.Decoder.blocks d') = xor.Decoder.blocks d.
Proof.
  intros Hn Hmax Hb. induction l as [|a l IH] using rev_ind; intros Hnd Hlen.
  - exists d. split_and!; [done| |done|by apply delete_id].
    unfold current. by rewrite Hb, Hn.
  - assert (NoDup (datas l).*1) as Hnd'
      by (rewrite datas_snoc, fmap_app in Hnd; by apply NoDup_app in Hnd as [? _]).
    destruct IH as (d1 & H1 & Hc1 & Hcfg & Hd1); [done|rewrite len_app, len_cons, len_nil in Hlen; lia|].
    destruct (decode_pending b d1 l a n) as (d2 & H2 & Hc2 & Hcfg2 & Hd2);
      [by rewrite Hcfg|done|done|done|done|].
    exists d2. split_and!; [|done|by rewrite Hcfg2|by rewrite Hd2].
    rewrite decode_all_app, H1. cbn [decode_all]. rewrite H2, map_app. by destruct a.
Qed.

(** ** Whole blocks *)

Lemma data_packets_datas payloads k :
  datas (imap (fun i payload => Data (Z.of_nat (i + k) + 1) payload) payloads) =
  imap (fun i payload => (Z.of_nat (i + k) + 1, payload)) payloads.
Proof.
  revert k. induction payloads as [|p payloads IH]; intros k; [done|].
  cbn [imap]. unfold datas in *. cbn. f_equal.
  specialize (IH (S k)).
  rewrite (imap_ext _ (fun i payload => Data (Z.of_nat (i + S k) + 1) payload))
    by (intros; unfold compose; do 2 f_equal; lia).
  rewrite IH. apply imap_ext. intros. unfold compose. do 2 f_equal. lia.
Qed.

(** The numbered payloads of a block. *)
Definition numbered (payloads : list (list byte)) : list (Z * list byte) :=
  imap (fun i payload => (Z.of_nat i + 1, payload)) payloads.

Lemma datas_data_packets payloads : datas (data_packets payloads) = numbered payloads.
Proof.
  pose proof (data_packets_datas payloads 0) as H. unfold data_packets, numbered.
  rewrite (imap_ext _ (fun i payload => Data (Z.of_nat (i + 0) + 1) payload))
    by (intros; do 2 f_equal; lia).
  rewrite H. apply imap_ext. intros. do 2 f_equal. lia.
Qed.

Lemma numbered_keys payloads : NoDup (numbered payloads).*1.
Proof.
  apply NoDup_alt. intros i j x Hi Hj. unfold numbered in *.
  apply list_lookup_fmap_Some in Hi as ([y p] & -> & Hi), Hj as ([z q] & Heq & Hj).
  apply list_lookup_imap_Some in Hi as (? & _ & [= -> _]), Hj as (? & _ & [= -> _]).
  cbn in Heq. lia.
Qed.

Lemma numbered_payloads payloads : (numbered payloads).*2 = payloads.
Proof.
  unfold numbered. apply list_eq. intros i. rewrite list_lookup_fmap, list_lookup_imap.
  by destruct (payloads !! i).
Qed.

Lemma parities_data_packets payloads : parities (data_packets payloads) = [].
Proof.
  destruct (parities (data_packets payloads)) as [|p l] eqn:E; [done|].
  assert (p ∈ parities (data_packets payloads)) as Hin by (rewrite E; by left).
  unfold parities in Hin. apply list_elem_of_omap in Hin as (a & Ha & Hp).
  unfold data_packets in Ha. apply elem_of_lookup_imap in Ha as (i & q & -> & _). done.
Qed.

(** A block without one of its packets. *)
Lemma lost_packet payloads j lost :
  payloads !! j = Some lost ->
  exists others, datas (delete j (data_packets payloads)) = others /\
    NoDup others.*1 /\ payloads ≡ₚ lost :: others.*2 /\
    parities (delete j (data_packets payloads)) = [].
Proof.
  intros Hj. eexists. split; [done|].
  assert (data_packets payloads ≡ₚ Data (Z.of_nat j + 1) lost :: delete j (data_packets payloads)) as Hp.
  { apply delete_Permutation. unfold data_packets. by rewrite list_lookup_imap, Hj. }
  pose proof (omap_Permutation (fun a => match a with Data s p => Some (s, p) | Parity _ => None end)
    _ _ Hp) as Hd. change (datas (data_packets payloads) ≡ₚ (Z.of_nat j + 1, lost) ::
    datas (delete j (data_packets payloads))) in Hd. rewrite datas_data_packets in Hd.
  pose proof (omap_Permutation (fun a => match a with Data _ _ => None | Parity p => Some p end)
    _ _ Hp) as Hq. change (parities (data_packets payloads) ≡ₚ
    parities (delete j (data_packets payloads))) in Hq. rewrite parities_data_packets in Hq.
  split_and!.
  - pose proof (numbered_keys payloads) as Hk. rewrite Hd in Hk. by apply NoDup_cons in Hk as [_ ?].
  - rewrite <- (numbered_payloads payloads) at 1. by rewrite Hd.
  - by apply Permutation_nil in Hq.
Qed.

(** The packet that completes the recovery. *)
Lemma decode_last b d l a n payloads lost parity :
  xor.Config.BlockSize (xor.Decoder.config d) = n -> n < 2 ^ 62 -> len (l ++ [a]) = n ->
  current d b = arrived n l ->
  NoDup (datas (l ++ [a])).*1 -> parities (l ++ [a]) = [parity] ->
  payloads ≡ₚ lost :: (datas (l ++ [a])).*2 ->
  length parity = xor.maxLen payloads ->
  (forall i, at_ i parity = xor_sum (map (at_ i) payloads)) ->
  decode b a d = (Some (lost ++ xor.zeros (xor.maxLen payloads - length lost)), true,
    xor.set_blocks d (delete b (xor.Decoder.blocks d))).
Proof.
  intros Hn Hmax Hlen Hcur Hnd Hpar Hperm Hl Hi.
  pose proof (counts (l ++ [a])) as Hc. rewrite Hpar, len_cons, len_nil in Hc.
  pose proof (counts l) as Hc'. pose proof (len_nonneg (parities l)).
  pose proof (len_nonneg (datas (l ++ [a]))) as H0.
  assert (len (datas l) < 2 ^ 62) as Hdl by (rewrite len_app, len_cons, len_nil in Hlen; lia).
  rewrite (decode_stored b d l a n Hn Hcur (store_arrived n l a Hnd Hdl)). cbv zeta.
  set (block := arrived n (l ++ [a])).
  assert (xor.Block.receivedData block = n - 1) as Hr by (cbn [xor.Block.receivedData arrived block]; lia).
  assert (xor.Block.hasParity block = true) as Hh by (cbn [xor.Block.hasParity arrived block]; by rewrite Hpar).
  rewrite Hr, Hh. replace (n - 1 =? n) with false by lia. rewrite int64_small by lia.
  rewrite Z.eqb_refl. cbn [andb]. unfold xor.recoverMissingPacket. rewrite Hr, Hh.
  change (xor.Block.size block) with n. rewrite int64_small by lia. rewrite Z.eqb_refl. cbn [negb orb].
  destruct (missingSeq_Some n (l ++ [a])) as [i Hm]; [lia|]. fold block in Hm. rewrite Hm.
  cbn [xor.Block.parityPacket xor.Block.dataPackets arrived block]. rewrite Hpar. cbn [last default].
  rewrite (recover_sum payloads (map snd (range (list_to_map (datas (l ++ [a]))))) lost parity);
    [done| |done|done].
  rewrite Hperm. f_equiv. rewrite (range_perm _). by rewrite (map_to_list_to_map _ Hnd).
Qed.

(** The decoder's side of a block that lost one data packet. *)
Lemma block_recovers payloads d b j lost parity l a :
  let n := len payloads in
  xor.Config.BlockSize (xor.Decoder.config d) = n -> n < 2 ^ 62 -> payloads !! j = Some lost ->
  xor.Decoder.blocks d !! b = None -> length parity = xor.maxLen payloads ->
  (forall i, at_ i parity = xor_sum (map (at_ i) payloads)) ->
  l ++ [a] ≡ₚ Parity parity :: delete j (data_packets payloads) ->
  exists d', decode_all b (l ++ [a]) d =
    (map plain l ++ [(Some (lost ++ xor.zeros (xor.maxLen payloads - length lost)), true)], d') /\
    xor.Decoder.blocks d' = xor.Decoder.blocks d.
Proof.
  intros n Hd Hmax Hj Hnone Hl Hi Hp.
  destruct (lost_packet payloads j lost Hj) as (others & Ho & Hnd & Hperm & Hpar).
  pose proof (omap_Permutation (fun a => match a with Data s p => Some (s, p) | Parity _ => None end)
    _ _ Hp) as Hdat. change (datas (l ++ [a]) ≡ₚ datas (delete j (data_packets payloads))) in Hdat.
  pose proof (omap_Permutation (fun a => match a with Data _ _ => None | Parity p => Some p end)
    _ _ Hp) as Hq. change (parities (l ++ [a]) ≡ₚ parity :: parities (delete j (data_packets payloads))) in Hq.
  rewrite Hpar in Hq. symmetry in Hq. apply Permutation_length_1_inv in Hq.
  rewrite Ho in Hdat.
  assert (NoDup (datas (l ++ [a])).*1) as Hnd' by (by rewrite Hdat).
  assert (len (l ++ [a]) = n) as Hlen.
  { pose proof (counts (l ++ [a])) as Hc. rewrite Hq, len_cons, len_nil in Hc.
    apply Permutation_length in Hdat, Hperm. cbn in Hperm. rewrite length_fmap in Hperm.
    unfold n, len in *. lia. }
  assert (NoDup (datas l).*1) as Hndl
    by (rewrite datas_snoc, fmap_app in Hnd'; by apply NoDup_app in Hnd' as [? _]).
  destruct (decode_prefix b d l n Hd Hmax Hnone Hndl) as (d1 & H1 & Hc1 & Hcfg & Hd1);
    [rewrite len_app, len_cons, len_nil in Hlen; lia|].
  eexists. rewrite decode_all_app, H1. cbn [decode_all].
  rewrite (decode_last b d1 l a n payloads lost parity); [|by rewrite Hcfg|done..| |done|done].
  - split; [done|]. exact Hd1.
  - by rewrite Hdat.
Qed.

(** C18: A block survives the loss of any one of its packets.  The encoder
    numbers the [n] payloads of a block from 1 and gives with the last one the
    parity; a decoder of the same block size that has seen nothing of the block
    and gets, in any order, the other data packets and the parity, recovers the
    lost payload (followed by zeros up to the length of the longest payload of
    the block) with the packet that arrives last, and forgets the block.  Every
    packet before it is delivered as it is; the payload of the last one, when
    it is a data packet, is not delivered. *)
Theorem xor_block_recovers payloads e d j lost :
  let n := len payloads in
  xor.Config.BlockSize (xor.Encoder.config e) = n -> xor.Config.BlockSize (xor.Decoder.config d) = n ->
  n * 24 <= maxAlloc -> at_block_start e -> payloads !! j = Some lost ->
  let b := xor.Encoder.blockID e in
  xor.Decoder.blocks d !! b = None ->
  exists parity,
    encode_all payloads e = Ok (block_outputs parity b 1 (length payloads), next_block e) /\
    forall l a, l ++ [a] ≡ₚ Parity parity :: delete j (data_packets payloads) ->
      exists d', decode_all b (l ++ [a]) d =
        (map plain l ++ [(Some (lost ++ xor.zeros (xor.maxLen payloads - length lost)), true)], d') /\
        xor.Decoder.blocks d' = xor.Decoder.blocks d.
Proof.
  intros n He Hd Hcap [Hs Hb] Hj b Hnone.
  assert (maxAlloc < 2 ^ 62) as Hma by (vm_compute; congruence).
  assert (n < 2 ^ 62) as Hmax by lia.
  assert (payloads <> []) as Hne by (by destruct payloads).
  destruct (generateParity_spec payloads Hne) as (parity & Hg & Hl & Hi).
  exists parity. split.
  { pose proof (encode_block payloads e (length payloads) parity He Hcap) as H.
    rewrite Hs, Hb in H. by apply H. }
  intros l a Hp. by apply (block_recovers payloads d b j lost parity).
Qed.

(** A block that arrives whole, in any order and before its parity, is
    delivered as it is, and forgotten. *)
Theorem xor_block_complete payloads d b l :
  let n := len payloads in
  xor.Config.BlockSize (xor.Decoder.config d) = n -> n < 2 ^ 62 -> payloads <> [] ->
  xor.Decoder.blocks d !! b = None -> l ≡ₚ data_packets payloads ->
  exists d', decode_all b l d = (map plain l, d') /\ xor.Decoder.blocks d' = xor.Decoder.blocks d.
Proof.
  intros n Hd Hmax Hne Hnone Hp.
  pose proof (omap_Permutation (fun a => match a with Data s p => Some (s, p) | Parity _ => None end)
    _ _ Hp) as Hdat. change (datas l ≡ₚ datas (data_packets payloads)) in Hdat.
  rewrite datas_data_packets in Hdat.
  assert (NoDup (datas l).*1) as Hnd by (rewrite Hdat; apply numbered_keys).
  assert (len (datas l) = n) as Hn.
  { apply Permutation_length in Hdat. unfold numbered in Hdat. rewrite length_imap in Hdat.
    unfold n, len. lia. }
  assert (len l = n) as Hlen
    by (apply Permutation_length in Hp; unfold data_packets in Hp; rewrite length_imap in Hp; unfold n, len; lia).
  destruct l as [|a l _] using rev_ind.
  { exfalso. apply Permutation_length in Hp. unfold data_packets in Hp. rewrite length_imap in Hp.
    by destruct payloads. }
  pose proof (counts (l ++ [a])) as Hc. pose proof (counts l) as Hc'.
  pose proof (len_nonneg (parities l)).
  assert (NoDup (datas l).*1) as Hndl
    by (rewrite datas_snoc, fmap_app in Hnd; by apply NoDup_app in Hnd as [? _]).
  assert (len l = n - 1) as Hl by (rewrite len_app, len_cons, len_nil in Hlen; lia).
  destruct (decode_prefix b d l n Hd Hmax Hnone Hndl) as (d1 & H1 & Hc1 & Hcfg & Hd1); [lia|].
  eexists. rewrite decode_all_app, H1. cbn [decode_all].
  rewrite (decode_stored b d1 l a n); [|by rewrite Hcfg|done|apply store_arrived; [done|lia]].
  cbv zeta. cbn [xor.Block.receivedData arrived]. rewrite Hn, Z.eqb_refl. rewrite map_app.
  assert (parities (l ++ [a]) = []) as Hpar
    by (destruct (parities (l ++ [a])) as [|p q]; [done|]; rewrite len_cons in Hc;
        pose proof (len_nonneg q); lia).
  rewrite parities_snoc in Hpar. destruct a as [s p|p]; [|by destruct (parities l)].
  split; [done|exact Hd1].
Qed.

End Decoder.

(** ** At concrete inputs *)

Definition ex_payloads : list (list byte) :=
  [[byte.of_Z 49]; [byte.of_Z 50; byte.of_Z 51]; [byte.of_Z 52]].
Definition ex_config : xor.Config.t := xor.Config.mk 3.
Definition ex_encoder : xor.Encoder.t := xor.Encoder.mk ex_config 0 0 [].

(** The first packet is lost, and the parity overtakes the third one. *)
Lemma xor_block_recovers_witness :
  exists parity d', decode_all 0
    [Data 2 [byte.of_Z 50; byte.of_Z 51]; Parity parity; Data 3 [byte.of_Z 52]] (xor.NewDecoder ex_config)
  = ([(Some [byte.of_Z 50; byte.of_Z 51], false); (None, false);
      (Some [byte.of_Z 49; byte.of_Z 0], true)], d').
Proof.
  destruct (xor_block_recovers ex_payloads ex_encoder (xor.NewDecoder ex_config) 0 [byte.of_Z 49])
    as (parity & _ & H).
  - reflexivity.
  - reflexivity.
  - vm_compute. congruence.
  - split; reflexivity.
  - reflexivity.
  - reflexivity.
  - exists parity. destruct (H [Data 2 [byte.of_Z 50; byte.of_Z 51]; Parity parity] (Data 3 [byte.of_Z 52]))
      as (d' & Hd & _).
    + apply Permutation_swap.
    + exists d'. exact Hd.
Defined.

Lemma xor_block_complete_witness :
  exists d', decode_all 7 (rev (data_packets ex_payloads)) (xor.NewDecoder ex_config)
    = (map plain (rev (data_packets ex_payloads)), d').
Proof.
  destruct (xor_block_complete ex_payloads (xor.NewDecoder ex_config) 7 (rev (data_packets ex_payloads)))
    as (d' & H & _).
  - reflexivity.
  - vm_compute. reflexivity.
  - discriminate.
  - reflexivity.
  - symmetry. apply Permutation_rev.
  - exists d'. exact H.
Defined.
