(* ===== verification/Telemetry.v ===== *)
(** The telemetry of a QUIC connection (quicmoq/logging.go: QuicLogger): the
    callbacks of the connection tracer and the rolling metrics they feed.

    A [Time] is a clock reading in nanoseconds since the zero Time, a [Duration]
    is an int64 of nanoseconds.  Every reading of the clock is an argument of the
    operation that makes it.  float64 is the binary64 format of SpecFloat, each
    operation rounded on its own.  The mutex makes each operation one step. *)

From Stdlib Require Import String SpecFloat.
From stdpp Require Import gmap.
From S2P Require Import Prelude Errors.
Local Open Scope Z_scope.

(** * Time *)

Definition Second : Z := 1000000000.

Definition neg64 (d : Z) : Z := int64 (- d).
(** t.Add(d), t.Before(u), t.After(u), t.Equal(u), t.IsZero(). *)
Definition time_Add (t d : Z) : Z := t + d.
Definition Before (t u : Z) : bool := t <? u.
Definition After (t u : Z) : bool := u <? t.
Definition IsZero (t : Z) : bool := t =? 0.
(** t.Sub(u) saturates. *)
Definition time_Sub (t u : Z) : Z := Z.max (- 2 ^ 63) (Z.min (2 ^ 63 - 1) (t - u)).

(** * float64 *)

Definition float64 : Type := spec_float.
Definition fmul : float64 -> float64 -> float64 := SFmul 53 1024.
Definition fadd : float64 -> float64 -> float64 := SFadd 53 1024.
Definition fsub : float64 -> float64 -> float64 := SFsub 53 1024.
Definition fdiv : float64 -> float64 -> float64 := SFdiv 53 1024.
(** float64(n) for an integer n. *)
Definition float64_of (n : Z) : float64 := binary_normalize 53 1024 n 0 false.
Definition fzero : float64 := S754_zero false.
(** The constants 0.5 and 0.2: the float64 nearest to the decimal. *)
Definition f0_5 : float64 := fdiv (float64_of 1) (float64_of 2).
Definition f0_2 : float64 := fdiv (float64_of 1) (float64_of 5).
(** uint64(f), the integer part. *)
Definition uint64_of (f : float64) : Z :=
  match f with
  | S754_finite s m e => uint64 (cond_Zopp s (Z.shiftl (Zpos m) e))
  | _ => 0
  end.

(** d.Seconds(). *)
Definition Seconds (d : Z) : float64 :=
  fadd (float64_of (Z.quot d Second)) (fdiv (float64_of (Z.rem d Second)) (float64_of Second)).

(** * Configuration and events *)

Definition LogLevelSilent : Z := 0.
Definition LogLevelError : Z := 1.
Definition LogLevelWarn : Z := 2.
Definition LogLevelInfo : Z := 3.
Definition LogLevelDebug : Z := 4.
Definition LogLevelTrace : Z := 5.

Inductive WindowMode := ByTime | ByPackets.
#[export] Instance WindowMode_eq_dec : EqDecision WindowMode.
Proof. solve_decision. Defined.

Definition defaultWindow : Z := 10 * Second.

Module LoggerConfig.
Record t := mk {
  LogLevel : Z;
  MaxEventsPerType : Z;
  EnableTerminalLog : bool;
  Window : Z;
  WindowMode : WindowMode;
  WindowPackets : Z }.

Definition default : t := mk LogLevelInfo 1000 true defaultWindow ByPackets 100.
Definition set_WindowPackets (n : Z) (c : t) : t :=
  mk (LogLevel c) (MaxEventsPerType c) (EnableTerminalLog c) (Window c) (WindowMode c) n.
End LoggerConfig.

(** A net.Addr is the string it prints as. *)
Module ConnectionEvent.
Record t := mk { Timestamp : Z; EventType : gostring; Local : gostring; Remote : gostring;
  Error : option error }.
End ConnectionEvent.

Module MOQObjectEvent.
Record t := mk { Timestamp : Z; GroupID : Z; SubGroupID : Z; ObjectID : Z; Size : Z;
  Direction : gostring; TrackName : gostring; Namespace : list gostring }.
End MOQObjectEvent.

Module stampCount.
Record t := mk { stamp : Z; n : Z }.
End stampCount.

Module byteSample.
Record t := mk { stamp : Z; b : Z }.
End byteSample.

Inductive pktState := psUnknown | psAcked | psLost.
#[export] Instance pktState_eq_dec : EqDecision pktState.
Proof. solve_decision. Defined.

Module pktSample.
Record t := mk { stamp : Z; num : Z; size : Z; st : pktState }.
Definition zero : t := mk 0 0 0 psUnknown.
Definition set_st (x : pktState) (s : t) : t := mk (stamp s) (num s) (size s) x.
End pktSample.

(** * QuicLogger *)

Module QuicLogger.

Record t := mk {
  sessionID : gostring;
  perspective : Z;
  logLevel : Z;
  window : Z;
  windowMode : WindowMode;
  winPkts : Z;
  connectionEvents : list ConnectionEvent.t;
  moqObjectEvents : list MOQObjectEvent.t;
  sentPkts : list stampCount.t;
  rcvdPkts : list stampCount.t;
  ackedPkts : list stampCount.t;
  lostPkts : list stampCount.t;
  sentBytes : list byteSample.t;
  rcvdBytes : list byteSample.t;
  ring : option (list pktSample.t);
  ringHead : Z;
  ringCount : Z;
  byNum : gmap Z Z;
  latestRTT : Z;
  smoothedLoss : float64;
  smoothedRTT : float64;
  start : Z }.

Definition set_perspective (x : Z) (q : t) : t :=
  mk (sessionID q) x (logLevel q) (window q) (windowMode q) (winPkts q)
     (connectionEvents q) (moqObjectEvents q) (sentPkts q) (rcvdPkts q) (ackedPkts q) (lostPkts q)
     (sentBytes q) (rcvdBytes q) (ring q) (ringHead q) (ringCount q) (byNum q) (latestRTT q)
     (smoothedLoss q) (smoothedRTT q) (start q).
Definition SetLogLevel (x : Z) (q : t) : t :=
  mk (sessionID q) (perspective q) x (window q) (windowMode q) (winPkts q)
     (connectionEvents q) (moqObjectEvents q) (sentPkts q) (rcvdPkts q) (ackedPkts q) (lostPkts q)
     (sentBytes q) (rcvdBytes q) (ring q) (ringHead q) (ringCount q) (byNum q) (latestRTT q)
     (smoothedLoss q) (smoothedRTT q) (start q).
Definition set_events (cs : list ConnectionEvent.t) (os : list MOQObjectEvent.t) (q : t) : t :=
  mk (sessionID q) (perspective q) (logLevel q) (window q) (windowMode q) (winPkts q)
     cs os (sentPkts q) (rcvdPkts q) (ackedPkts q) (lostPkts q)
     (sentBytes q) (rcvdBytes q) (ring q) (ringHead q) (ringCount q) (byNum q) (latestRTT q)
     (smoothedLoss q) (smoothedRTT q) (start q).
Definition set_stamps (sp rp ap lp : list stampCount.t) (sb rb : list byteSample.t) (q : t) : t :=
  mk (sessionID q) (perspective q) (logLevel q) (window q) (windowMode q) (winPkts q)
     (connectionEvents q) (moqObjectEvents q) sp rp ap lp sb rb (ring q) (ringHead q) (ringCount q)
     (byNum q) (latestRTT q) (smoothedLoss q) (smoothedRTT q) (start q).
Definition set_ring (r : option (list pktSample.t)) (h c : Z) (m : gmap Z Z) (q : t) : t :=
  mk (sessionID q) (perspective q) (logLevel q) (window q) (windowMode q) (winPkts q)
     (connectionEvents q) (moqObjectEvents q) (sentPkts q) (rcvdPkts q) (ackedPkts q) (lostPkts q)
     (sentBytes q) (rcvdBytes q) r h c m (latestRTT q) (smoothedLoss q) (smoothedRTT q) (start q).
Definition set_metrics (rtt : Z) (loss srtt : float64) (q : t) : t :=
  mk (sessionID q) (perspective q) (logLevel q) (window q) (windowMode q) (winPkts q)
     (connectionEvents q) (moqObjectEvents q) (sentPkts q) (rcvdPkts q) (ackedPkts q) (lostPkts q)
     (sentBytes q) (rcvdBytes q) (ring q) (ringHead q) (ringCount q) (byNum q) rtt loss srtt (start q).

(** NewQuicLogger.  The configuration is the caller's: its WindowPackets is
    overwritten when it is not positive.  The slices of events are made with
    the capacity of the configuration (an AckEvent has 72 bytes, a LossEvent 40,
    a ConnectionEvent 88, a MOQObjectEvent 112); the first two are never
    filled. *)
Definition NewQuicLogger (sessionID : gostring) (perspective : Z) (cfg : option LoggerConfig.t) (now : Z) :
    res (t * option LoggerConfig.t) :=
  let c := default LoggerConfig.default cfg in
  let w := if LoggerConfig.Window c <=? 0 then defaultWindow else LoggerConfig.Window c in
  let c := if LoggerConfig.WindowPackets c <=? 0 then LoggerConfig.set_WindowPackets 100 c else c in
  _ ← make_slice 72 (LoggerConfig.MaxEventsPerType c);
  _ ← make_slice 40 (LoggerConfig.MaxEventsPerType c);
  _ ← make_slice 88 (LoggerConfig.MaxEventsPerType c);
  _ ← make_slice 112 (LoggerConfig.MaxEventsPerType c);
  Ok (mk sessionID perspective (LoggerConfig.LogLevel c) w (LoggerConfig.WindowMode c)
        (LoggerConfig.WindowPackets c) [] [] [] [] [] [] [] [] None 0 0 ∅ 0 fzero fzero now,
      match cfg with Some _ => Some c | None => None end).

(** ** Windows of samples *)

Definition trimBytesN (s : list byteSample.t) (n : Z) : list byteSample.t :=
  if n <=? 0 then []
  else if len s <=? n then s
  else drop (Z.to_nat (len s - n)) s.

(** The loops of prune: the samples from the first that is not before [cut]. *)
Fixpoint pruneStamps (cut : Z) (s : list stampCount.t) : list stampCount.t :=
  match s with
  | x :: s' => if Before (stampCount.stamp x) cut then pruneStamps cut s' else s
  | [] => []
  end.
Fixpoint pruneBytes (cut : Z) (s : list byteSample.t) : list byteSample.t :=
  match s with
  | x :: s' => if Before (byteSample.stamp x) cut then pruneBytes cut s' else s
  | [] => []
  end.

Definition prune (now : Z) (q : t) : t :=
  let cut := time_Add now (neg64 (window q)) in
  let rb := pruneBytes cut (rcvdBytes q) in
  let rb := if bool_decide (windowMode q = ByPackets) && (len rb >? int64 (2 * winPkts q))
            then trimBytesN rb (int64 (2 * winPkts q)) else rb in
  set_stamps (pruneStamps cut (sentPkts q)) (pruneStamps cut (rcvdPkts q))
    (pruneStamps cut (ackedPkts q)) (pruneStamps cut (lostPkts q))
    (pruneBytes cut (sentBytes q)) rb q.

Definition addSent (size now : Z) (q : t) : t :=
  prune now (set_stamps (sentPkts q ++ [stampCount.mk now 1]) (rcvdPkts q) (ackedPkts q) (lostPkts q)
    (sentBytes q ++ [byteSample.mk now size]) (rcvdBytes q) q).
Definition addRcvd (size now : Z) (q : t) : t :=
  prune now (set_stamps (sentPkts q) (rcvdPkts q ++ [stampCount.mk now 1]) (ackedPkts q) (lostPkts q)
    (sentBytes q) (rcvdBytes q ++ [byteSample.mk now size]) q).

(** ** The ring of the last packets *)

Definition slots (q : t) : list pktSample.t := default [] (ring q).

(** [q.ring[i] = x]. *)
Definition set_slot (i : Z) (x : pktSample.t) (r : list pktSample.t) : res (list pktSample.t) :=
  _ ← index r i; Ok (<[Z.to_nat i := x]> r).

(** A pktSample has 48 bytes. *)
Definition ringEnsure (q : t) : res t :=
  match ring q with
  | None => _ ← make_slice 48 (winPkts q);
            Ok (set_ring (Some (replicate (Z.to_nat (winPkts q)) pktSample.zero))
                  (ringHead q) (ringCount q) ∅ q)
  | Some _ => Ok q
  end.

(** [a % b] panics when [b] is 0. *)
Definition rem64 (a b : Z) : res Z := if b =? 0 then Panic else Ok (Z.rem (int64 a) b).

(** [now1] is the stamp of the sample, [now2] the reading of the prune. *)
Definition onSent (number size now1 now2 : Z) (q : t) : res t :=
  if bool_decide (windowMode q = ByPackets) then
    q ← ringEnsure q;
    let idx := ringHead q in
    '(m, c) ← (if ringCount q =? winPkts q then
                 old ← index (slots q) idx; Ok (delete (pktSample.num old) (byNum q), ringCount q)
               else Ok (byNum q, int64 (ringCount q + 1)));
    r ← set_slot idx (pktSample.mk now1 number (int64 size) psUnknown) (slots q);
    h ← rem64 (ringHead q + 1) (winPkts q);
    Ok (prune now2 (set_ring (Some r) h c (<[number := idx]> m) q))
  else Ok (addSent size now1 q).

Definition onRcvd (size now : Z) (q : t) : t := addRcvd size now q.

(** [q.ring[idx].st = x]. *)
Definition set_state (idx : Z) (x : pktState) (q : t) : res t :=
  s ← index (slots q) idx;
  r ← set_slot idx (pktSample.set_st x s) (slots q);
  Ok (set_ring (Some r) (ringHead q) (ringCount q) (byNum q) q).

Definition onAck (number now1 now2 : Z) (q : t) : res t :=
  if bool_decide (windowMode q = ByPackets) then
    match byNum q !! number with
    | Some idx => set_state idx psAcked q
    | None => Ok q
    end
  else Ok (prune now2 (set_stamps (sentPkts q) (rcvdPkts q) (ackedPkts q ++ [stampCount.mk now1 1])
             (lostPkts q) (sentBytes q) (rcvdBytes q) q)).

Definition onLoss (number now1 now2 : Z) (q : t) : res t :=
  if bool_decide (windowMode q = ByPackets) then
    match byNum q !! number with
    | Some idx => s ← index (slots q) idx;
                  if bool_decide (pktSample.st s = psUnknown) then set_state idx psLost q else Ok q
    | None => Ok q
    end
  else Ok (prune now2 (set_stamps (sentPkts q) (rcvdPkts q) (ackedPkts q)
             (lostPkts q ++ [stampCount.mk now1 1]) (sentBytes q) (rcvdBytes q) q)).

(** ** Metrics *)

Definition sumStamps (s : list stampCount.t) : Z :=
  foldl (fun n x => int64 (n + stampCount.n x)) 0 s.
Definition sumBytes (s : list byteSample.t) : Z :=
  foldl (fun n x => int64 (n + byteSample.b x)) 0 s.

(** The variables of the loop of packetWindowMetrics. *)
Record window_acc := acc {
  w_sent : Z; w_acked : Z; w_lost : Z; w_bytes : Z; w_firstIdx : Z; w_lastIdx : Z }.

Definition count_sample (idx : Z) (s : pktSample.t) (a : window_acc) : window_acc :=
  if (pktSample.num s =? 0) && (pktSample.size s =? 0) && IsZero (pktSample.stamp s) then a
  else
    acc (int64 (w_sent a + 1))
      (match pktSample.st s with psAcked => int64 (w_acked a + 1) | _ => w_acked a end)
      (match pktSample.st s with psLost => int64 (w_lost a + 1) | _ => w_lost a end)
      (int64 (w_bytes a + pktSample.size s))
      (if w_firstIdx a =? -1 then idx else w_firstIdx a) idx.

(** [n] turns of the loop, from [i] on. *)
Fixpoint window_loop (n : nat) (i : Z) (q : t) (a : window_acc) : res window_acc :=
  match n with
  | O => Ok a
  | S n =>
      idx ← rem64 (ringHead q - ringCount q + i + winPkts q) (winPkts q);
      s ← index (slots q) idx;
      window_loop n (i + 1) q (count_sample idx s a)
  end.

(** sent, acked, lost, bytes, span. *)
Definition packetWindowMetrics (q : t) : res (Z * Z * Z * Z * Z) :=
  if ringCount q =? 0 then Ok (0, 0, 0, 0, 0)
  else
    a ← window_loop (Z.to_nat (ringCount q)) 0 q (acc 0 0 0 0 (-1) (-1));
    span ← (if (w_firstIdx a >=? 0) && (w_lastIdx a >=? 0) then
              s0 ← index (slots q) (w_firstIdx a);
              s1 ← index (slots q) (w_lastIdx a);
              Ok (if After (pktSample.stamp s1) (pktSample.stamp s0)
                  then time_Sub (pktSample.stamp s1) (pktSample.stamp s0) else Second)
            else Ok Second);
    Ok (w_sent a, w_acked a, w_lost a, w_bytes a, span).

(** bytes, packets. *)
Definition recvBytesWithin (span now : Z) (q : t) : Z * Z :=
  if span <=? 0 then (0, 0)
  else
    let cut := time_Add now (neg64 span) in
    let recent t := After t cut || (t =? cut) in
    (sumBytes (filter (fun s => recent (byteSample.stamp s)) (rcvdBytes q)),
     sumStamps (filter (fun s => recent (stampCount.stamp s)) (rcvdPkts q))).

Record RollingMetrics := metrics {
  Window : Z;
  PktWindow : Z;
  SentPackets : Z;
  AckedPackets : Z;
  LostPackets : Z;
  RecvPackets : Z;
  SentBytes : Z;
  RecvBytes : Z;
  LossPercent : float64;
  SendRateBps : float64;
  RecvRateBps : float64;
  SmoothedRTT : Z;
  AsOf : Z }.

(** [f == 0]. *)
Definition is_fzero (f : float64) : bool := SFeqb f fzero.

(** alpha*x + (1-alpha)*y. *)
Definition ewma (alpha x y : float64) : float64 :=
  fadd (fmul alpha x) (fmul (fsub (float64_of 1) alpha) y).

(** The smoothed value after a new one; a smoothed value of 0 is no value yet. *)
Definition smooth (alpha x y : float64) : float64 := if is_fzero y then x else ewma alpha x y.

Definition loss_percent (lost sent : Z) : float64 :=
  if sent >? 0 then fdiv (fmul (float64_of lost) (float64_of 100)) (float64_of sent) else fzero.

(** float64(bytes) * 8.0 / span.Seconds(). *)
Definition rate (bytes span : Z) : float64 :=
  fdiv (fmul (float64_of bytes) (float64_of 8)) (Seconds span).

(** [now1] is AsOf, [now2] the reading of recvBytesWithin. *)
Definition GetRollingMetrics (now1 now2 : Z) (q : t) : res (RollingMetrics * t) :=
  let outRTT := if SFltb fzero (smoothedRTT q) then int64 (uint64_of (smoothedRTT q)) else latestRTT q in
  if bool_decide (windowMode q = ByPackets) then
    '(sentPk, ackPk, lostPk, sentBy, span) ← packetWindowMetrics q;
    let span := if span <=? 0 then Second else span in
    let sl := smooth f0_5 (loss_percent lostPk sentPk) (smoothedLoss q) in
    let '(rxBytes, rxPkts) := recvBytesWithin span now2 q in
    Ok (metrics span (winPkts q) sentPk ackPk lostPk rxPkts sentBy rxBytes sl
          (rate sentBy span) (rate rxBytes span) outRTT now1,
        set_metrics (latestRTT q) sl (smoothedRTT q) q)
  else
    let sentPk := sumStamps (sentPkts q) in
    let lostPk := sumStamps (lostPkts q) in
    let sl := smooth f0_2 (loss_percent lostPk sentPk) (smoothedLoss q) in
    Ok (metrics (window q) 0 sentPk (sumStamps (ackedPkts q)) lostPk (sumStamps (rcvdPkts q))
          (sumBytes (sentBytes q)) (sumBytes (rcvdBytes q)) sl
          (rate (sumBytes (sentBytes q)) (window q)) (rate (sumBytes (rcvdBytes q)) (window q)) outRTT now1,
        set_metrics (latestRTT q) sl (smoothedRTT q) q).

Definition GetRTT (q : t) : Z := latestRTT q.

Definition RecordMOQObject (groupID subGroupID objectID size : Z) (direction trackName : gostring)
    (namespace : list gostring) (now : Z) (q : t) : t :=
  set_events (connectionEvents q) (moqObjectEvents q ++
    [MOQObjectEvent.mk now groupID subGroupID objectID size direction trackName namespace]) q.

(** ** The connection tracer

    The callbacks of the ConnectionTracer that CreateConnectionTracer returns.
    A packet is sent with a header and acknowledged or lost at an encryption
    level; of the headers the callbacks use the packet number.  UpdatedMetrics
    gets rttStats.SmoothedRTT(). *)

Inductive tracer_event :=
  | StartedConnection (local remote : gostring)
  | ClosedConnection (err : option error)
  | SentLongHeaderPacket (PacketNumber size : Z)
  | SentShortHeaderPacket (PacketNumber size : Z)
  | ReceivedLongHeaderPacket (size : Z)
  | ReceivedShortHeaderPacket (size : Z)
  | AcknowledgedPacket (level number : Z)
  | LostPacket (level number reason : Z)
  | UpdatedMetrics (rtt : Z)
  | Close.

Definition CreateConnectionTracer (p : Z) (q : t) : t := set_perspective p q.

Definition str_started : gostring := str "started".
Definition str_closed : gostring := str "closed".

(** [now1] and [now2] are the readings of the clock, in their order. *)
Definition trace (e : tracer_event) (now1 now2 : Z) (q : t) : res t :=
  match e with
  | StartedConnection l r =>
      Ok (set_events (connectionEvents q ++ [ConnectionEvent.mk now1 str_started l r None])
            (moqObjectEvents q) q)
  | ClosedConnection err =>
      Ok (set_events (connectionEvents q ++ [ConnectionEvent.mk now1 str_closed [] [] err])
            (moqObjectEvents q) q)
  | SentLongHeaderPacket n size | SentShortHeaderPacket n size => onSent n size now1 now2 q
  | ReceivedLongHeaderPacket size | ReceivedShortHeaderPacket size => Ok (onRcvd size now1 q)
  | AcknowledgedPacket _ n => onAck n now1 now2 q
  | LostPacket _ n _ => onLoss n now1 now2 q
  | UpdatedMetrics rtt =>
      Ok (prune now1 (set_metrics rtt (smoothedLoss q)
            (smooth f0_2 (float64_of rtt) (smoothedRTT q)) q))
  | Close => Ok q
  end.

(** The callbacks in their order, each with its readings of the clock. *)
Fixpoint traces (es : list (tracer_event * Z * Z)) (q : t) : res t :=
  match es with
  | [] => Ok q
  | (e, now1, now2) :: es => q ← trace e now1 now2 q; traces es q
  end.

End QuicLogger.
