(* ===== verification/TelemetryRing.v ===== *)
(** The packet window of the telemetry: the ring of QuicLogger and its index by
    packet number, what they hold in every execution, and the abstract window
    they implement, in which a packet may be forgotten whose number is used again. *)

From Stdlib Require Import String SpecFloat.
From stdpp Require Import gmap.
From S2P Require Import Prelude Errors Telemetry.
Import QuicLogger.
Local Open Scope Z_scope.

(** * The abstract window

    The last [W] packets sent, in the order they were sent, each with whether its
    number still names it. *)

Definition entry : Type := pktSample.t * bool.

Definition numbers (w : list entry) : list Z := (fun x => pktSample.num x.1) <$> w.

(** A number is used again, or the packet it named last leaves the window: it names
    none of the packets that were sent before. *)
Definition forget (n : Z) (x : entry) : entry := (x.1, x.2 && negb (pktSample.num x.1 =? n)).

Definition window_sent (W : Z) (x : pktSample.t) (w : list entry) : list entry :=
  let kept := match w with
              | [] => []
              | y :: rest => if len w =? W then forget (pktSample.num y.1) <$> rest else w
              end in
  (forget (pktSample.num x) <$> kept) ++ [(x, true)].

(** A change of the sample of the packet that a number names. *)
Definition mark (f : pktSample.t -> pktSample.t) (n : Z) (x : entry) : entry :=
  if x.2 && (pktSample.num x.1 =? n) then (f x.1, x.2) else x.

Definition lose (s : pktSample.t) : pktSample.t :=
  if bool_decide (pktSample.st s = psUnknown) then pktSample.set_st psLost s else s.

Definition window_step (W : Z) (e : tracer_event) (now : Z) (w : list entry) : list entry :=
  match e with
  | SentLongHeaderPacket n size | SentShortHeaderPacket n size =>
      window_sent W (pktSample.mk now n (int64 size) psUnknown) w
  | AcknowledgedPacket _ n => mark (pktSample.set_st psAcked) n <$> w
  | LostPacket _ n _ => mark lose n <$> w
  | _ => w
  end.

(** A packet number is not sent again while it is in the window. *)
Definition fresh_event (e : tracer_event) (w : list entry) : Prop :=
  match e with
  | SentLongHeaderPacket n _ | SentShortHeaderPacket n _ => n ∉ numbers w
  | _ => True
  end.

(** *** As long as no number is used again every packet is named by its number. *)

Definition all_named (w : list entry) : Prop := NoDup (numbers w) /\ Forall (fun x => x.2 = true) w.

Lemma forget_numbers n w : numbers (forget n <$> w) = numbers w.
Proof. unfold numbers. rewrite <- list_fmap_compose. by apply list_fmap_ext. Qed.

Lemma forget_other n w :
  n ∉ numbers w -> Forall (fun x => x.2 = true) w -> Forall (fun x => x.2 = true) (forget n <$> w).
Proof.
  intros Hn H. induction H as [|[s b] w Hb H IH]; [constructor|]. cbn in Hn, Hb |- *.
  apply not_elem_of_cons in Hn as [Hn Hn']. constructor; [|by apply IH]. cbn. subst b.
  by replace (pktSample.num s =? n) with false by lia.
Qed.

Lemma mark_numbers f n w :
  (forall s, pktSample.num (f s) = pktSample.num s) ->
  numbers (mark f n <$> w) = numbers w /\ (mark f n <$> w).*2 = w.*2.
Proof.
  intros Hf. unfold numbers. rewrite <- !list_fmap_compose.
  split; apply list_fmap_ext; intros _ [s b] _; unfold mark; cbn; by destruct (b && _); cbn.
Qed.

Lemma lose_num s : pktSample.num (lose s) = pktSample.num s.
Proof. unfold lose. by destruct (bool_decide _). Qed.

Lemma mark_all_named f n w :
  (forall s, pktSample.num (f s) = pktSample.num s) -> all_named w -> all_named (mark f n <$> w).
Proof.
  intros Hf [H1 H2]. destruct (mark_numbers f n w Hf) as [E1 E2]. split; [by rewrite E1|].
  apply (list.Forall_fmap snd (fun b => b = true)). change (Forall (fun b => b = true) (mark f n <$> w).*2).
  rewrite E2. by apply Forall_fmap.
Qed.

Lemma sent_all_named W x w : pktSample.num x ∉ numbers w -> all_named w -> all_named (window_sent W x w).
Proof.
  intros Hx [H1 H2]. unfold window_sent. set (kept := match w with [] => _ | _ => _ end).
  assert (all_named kept /\ pktSample.num x ∉ numbers kept) as [[K1 K2] K3].
  { subst kept. destruct w as [|y rest]; [by split|]. destruct (len (y :: rest) =? W); [|by split].
    cbn in H1, Hx. apply list.NoDup_cons in H1 as [H0 H1]. apply list.Forall_cons_1 in H2 as [_ H2].
    unfold all_named. rewrite forget_numbers. split; [split; [done|by apply forget_other]|].
    intros Hin. apply Hx. by right. }
  clearbody kept. split.
  - unfold numbers. rewrite fmap_app. fold (numbers (forget (pktSample.num x) <$> kept)). rewrite forget_numbers.
    apply list.NoDup_app. split; [done|]. split; [|apply list.NoDup_singleton].
    intros n Hn Hin. cbn in Hin. apply list_elem_of_singleton in Hin as ->. done.
  - apply Forall_app. split; [by apply forget_other|by repeat constructor].
Qed.

Lemma step_all_named W e now w : fresh_event e w -> all_named w -> all_named (window_step W e now w).
Proof.
  intros Hf Hw. destruct e; cbn in *; try done; try by apply sent_all_named.
  - by apply mark_all_named.
  - by apply mark_all_named; [apply lose_num|].
Qed.

(** ** What the metrics of a window count *)

(** A sample that the loop does not skip. *)
Definition real (s : pktSample.t) : bool :=
  negb ((pktSample.num s =? 0) && (pktSample.size s =? 0) && IsZero (pktSample.stamp s)).

Definition count (x : pktState) (l : list pktSample.t) : Z :=
  len (filter (fun s => pktSample.st s = x) l).

Definition window_bytes (l : list pktSample.t) : Z :=
  foldl (fun n s => int64 (n + pktSample.size s)) 0 l.

(** From the first to the last sample; a second when the clock did not advance. *)
Definition window_span (l : list pktSample.t) : Z :=
  match list.head l, list.last l with
  | Some s0, Some s1 =>
      if After (pktSample.stamp s1) (pktSample.stamp s0)
      then time_Sub (pktSample.stamp s1) (pktSample.stamp s0) else Second
  | _, _ => Second
  end.

Definition window_metrics (l : list pktSample.t) : Z * Z * Z * Z * Z :=
  match l with
  | [] => (0, 0, 0, 0, 0)
  | _ => let r := filter (fun s => real s) l in
         (len r, count psAcked r, count psLost r, window_bytes r, window_span r)
  end.

(** * The ring *)

Section Ring.

(** The samples of the last packets, oldest first. *)
Definition arrange {A} (q : t) (l : list A) : list A :=
  if ringCount q =? winPkts q
  then drop (Z.to_nat (ringHead q)) l ++ take (Z.to_nat (ringHead q)) l
  else take (Z.to_nat (ringCount q)) l.

Definition view (q : t) : list pktSample.t := arrange q (slots q).

(** Each with whether the index has its slot. *)
Definition tagged (q : t) : list entry :=
  imap (fun i s => (s, bool_decide (byNum q !! pktSample.num s = Some (Z.of_nat i)))) (slots q).
Definition entries (q : t) : list entry := arrange q (tagged q).

Record wf (q : t) : Prop := {
  wf_pkts : 0 < winPkts q;
  wf_alloc : winPkts q * 48 <= maxAlloc;
  wf_len : match ring q with
           | Some r => len r = winPkts q
           | None => ringCount q = 0
           end;
  wf_head : 0 <= ringHead q < winPkts q;
  wf_count : 0 <= ringCount q <= winPkts q;
  wf_fill : ringCount q < winPkts q -> ringHead q = ringCount q;
  wf_num n i : byNum q !! n = Some i ->
    0 <= i < ringCount q /\ pktSample.num <$> slots q !! Z.to_nat i = Some n }.

Lemma wf_bound q : wf q -> winPkts q <= maxAlloc.
Proof. intros H. pose proof (wf_alloc q H). pose proof (wf_pkts q H). lia. Qed.

Lemma prune_ring now q :
  winPkts (prune now q) = winPkts q /\ ring (prune now q) = ring q /\
  ringHead (prune now q) = ringHead q /\ ringCount (prune now q) = ringCount q /\
  byNum (prune now q) = byNum q /\ windowMode (prune now q) = windowMode q.
Proof. done. Qed.

(** Only the fields of the ring matter. *)
Definition same_ring (q q' : t) : Prop :=
  winPkts q = winPkts q' /\ ring q = ring q' /\ ringHead q = ringHead q' /\
  ringCount q = ringCount q' /\ byNum q = byNum q' /\ windowMode q = windowMode q'.

Lemma wf_same q q' : same_ring q q' -> wf q -> wf q'.
Proof.
  intros (E1 & E2 & E3 & E4 & E5 & _) [H1 H2 H3 H4 H5 H6 H7].
  split; unfold slots in *; rewrite <- ?E1, <- ?E2, <- ?E3, <- ?E4; try done.
  intros n i. rewrite <- E5. apply H7.
Qed.

Lemma entries_same q q' : same_ring q q' -> entries q = entries q'.
Proof. intros (E1 & E2 & E3 & E4 & E5 & _). unfold entries, arrange, tagged, slots. by rewrite E1, E2, E3, E4, E5. Qed.

Lemma arrange_fmap {A B} (f : A -> B) q l : arrange q (f <$> l) = f <$> arrange q l.
Proof.
  unfold arrange. destruct (_ =? _); [|by rewrite fmap_take].
  by rewrite fmap_app, fmap_drop, fmap_take.
Qed.

Lemma tagged_samples q : (tagged q).*1 = slots q.
Proof. unfold tagged. rewrite fmap_imap. apply list_eq. intros i. rewrite list_lookup_imap. by destruct (_ !! i). Qed.

(** The window of the ring, of which the metrics are taken. *)
Lemma view_entries q : view q = (entries q).*1.
Proof. unfold view, entries. rewrite <- tagged_samples. exact (arrange_fmap fst q (tagged q)). Qed.

Lemma view_same q q' : same_ring q q' -> view q = view q'.
Proof. intros E. by rewrite !view_entries, (entries_same _ _ E). Qed.

Lemma view_length q : wf q -> length (view q) = Z.to_nat (ringCount q).
Proof.
  intros [H1 H2 H3 H4 H5 H6 H7]. unfold view, arrange, slots. destruct (ring q) as [r|]; cbn [default id].
  - unfold len in H3. destruct (Z.eqb_spec (ringCount q) (winPkts q)); rewrite ?length_app, ?length_drop, ?length_take; lia.
  - rewrite H3. by replace (0 =? winPkts q) with false by lia.
Qed.

Lemma entries_length q : wf q -> len (entries q) = ringCount q.
Proof.
  intros H. pose proof (view_length q H) as Hl. pose proof (wf_count q H).
  assert (length (entries q) = length (view q)) as He by (rewrite view_entries; symmetry; exact (length_fmap fst (entries q))).
  unfold len. rewrite He. lia.
Qed.

Lemma index_Ok {A} (l : list A) i x : 0 <= i -> l !! Z.to_nat i = Some x -> index l i = Ok x.
Proof. intros Hi Hx. unfold index. replace (0 <=? i) with true by lia. by rewrite Hx. Qed.

Lemma set_slot_Ok i x r : 0 <= i < len r -> set_slot i x r = Ok (<[Z.to_nat i := x]> r).
Proof.
  intros Hi. unfold set_slot. destruct (lookup_lt_is_Some_2 r (Z.to_nat i)) as [y Hy].
  { unfold len in Hi. lia. }
  by rewrite (index_Ok r i y) by (lia || done).
Qed.

(** After ringEnsure the ring is there and nothing else has changed. *)
Lemma ringEnsure_spec q :
  wf q -> exists q', ringEnsure q = Ok q' /\ wf q' /\ is_Some (ring q') /\ entries q' = entries q /\
    winPkts q' = winPkts q /\ ringCount q' = ringCount q /\ windowMode q' = windowMode q.
Proof.
  intros H. pose proof H as [H1 H2 H3 H4 H5 H6 H7]. unfold ringEnsure. destruct (ring q) as [r|] eqn:E.
  { exists q. rewrite E. eauto 10. }
  unfold make_slice. replace ((0 <=? winPkts q) && (winPkts q * 48 <=? maxAlloc)) with true by lia.
  eexists. split; [done|]. split_and!; try done.
  - split; cbn; try done. unfold len. rewrite length_replicate. lia.
  - unfold entries, arrange. cbn. rewrite H3. by replace (0 =? winPkts q) with false by lia.
Qed.

(** The state after a packet was put into the ring. *)
Definition ring_put (r : list pktSample.t) (x : pktSample.t) (q : t) : t :=
  let m := if ringCount q =? winPkts q
           then delete (pktSample.num (nth (Z.to_nat (ringHead q)) r x)) (byNum q) else byNum q in
  set_ring (Some (<[Z.to_nat (ringHead q) := x]> r))
    (if ringHead q + 1 =? winPkts q then 0 else ringHead q + 1)
    (if ringCount q =? winPkts q then ringCount q else ringCount q + 1)
    (<[pktSample.num x := ringHead q]> m) q.

Lemma rem64_next h n : 0 <= h < n -> n <= maxAlloc -> rem64 (h + 1) n = Ok (if h + 1 =? n then 0 else h + 1).
Proof.
  intros Hh Hn. unfold rem64. assert (maxAlloc < 2 ^ 62) by (vm_compute; congruence).
  rewrite int64_small by lia. replace (n =? 0) with false by lia. f_equal.
  destruct (Z.eqb_spec (h + 1) n) as [->|Hne]; [apply Z.rem_same; lia|apply Z.rem_small; lia].
Qed.

Lemma onSent_run number size now1 now2 q r :
  wf q -> windowMode q = ByPackets -> ring q = Some r ->
  onSent number size now1 now2 q =
    Ok (prune now2 (ring_put r (pktSample.mk now1 number (int64 size) psUnknown) q)).
Proof.
  intros H Hm Er. pose proof H as [H1 H2 H3 H4 H5 H6 H7]. pose proof (wf_bound q H) as Hb.
  rewrite Er in H3. assert (maxAlloc < 2 ^ 62) by (vm_compute; congruence).
  unfold onSent, ringEnsure. rewrite bool_decide_eq_true_2, Er by done. cbn [mbind res_bind].
  unfold slots. rewrite Er. cbn [default id].
  destruct (lookup_lt_is_Some_2 r (Z.to_nat (ringHead q))) as [old Hold]; [unfold len in H3; lia|].
  unfold ring_put. rewrite rem64_next by lia. rewrite set_slot_Ok by lia.
  destruct (Z.eqb_spec (ringCount q) (winPkts q)) as [Ec|Ec].
  - rewrite (index_Ok r _ old) by (lia || done). cbn. by rewrite (nth_lookup_Some _ _ _ _ Hold).
  - rewrite (int64_small (ringCount q + 1)) by lia. done.
Qed.

(** ** Sending *)

Lemma ring_put_wf r x q : wf q -> ring q = Some r -> wf (ring_put r x q).
Proof.
  intros [H1 H2 H3 H4 H5 H6 H7] Er. rewrite Er in H3. unfold slots in H7. rewrite Er in H7.
  split; cbn; try done.
  - unfold len. rewrite length_insert. exact H3.
  - destruct (Z.eqb_spec (ringHead q + 1) (winPkts q)); lia.
  - destruct (Z.eqb_spec (ringCount q) (winPkts q)); lia.
  - destruct (Z.eqb_spec (ringCount q) (winPkts q)), (Z.eqb_spec (ringHead q + 1) (winPkts q)); lia.
  - intros n i. unfold slots. cbn [ring default id set_ring]. intros Hi.
    assert (ringHead q < ringCount q \/ ringHead q = ringCount q) as Hc by lia.
    destruct (decide (n = pktSample.num x)) as [->|Hn].
    { rewrite lookup_insert_eq in Hi. injection Hi as <-. rewrite list_lookup_insert_eq by (unfold len in *; lia).
      destruct (Z.eqb_spec (ringCount q) (winPkts q)); (split; [lia|done]). }
    rewrite lookup_insert_ne in Hi by done.
    destruct (Z.eqb_spec (ringCount q) (winPkts q)) as [Ec|Ec].
    + apply lookup_delete_Some in Hi as [Hd Hi]. apply H7 in Hi as [Hi Hs]. split; [done|].
      destruct (decide (i = ringHead q)) as [->|Hne]; [|by rewrite list_lookup_insert_ne by lia].
      exfalso. cbn in Hs. destruct (r !! Z.to_nat (ringHead q)) as [old|] eqn:Ho; [|done].
      cbn in Hs. injection Hs as Hs. apply Hd. by rewrite (nth_lookup_Some _ _ _ _ Ho).
    + apply H7 in Hi as [Hi Hs]. split; [lia|]. by rewrite list_lookup_insert_ne by lia.
Qed.

Lemma drop_one {A} (l1 l2 : list A) : length l1 = 1%nat -> drop 1 (l1 ++ l2) = l2.
Proof. by destruct l1 as [|a [|]]. Qed.

Lemma take_insert_at {A} (r : list A) n x : (n < length r)%nat -> take (S n) (<[n := x]> r) = take n r ++ [x].
Proof.
  intros Hn. rewrite (take_S_r _ _ x) by (by apply list_lookup_insert_eq). by rewrite take_insert_ge.
Qed.

Lemma arrange_put {A} (l : list A) a r x q :
  wf q -> ring q = Some r -> length l = length r ->
  arrange (ring_put r x q) (<[Z.to_nat (ringHead q) := a]> l) =
    (if ringCount q =? winPkts q then tail (arrange q l) else arrange q l) ++ [a].
Proof.
  intros [H1 H2 H3 H4 H5 H6 H7] Er El. rewrite Er in H3. unfold len in H3. rewrite <- El in H3. clear El Er H7.
  unfold arrange. cbn [ring_put set_ring ringCount winPkts ringHead].
  set (h := Z.to_nat (ringHead q)). assert (h < length l)%nat as Hh by lia.
  destruct (lookup_lt_is_Some_2 l h Hh) as [old Hold].
  destruct (Z.eqb_spec (ringCount q) (winPkts q)) as [Ec|Ec].
  - rewrite (proj2 (Z.eqb_eq _ _) Ec).
    destruct (Z.eqb_spec (ringHead q + 1) (winPkts q)) as [Eh|Eh].
    + rewrite drop_0, app_nil_r, (drop_S l old h Hold), drop_ge by lia. cbn.
      rewrite <- (take_insert_at l h a Hh). symmetry. apply take_ge. rewrite length_insert. lia.
    + replace (Z.to_nat (ringHead q + 1)) with (S h) by lia. rewrite take_insert_at by done.
      rewrite drop_insert_lt by lia. rewrite (drop_S l old h Hold). cbn. by rewrite <- app_assoc.
  - assert (ringHead q = ringCount q) as Eh by (apply H6; lia). fold h.
    replace (Z.to_nat (ringCount q)) with h by lia. rewrite <- (take_insert_at l h a Hh). rewrite Eh.
    destruct (Z.eqb_spec (ringCount q + 1) (winPkts q)) as [En|En].
    + rewrite drop_0, app_nil_r. symmetry. apply take_ge. rewrite length_insert. lia.
    + by replace (Z.to_nat (ringCount q + 1)) with (S h) by lia.
Qed.

(** What the index forgets when a packet is put into the ring. *)
Definition put_forgets (r : list pktSample.t) (x : pktSample.t) (q : t) (y : entry) : entry :=
  forget (pktSample.num x)
    (if ringCount q =? winPkts q then forget (pktSample.num (nth (Z.to_nat (ringHead q)) r x)) y else y).

Lemma tagged_put r x q :
  wf q -> ring q = Some r ->
  tagged (ring_put r x q) = <[Z.to_nat (ringHead q) := (x, true)]> (put_forgets r x q <$> tagged q).
Proof.
  intros [H1 H2 H3 H4 H5 H6 H7] Er. rewrite Er in H3. unfold len in H3. clear H7.
  unfold tagged, slots. rewrite Er. cbn [ring_put set_ring ring byNum default id].
  apply list_eq. intros j. destruct (decide (j = Z.to_nat (ringHead q))) as [->|Hj].
  - rewrite list_lookup_imap, !list_lookup_insert_eq by (rewrite ?length_fmap, ?length_imap; lia). cbn.
    rewrite lookup_insert_eq, Z2Nat.id by lia. by rewrite bool_decide_eq_true_2.
  - rewrite list_lookup_insert_ne, list_lookup_fmap, !list_lookup_imap, list_lookup_insert_ne by done.
    destruct (r !! j) as [s|]; [|done]. cbn. f_equal. unfold put_forgets, forget.
    destruct (decide (pktSample.num s = pktSample.num x)) as [E|E].
    + rewrite E, lookup_insert_eq, bool_decide_eq_false_2 by (intros [= Ej]; lia).
      destruct (ringCount q =? winPkts q); cbn; by rewrite ?E, Z.eqb_refl, andb_false_r.
    + rewrite lookup_insert_ne by done. destruct (ringCount q =? winPkts q); cbn;
        replace (pktSample.num s =? pktSample.num x) with false by lia; rewrite andb_true_r; [|done].
      set (old := nth _ r x). destruct (Z.eqb_spec (pktSample.num s) (pktSample.num old)) as [E'|E'].
      * by rewrite E', lookup_delete_eq, andb_false_r.
      * by rewrite lookup_delete_ne, andb_true_r by done.
Qed.

Lemma ring_put_entries r x q :
  wf q -> ring q = Some r -> entries (ring_put r x q) = window_sent (winPkts q) x (entries q).
Proof.
  intros H Er. pose proof H as [H1 _ H3 H4 _ _ _]. rewrite Er in H3. unfold len in H3.
  assert (length (tagged q) = length r) as Hlen by (unfold tagged, slots; by rewrite Er, length_imap).
  unfold entries at 1. rewrite tagged_put by done. rewrite (arrange_put _ _ r x q) by (rewrite ?length_fmap; done).
  rewrite arrange_fmap. fold (entries q). unfold window_sent, put_forgets. rewrite entries_length by done. f_equal.
  destruct (Z.eqb_spec (ringCount q) (winPkts q)) as [Ec|Ec].
  - destruct (lookup_lt_is_Some_2 (tagged q) (Z.to_nat (ringHead q))) as [y Hy]; [lia|].
    assert (entries q = y :: drop (S (Z.to_nat (ringHead q))) (tagged q) ++ take (Z.to_nat (ringHead q)) (tagged q)) as Ee
      by (unfold entries, arrange; rewrite (proj2 (Z.eqb_eq _ _) Ec); by rewrite (drop_S _ y)).
    assert (nth (Z.to_nat (ringHead q)) r x = y.1) as ->.
    { apply nth_lookup_Some. unfold tagged, slots in Hy. rewrite Er, list_lookup_imap in Hy. cbn in Hy.
      destruct (r !! _); [|done]. cbn in Hy. by injection Hy as <-. }
    rewrite Ee. cbn [fmap list_fmap tail]. by rewrite <- list_fmap_compose.
  - by destruct (entries q).
Qed.

(** ** Acknowledgements and losses *)

Definition ring_set (i : Z) (y : pktSample.t) (q : t) : t :=
  set_ring (Some (<[Z.to_nat i := y]> (slots q))) (ringHead q) (ringCount q) (byNum q) q.

(** The slot of a number of the index. *)
Lemma indexed q n i :
  wf q -> byNum q !! n = Some i ->
  exists r s, ring q = Some r /\ r !! Z.to_nat i = Some s /\ pktSample.num s = n /\ 0 <= i < ringCount q.
Proof.
  intros H Hi. destruct (wf_num q H n i Hi) as [Hb Hs]. unfold slots in Hs.
  destruct (ring q) as [r|] eqn:Er; [|done]. cbn in Hs.
  destruct (r !! Z.to_nat i) as [s|] eqn:E; [|done]. exists r, s. cbn in Hs. by injection Hs as <-.
Qed.

Lemma set_state_run q i x r s :
  wf q -> ring q = Some r -> r !! Z.to_nat i = Some s -> 0 <= i < ringCount q ->
  set_state i x q = Ok (ring_set i (pktSample.set_st x s) q).
Proof.
  intros H Er Hs Hi. pose proof (wf_len q H) as Hl. rewrite Er in Hl. pose proof (wf_count q H).
  unfold set_state, ring_set, slots. rewrite Er. cbn [default id]. rewrite (index_Ok r i s) by (lia || done).
  cbn [mbind res_bind]. by rewrite set_slot_Ok by lia.
Qed.

Lemma ring_set_wf q i y r s :
  wf q -> ring q = Some r -> r !! Z.to_nat i = Some s -> pktSample.num y = pktSample.num s ->
  wf (ring_set i y q).
Proof.
  intros [H1 H2 H3 H4 H5 H6 H7] Er Hs Hy. unfold ring_set, slots in *. rewrite Er in *. cbn [default id] in *.
  split; cbn; try done; [unfold len in *; by rewrite length_insert|]. intros n j Hj.
  destruct (H7 n j Hj) as [Hb Hn]. split; [done|].
  destruct (decide (Z.to_nat i = Z.to_nat j)) as [E|Hne]; [|by rewrite list_lookup_insert_ne].
  rewrite <- E in *. rewrite list_lookup_insert_eq by (by apply lookup_lt_Some in Hs).
  rewrite Hs in Hn. cbn in *. by rewrite Hy.
Qed.

(** The index names the one packet of its slot. *)
Lemma ring_set_entries f q n i r s :
  (forall s, pktSample.num (f s) = pktSample.num s) -> byNum q !! n = Some i -> 0 <= i ->
  ring q = Some r -> r !! Z.to_nat i = Some s -> pktSample.num s = n ->
  entries (ring_set i (f s) q) = mark f n <$> entries q.
Proof.
  intros Hf Hi H0 Er Hs Hn. unfold entries. change (arrange (ring_set i (f s) q)) with (@arrange entry q).
  rewrite <- arrange_fmap. f_equal. unfold tagged, ring_set, slots. rewrite Er. cbn [set_ring ring byNum default id].
  apply list_eq. intros j. rewrite list_lookup_fmap, !list_lookup_imap.
  destruct (decide (j = Z.to_nat i)) as [->|Hj].
  - rewrite list_lookup_insert_eq, Hs by (by apply lookup_lt_Some in Hs). cbn.
    rewrite Hf, Hn, Hi, Z2Nat.id by lia. unfold mark. cbn. by rewrite bool_decide_eq_true_2, Hn, Z.eqb_refl.
  - rewrite list_lookup_insert_ne by done. destruct (r !! j) as [y|]; [|done]. cbn. f_equal. unfold mark. cbn.
    destruct (Z.eqb_spec (pktSample.num y) n) as [->|]; [|by rewrite andb_false_r].
    rewrite Hi, bool_decide_eq_false_2; [done|]. intros [= Ej]. lia.
Qed.

Lemma unnamed f q n : byNum q !! n = None -> mark f n <$> entries q = entries q.
Proof.
  intros Hi. unfold entries. rewrite <- arrange_fmap. f_equal. unfold tagged. apply list_eq. intros j.
  rewrite list_lookup_fmap, !list_lookup_imap. destruct (slots q !! j) as [y|]; [|done]. cbn. f_equal.
  unfold mark. cbn. destruct (Z.eqb_spec (pktSample.num y) n) as [->|]; [|by rewrite andb_false_r].
  by rewrite Hi.
Qed.

(** Marking a packet by its number, whether it is in the index or not. *)
Lemma marks f n q q' :
  wf q -> (forall s, pktSample.num (f s) = pktSample.num s) ->
  match byNum q !! n with
  | Some i => forall r s, ring q = Some r -> r !! Z.to_nat i = Some s -> same_ring (ring_set i (f s) q) q'
  | None => same_ring q q'
  end ->
  wf q' /\ (windowMode q' = windowMode q /\ winPkts q' = winPkts q) /\ entries q' = mark f n <$> entries q.
Proof.
  intros H Hf Hq. destruct (byNum q !! n) as [i|] eqn:Ei.
  - destruct (indexed q n i H Ei) as (r & s & Er & Hs & Hn & Hi). specialize (Hq r s Er Hs).
    split; [eapply wf_same, ring_set_wf; eauto|].
    split; [destruct Hq as (<- & _ & _ & _ & _ & <-); done|].
    rewrite <- (entries_same _ _ Hq). apply (ring_set_entries f q n i r s); done || lia.
  - split; [by eapply wf_same|].
    split; [destruct Hq as (<- & _ & _ & _ & _ & <-); done|].
    rewrite <- (entries_same _ _ Hq). symmetry. by apply unnamed.
Qed.

Lemma same_ring_refl q : same_ring q q.
Proof. done. Qed.

Lemma onAck_spec n now1 now2 q :
  wf q -> windowMode q = ByPackets ->
  exists q', onAck n now1 now2 q = Ok q' /\ wf q' /\
    (windowMode q' = windowMode q /\ winPkts q' = winPkts q) /\
    entries q' = mark (pktSample.set_st psAcked) n <$> entries q.
Proof.
  intros H Hm. unfold onAck. rewrite bool_decide_eq_true_2 by done.
  pose proof (marks (pktSample.set_st psAcked) n q) as Hk. destruct (byNum q !! n) as [i|] eqn:Ei.
  - destruct (indexed q n i H Ei) as (r & s & Er & Hs & Hn & Hi).
    rewrite (set_state_run q i psAcked r s) by done. eexists. split; [done|]. apply Hk; [done|done|].
    intros r' s' Er' Hs'. rewrite Er in Er'. injection Er' as <-. rewrite Hs in Hs'. by injection Hs' as <-.
  - exists q. split; [done|]. by apply Hk.
Qed.

Lemma onLoss_spec n now1 now2 q :
  wf q -> windowMode q = ByPackets ->
  exists q', onLoss n now1 now2 q = Ok q' /\ wf q' /\
    (windowMode q' = windowMode q /\ winPkts q' = winPkts q) /\
    entries q' = mark lose n <$> entries q.
Proof.
  intros H Hm. unfold onLoss. rewrite bool_decide_eq_true_2 by done.
  pose proof (marks lose n q) as Hk. pose proof lose_num as Hl.
  destruct (byNum q !! n) as [i|] eqn:Ei.
  - destruct (indexed q n i H Ei) as (r & s & Er & Hs & Hn & Hi).
    rewrite (index_Ok (slots q) i s) by (lia || (unfold slots; by rewrite Er)). cbn [mbind res_bind].
    assert (forall q', same_ring (ring_set i (lose s) q) q' -> wf q' /\
      (windowMode q' = windowMode q /\ winPkts q' = winPkts q) /\
      entries q' = mark lose n <$> entries q) as Hk'.
    { intros q' Hq. apply Hk; [done|done|]. intros r' s' Er' Hs'.
      rewrite Er in Er'. injection Er' as <-. rewrite Hs in Hs'. by injection Hs' as <-. }
    unfold lose in Hk' at 1. destruct (bool_decide (pktSample.st s = psUnknown)).
    + rewrite (set_state_run q i psLost r s) by done. eexists. split; [done|]. by apply Hk'.
    + exists q. split; [done|]. apply Hk'. unfold same_ring, ring_set, slots. cbn. rewrite Er. cbn.
      by rewrite list_insert_id.
  - exists q. split; [done|]. by apply Hk.
Qed.

Lemma onSent_spec n size now1 now2 q :
  wf q -> windowMode q = ByPackets ->
  exists q', onSent n size now1 now2 q = Ok q' /\ wf q' /\
    (windowMode q' = windowMode q /\ winPkts q' = winPkts q) /\
    entries q' = window_sent (winPkts q) (pktSample.mk now1 n (int64 size) psUnknown) (entries q).
Proof.
  intros H Hm. destruct (ringEnsure_spec q H) as (q1 & E1 & H1 & [r Er] & Hv & Hw & _ & Hm1).
  assert (onSent n size now1 now2 q = onSent n size now1 now2 q1) as ->.
  { unfold onSent. rewrite Hm1. rewrite (bool_decide_eq_true_2 (windowMode q = ByPackets)) by done.
    rewrite E1. cbn [mbind res_bind]. unfold ringEnsure. by rewrite Er. }
  rewrite (onSent_run n size now1 now2 q1 r) by (done || congruence).
  set (x := pktSample.mk now1 n (int64 size) psUnknown).
  eexists. split; [done|]. assert (same_ring (ring_put r x q1) (prune now2 (ring_put r x q1))) as Hs by done.
  split; [by eapply wf_same, ring_put_wf|]. split; [split; [exact Hm1|exact Hw]|].
  rewrite <- (entries_same _ _ Hs), ring_put_entries by done. by rewrite Hw, Hv.
Qed.

(** ** Every callback of the tracer *)

Lemma trace_ring e now1 now2 q :
  wf q -> windowMode q = ByPackets ->
  exists q', trace e now1 now2 q = Ok q' /\ wf q' /\
    (windowMode q' = windowMode q /\ winPkts q' = winPkts q) /\
    entries q' = window_step (winPkts q) e now1 (entries q).
Proof.
  intros H Hm.
  assert (forall q', same_ring q q' -> wf q' /\ (windowMode q' = windowMode q /\ winPkts q' = winPkts q) /\
    entries q' = entries q) as Hsame.
  { intros q' Hq. split; [by eapply wf_same|]. split; [destruct Hq as (<- & _ & _ & _ & _ & <-); done|].
    by rewrite (entries_same _ _ Hq). }
  destruct e; cbn [trace window_step];
    try (eexists; split; [done|]; by apply Hsame).
  - by apply onSent_spec.
  - by apply onSent_spec.
  - by apply onAck_spec.
  - by apply onLoss_spec.
Qed.

End Ring.

(** * Executions *)

Fixpoint window_run (W : Z) (es : list (tracer_event * Z * Z)) (l : list entry) : list entry :=
  match es with
  | [] => l
  | (e, now1, _) :: es => window_run W es (window_step W e now1 l)
  end.

Fixpoint fresh_run (W : Z) (es : list (tracer_event * Z * Z)) (l : list entry) : Prop :=
  match es with
  | [] => True
  | (e, now1, _) :: es => fresh_event e l /\ fresh_run W es (window_step W e now1 l)
  end.

Lemma traces_ring es q :
  wf q -> windowMode q = ByPackets ->
  exists q', traces es q = Ok q' /\ wf q' /\ (windowMode q' = windowMode q /\ winPkts q' = winPkts q) /\
    entries q' = window_run (winPkts q) es (entries q).
Proof.
  revert q. induction es as [|[[e now1] now2] es IH]; intros q H Hm; [by exists q|].
  destruct (trace_ring e now1 now2 q H Hm) as (q1 & E & H1 & [Hm1 Hw1] & Ht). cbn. rewrite E. cbn.
  destruct (IH q1 H1) as (q' & E' & H' & [Hm' Hw'] & Ht'); [congruence|].
  exists q'. split_and!; [done|done|congruence|congruence|]. by rewrite Ht', Hw1, Ht.
Qed.

Lemma run_all_named W es w : fresh_run W es w -> all_named w -> all_named (window_run W es w).
Proof.
  revert w. induction es as [|[[e now1] now2] es IH]; intros w Hf Hw; [done|]. destruct Hf as [Hf Hfr].
  apply IH; [done|]. by apply step_all_named.
Qed.

(** ** The start *)

Lemma new_logger_wf sid p cfg now q cfg' :
  NewQuicLogger sid p cfg now = Ok (q, cfg') -> winPkts q * 48 <= maxAlloc ->
  wf q /\ entries q = [].
Proof.
  intros H Hb. unfold NewQuicLogger in H. set (c := default _ cfg) in *.
  set (c' := if LoggerConfig.WindowPackets c <=? 0 then _ else c) in *.
  assert (0 < LoggerConfig.WindowPackets c') as Hp.
  { subst c'. destruct (Z.leb_spec (LoggerConfig.WindowPackets c) 0); cbn; lia. }
  do 4 inv_bind H. injection H as <- _. cbn in Hb. split_and!.
  - by split; cbn; try done; try lia.
  - unfold entries, arrange. cbn [ringCount winPkts]. by replace (0 =? LoggerConfig.WindowPackets c') with false by lia.
Qed.

(** * Metrics *)

Section Metrics.

(** The slots the loop visits are those of the window, in its order. *)
Lemma window_slot q i :
  wf q -> 0 <= i < ringCount q ->
  exists idx s, rem64 (ringHead q - ringCount q + i + winPkts q) (winPkts q) = Ok idx /\ 0 <= idx /\
    slots q !! Z.to_nat idx = Some s /\ view q !! Z.to_nat i = Some s.
Proof.
  intros H Hi. pose proof H as [H1 H2 H3 H4 H5 H6 H7]. pose proof (wf_bound q H).
  assert (maxAlloc < 2 ^ 62) by (vm_compute; congruence).
  destruct (ring q) as [r|] eqn:Er; [|lia]. unfold len in H3.
  unfold rem64. replace (winPkts q =? 0) with false by lia. rewrite int64_small by lia.
  rewrite Z.rem_mod_nonneg by lia. set (idx := _ mod _).
  unfold view, arrange, slots. rewrite Er. cbn [default id].
  assert (exists j, 0 <= j < winPkts q /\ idx = j /\
    (if ringCount q =? winPkts q then drop (Z.to_nat (ringHead q)) r ++ take (Z.to_nat (ringHead q)) r
     else take (Z.to_nat (ringCount q)) r) !! Z.to_nat i = r !! Z.to_nat j) as (j & Hj & -> & Hv).
  { destruct (Z.eqb_spec (ringCount q) (winPkts q)) as [Ec|Ec].
    - subst idx. rewrite Ec. destruct (Z_lt_dec (ringHead q + i) (winPkts q)) as [Hlt|Hge].
      + exists (ringHead q + i). split_and!; [lia..| |].
        * replace (ringHead q - winPkts q + i + winPkts q) with (ringHead q + i) by lia. apply Z.mod_small. lia.
        * rewrite lookup_app_l by (rewrite length_drop; lia). rewrite lookup_drop. f_equal. lia.
      + exists (ringHead q + i - winPkts q). split_and!; [lia..| |].
        * replace (ringHead q - winPkts q + i + winPkts q) with (ringHead q + i - winPkts q + 1 * winPkts q) by lia.
          rewrite Z.mod_add by lia. apply Z.mod_small. lia.
        * rewrite lookup_app_r by (rewrite length_drop; lia). rewrite length_drop.
          rewrite lookup_take_lt by lia. f_equal. lia.
    - exists i. split_and!; [lia..| |].
      + subst idx. rewrite H6 by lia. replace (ringCount q - ringCount q + i + winPkts q) with (i + 1 * winPkts q) by lia.
        rewrite Z.mod_add by lia. apply Z.mod_small. lia.
      + by rewrite lookup_take_lt by lia. }
  destruct (lookup_lt_is_Some_2 r (Z.to_nat j)) as [s Hs]; [lia|].
  exists j, s. rewrite Hv. split_and!; [done|lia|done|done].
Qed.

(** What the variables of the loop are after a part [l] of the window. *)
Record counted (q : t) (l : list pktSample.t) (a : window_acc) : Prop := {
  c_sent : w_sent a = len (filter (fun s => real s) l);
  c_acked : w_acked a = count psAcked (filter (fun s => real s) l);
  c_lost : w_lost a = count psLost (filter (fun s => real s) l);
  c_bytes : w_bytes a = window_bytes (filter (fun s => real s) l);
  c_ends : match list.head (filter (fun s => real s) l), list.last (filter (fun s => real s) l) with
           | Some s0, Some s1 =>
               (0 <= w_firstIdx a /\ slots q !! Z.to_nat (w_firstIdx a) = Some s0) /\
               0 <= w_lastIdx a /\ slots q !! Z.to_nat (w_lastIdx a) = Some s1
           | _, _ => w_firstIdx a = -1 /\ w_lastIdx a = -1
           end }.

Lemma filter_snoc {A} (P : A -> Prop) `{!forall x, Decision (P x)} l x :
  filter P (l ++ [x]) = filter P l ++ (if decide (P x) then [x] else []).
Proof. rewrite list.filter_app, filter_cons. by destruct (decide (P x)). Qed.

Lemma count_snoc x l s :
  count x (l ++ [s]) = count x l + (if decide (pktSample.st s = x) then 1 else 0).
Proof. unfold count. rewrite filter_snoc, len_app. f_equal. by destruct (decide _). Qed.

Lemma count_bounds x l : 0 <= count x l <= len l.
Proof. unfold count, len. split; [lia|]. apply Nat2Z.inj_le, list.length_filter. Qed.

Lemma counted_step q l a idx s :
  counted q l a -> len l < maxAlloc -> 0 <= idx -> slots q !! Z.to_nat idx = Some s ->
  counted q (l ++ [s]) (count_sample idx s a).
Proof.
  intros [H1 H2 H3 H4 H5] Hl Hi Hs. unfold count_sample.
  assert (maxAlloc < 2 ^ 62) as Hma by (vm_compute; congruence).
  assert (len (filter (fun s => real s) l) <= len l) as Hf
    by (unfold len; apply Nat2Z.inj_le, list.length_filter).
  pose proof (count_bounds psAcked (filter (fun s => real s) l)) as Hca.
  pose proof (count_bounds psLost (filter (fun s => real s) l)) as Hcl.
  pose proof (filter_snoc (fun s => real s) l s) as Hsn. cbv beta in Hsn.
  destruct ((pktSample.num s =? 0) && (pktSample.size s =? 0) && IsZero (pktSample.stamp s)) eqn:Er.
  - assert (filter (fun s => real s) (l ++ [s]) = filter (fun s => real s) l) as E.
    { rewrite Hsn. rewrite decide_False; [by rewrite app_nil_r|]. unfold real. rewrite Er. by intros []. }
    by split; rewrite E.
  - assert (filter (fun s => real s) (l ++ [s]) = filter (fun s => real s) l ++ [s]) as E.
    { rewrite Hsn. rewrite decide_True; [done|]. unfold real. by rewrite Er. }
    set (r := filter (fun s => real s) l) in *. clearbody r.
    assert (0 <= len r) as Hr by apply len_nonneg.
    split; rewrite E; cbn [w_sent w_acked w_lost w_bytes w_firstIdx w_lastIdx].
    + rewrite H1, len_app, len_cons, len_nil, int64_small by lia. lia.
    + rewrite count_snoc, H2. destruct (pktSample.st s); cbn; rewrite ?int64_small by lia;
        first [rewrite decide_True by done|rewrite decide_False by done]; lia.
    + rewrite count_snoc, H3. destruct (pktSample.st s); cbn; rewrite ?int64_small by lia;
        first [rewrite decide_True by done|rewrite decide_False by done]; lia.
    + unfold window_bytes. rewrite foldl_snoc. by f_equal; rewrite H4.
    + rewrite last_snoc. destruct r as [|s0 r]; cbn [app list.head] in *.
      * destruct H5 as [-> _]. cbn. done.
      * destruct (list.last (s0 :: r)) as [s1|] eqn:El; [|by apply last_None in El].
        destruct H5 as [[Hf0 Hs0] _]. replace (w_firstIdx a =? -1) with false by lia. done.
Qed.

Lemma window_loop_spec q : wf q -> forall n i a,
  (i + n = length (view q))%nat -> counted q (take i (view q)) a ->
  exists a', window_loop n (Z.of_nat i) q a = Ok a' /\ counted q (view q) a'.
Proof.
  intros H. pose proof (view_length q H) as Hv. pose proof (wf_count q H). pose proof (wf_bound q H).
  induction n as [|n IH]; intros i a Hn Ha.
  - exists a. split; [done|]. by rewrite take_ge in Ha by lia.
  - destruct (window_slot q (Z.of_nat i) H) as (idx & s & Er & Hi & Hs & Hvs); [lia|].
    rewrite Nat2Z.id in Hvs. cbn [window_loop]. rewrite Er. cbn [mbind res_bind].
    rewrite (index_Ok _ _ s) by done. cbn [mbind res_bind].
    replace (Z.of_nat i + 1) with (Z.of_nat (S i)) by lia. apply IH; [lia|].
    rewrite (take_S_r _ _ s) by done. apply counted_step; [done| |done..].
    unfold len. rewrite length_take. lia.
Qed.

(** packetWindowMetrics computes the metrics of the window. *)
Lemma packetWindowMetrics_spec q :
  wf q -> packetWindowMetrics q = Ok (window_metrics (view q)).
Proof.
  intros H. pose proof (view_length q H) as Hv. pose proof (wf_count q H) as Hc.
  unfold packetWindowMetrics. destruct (Z.eqb_spec (ringCount q) 0) as [E0|E0].
  { rewrite E0 in Hv. by destruct (view q). }
  destruct (window_loop_spec q H (length (view q)) 0 (acc 0 0 0 0 (-1) (-1))) as (a & Ea & Hcnt);
    [done|by split|].
  rewrite Hv in Ea at 1. change (Z.of_nat 0) with 0 in Ea. rewrite Ea. cbn [mbind res_bind].
  unfold window_metrics. destruct (view q) as [|v0 vs] eqn:Ev; [cbn in Hv; lia|].
  set (r := filter (fun s => real s) (v0 :: vs)) in *.
  destruct Hcnt as [H1 H2 H3 H4 H5]. fold r in H1, H2, H3, H4, H5. unfold window_span.
  destruct (list.head r) as [s0|] eqn:Eh, (list.last r) as [s1|] eqn:El.
  - destruct H5 as [[Hf Hs0] [Hl Hs1]]. replace ((w_firstIdx a >=? 0) && (w_lastIdx a >=? 0)) with true by lia.
    rewrite (index_Ok _ _ _ Hf Hs0). cbn [mbind res_bind]. rewrite (index_Ok _ _ _ Hl Hs1). cbn [mbind res_bind].
    by rewrite H1, H2, H3, H4.
  - apply last_None in El. by rewrite El in Eh.
  - destruct H5 as [-> ->]. cbn. by rewrite H1, H2, H3, H4.
  - destruct H5 as [-> ->]. cbn. by rewrite H1, H2, H3, H4.
Qed.

End Metrics.

(** The counts of any window. *)
Lemma window_metrics_bounds l sent acked lost bytes span :
  window_metrics l = (sent, acked, lost, bytes, span) ->
  0 <= acked /\ 0 <= lost /\ acked + lost <= sent /\ sent <= len l.
Proof.
  unfold window_metrics. destruct l as [|v l].
  { intros [= <- <- <- <- <-]. pose proof (len_nonneg (@nil pktSample.t)). lia. }
  set (r := filter _ (v :: l)). intros [= <- <- <- <- <-].
  pose proof (count_bounds psAcked r). pose proof (count_bounds psLost r).
  split_and!; [lia..| |unfold r, len; apply Nat2Z.inj_le, list.length_filter].
  clearbody r. induction r as [|s r IH]; [done|].
  pose proof (count_bounds psAcked r). pose proof (count_bounds psLost r).
  specialize (IH ltac:(lia) ltac:(lia)). revert IH. unfold count. rewrite !filter_cons, len_cons.
  destruct (decide (pktSample.st s = psAcked)) as [E|], (decide (pktSample.st s = psLost)) as [E'|];
    rewrite ?len_cons; [congruence|lia..].
Qed.

(** What GetRollingMetrics reports of the window. *)
Lemma GetRollingMetrics_window now1 now2 q sent acked lost bytes span :
  windowMode q = ByPackets -> packetWindowMetrics q = Ok (sent, acked, lost, bytes, span) ->
  exists m q', GetRollingMetrics now1 now2 q = Ok (m, q') /\ same_ring q q' /\
    SentPackets m = sent /\ AckedPackets m = acked /\ LostPackets m = lost /\ SentBytes m = bytes /\
    LossPercent m = smooth f0_5 (loss_percent lost sent) (smoothedLoss q).
Proof.
  intros Hm Hp. unfold GetRollingMetrics. rewrite bool_decide_eq_true_2, Hp by done. cbn [mbind res_bind].
  destruct (recvBytesWithin _ _ _) as [rb rp]. eexists _, _. split; [done|]. done.
Qed.

(** * The theorems *)

(** C24: The ring of samples and its index implement the abstract window of the
    last packets sent.  Started by NewQuicLogger in the mode that counts packets, with
    a window that can be allocated, and whatever the connection reports, no sequence of callbacks panics, and the samples of the ring are those
    of the window, oldest first: an acknowledgement or a loss is applied to the one
    packet that its number names, a packet that was acknowledged is never lost again,
    and a number that is used again names the packet sent last, and none once a
    packet with that number has left the window, until it is used again.  As long as no number is used again
    while it is in the window, every packet is named by its number.  And
    GetRollingMetrics reports the number of packets of the window, of those
    acknowledged and lost, and their bytes. *)
Theorem packet_window_refines sid p cfg now q cfg' es :
  NewQuicLogger sid p cfg now = Ok (q, cfg') -> windowMode q = ByPackets ->
  winPkts q * 48 <= maxAlloc ->
  let w := window_run (winPkts q) es [] in
  (fresh_run (winPkts q) es [] -> Forall (fun x => x.2 = true) w) /\
  exists q', traces es q = Ok q' /\ view q' = w.*1 /\
    forall now1 now2, exists m q'' span, GetRollingMetrics now1 now2 q' = Ok (m, q'') /\ view q'' = w.*1 /\
      window_metrics w.*1 = (SentPackets m, AckedPackets m, LostPackets m, SentBytes m, span).
Proof.
  intros Hn Hm Ha w. destruct (new_logger_wf _ _ _ _ _ _ Hn Ha) as (Hw & Hv).
  split. { intros Hf. apply run_all_named; [done|]. by split; constructor. }
  destruct (traces_ring es q Hw Hm) as (q' & E & Hw' & [Hm' Hp'] & Hv').
  rewrite Hv in Hv'. assert (view q' = w.*1) as Hview by (by rewrite view_entries, Hv').
  exists q'. split; [done|]. split; [done|]. intros now1 now2.
  destruct (window_metrics w.*1) as [[[[sent acked] lost] bytes] span] eqn:Em.
  destruct (GetRollingMetrics_window now1 now2 q' sent acked lost bytes span) as (m & q'' & Eg & Hs & H1 & H2 & H3 & H4 & _).
  - congruence.
  - rewrite packetWindowMetrics_spec by done. by rewrite Hview, <- Em.
  - exists m, q'', span. rewrite <- (view_same _ _ Hs), H1, H2, H3, H4. done.
Qed.

(** C36: Whatever the connection reports -- packet numbers reused or out of
    order, acknowledgements of packets never sent -- no callback panics, the
    metrics are always available, and their counts are consistent: a packet is
    not counted both acknowledged and lost, and no more packets are counted
    than the window holds. *)
Theorem packet_window_bounds sid p cfg now q cfg' es :
  NewQuicLogger sid p cfg now = Ok (q, cfg') -> windowMode q = ByPackets ->
  winPkts q * 48 <= maxAlloc ->
  exists q', traces es q = Ok q' /\ forall now1 now2, exists m q'',
    GetRollingMetrics now1 now2 q' = Ok (m, q'') /\ 0 <= AckedPackets m /\ 0 <= LostPackets m /\
    AckedPackets m + LostPackets m <= SentPackets m /\ SentPackets m <= winPkts q.
Proof.
  intros Hn Hm Ha. destruct (new_logger_wf _ _ _ _ _ _ Hn Ha) as (Hw & _).
  destruct (traces_ring es q Hw Hm) as (q' & E & Hw' & [Hm' Hp'] & _).
  exists q'. split; [done|]. intros now1 now2.
  destruct (window_metrics (view q')) as [[[[sent acked] lost] bytes] span] eqn:Em.
  destruct (GetRollingMetrics_window now1 now2 q' sent acked lost bytes span) as (m & q'' & Eg & Hs & H1 & H2 & H3 & H4 & _).
  - congruence.
  - by rewrite packetWindowMetrics_spec, Em.
  - exists m, q''. split; [done|]. rewrite H1, H2, H3. apply window_metrics_bounds in Em.
    pose proof (view_length q' Hw') as Hl. pose proof (wf_count q' Hw'). unfold len in Em. lia.
Qed.

(** Packet numbers of different packet number spaces are mixed up.  When the
    oldest packet of a full window has the number [n] of a later one -- every
    space of a QUIC connection starts at 0 -- the next packet that is sent takes
    [n] out of the index: the later packet stays in the window, and neither its
    acknowledgement nor its loss is ever recorded. *)
Theorem reused_number_untracked q s0 l m size now1 now2 :
  wf q -> windowMode q = ByPackets -> ringCount q = winPkts q -> view q = s0 :: l ->
  let n := pktSample.num s0 in
  n ∈ pktSample.num <$> l -> m <> n ->
  exists q', onSent m size now1 now2 q = Ok q' /\ n ∈ pktSample.num <$> view q' /\
    forall now3 now4, onAck n now3 now4 q' = Ok q' /\ onLoss n now3 now4 q' = Ok q'.
Proof.
  intros H Hm Hc Hv n Hn Hne. pose proof (wf_len q H) as Hl. pose proof (wf_pkts q H) as Hp.
  destruct (ring q) as [r|] eqn:Er; [|lia]. rewrite (onSent_run m size now1 now2 q r) by done.
  set (x := pktSample.mk now1 m (int64 size) psUnknown). set (q' := prune now2 (ring_put r x q)).
  assert (same_ring (ring_put r x q) q') as Hs by done.
  assert (view q' = l ++ [x]) as Hv'.
  { rewrite <- (view_same _ _ Hs). unfold view, slots. cbn [ring_put set_ring ring default id].
    pose proof (arrange_put r x r x q H Er eq_refl) as Ep. rewrite (proj2 (Z.eqb_eq _ _) Hc) in Ep.
    unfold view, slots in Hv. rewrite Er in Hv. cbn [default id] in Hv. by rewrite Hv in Ep. }
  assert (byNum q' !! n = None) as Hb.
  { subst q'. cbn. rewrite lookup_insert_ne by done. replace (ringCount q =? winPkts q) with true by lia.
    assert (r !! Z.to_nat (ringHead q) = Some s0) as Hr.
    { revert Hv. unfold view, arrange, slots. rewrite Er. cbn [default id].
      replace (ringCount q =? winPkts q) with true by lia. pose proof (wf_head q H). unfold len in Hl.
      intros Hv.
      replace (Z.to_nat (ringHead q)) with (Z.to_nat (ringHead q) + 0)%nat by lia.
      rewrite <- lookup_drop. rewrite <- (lookup_app_l _ (take (Z.to_nat (ringHead q)) r)), Hv; [done|].
      rewrite length_drop. lia. }
    rewrite (nth_lookup_Some _ _ _ _ Hr). apply lookup_delete_eq. }
  exists q'. split; [done|]. split.
  - rewrite Hv'. rewrite fmap_app. apply elem_of_app. by left.
  - intros now3 now4. unfold onAck, onLoss.
    rewrite (bool_decide_eq_true_2 (windowMode q' = ByPackets)) by done. by rewrite Hb.
Qed.

(** ** At concrete inputs *)

(** A logger with a window of two packets. *)
Definition ex_config : LoggerConfig.t := LoggerConfig.mk LogLevelInfo 10 false 0 ByPackets 2.
Definition ex_logger : t :=
  match NewQuicLogger [] 0 (Some ex_config) 1 with
  | Ok (q, _) => q
  | _ => mk [] 0 0 0 ByTime 0 [] [] [] [] [] [] [] [] None 0 0 ∅ 0 fzero fzero 0
  end.

(** Three packets; the second is lost, the third acknowledged. *)
Definition ex_events : list (tracer_event * Z * Z) :=
  [(SentLongHeaderPacket 0 1200, 10, 10); (SentShortHeaderPacket 1 100, 20, 20);
   (SentShortHeaderPacket 2 50, 30, 31); (LostPacket 3 1 0, 40, 40); (AcknowledgedPacket 3 2, 50, 50)].

Definition ex_reused : list (tracer_event * Z * Z) :=
  [(SentLongHeaderPacket 0 1200, 10, 10); (SentLongHeaderPacket 0 800, 20, 20);
   (SentShortHeaderPacket 1 700, 30, 30); (AcknowledgedPacket 2 0, 40, 40); (LostPacket 3 1 0, 50, 50)].

Lemma packet_window_refines_witness :
  (exists q' m q'', traces ex_events ex_logger = Ok q' /\
    GetRollingMetrics 60 60 q' = Ok (m, q'') /\
    (SentPackets m, AckedPackets m, LostPackets m, SentBytes m) = (2, 1, 1, 150)) /\
  Forall (fun x => x.2 = true) (window_run (winPkts ex_logger) ex_events []) /\
  exists q' m q'', traces ex_reused ex_logger = Ok q' /\
    GetRollingMetrics 60 60 q' = Ok (m, q'') /\
    (SentPackets m, AckedPackets m, LostPackets m, SentBytes m) = (2, 0, 1, 1500).
Proof.
  assert (NewQuicLogger [] 0 (Some ex_config) 1 = Ok (ex_logger, Some ex_config)) as Hn by reflexivity.
  assert (winPkts ex_logger * 48 <= maxAlloc) as Ha by (vm_compute; congruence).
  destruct (packet_window_refines [] 0 (Some ex_config) 1 ex_logger (Some ex_config) ex_events Hn eq_refl Ha)
    as (Hall & q1 & E1 & _ & H1).
  destruct (packet_window_refines [] 0 (Some ex_config) 1 ex_logger (Some ex_config) ex_reused Hn eq_refl Ha)
    as (_ & q2 & E2 & _ & H2).
  destruct (H1 60 60) as (m1 & q1' & span1 & Hg1 & _ & Hw1). destruct (H2 60 60) as (m2 & q2' & span2 & Hg2 & _ & Hw2).
  split; [|split].
  - exists q1, m1, q1'. split; [exact E1|]. split; [exact Hg1|].
    assert (window_metrics (window_run (winPkts ex_logger) ex_events []).*1 = (2, 1, 1, 150, 10)) as Hc by (vm_compute; reflexivity).
    rewrite Hc in Hw1. by injection Hw1 as <- <- <- <- _.
  - apply Hall. repeat split; apply (bool_decide_unpack _); vm_compute; exact I.
  - exists q2, m2, q2'. split; [exact E2|]. split; [exact Hg2|].
    assert (window_metrics (window_run (winPkts ex_logger) ex_reused []).*1 = (2, 0, 1, 1500, 10)) as Hc by (vm_compute; reflexivity).
    rewrite Hc in Hw2. by injection Hw2 as <- <- <- <- _.
Defined.

Lemma packet_window_bounds_witness :
  exists q' m q'', traces (ex_events ++ ex_events) ex_logger = Ok q' /\
    GetRollingMetrics 60 60 q' = Ok (m, q'') /\ SentPackets m <= 2.
Proof.
  destruct (packet_window_bounds [] 0 (Some ex_config) 1 ex_logger (Some ex_config) (ex_events ++ ex_events))
    as (q' & E & H).
  - reflexivity.
  - reflexivity.
  - vm_compute. congruence.
  - destruct (H 60 60) as (m & q'' & Hg & _ & _ & _ & Hs). exists q', m, q''.
    split; [exact E|]. split; [exact Hg|exact Hs].
Defined.

(** An Initial and a Handshake packet with number 0, then a packet with number 1. *)
Lemma reused_number_untracked_witness :
  exists q q', traces [(SentLongHeaderPacket 0 1200, 10, 10); (SentLongHeaderPacket 0 800, 20, 20)]
      ex_logger = Ok q /\
    onSent 1 700 30 30 q = Ok q' /\ 0 ∈ pktSample.num <$> view q' /\ onAck 0 40 40 q' = Ok q'.
Proof.
  destruct (traces_ring [(SentLongHeaderPacket 0 1200, 10, 10); (SentLongHeaderPacket 0 800, 20, 20)] ex_logger)
    as (q & E & Hw & [Hm Hp] & _).
  - by apply (new_logger_wf [] 0 (Some ex_config) 1 ex_logger (Some ex_config)).
  - reflexivity.
  - destruct (reused_number_untracked q (pktSample.mk 10 0 1200 psUnknown)
      [pktSample.mk 20 0 800 psUnknown] 1 700 30 30 Hw Hm) as (q' & Hs & Hn & Ha).
    + vm_compute in E. by injection E as <-.
    + vm_compute in E. by injection E as <-.
    + by left.
    + done.
    + exists q, q'. split; [exact E|]. split; [exact Hs|]. split; [exact Hn|apply Ha].
Defined.
