(* ===== verification/TelemetryTime.v ===== *)
(** The time window of the telemetry: the queues that QuicLogger prunes at every
    event hold, of everything that happened, what lies in the last [window]
    before the last event. *)

From Stdlib Require Import String SpecFloat Sorted.
From stdpp Require Import gmap sorting.
From S2P Require Import Prelude Errors Telemetry.
Import QuicLogger.
Local Open Scope Z_scope.

(** * The history

    Everything that happened, oldest first, as pairs of a time and a size; and
    the last time at which the queues were pruned. *)

Record history := mkHistory {
  h_sent : list (Z * Z);
  h_rcvd : list (Z * Z);
  h_acked : list (Z * Z);
  h_lost : list (Z * Z);
  h_pruned : Z }.

Definition history_step (e : tracer_event) (now1 now2 : Z) (h : history) : history :=
  match e with
  | SentLongHeaderPacket _ size | SentShortHeaderPacket _ size =>
      mkHistory (h_sent h ++ [(now1, size)]) (h_rcvd h) (h_acked h) (h_lost h) now1
  | ReceivedLongHeaderPacket size | ReceivedShortHeaderPacket size =>
      mkHistory (h_sent h) (h_rcvd h ++ [(now1, size)]) (h_acked h) (h_lost h) now1
  | AcknowledgedPacket _ _ =>
      mkHistory (h_sent h) (h_rcvd h) (h_acked h ++ [(now1, 0)]) (h_lost h) now2
  | LostPacket _ _ _ =>
      mkHistory (h_sent h) (h_rcvd h) (h_acked h) (h_lost h ++ [(now1, 0)]) now2
  | UpdatedMetrics _ => mkHistory (h_sent h) (h_rcvd h) (h_acked h) (h_lost h) now1
  | StartedConnection _ _ | ClosedConnection _ | Close => h
  end.

Fixpoint history_run (es : list (tracer_event * Z * Z)) (h : history) : history :=
  match es with
  | [] => h
  | (e, now1, now2) :: es => history_run es (history_step e now1 now2 h)
  end.

(** A clock that does not go backwards. *)
Fixpoint clocked (T : Z) (es : list (tracer_event * Z * Z)) : Prop :=
  match es with
  | [] => True
  | (_, now1, now2) :: es => T <= now1 <= now2 /\ clocked now2 es
  end.

Definition recent (cut : Z) (l : list (Z * Z)) : list (Z * Z) := filter (fun p => cut <= p.1) l.

(** * Pruning a queue *)

Definition stamps (l : list (Z * Z)) : list stampCount.t := (fun p => stampCount.mk p.1 1) <$> l.
Definition samples (l : list (Z * Z)) : list byteSample.t := (fun p => byteSample.mk p.1 p.2) <$> l.

(** Times in order, none after [T]. *)
Definition ordered (T : Z) (l : list (Z * Z)) : Prop :=
  StronglySorted (fun p q => p.1 <= q.1) l /\ Forall (fun p => p.1 <= T) l.

Lemma ordered_later T T' l : ordered T l -> T <= T' -> ordered T' l.
Proof. intros [Hs Hf] HT. split; [done|]. eapply list.Forall_impl; [exact Hf|]. cbn. lia. Qed.

Lemma ordered_snoc T T' l p : ordered T l -> T <= p.1 <= T' -> ordered T' (l ++ [p]).
Proof.
  intros [Hs Hf] HT. split.
  - induction l as [|q l IH]; cbn; [by repeat constructor|].
    apply StronglySorted_inv in Hs as [Hs Hq]. apply list.Forall_cons_1 in Hf as [Hq1 Hf].
    constructor; [by apply IH|]. apply Forall_app. split; [done|]. constructor; [lia|constructor].
  - apply Forall_app. split; [|constructor; [lia|constructor]].
    eapply list.Forall_impl; [exact Hf|]. cbn. lia.
Qed.

Lemma recent_all cut l : Forall (fun p => cut <= p.1) l -> recent cut l = l.
Proof.
  induction 1 as [|p l Hp _ IH]; [done|]. unfold recent in *. rewrite filter_cons.
  by rewrite decide_True, IH.
Qed.

Lemma recent_recent cut cut' l : cut <= cut' -> recent cut' (recent cut l) = recent cut' l.
Proof.
  intros Hc. induction l as [|p l IH]; [done|]. unfold recent in *. rewrite !filter_cons.
  destruct (decide (cut <= p.1)) as [H1|H1].
  - rewrite filter_cons. by destruct (decide (cut' <= p.1)); rewrite ?IH.
  - rewrite (decide_False (P := cut' <= p.1)) by lia. exact IH.
Qed.

Lemma recent_app cut l k : recent cut (l ++ k) = recent cut l ++ recent cut k.
Proof. apply list.filter_app. Qed.

Lemma Forall_recent (P : Z * Z -> Prop) cut l : Forall P l -> Forall P (recent cut l).
Proof.
  rewrite !list.Forall_forall. intros H p Hp. apply list_elem_of_filter in Hp as [_ Hp]. by apply H.
Qed.

Lemma recent_ordered T cut l : ordered T l -> ordered T (recent cut l).
Proof.
  intros [Hs Hf]. split; [|by apply Forall_recent].
  induction l as [|p l IH]; [done|]. apply StronglySorted_inv in Hs as [Hs Hp].
  apply list.Forall_cons_1 in Hf as [_ Hf]. unfold recent in *. rewrite filter_cons.
  destruct (decide _); [|by apply IH]. constructor; [by apply IH|]. by apply Forall_recent.
Qed.

(** On ordered queues the loops of prune are filters. *)
Lemma pruneStamps_recent T cut l : ordered T l -> pruneStamps cut (stamps l) = stamps (recent cut l).
Proof.
  intros [Hs _]. induction l as [|p l IH]; [done|]. apply StronglySorted_inv in Hs as [Hs Hp].
  cbn [stamps fmap list_fmap pruneStamps stampCount.stamp]. unfold Before, recent. rewrite filter_cons.
  destruct (Z.ltb_spec p.1 cut) as [Hlt|Hge].
  - rewrite decide_False by lia. by apply IH.
  - rewrite decide_True by lia. f_equal. fold (recent cut l). rewrite recent_all; [done|].
    eapply list.Forall_impl; [exact Hp|]. cbn. lia.
Qed.

Lemma pruneBytes_recent T cut l : ordered T l -> pruneBytes cut (samples l) = samples (recent cut l).
Proof.
  intros [Hs _]. induction l as [|p l IH]; [done|]. apply StronglySorted_inv in Hs as [Hs Hp].
  cbn [samples fmap list_fmap pruneBytes byteSample.stamp]. unfold Before, recent. rewrite filter_cons.
  destruct (Z.ltb_spec p.1 cut) as [Hlt|Hge].
  - rewrite decide_False by lia. by apply IH.
  - rewrite decide_True by lia. f_equal. fold (recent cut l). rewrite recent_all; [done|].
    eapply list.Forall_impl; [exact Hp|]. cbn. lia.
Qed.

(** * The queues hold the recent history *)

Record remembers (T : Z) (h : history) (q : t) : Prop := {
  r_mode : windowMode q = ByTime;
  r_window : 0 < window q < 2 ^ 63;
  r_pruned : h_pruned h <= T;
  r_ordered : ordered T (h_sent h) /\ ordered T (h_rcvd h) /\ ordered T (h_acked h) /\ ordered T (h_lost h);
  r_sent : sentPkts q = stamps (recent (h_pruned h - window q) (h_sent h));
  r_rcvd : rcvdPkts q = stamps (recent (h_pruned h - window q) (h_rcvd h));
  r_acked : ackedPkts q = stamps (recent (h_pruned h - window q) (h_acked h));
  r_lost : lostPkts q = stamps (recent (h_pruned h - window q) (h_lost h));
  r_sentBytes : sentBytes q = samples (recent (h_pruned h - window q) (h_sent h));
  r_rcvdBytes : rcvdBytes q = samples (recent (h_pruned h - window q) (h_rcvd h)) }.

(** An event: something new in some queues, then the pruning. *)
Lemma remembers_event T h q sn rn an ln now1 now2 :
  remembers T h q -> T <= now1 <= now2 ->
  Forall (fun p => p.1 = now1) (sn ++ rn ++ an ++ ln) ->
  (length sn <= 1)%nat -> (length rn <= 1)%nat -> (length an <= 1)%nat -> (length ln <= 1)%nat ->
  remembers now2 (mkHistory (h_sent h ++ sn) (h_rcvd h ++ rn) (h_acked h ++ an) (h_lost h ++ ln) now2)
    (prune now2 (set_stamps (sentPkts q ++ stamps sn) (rcvdPkts q ++ stamps rn) (ackedPkts q ++ stamps an)
      (lostPkts q ++ stamps ln) (sentBytes q ++ samples sn) (rcvdBytes q ++ samples rn) q)).
Proof.
  intros [Hm Hw Hp (Os & Or & Oa & Ol) H1 H2 H3 H4 H5 H6] HT Hn L1 L2 L3 L4.
  rewrite !Forall_app in Hn. destruct Hn as (N1 & N2 & N3 & N4).
  assert (forall l n, ordered T l -> Forall (fun p => p.1 = now1) n -> (length n <= 1)%nat ->
    ordered now2 (l ++ n)) as Hord.
  { intros l n Hl Hf Hlen. destruct n as [|p [|]]; cbn in Hlen; [|apply list.Forall_cons_1 in Hf as [Hf _]|lia].
    - rewrite app_nil_r. eapply ordered_later; [done|lia].
    - eapply ordered_snoc; [done|lia]. }
  assert (neg64 (window q) = - window q) as Hneg by (unfold neg64; apply int64_small; lia).
  assert (forall l n, ordered T l -> Forall (fun p => p.1 = now1) n -> (length n <= 1)%nat ->
    pruneStamps (now2 - window q) (stamps (recent (h_pruned h - window q) l) ++ stamps n) =
      stamps (recent (now2 - window q) (l ++ n)) /\
    pruneBytes (now2 - window q) (samples (recent (h_pruned h - window q) l) ++ samples n) =
      samples (recent (now2 - window q) (l ++ n))) as Hprune.
  { intros l n Hl Hf Hlen. unfold stamps, samples. rewrite <- !fmap_app.
    fold (stamps (recent (h_pruned h - window q) l ++ n)) (samples (recent (h_pruned h - window q) l ++ n)).
    assert (ordered now2 (recent (h_pruned h - window q) l ++ n)) as Ho
      by (apply Hord; [by apply recent_ordered|done|done]).
    rewrite (pruneStamps_recent now2), (pruneBytes_recent now2) by done.
    rewrite !recent_app, recent_recent by lia. done. }
  split; cbn [windowMode window prune set_stamps h_pruned h_sent h_rcvd h_acked h_lost sentPkts rcvdPkts
    ackedPkts lostPkts sentBytes rcvdBytes]; try done.
  - split_and!; by apply Hord.
  - unfold time_Add. rewrite Hneg, H1. by apply Hprune.
  - unfold time_Add. rewrite Hneg, H2. by apply Hprune.
  - unfold time_Add. rewrite Hneg, H3. by apply Hprune.
  - unfold time_Add. rewrite Hneg, H4. by apply Hprune.
  - unfold time_Add. rewrite Hneg, H5. by apply Hprune.
  - unfold time_Add. rewrite bool_decide_eq_false_2 by (by rewrite Hm). cbn [andb].
    rewrite Hneg, H6. by apply Hprune.
Qed.

(** The fields the queues depend on. *)
Definition same_queues (q q' : t) : Prop :=
  windowMode q = windowMode q' /\ window q = window q' /\ sentPkts q = sentPkts q' /\
  rcvdPkts q = rcvdPkts q' /\ ackedPkts q = ackedPkts q' /\ lostPkts q = lostPkts q' /\
  sentBytes q = sentBytes q' /\ rcvdBytes q = rcvdBytes q'.

Lemma remembers_same T h q q' : same_queues q q' -> remembers T h q -> remembers T h q'.
Proof.
  intros (E1 & E2 & E3 & E4 & E5 & E6 & E7 & E8) []. by split; rewrite <- ?E1, <- ?E2, <- ?E3, <- ?E4,
    <- ?E5, <- ?E6, <- ?E7, <- ?E8.
Qed.

Lemma remembers_later T T' h q : remembers T h q -> T <= T' -> remembers T' h q.
Proof.
  intros [Hm Hw Hp (Os & Or & Oa & Ol) H1 H2 H3 H4 H5 H6] HT.
  split; try done; [lia|]. split_and!; by eapply ordered_later.
Qed.

(** An event with the given additions to the queues. *)
Ltac queue_event T h q sn rn an ln now1 now2 H :=
  let Hr := fresh "Hr" in
  pose proof (remembers_event T h q sn rn an ln now1 now2 H ltac:(lia)) as Hr;
  unfold stamps, samples in Hr; cbn [fmap list_fmap fst snd] in Hr; rewrite ?app_nil_r in Hr;
  eapply remembers_later with now2; [|lia];
  eapply remembers_same; [|apply Hr; cbn; repeat constructor; lia]; done.

Lemma trace_remembers T h e now1 now2 q :
  remembers T h q -> T <= now1 <= now2 ->
  exists q', trace e now1 now2 q = Ok q' /\ window q' = window q /\
    remembers now2 (history_step e now1 now2 h) q'.
Proof.
  intros H HT. pose proof (r_mode T h q H) as Hm.
  assert (bool_decide (windowMode q = ByPackets) = false) as Hb by (apply bool_decide_eq_false_2; by rewrite Hm).
  destruct e; cbn [trace history_step onSent onRcvd onAck onLoss]; unfold onSent, onRcvd, onAck, onLoss;
    rewrite ?Hb; (eexists; split; [reflexivity|]); (split; [reflexivity|]);
    try (eapply remembers_same; [|eapply remembers_later; [exact H|lia]]; done).
  - queue_event T h q [(now1, size)] (@nil (Z * Z)) (@nil (Z * Z)) (@nil (Z * Z)) now1 now1 H.
  - queue_event T h q [(now1, size)] (@nil (Z * Z)) (@nil (Z * Z)) (@nil (Z * Z)) now1 now1 H.
  - queue_event T h q (@nil (Z * Z)) [(now1, size)] (@nil (Z * Z)) (@nil (Z * Z)) now1 now1 H.
  - queue_event T h q (@nil (Z * Z)) [(now1, size)] (@nil (Z * Z)) (@nil (Z * Z)) now1 now1 H.
  - queue_event T h q (@nil (Z * Z)) (@nil (Z * Z)) [(now1, 0)] (@nil (Z * Z)) now1 now2 H.
  - queue_event T h q (@nil (Z * Z)) (@nil (Z * Z)) (@nil (Z * Z)) [(now1, 0)] now1 now2 H.
  - queue_event T h q (@nil (Z * Z)) (@nil (Z * Z)) (@nil (Z * Z)) (@nil (Z * Z)) now1 now1 H.
Qed.

Lemma traces_remember T h es q :
  remembers T h q -> clocked T es ->
  exists T' q', traces es q = Ok q' /\ window q' = window q /\ remembers T' (history_run es h) q'.
Proof.
  revert T h q. induction es as [|[[e now1] now2] es IH]; intros T h q H Hc; [by exists T, q|].
  destruct Hc as [HT Hc]. destruct (trace_remembers T h e now1 now2 q H HT) as (q1 & E & Hw & H1).
  cbn. rewrite E. cbn. destruct (IH now2 _ q1 H1 Hc) as (T' & q' & E' & Hw' & H').
  exists T', q'. split_and!; [done|congruence|done].
Qed.

(** ** Sums *)

Lemma sumStamps_len l : len l < 2 ^ 62 -> sumStamps (stamps l) = len l.
Proof.
  intros Hl. unfold sumStamps, stamps.
  assert (forall n, 0 <= n -> n + len l < 2 ^ 62 ->
    foldl (fun n x => int64 (n + stampCount.n x)) n ((fun p => stampCount.mk p.1 1) <$> l) = n + len l) as H.
  { clear Hl. induction l as [|p l IH]; intros n Hn Hl; rewrite ?len_nil, ?len_cons in *; cbn; [lia|].
    pose proof (len_nonneg l). rewrite int64_small by lia. rewrite IH; lia. }
  rewrite H by lia. lia.
Qed.

Definition total (l : list (Z * Z)) : Z := foldl (fun n p => int64 (n + p.2)) 0 l.

Lemma sumBytes_total l : sumBytes (samples l) = total l.
Proof.
  unfold sumBytes, total, samples. generalize 0. induction l as [|p l IH]; intros n; [done|]. apply IH.
Qed.

(** The history is no longer than the execution. *)
Lemma recent_length cut l : len (recent cut l) <= len l.
Proof. unfold len. apply Nat2Z.inj_le, list.length_filter. Qed.

Definition bounded_by (n : Z) (h : history) : Prop :=
  len (h_sent h) <= n /\ len (h_rcvd h) <= n /\ len (h_acked h) <= n /\ len (h_lost h) <= n.

Lemma history_length es h n : bounded_by n h -> bounded_by (n + len es) (history_run es h).
Proof.
  revert h n. induction es as [|[[e now1] now2] es IH]; intros h n (H1 & H2 & H3 & H4).
  { rewrite len_nil, Z.add_0_r. done. }
  rewrite len_cons, Z.add_assoc. apply IH. unfold bounded_by.
  destruct e; cbn [history_step h_sent h_rcvd h_acked h_lost]; rewrite ?len_app, ?len_cons, ?len_nil; lia.
Qed.

(** C25: With a window of time the metrics are those of the whole history of the
    connection, restricted to the last [window] before the last event -- not
    before the time of the call: started by NewQuicLogger, and with a clock that
    does not go backwards, GetRollingMetrics counts the packets sent, received,
    acknowledged and lost, and the bytes, whose time is not earlier than the
    last event by more than the window, whatever the time it is called at.  A
    connection that falls silent keeps its last counts and rates for ever. *)
Theorem time_window_equivalent sid p cfg now q cfg' es :
  NewQuicLogger sid p cfg now = Ok (q, cfg') -> windowMode q = ByTime -> window q < 2 ^ 63 ->
  clocked now es -> len es < 2 ^ 62 ->
  let h := history_run es (mkHistory [] [] [] [] now) in
  let within := recent (h_pruned h - window q) in
  exists q', traces es q = Ok q' /\ forall now1 now2, exists m q'',
    GetRollingMetrics now1 now2 q' = Ok (m, q'') /\
    SentPackets m = len (within (h_sent h)) /\ AckedPackets m = len (within (h_acked h)) /\
    LostPackets m = len (within (h_lost h)) /\ RecvPackets m = len (within (h_rcvd h)) /\
    SentBytes m = total (within (h_sent h)) /\ RecvBytes m = total (within (h_rcvd h)) /\
    SendRateBps m = rate (total (within (h_sent h))) (window q) /\
    RecvRateBps m = rate (total (within (h_rcvd h))) (window q).
Proof.
  intros Hn Hm Hw Hc Hlen h within.
  assert (remembers now (mkHistory [] [] [] [] now) q) as Hr.
  { unfold NewQuicLogger in Hn. set (c := default _ cfg) in *.
    set (w := if LoggerConfig.Window c <=? 0 then _ else _) in *.
    assert (0 < w) as Hp by (subst w; unfold defaultWindow, Second;
      destruct (Z.leb_spec (LoggerConfig.Window c) 0); lia).
    do 4 inv_bind Hn. injection Hn as <- _.
    split; cbn in *; try done; try lia; repeat split; constructor. }
  destruct (traces_remember now _ es q Hr Hc) as (T & q' & E & Hw' & [Hm' _ _ _ H1 H2 H3 H4 H5 H6]).
  fold h in H1, H2, H3, H4, H5, H6. rewrite Hw' in *. fold within in H1, H2, H3, H4, H5, H6.
  assert (bounded_by (len es) h) as (B1 & B2 & B3 & B4)
    by (apply (history_length es (mkHistory [] [] [] [] now) 0); repeat split; done).
  assert (forall l, len l <= len es -> sumStamps (stamps (within l)) = len (within l)) as Hs.
  { intros l Hl. apply sumStamps_len. pose proof (recent_length (h_pruned h - window q) l). unfold within. lia. }
  exists q'. split; [done|]. intros now1 now2. unfold GetRollingMetrics.
  rewrite bool_decide_eq_false_2 by (by rewrite Hm').
  eexists _, _. split; [reflexivity|]. cbn [SentPackets AckedPackets LostPackets RecvPackets SentBytes RecvBytes
    SendRateBps RecvRateBps].
  rewrite H1, H2, H3, H4, H5, H6, Hw', !sumBytes_total, !Hs by done. done.
Qed.

(** ** At concrete inputs *)

Definition time_config : LoggerConfig.t := LoggerConfig.mk LogLevelInfo 10 false 100 ByTime 0.
Definition time_logger : t :=
  match NewQuicLogger [] 0 (Some time_config) 1000 with
  | Ok (q, _) => q
  | _ => mk [] 0 0 0 ByPackets 0 [] [] [] [] [] [] [] [] None 0 0 ∅ 0 fzero fzero 0
  end.

(** Of three packets the first leaves the window. *)
Definition time_events : list (tracer_event * Z * Z) :=
  [(SentShortHeaderPacket 0 500, 1010, 1010); (SentShortHeaderPacket 1 300, 1090, 1090);
   (SentShortHeaderPacket 2 200, 1150, 1150)].

Lemma time_window_equivalent_witness :
  exists q' m q'', traces time_events time_logger = Ok q' /\
    GetRollingMetrics 1000000 1000000 q' = Ok (m, q'') /\ SentPackets m = 2 /\ SentBytes m = 500.
Proof.
  destruct (time_window_equivalent [] 0 (Some time_config) 1000 time_logger
    (Some (LoggerConfig.set_WindowPackets 100 time_config)) time_events) as (q' & E & H).
  - reflexivity.
  - reflexivity.
  - vm_compute. reflexivity.
  - cbn. lia.
  - vm_compute. reflexivity.
  - destruct (H 1000000 1000000) as (m & q'' & Hg & Hs & _ & _ & _ & Hb & _).
    exists q', m, q''. split; [exact E|]. split; [exact Hg|]. split.
    + rewrite Hs. vm_compute. reflexivity.
    + rewrite Hb. vm_compute. reflexivity.
Defined.
