(* ===== verification/Strconv.v ===== *)
(** What the program uses of package strconv of the standard library: FormatUint
    and ParseUint in base 10 for 64-bit integers. *)

From S2P Require Import Prelude.
Local Open Scope Z_scope.

Definition maxUint64 : Z := 2 ^ 64 - 1.

Definition digit (d : Z) : byte := byte.of_Z (48 + d).

(** The digits of [n], most significant first, put before [acc]; a 64-bit
    integer has at most 20. *)
Fixpoint format_digits (fuel : nat) (n : Z) (acc : list byte) : list byte :=
  match fuel with
  | O => acc
  | S fuel =>
      let acc := digit (n mod 10) :: acc in
      if n / 10 =? 0 then acc else format_digits fuel (n / 10) acc
  end.

Definition FormatUint (n : Z) : gostring := format_digits 20 n [].

(** ParseUint(s, 10, 64): [None] when the text has a character that is no digit,
    or no character, or when the number is out of range. *)
Fixpoint parse_digits (s : list byte) (acc : Z) : option Z :=
  match s with
  | [] => Some acc
  | c :: s =>
      let d := byte.unsigned c - 48 in
      if (0 <=? d) && (d <=? 9) then
        let acc := 10 * acc + d in
        if acc >? maxUint64 then None else parse_digits s acc
      else None
  end.

Definition ParseUint (s : gostring) : option Z :=
  match s with
  | [] => None
  | _ => parse_digits s 0
  end.

Arguments FormatUint : simpl never.
Arguments ParseUint : simpl never.

Section Strconv.

Lemma digit_value d : 0 <= d <= 9 -> byte.unsigned (digit d) - 48 = d.
Proof. intros Hd. unfold digit. rewrite byte_of_Z_small by lia. lia. Qed.

Lemma parse_digit d s acc :
  0 <= d <= 9 -> 0 <= 10 * acc + d <= maxUint64 ->
  parse_digits (digit d :: s) acc = parse_digits s (10 * acc + d).
Proof.
  intros Hd Ha. cbn [parse_digits]. rewrite digit_value by done.
  replace ((0 <=? d) && (d <=? 9)) with true by lia.
  by replace (10 * acc + d >? maxUint64) with false by lia.
Qed.

(** Reading back what was written: the digits of [n] shift what was read. *)
Lemma parse_format fuel n acc :
  0 <= n <= maxUint64 -> n < 10 ^ Z.of_nat fuel -> (0 < fuel)%nat ->
  parse_digits (format_digits fuel n acc) 0 = parse_digits acc n.
Proof.
  revert n acc. induction fuel as [|fuel IH]; intros n acc Hn Hf Hp; [lia|]. cbn [format_digits].
  assert (0 <= n mod 10 <= 9) as Hm by (pose proof (Z.mod_pos_bound n 10); lia).
  pose proof (Z.div_mod n 10 ltac:(lia)) as Hd.
  destruct (Z.eqb_spec (n / 10) 0) as [E|E].
  - rewrite parse_digit by lia. f_equal. lia.
  - assert (0 <= n / 10) by (apply Z.div_pos; lia). rewrite IH; [|lia| |].
    + rewrite parse_digit by lia. f_equal. lia.
    + rewrite Nat2Z.inj_succ, Z.pow_succ_r in Hf by lia. lia.
    + destruct fuel; [|lia]. change (10 ^ Z.of_nat 1) with 10 in Hf. lia.
Qed.

Lemma format_nonempty fuel n acc : (0 < fuel)%nat -> format_digits fuel n acc <> [].
Proof.
  revert n acc. induction fuel as [|fuel IH]; intros n acc Hp; [lia|]. cbn.
  destruct (n / 10 =? 0); [done|]. destruct fuel; [done|]. apply IH. lia.
Qed.

Lemma format_length fuel n acc : (length acc <= length (format_digits fuel n acc) <= fuel + length acc)%nat.
Proof.
  revert n acc. induction fuel as [|fuel IH]; intros n acc; cbn; [lia|].
  destruct (n / 10 =? 0); [cbn; lia|]. specialize (IH (n / 10) (digit (n mod 10) :: acc)). cbn in IH. lia.
Qed.

(** The number of digits. *)
Lemma format_digits_count fuel n acc :
  0 <= n < 10 ^ Z.of_nat fuel -> (0 < fuel)%nat ->
  exists k, length (format_digits fuel n acc) = (S k + length acc)%nat /\
    n < 10 ^ Z.of_nat (S k) /\ (k = 0%nat \/ 10 ^ Z.of_nat k <= n).
Proof.
  revert n acc. induction fuel as [|fuel IH]; intros n acc Hn Hf; [lia|]. cbn [format_digits].
  pose proof (Z.div_mod n 10 ltac:(lia)) as Hd. pose proof (Z.mod_pos_bound n 10 ltac:(lia)).
  rewrite Nat2Z.inj_succ, Z.pow_succ_r in Hn by lia.
  destruct (Z.eqb_spec (n / 10) 0) as [E|E].
  - exists 0%nat. split; [done|]. change (10 ^ Z.of_nat 1) with 10. split; [lia|by left].
  - assert (0 <= n / 10) by (apply Z.div_pos; lia). destruct fuel as [|fuel].
    { change (10 ^ Z.of_nat 0) with 1 in Hn. lia. }
    destruct (IH (n / 10) (digit (n mod 10) :: acc)) as (k & Hl & Hlt & Hge); [lia|lia|].
    exists (S k). split; [rewrite Hl; cbn [length]; lia|].
    rewrite (Nat2Z.inj_succ (S k)), (Nat2Z.inj_succ k), !Z.pow_succ_r in * by lia. split; [lia|]. right.
    destruct Hge as [->|Hge]; [|lia]. change (10 ^ Z.of_nat 0) with 1. lia.
Qed.

Lemma FormatUint_count n :
  0 <= n <= maxUint64 ->
  exists k, length (FormatUint n) = S k /\ n < 10 ^ Z.of_nat (S k) /\ (k = 0%nat \/ 10 ^ Z.of_nat k <= n).
Proof.
  intros Hn. destruct (format_digits_count 20 n []) as (k & Hl & H); [|lia|].
  - split; [lia|]. apply Z.le_lt_trans with maxUint64; [lia|by vm_compute].
  - exists k. split; [|done]. unfold FormatUint. rewrite Hl. cbn. lia.
Qed.

(** A longer text is that of a number beyond a power of ten. *)
Lemma FormatUint_longer m n :
  0 <= m <= n -> n <= maxUint64 -> length (FormatUint m) <> length (FormatUint n) ->
  (length (FormatUint m) < length (FormatUint n))%nat /\
  exists k, m < 10 ^ Z.of_nat (S k) <= n.
Proof.
  intros Hm Hn Hne. destruct (FormatUint_count m) as (k & Hk & Hmk & Hkm); [lia|].
  destruct (FormatUint_count n) as (k' & Hk' & Hnk & Hkn); [lia|]. rewrite Hk, Hk' in *.
  assert (k < k')%nat as Hlt.
  { destruct (Nat.lt_ge_cases k k') as [|Hge]; [done|]. exfalso.
    destruct Hkm as [->|Hkm]; [lia|].
    assert (10 ^ Z.of_nat (S k') <= 10 ^ Z.of_nat k) by (apply Z.pow_le_mono_r; lia). lia. }
  split; [lia|]. exists k. split; [done|]. destruct Hkn as [->|Hkn]; [lia|].
  assert (10 ^ Z.of_nat (S k) <= 10 ^ Z.of_nat k') by (apply Z.pow_le_mono_r; lia). lia.
Qed.

Lemma ParseUint_FormatUint n : 0 <= n <= maxUint64 -> ParseUint (FormatUint n) = Some n.
Proof.
  intros Hn. unfold ParseUint, FormatUint.
  destruct (format_digits 20 n []) eqn:E; [by apply format_nonempty in E; [|lia]|]. rewrite <- E.
  rewrite parse_format; [done|done| |lia]. unfold maxUint64 in Hn.
  apply Z.le_lt_trans with (2 ^ 64 - 1); [lia|by vm_compute].
Qed.

(** A text that goes on with a byte that is no digit is refused. *)
Lemma parse_digits_app s t acc : parse_digits (s ++ t) acc = parse_digits s acc ≫= parse_digits t.
Proof.
  revert acc. induction s as [|c s IH]; intros acc; [done|]. cbn [app parse_digits].
  destruct (_ && _); [|done]. destruct (_ >? _); [done|]. apply IH.
Qed.

Lemma ParseUint_padded s n : (0 < n)%nat -> ParseUint (s ++ replicate n (byte.of_Z 0)) = None.
Proof.
  intros Hn. destruct n as [|n]; [lia|]. unfold ParseUint.
  destruct (s ++ replicate (S n) (byte.of_Z 0)) as [|c l] eqn:E; [done|]. rewrite <- E, parse_digits_app.
  by destruct (parse_digits s 0).
Qed.

End Strconv.
