(* ===== verification/Publishers.v ===== *)
(** The interface Publisher (handler.go) that an application publishes through,
    what it promises of datagrams, and its implementation by the
    SubscribeResponseWriter of an accepted subscription. *)

From S2P Require Import Prelude VarInt Codec WireTypes Objects Errors State.
From S2P Require Import Tracks SessionState Session.
Local Open Scope Z_scope.
Local Open Scope go_scope.

Class Publisher (P : Type) := {
  SendDatagram : Object.t -> GM P unit;
  OpenSubgroup : Z -> Z -> Z -> GM P Subgroup.t;
  CloseWithError : Z -> gostring -> GM P unit;
}.

(** The object that the peer's remote track is given for an object that was sent
    in a datagram: receiveDatagram sets no subgroup ID. *)
Definition received (o : Object.t) : Object.t :=
  Object.mk (Object.GroupID o) (Object.ObjectID o) ObjectForwardingPreferenceDatagram 0 (Object.Payload o).

(** The numbers of an object fit varints. *)
Definition sendable (o : Object.t) : Prop :=
  0 <= Object.GroupID o <= maxVarInt /\ 0 <= Object.ObjectID o <= maxVarInt.

(** What a publisher promises of SendDatagram: the call returns; when it returns
    no error the peer's track is given the object, after those that were sent
    before, when it returns an error it is given nothing; and the publisher can
    be used again. *)
Class PublisherLaws (P : Type) `{Publisher P} := {
  published : P -> list Object.t;
  pub_ok : P -> Prop;
  SendDatagram_returns o p :
    pub_ok p -> sendable o ->
    exists r p', SendDatagram o p = Ok (r, p') /\ pub_ok p' /\
      published p' = published p ++ match r with Ret _ => [received o] | Error _ => [] end;
}.

(** * The writer of a subscription *)

(** The track of an accepted subscription, from its acceptance in the handler until
    it is closed or the peer unsubscribes. *)
Definition track_open (lt : nat) (s : Session.t) : Prop :=
  exists track, Session.localHeap s !! lt = Some track /\
    localTrack.trackAlias track = 0 /\ localTrack.closed track = None.

(** The session of the writer, the answers of the connection to come (none: success),
    and the datagrams handed to it.  A call of SendDatagram takes one answer; one of
    OpenSubgroup takes two, that to the opening of the stream and that to the write of
    its header. *)
Module writer_state.
Record t := mk { session : Session.t; answers : list (option error); wire : list (list byte) }.
Definition answer (p : t) : option error := default None (head (answers p)).
Definition header_answer (p : t) : option error := default None (head (tail (answers p))).
Definition next (s : Session.t) (sent : list (list byte)) (p : t) : t :=
  mk s (tail (answers p)) (wire p ++ sent).
End writer_state.

Section Writer.
Context {QV : QuicVarint} {MR : MapRange}.

(** A step of the session of a writer. *)
Definition on_session {A} (m : SM A) : GM writer_state.t A := fun p =>
  match m (writer_state.session p) with
  | Ok (r, s) => Ok (r, writer_state.mk s (writer_state.answers p) (writer_state.wire p))
  | Err e => Err e
  | Panic => Panic
  | NoFuel => NoFuel
  end.

Definition SubscribeResponseWriter_SendDatagram (w : SubscribeResponseWriter.t) (o : Object.t) :
    GM writer_state.t unit := fun p =>
  match with_local (SubscribeResponseWriter.localTrack w)
          (localTrack.sendDatagram o (writer_state.answer p)) (writer_state.session p) with
  | Ok (Ret datagram, s) => Ok (Ret tt, writer_state.next s [datagram] p)
  | Ok (Error e, s) => Ok (Error e, writer_state.next s [] p)
  | Err e => Err e
  | Panic => Panic
  | NoFuel => NoFuel
  end.

(** The header of a stream, whatever the answer to its write. *)
Lemma newSubgroup_answer stream alias g sg prio s werr :
  Subgroup.newSubgroup stream alias g sg prio None = Ok s ->
  Subgroup.newSubgroup stream alias g sg prio werr = match werr with Some e => Err e | None => Ok s end.
Proof.
  unfold Subgroup.newSubgroup. destruct (SubgroupHeaderMessage.Append _ []) as [buf| | |]; [|done..].
  by destruct werr.
Qed.

Definition SubscribeResponseWriter_OpenSubgroup (w : SubscribeResponseWriter.t)
    (groupID subgroupID priority : Z) : GM writer_state.t Subgroup.t := fun p =>
  match with_local (SubscribeResponseWriter.localTrack w)
          (localTrack.openSubgroup groupID subgroupID priority (writer_state.answer p) (writer_state.header_answer p))
          (writer_state.session p) with
  | Ok (r, s) => Ok (r, writer_state.mk s (tail (tail (writer_state.answers p))) (writer_state.wire p))
  | Err e => Err e
  | Panic => Panic
  | NoFuel => NoFuel
  end.

Definition SubscribeResponseWriter_CloseWithError (w : SubscribeResponseWriter.t)
    (code : Z) (reason : gostring) : GM writer_state.t unit :=
  on_session (localTrack_close (SubscribeResponseWriter.localTrack w) code reason).

Definition writer_publisher (w : SubscribeResponseWriter.t) : Publisher writer_state.t := {|
  SendDatagram := SubscribeResponseWriter_SendDatagram w;
  OpenSubgroup := SubscribeResponseWriter_OpenSubgroup w;
  CloseWithError := SubscribeResponseWriter_CloseWithError w;
|}.

(** The peer's readDatagrams parses a datagram and receiveDatagram pushes an
    object to the track with the alias of the writer. *)
Definition received_datagram (alias : Z) (datagram : list byte) : option Object.t :=
  match ObjectDatagramMessage.Parse (S (length datagram)) datagram [] with
  | Ok (m, _, None) =>
      if ObjectDatagramMessage.TrackAlias m =? alias then
        Some (Object.mk (ObjectDatagramMessage.GroupID m) (ObjectDatagramMessage.ObjectID m)
                ObjectForwardingPreferenceDatagram 0 (ObjectDatagramMessage.ObjectPayload m))
      else None
  | _ => None
  end.

(** The track of the writer is in the heap of its session, with its alias, and
    the peer can read what was sent. *)
Definition writer_ok (w : SubscribeResponseWriter.t) (alias : Z) (p : writer_state.t) : Prop :=
  0 <= alias <= maxVarInt /\
  Forall (fun d => is_Some (received_datagram alias d)) (writer_state.wire p) /\
  exists lt, Session.localHeap (writer_state.session p) !! SubscribeResponseWriter.localTrack w = Some lt /\
    localTrack.trackAlias lt = alias.

Context {QVL : QuicVarintLaws}.

Lemma datagram_appended alias o :
  0 <= alias <= maxVarInt -> sendable o ->
  exists datagram,
    ObjectDatagramMessage.AppendDatagram (ObjectDatagramMessage.mk alias (Object.GroupID o)
      (Object.ObjectID o) 0 None (Object.Payload o) 0) [] = Ok datagram /\
    received_datagram alias datagram = Some (received o).
Proof.
  intros Ha [Hg Ho]. set (m := ObjectDatagramMessage.mk alias (Object.GroupID o) (Object.ObjectID o)
    0 None (Object.Payload o) 0).
  assert (exists datagram, ObjectDatagramMessage.AppendDatagram m [] = Ok datagram) as [datagram Hd].
  { unfold ObjectDatagramMessage.AppendDatagram. cbn -[qv_Append append_byte].
    rewrite qv_Append_enc by (vm_compute; split; discriminate). cbn -[qv_Append append_byte].
    rewrite qv_Append_enc by done. cbn -[qv_Append append_byte].
    rewrite qv_Append_enc by done. cbn -[qv_Append append_byte].
    rewrite qv_Append_enc by done. cbn. by eexists. }
  exists datagram. split; [done|]. unfold received_datagram.
  rewrite (datagram_parsed m) by (done || (cbn; lia)). cbn. by rewrite Z.eqb_refl.
Qed.

(** The writer of a subscription keeps what the interface promises: the class
    for a session whose heap holds the track of the writer. *)
Program Definition writer_publisher_laws (w : SubscribeResponseWriter.t) (alias : Z) :
    @PublisherLaws writer_state.t (writer_publisher w) :=
  @Build_PublisherLaws writer_state.t (writer_publisher w)
    (fun p => omap (received_datagram alias) (writer_state.wire p)) (writer_ok w alias) _.
Next Obligation.
  intros w alias o [s answers wire] (Ha & Hw & lt & Hlt & Hal) Ho.
  destruct (datagram_appended alias o Ha Ho) as (datagram & Hd & Hr). cbn in Hlt |- *.
  unfold SubscribeResponseWriter_SendDatagram, with_local. cbn [writer_state.session]. rewrite Hlt.
  unfold localTrack.sendDatagram, localTrack.check_open, localTrack.lift_res, mbind, GM_bind, gm_bind.
  assert (writer_ok w alias (writer_state.mk (Session.set_localHeap
    (<[SubscribeResponseWriter.localTrack w := lt]> (Session.localHeap s)) s) (tail answers) wire)) as Hok.
  { split; [done|]. split; [done|]. exists lt. cbn. rewrite list_lookup_insert_eq; [done|]. by apply lookup_lt_Some in Hlt. }
  destruct (localTrack.closed lt) as [e|]; cbn -[ObjectDatagramMessage.AppendDatagram].
  - eexists _, _. split; [done|]. unfold writer_state.next. cbn. by rewrite !app_nil_r.
  - subst alias. rewrite Hd. unfold writer_state.answer. cbn.
    destruct (default None (head answers)) as [e|]; (eexists _, _; split; [done|]);
      unfold writer_state.next; cbn; rewrite ?app_nil_r; [done|].
    split; [|by rewrite omap_app; cbn; rewrite Hr].
    destruct Hok as (H1 & H2 & H3). split; [done|]. split; [|exact H3]. apply Forall_app. split; [exact H2|].
    constructor; [by eexists|constructor].
Qed.

(** As long as the connection takes the datagrams and the track is open, the writer
    accepts every object. *)
Definition writer_open (w : SubscribeResponseWriter.t) (p : writer_state.t) : Prop :=
  writer_state.answers p = [] /\
  exists lt, Session.localHeap (writer_state.session p) !! SubscribeResponseWriter.localTrack w = Some lt /\
    0 <= localTrack.trackAlias lt <= maxVarInt /\ localTrack.closed lt = None.

Lemma writer_open_sends w o p :
  sendable o -> writer_open w p ->
  exists p', SubscribeResponseWriter_SendDatagram w o p = Ok (Ret tt, p') /\ writer_open w p'.
Proof.
  destruct p as [s answers wire]. intros Ho (Ha & lt & Hlt & Hal & Hc). cbn in Ha, Hlt. subst answers.
  destruct (datagram_appended _ o Hal Ho) as (datagram & Hd & _).
  unfold SubscribeResponseWriter_SendDatagram, with_local. cbn [writer_state.session]. rewrite Hlt.
  unfold localTrack.sendDatagram, localTrack.check_open, localTrack.lift_res, mbind, GM_bind, gm_bind.
  rewrite Hc. cbn -[ObjectDatagramMessage.AppendDatagram]. rewrite Hd. cbn. eexists. split; [done|].
  split; [done|]. exists lt. cbn. rewrite list_lookup_insert_eq; [done|]. by apply lookup_lt_Some in Hlt.
Qed.

End Writer.
