(* ===== verification/Counter.v ===== *)
(** The counter application (examples/counter): a publisher that sends a number
    in a datagram at every tick, a subscriber that counts what it gets, and the
    handlers that accept the subscription.  The application with FEC of
    XorCounter.v starts, stops and reads in the same way.

    The code is written twice, once per application; what both share is defined
    once, over the classes [Running] and [Subscriber].  A mutex makes the lines
    under it one step, other goroutines run between steps: what they do comes as
    events, in any order. *)

From Stdlib Require Import String.
From S2P Require Import Prelude VarInt Codec WireTypes Objects Errors State.
From S2P Require Import Tracks SessionState Session Publishers Strconv.
Local Open Scope Z_scope.
Local Open Scope go_scope.

(** * Starting and stopping *)

(** The fields isRunning and stopChan; of the channel, whether it was closed. *)
Module Runner.
Record t := mk { isRunning : bool; stopChan : bool }.
Definition new : t := mk false false.
End Runner.

Class Running (S : Type) := {
  runner : S -> Runner.t;
  set_runner : Runner.t -> S -> S;
}.

Section Running.
Context {S : Type} `{Running S}.

(** Start, up to its loop. *)
Definition begin (running_text : gostring) : GM S unit :=
  r <- get runner;
  if Runner.isRunning r then throw (errorf running_text)
  else modify (set_runner (Runner.mk true (Runner.stopChan r))).

(** Closing a closed channel panics. *)
Definition Stop : GM S unit :=
  r <- get runner;
  if negb (Runner.isRunning r) then mret tt
  else if Runner.stopChan r then panic
  else modify (set_runner (Runner.mk false true)).

Definition IsRunning (s : S) : bool := Runner.isRunning (runner s).

(** ** The loop of a publisher

    What happens to a publisher in its loop: its context is cancelled, its
    select takes the closed stopChan, the ticker fires, or another goroutine
    calls Stop. *)
Inductive wake := CtxDone (e : error) | StopClosed | Tick | CallStop.

(** [true]: Start has returned nil; [false]: it is still in its loop.  The case
    of stopChan is not taken while the channel is open. *)
Fixpoint select_loop (publishNext : GM S unit) (ws : list wake) : GM S bool :=
  match ws with
  | [] => mret false
  | CtxDone e :: _ => throw e
  | StopClosed :: ws =>
      closed <- get (fun s => Runner.stopChan (runner s));
      if closed : bool then mret true else select_loop publishNext ws
  | Tick :: ws => _ <- publishNext; select_loop publishNext ws
  | CallStop :: ws => _ <- Stop; select_loop publishNext ws
  end.

End Running.

(** * The loop of a subscriber *)

Class Subscriber (S : Type) := {
  sub_running :: Running S;
  remoteTrack : S -> RemoteTrack.t;
  set_remoteTrack : RemoteTrack.t -> S -> S;
  processObject : Object.t -> GM S unit;
}.

(** The two goroutines of a started subscriber: the loop that reads, and Start,
    which waits; [started] is what it returned. *)
Module subscription.
Record t (S : Type) := mk { sub : S; ctx : option error; reading : bool; started : option (ret unit) }.
Arguments mk {S} sub ctx reading started.
Arguments sub {S} _.
Arguments ctx {S} _.
Arguments reading {S} _.
Arguments started {S} _.
Definition set_sub {S} (s : S) (x : t S) : t S := mk s (ctx x) (reading x) (started x).
End subscription.

(** The session pushes an object to the track or ends it, the context is
    cancelled, Stop is called; ReadObject returns by one of its cases, or one of
    the cases of Start's select is taken. *)
Inductive subscriber_event :=
  | Pushed (o : Object.t)
  | TrackEnded (status : Z) (reason : gostring)
  | Cancelled (e : error)
  | Stopping
  | ReadReturns (c : RemoteTrack.read_case)
  | StartCtxDone
  | StartStopped.

Section Receive.
Context {S : Type} `{Subscriber S}.

(** The select at the head of receiveLoop: it goes on to ReadObject only when
    neither the context is done nor stopChan closed; on return isRunning is
    reset. *)
Definition loop_head (x : subscription.t S) : subscription.t S :=
  let s := subscription.sub x in
  match subscription.ctx x, Runner.stopChan (runner s) with
  | None, false => subscription.mk s None true (subscription.started x)
  | _, _ => subscription.mk (set_runner (Runner.mk false (Runner.stopChan (runner s))) s)
              (subscription.ctx x) false (subscription.started x)
  end.

Definition loop_returns (x : subscription.t S) : subscription.t S :=
  let s := subscription.sub x in
  subscription.mk (set_runner (Runner.mk false (Runner.stopChan (runner s))) s)
    (subscription.ctx x) false (subscription.started x).

(** Start: the loop is a goroutine of its own. *)
Definition Start (running_text : gostring) (ctx : option error) (s : S) :
    res (ret unit * subscription.t S) :=
  match begin running_text s with
  | Ok (Ret _, s) => Ok (Ret tt, loop_head (subscription.mk s ctx true None))
  | Ok (Error e, s) => Ok (Error e, subscription.mk s ctx false (Some (Error e)))
  | Err e => Err e
  | Panic => Panic
  | NoFuel => NoFuel
  end.

(** After ReadObject has returned in the loop: an error ends the loop, also one
    that comes with an object; an error of processObject is only logged. *)
Definition loop_body (c : RemoteTrack.read_case) (x : subscription.t S) : res (subscription.t S) :=
  let s := subscription.sub x in
  match RemoteTrack.ReadObject c (subscription.ctx x) (remoteTrack s) with
  | None => Ok x
  | Some (_, Some _, rt) => Ok (loop_returns (subscription.set_sub (set_remoteTrack rt s) x))
  | Some (None, None, _) => Panic
  | Some (Some o, None, rt) =>
      '(_, s) ← processObject o (set_remoteTrack rt s);
      Ok (loop_head (subscription.set_sub s x))
  end.

(** An event that cannot happen changes nothing. *)
Definition subscriber_step (e : subscriber_event) (x : subscription.t S) : res (subscription.t S) :=
  let s := subscription.sub x in
  match e with
  | Pushed o => Ok (subscription.set_sub (set_remoteTrack (RemoteTrack.push o (remoteTrack s)) s) x)
  | TrackEnded status reason =>
      Ok (subscription.set_sub (set_remoteTrack (RemoteTrack.done status reason (remoteTrack s)) s) x)
  | Cancelled e => Ok (subscription.mk s (cancel (subscription.ctx x) e) (subscription.reading x)
                         (subscription.started x))
  | Stopping => '(_, s) ← Stop s; Ok (subscription.set_sub s x)
  | ReadReturns c => if subscription.reading x then loop_body c x else Ok x
  | StartCtxDone =>
      match subscription.started x, subscription.ctx x with
      | None, Some e => Ok (subscription.mk s (subscription.ctx x) (subscription.reading x) (Some (Error e)))
      | _, _ => Ok x
      end
  | StartStopped =>
      match subscription.started x, Runner.stopChan (runner s) with
      | None, true => Ok (subscription.mk s (subscription.ctx x) (subscription.reading x) (Some (Ret tt)))
      | _, _ => Ok x
      end
  end.

Fixpoint subscriber_run (es : list subscriber_event) (x : subscription.t S) : res (subscription.t S) :=
  match es with
  | [] => Ok x
  | e :: es => x ← subscriber_step e x; subscriber_run es x
  end.

End Receive.

(** * The publisher *)

Module CounterPublisher.
Section CounterPublisher.
Context {P : Type} `{Publisher P}.

Record t := mk {
  publisher : P;
  sessionID : Z;
  requestID : Z;
  counter : Z;
  groupID : Z;
  run : Runner.t }.

#[global] Instance running : Running t := {|
  runner := run;
  set_runner r p := mk (publisher p) (sessionID p) (requestID p) (counter p) (groupID p) r;
|}.

Definition NewCounterPublisher (publisher : P) (sessionID requestID : Z) : t :=
  mk publisher sessionID requestID 0 0 Runner.new.

(** [currentCounter := cp.counter; cp.counter++], and the same for groupID. *)
Definition take_numbers : GM t (Z * Z) := fun p =>
  Ok (Ret (counter p, groupID p),
      mk (publisher p) (sessionID p) (requestID p) (uint64 (counter p + 1)) (uint64 (groupID p + 1)) (run p)).

Definition on_publisher {A} (m : GM P A) : GM t A := fun p =>
  match m (publisher p) with
  | Ok (r, q) => Ok (r, mk q (sessionID p) (requestID p) (counter p) (groupID p) (run p))
  | Err e => Err e
  | Panic => Panic
  | NoFuel => NoFuel
  end.

(** [if err := m; err != nil { return fmt.Errorf(text, err) }]. *)
Definition wrap_error {S A} (text : gostring) (m : GM S A) : GM S A :=
  r <- attempt m;
  match r with Ret a => mret a | Error e => throw (wrapf text e) end.

Definition publishNext : GM t unit :=
  '(currentCounter, currentGroupID) <- take_numbers;
  let payload := FormatUint currentCounter in
  let obj := Object.mk currentGroupID 0 ObjectForwardingPreferenceDatagram currentGroupID payload in
  wrap_error (str "failed to send datagram for counter") (on_publisher (SendDatagram obj)).

Definition Start (ws : list wake) : GM t bool :=
  _ <- begin (str "counter publisher is already running");
  select_loop publishNext ws.

Definition Stop : GM t unit := Stop.
Definition IsRunning : t -> bool := IsRunning.
Definition GetCurrentCounter (p : t) : Z := counter p.

Definition CloseWithError (code : Z) (reason : gostring) : GM t unit :=
  _ <- Stop; on_publisher (CloseWithError code reason).
Definition SendDatagram (o : Object.t) : GM t unit := on_publisher (SendDatagram o).
Definition OpenSubgroup (groupID subgroupID priority : Z) : GM t Subgroup.t :=
  on_publisher (OpenSubgroup groupID subgroupID priority).

End CounterPublisher.
Arguments t P : clear implicits.
End CounterPublisher.

(** * The subscriber *)

Definition parseCounterValue (payload : list byte) : ret Z :=
  match payload with
  | [] => Error (errorf (str "empty payload"))
  | _ =>
      match ParseUint payload with
      | Some v => Ret v
      | None => Error (errorf (str "invalid counter format"))
      end
  end.

Module CounterSubscriber.

(** [printed] are the values of the lines "Received MoQ-Datagram" of the log. *)
Record t := mk {
  track : RemoteTrack.t;
  sessionID : Z;
  namespace : list gostring;
  trackname : gostring;
  lastReceived : Z;
  totalReceived : Z;
  run : Runner.t;
  printed : list Z }.

Definition NewCounterSubscriber (track : RemoteTrack.t) (sessionID : Z) (namespace : list gostring)
    (trackname : gostring) : t :=
  mk track sessionID namespace trackname 0 0 Runner.new [].

#[global] Instance running : Running t := {|
  runner := run;
  set_runner r s := mk (track s) (sessionID s) (namespace s) (trackname s) (lastReceived s)
    (totalReceived s) r (printed s);
|}.

Definition processObject (obj : Object.t) : GM t unit := fun s =>
  match parseCounterValue (Object.Payload obj) with
  | Error e => Ok (Error (wrapf (str "failed to parse counter value") e), s)
  | Ret counterValue =>
      Ok (Ret tt, mk (track s) (sessionID s) (namespace s) (trackname s) counterValue
        (uint64 (totalReceived s + 1)) (run s) (printed s ++ [counterValue]))
  end.

#[global] Instance subscriber : Subscriber t := {|
  remoteTrack := track;
  set_remoteTrack r s := mk r (sessionID s) (namespace s) (trackname s) (lastReceived s)
    (totalReceived s) (run s) (printed s);
  Counter.processObject := processObject;
|}.

Definition Start : option error -> t -> res (ret unit * subscription.t t) :=
  Start (str "counter subscriber is already running").
Definition Stop : GM t unit := Stop.
Definition receiveLoop : RemoteTrack.read_case -> subscription.t t -> res (subscription.t t) := loop_body.
Definition GetLastReceived (s : t) : Z := lastReceived s.
Definition GetTotalReceived (s : t) : Z := totalReceived s.
Definition IsRunning : t -> bool := IsRunning.

End CounterSubscriber.

(** A number is read back from its digits. *)
Lemma parse_formatted n : 0 <= n < 2 ^ 63 -> parseCounterValue (FormatUint n) = Ret n.
Proof.
  intros Hn. assert (maxUint64 = 2 ^ 64 - 1) as Hmax by done. unfold parseCounterValue.
  destruct (FormatUint_count n) as (k & Hk & _); [lia|].
  destruct (FormatUint n) as [|c t] eqn:E; [done|]. rewrite <- E. by rewrite ParseUint_FormatUint by lia.
Qed.
