(* ===== verification/XorCounter.v ===== *)
(** The counter application with forward error correction (fec/xor/example):
    every number goes out in a datagram with the place of the packet in its
    block, every fourth is followed by the parity of the block; the subscriber
    takes the packets through the decoder of Xor.v.

    [int] is 64 bits wide.  encoder and decoder are used by one goroutine. *)

From Stdlib Require Import String.
From S2P Require Import Prelude VarInt Codec WireTypes Objects Errors State.
From S2P Require Import Tracks SessionState Session Xor Publishers Strconv Counter.
Local Open Scope Z_scope.
Local Open Scope go_scope.

Definition xor_config : xor.Config.t := xor.Config.mk 4.

(** [int32(x)]. *)
Definition int32 (z : Z) : Z := (z + 2 ^ 31) mod 2 ^ 32 - 2 ^ 31.

(** * The metadata before a payload *)

(** [byte(x >> 24), byte(x >> 16), byte(x >> 8), byte(x)]. *)
Definition int32_bytes (x : Z) : list byte :=
  [byte.of_Z (Z.shiftr x 24); byte.of_Z (Z.shiftr x 16); byte.of_Z (Z.shiftr x 8); byte.of_Z x].

(** [int(int32(a)<<24 | int32(b)<<16 | int32(c)<<8 | int32(d))]. *)
Definition int32_of (a b c d : byte) : Z :=
  Z.lor (Z.lor (Z.lor (int32 (Z.shiftl (byte.unsigned a) 24)) (Z.shiftl (byte.unsigned b) 16))
           (Z.shiftl (byte.unsigned c) 8)) (byte.unsigned d).

Definition wrapWithMetadata (payload : list byte) (blockID seqInBlock : Z) (isParity : bool) : list byte :=
  int32_bytes blockID ++ int32_bytes seqInBlock ++ [byte.of_Z (if isParity then 1 else 0)] ++ payload.

(** blockID, seqInBlock, isParity, payload. *)
Definition unwrapMetadata (wrappedPayload : list byte) : ret (Z * Z * bool * list byte) :=
  match wrappedPayload with
  | b0 :: b1 :: b2 :: b3 :: s0 :: s1 :: s2 :: s3 :: p :: payload =>
      Ret (int32_of b0 b1 b2 b3, int32_of s0 s1 s2 s3, byte.unsigned p =? 1, payload)
  | _ => Error (errorf (str "payload too short for XOR-FEC metadata"))
  end.

(** * The publisher *)

Module XORCounterPublisher.
Section XORCounterPublisher.
Context {P : Type} `{Publisher P}.

Record t := mk {
  publisher : P;
  encoder : xor.Encoder.t;
  sessionID : Z;
  requestID : Z;
  counter : Z;
  groupID : Z;
  run : Runner.t }.

#[global] Instance running : Running t := {|
  runner := run;
  set_runner r p := mk (publisher p) (encoder p) (sessionID p) (requestID p) (counter p) (groupID p) r;
|}.

Definition NewXORPublisher (publisher : P) (sessionID requestID : Z) : res t :=
  encoder ← xor.NewEncoder xor_config;
  Ok (mk publisher encoder sessionID requestID 0 0 Runner.new).

Definition take_numbers : GM t (Z * Z) := fun p =>
  Ok (Ret (counter p, groupID p),
      mk (publisher p) (encoder p) (sessionID p) (requestID p) (uint64 (counter p + 1))
        (uint64 (groupID p + 1)) (run p)).

Definition on_publisher {A} (m : GM P A) : GM t A := fun p =>
  match m (publisher p) with
  | Ok (r, q) => Ok (r, mk q (encoder p) (sessionID p) (requestID p) (counter p) (groupID p) (run p))
  | Err e => Err e
  | Panic => Panic
  | NoFuel => NoFuel
  end.

(** parity, block ID, sequence number. *)
Definition encode (payload : list byte) : GM t (option (list byte) * Z * Z) := fun p =>
  match xor.TryEncode payload (encoder p) with
  | Ok (parity, b, s, e) =>
      Ok (Ret (parity, b, s),
          mk (publisher p) e (sessionID p) (requestID p) (counter p) (groupID p) (run p))
  | Err e => Err e
  | Panic => Panic
  | NoFuel => NoFuel
  end.

Definition publishNext : GM t unit :=
  '(currentCounter, currentGroupID) <- take_numbers;
  let payload := FormatUint currentCounter in
  '(parityPacket, blockID, seqID) <- encode payload;
  let obj := Object.mk currentGroupID 0 ObjectForwardingPreferenceDatagram currentGroupID
               (wrapWithMetadata payload blockID seqID false) in
  _ <- CounterPublisher.wrap_error (str "failed to send data packet") (on_publisher (SendDatagram obj));
  match parityPacket with
  | None => mret tt
  | Some parityPacket =>
      let g := uint64 (currentGroupID + 1000) in
      let parityObj := Object.mk g 0 ObjectForwardingPreferenceDatagram g
                         (wrapWithMetadata parityPacket blockID (-1) true) in
      CounterPublisher.wrap_error (str "failed to send parity packet") (on_publisher (SendDatagram parityObj))
  end.

Definition Start (ws : list wake) : GM t bool :=
  _ <- begin (str "XOR-FEC counter publisher is already running");
  select_loop publishNext ws.

Definition Stop : GM t unit := Stop.

Definition CloseWithError (code : Z) (reason : gostring) : GM t unit :=
  _ <- Stop; on_publisher (CloseWithError code reason).
Definition SendDatagram (o : Object.t) : GM t unit := on_publisher (SendDatagram o).
Definition OpenSubgroup (groupID subgroupID priority : Z) : GM t Subgroup.t :=
  on_publisher (OpenSubgroup groupID subgroupID priority).

End XORCounterPublisher.
Arguments t P : clear implicits.
End XORCounterPublisher.

(** * The subscriber *)

(** A line "Received MoQ-Datagram" of the log. *)
Record log_line := line { counterValue : Z; blockID : Z; seqInBlock : Z; recovered : bool }.

Module XORCounterSubscriber.
Section XORCounterSubscriber.
Context {MR : MapRange}.

Record t := mk {
  track : RemoteTrack.t;
  decoder : xor.Decoder.t;
  sessionID : Z;
  namespace : list gostring;
  trackname : gostring;
  lastReceived : Z;
  totalReceived : Z;
  recoveredCount : Z;
  run : Runner.t;
  printed : list log_line }.

Definition NewXORSubscriber (track : RemoteTrack.t) (sessionID : Z) (namespace : list gostring)
    (trackname : gostring) : t :=
  mk track (xor.NewDecoder xor_config) sessionID namespace trackname 0 0 0 Runner.new [].

#[global] Instance running : Running t := {|
  runner := run;
  set_runner r s := mk (track s) (decoder s) (sessionID s) (namespace s) (trackname s) (lastReceived s)
    (totalReceived s) (recoveredCount s) r (printed s);
|}.

Definition set_decoder (d : xor.Decoder.t) (s : t) : t :=
  mk (track s) d (sessionID s) (namespace s) (trackname s) (lastReceived s) (totalReceived s)
    (recoveredCount s) (run s) (printed s).

(** The lines under the mutex, and the line of the log. *)
Definition count (l : log_line) (s : t) : t :=
  mk (track s) (decoder s) (sessionID s) (namespace s) (trackname s) (counterValue l)
    (uint64 (totalReceived s + 1))
    (if recovered l then uint64 (recoveredCount s + 1) else recoveredCount s)
    (run s) (printed s ++ [l]).

Definition cleanup (b : Z) (s : t) : t :=
  if totalReceived s mod 10 =? 0 then set_decoder (xor.CleanupOldBlocks b (decoder s)) s else s.

(** The payload that the decoder delivered. *)
Definition process_payload (b seq : Z) (decodedPayload : list byte) (wasRecovered : bool) : GM t unit :=
  fun s =>
  match parseCounterValue decodedPayload with
  | Error e => Ok (Error (wrapf (str "failed to parse counter value") e), s)
  | Ret v => Ok (Ret tt, cleanup b (count (line v b seq wasRecovered) s))
  end.

Definition processObject (obj : Object.t) : GM t unit := fun s =>
  match unwrapMetadata (Object.Payload obj) with
  | Error e => Ok (Error (wrapf (str "failed to unwrap XOR-FEC metadata") e), s)
  | Ret (b, seq, isParity, payload) =>
      let '(decodedPayload, wasRecovered, d) := xor.TryDecode b seq payload isParity (decoder s) in
      let s := set_decoder d s in
      match decodedPayload with
      | Some decodedPayload => process_payload b seq decodedPayload wasRecovered s
      | None => Ok (Ret tt, s)
      end
  end.

#[global] Instance subscriber : Subscriber t := {|
  remoteTrack := track;
  set_remoteTrack r s := mk r (decoder s) (sessionID s) (namespace s) (trackname s) (lastReceived s)
    (totalReceived s) (recoveredCount s) (run s) (printed s);
  Counter.processObject := processObject;
|}.

Definition Start : option error -> t -> res (ret unit * subscription.t t) :=
  Start (str "XOR-FEC counter subscriber is already running").
Definition Stop : GM t unit := Stop.
Definition receiveLoop : RemoteTrack.read_case -> subscription.t t -> res (subscription.t t) := loop_body.
Definition GetLastReceived (s : t) : Z := lastReceived s.
Definition GetTotalReceived (s : t) : Z := totalReceived s.
Definition GetRecoveredCount (s : t) : Z := recoveredCount s.
Definition IsRunning : t -> bool := IsRunning.

(** A sequence of objects, in the order in which they are read; an error is
    logged and the loop goes on. *)
Fixpoint processObjects (objs : list Object.t) (s : t) : res t :=
  match objs with
  | [] => Ok s
  | o :: objs => '(_, s) ← processObject o s; processObjects objs s
  end.

End XORCounterSubscriber.
End XORCounterSubscriber.
