(* ===== verification/XorCounterStream.v ===== *)
(** The counter application with FEC from end to end: the metadata of a packet,
    the datagrams a publisher sends, and what the subscriber makes of them when
    packets are lost and reordered. *)

From Stdlib Require Import String.
From S2P Require Import Prelude VarInt Codec WireTypes Objects Errors State.
From S2P Require Import Tracks SessionState Session Xor Publishers Strconv Counter XorCounter.
Local Open Scope Z_scope.
Local Open Scope go_scope.

(** * The metadata *)

Section Metadata.

Lemma land_shifted k n s : 0 <= n -> 0 <= s < 2 ^ n -> Z.land (k * 2 ^ n) s = 0.
Proof.
  intros Hn Hs. apply Z.bits_inj'. intros i Hi. rewrite Z.land_spec, Z.bits_0.
  destruct (Z.lt_ge_cases i n) as [Hlt|Hge].
  - by rewrite Z.mul_pow2_bits_low.
  - destruct (Z.eq_dec s 0) as [->|]; [by rewrite Z.bits_0, andb_false_r|].
    assert (Z.log2 s < n) by (apply Z.log2_lt_pow2; lia).
    rewrite (Z.bits_above_log2 s) by lia. apply andb_false_r.
Qed.

Lemma lor_shifted k n s : 0 <= n -> 0 <= s < 2 ^ n -> Z.lor (k * 2 ^ n) s = k * 2 ^ n + s.
Proof.
  intros Hn Hs. pose proof (land_shifted k n s Hn Hs) as Hl.
  by rewrite (Z.add_nocarry_lxor _ _ Hl), Z.lxor_lor.
Qed.

Lemma int32_of_bytes x :
  - 2 ^ 31 <= x < 2 ^ 31 ->
  int32_of (byte.of_Z (Z.shiftr x 24)) (byte.of_Z (Z.shiftr x 16)) (byte.of_Z (Z.shiftr x 8)) (byte.of_Z x) = x.
Proof.
  intros Hx. unfold int32_of. rewrite !byte.unsigned_of_Z. unfold byte.wrap.
  rewrite !Z.shiftr_div_pow2, !Z.shiftl_mul_pow2 by lia. unfold int32.
  change (2 ^ 24) with 16777216. change (2 ^ 16) with 65536. change (2 ^ 8) with 256.
  change (2 ^ 32) with 4294967296. change (2 ^ 31) with 2147483648 in *.
  set (a := (x / 16777216) mod 256). set (b := (x / 65536) mod 256). set (c := (x / 256) mod 256).
  set (d := x mod 256).
  assert (0 <= a < 256 /\ 0 <= b < 256 /\ 0 <= c < 256 /\ 0 <= d < 256) as (Ha & Hb & Hc & Hd)
    by (repeat split; apply Z.mod_pos_bound; lia).
  assert (exists k, (a * 16777216 + 2147483648) mod 4294967296 - 2147483648 = k * 2 ^ 24) as [k Hk].
  { exists (if a <? 128 then a else a - 256). change (2 ^ 24) with 16777216.
    destruct (Z.ltb_spec a 128).
    - rewrite Z.mod_small by lia. lia.
    - replace (a * 16777216 + 2147483648) with ((a - 128) * 16777216 + 1 * 4294967296) by lia.
      rewrite Z.mod_add, Z.mod_small by lia. lia. }
  rewrite Hk, (lor_shifted k 24 (b * 65536)) by (change (2 ^ 24) with 16777216; lia).
  change (2 ^ 24) with 16777216 in *.
  replace (k * 16777216 + b * 65536) with ((k * 256 + b) * 2 ^ 16) by (change (2 ^ 16) with 65536; lia).
  rewrite lor_shifted by (change (2 ^ 16) with 65536; lia). change (2 ^ 16) with 65536.
  replace ((k * 256 + b) * 65536 + c * 256) with (((k * 256 + b) * 256 + c) * 2 ^ 8)
    by (change (2 ^ 8) with 256; lia).
  rewrite lor_shifted by (change (2 ^ 8) with 256; lia). change (2 ^ 8) with 256.
  subst a b c d. Z.div_mod_to_equations. lia.
Qed.

Lemma unwrap_wrap payload blockID seqInBlock isParity :
  - 2 ^ 31 <= blockID < 2 ^ 31 -> - 2 ^ 31 <= seqInBlock < 2 ^ 31 ->
  unwrapMetadata (wrapWithMetadata payload blockID seqInBlock isParity) =
    Ret (blockID, seqInBlock, isParity, payload).
Proof.
  intros Hb Hs. unfold wrapWithMetadata, int32_bytes, unwrapMetadata. cbn [app].
  rewrite !int32_of_bytes by done. by destruct isParity.
Qed.

(** The metadata of a packet is read back: the block ID, the sequence number
    (-1 for a parity packet), the kind and the payload, for every payload and
    for all numbers of 32 bits. *)
Theorem metadata_roundtrip payload blockID seqInBlock isParity :
  - 2 ^ 31 <= blockID < 2 ^ 31 -> - 2 ^ 31 <= seqInBlock < 2 ^ 31 ->
  unwrapMetadata (wrapWithMetadata payload blockID seqInBlock isParity) =
    Ret (blockID, seqInBlock, isParity, payload).
Proof.
  apply unwrap_wrap.
Qed.

End Metadata.

(** * What a publisher sends *)

Definition block_payloads (b : Z) : list (list byte) :=
  (fun i => FormatUint (4 * b + i)) <$> [0; 1; 2; 3].

Definition block_parity (b : Z) : list byte :=
  match xor.generateParity (block_payloads b) with Ok (Some parity) => parity | _ => [] end.

(** The objects of the peer's track for the number [k], and for the parity of the
    block [b]. *)
Definition data_object (k : Z) : Object.t :=
  received (Object.mk k 0 ObjectForwardingPreferenceDatagram k
    (wrapWithMetadata (FormatUint k) (k / 4) (k mod 4 + 1) false)).
Definition parity_object (b : Z) : Object.t :=
  let g := 4 * b + 3 + 1000 in
  received (Object.mk g 0 ObjectForwardingPreferenceDatagram g
    (wrapWithMetadata (block_parity b) b (-1) true)).

Definition packets_of (k : Z) : list Object.t :=
  data_object k :: if k mod 4 =? 3 then [parity_object (k / 4)] else [].

(** The objects for the [n] numbers from [k] on, and from 0 on. *)
Definition stream_from (k : Z) (n : nat) : list Object.t := i ← seqZ k (Z.of_nat n); packets_of i.
Definition stream : nat -> list Object.t := stream_from 0.

Section Publishing.
Context {P : Type} {HP : Publisher P} {HL : PublisherLaws P}.
Abbreviation publisher_t := (XORCounterPublisher.t P).

(** The encoder when the number [k] is next. *)
Definition encoder_at (k : Z) (e : xor.Encoder.t) : Prop :=
  xor.Encoder.config e = xor_config /\ xor.Encoder.blockID e = k / 4 /\ xor.Encoder.seqID e = k mod 4 /\
  xor.Encoder.buffer e = (fun i => FormatUint (4 * (k / 4) + i)) <$> seqZ 0 (k mod 4).

Definition publisher_at (k : Z) (p : publisher_t) : Prop :=
  XORCounterPublisher.counter p = k /\ XORCounterPublisher.groupID p = k /\
  encoder_at k (XORCounterPublisher.encoder p).

Lemma generateParity_payloads b : xor.generateParity (block_payloads b) = Ok (Some (block_parity b)).
Proof.
  destruct (generateParity_spec (block_payloads b)) as (parity & H & _); [done|].
  unfold block_parity. by rewrite H.
Qed.

Lemma TryEncode_at k e :
  0 <= k < 2 ^ 61 -> encoder_at k e ->
  exists e', xor.TryEncode (FormatUint k) e =
    Ok (if k mod 4 =? 3 then Some (block_parity (k / 4)) else None, k / 4, k mod 4 + 1, e') /\
    encoder_at (k + 1) e'.
Proof.
  intros Hk (Hc & Hb & Hs & Hbuf).
  assert (k = 4 * (k / 4) + k mod 4 /\ 0 <= k mod 4 < 4 /\ 0 <= k / 4 <= k) as (Hk4 & Hm & Hq)
    by (Z.div_mod_to_equations; lia).
  unfold xor.TryEncode. cbn [xor.Encoder.seqID xor.Encoder.config xor.Encoder.buffer xor.Encoder.blockID].
  rewrite Hc, Hs, Hb, int64_small by lia. cbn [xor.Config.BlockSize xor_config].
  assert (xor.Encoder.buffer e ++ [FormatUint k] =
    (fun i => FormatUint (4 * (k / 4) + i)) <$> seqZ 0 (k mod 4 + 1)) as Hnext.
  { rewrite seqZ_app, fmap_app, Hbuf by lia. f_equal. rewrite seqZ_cons by lia. cbn -[Z.mul Z.add Z.div Z.modulo seqZ].
    change (seqZ (Z.succ (0 + k mod 4)) (Z.pred 1)) with (@nil Z). cbn -[Z.mul Z.add Z.div Z.modulo]. do 2 f_equal. lia. }
  destruct (Z.eqb_spec (k mod 4) 3) as [E|E].
  - rewrite E in *. replace (3 + 1 <? 4) with false by done. rewrite Hnext.
    change ((fun i => FormatUint (4 * (k / 4) + i)) <$> seqZ 0 (3 + 1)) with (block_payloads (k / 4)).
    rewrite generateParity_payloads. cbn [mbind res_bind]. unfold xor.flushEncoder.
    cbn [xor.Encoder.config xor.Encoder.blockID]. rewrite make_buffer_Ok by (vm_compute; congruence).
    cbn [mbind res_bind]. eexists. split; [done|]. rewrite int64_small by lia.
    assert ((k + 1) / 4 = k / 4 + 1 /\ (k + 1) mod 4 = 0) as [E1 E2] by (Z.div_mod_to_equations; lia).
    unfold encoder_at. by rewrite E1, E2.
  - replace (k mod 4 + 1 <? 4) with true by lia. eexists. split; [done|].
    assert ((k + 1) / 4 = k / 4 /\ (k + 1) mod 4 = k mod 4 + 1) as [E1 E2] by (Z.div_mod_to_equations; lia).
    unfold encoder_at. by rewrite E1, E2.
Qed.

Lemma send_wrapped text o (p : publisher_t) :
  pub_ok (XORCounterPublisher.publisher p) -> sendable o ->
  exists r q, CounterPublisher.wrap_error text (XORCounterPublisher.on_publisher (SendDatagram o)) p =
    Ok (r, XORCounterPublisher.mk q (XORCounterPublisher.encoder p) (XORCounterPublisher.sessionID p)
      (XORCounterPublisher.requestID p) (XORCounterPublisher.counter p) (XORCounterPublisher.groupID p)
      (XORCounterPublisher.run p)) /\ pub_ok q /\
    published q = published (XORCounterPublisher.publisher p) ++
      match r with Ret _ => [received o] | Error _ => [] end.
Proof.
  intros Hp Ho. destruct (SendDatagram_returns o _ Hp Ho) as (r & q & E & Hq & Hpub).
  unfold CounterPublisher.wrap_error, XORCounterPublisher.on_publisher, gm_bind, attempt. rewrite E.
  destruct r as [[]|e]; cbn; eexists _, q; done.
Qed.

(** One number: all of its packets are sent, or the call fails after some. *)
Lemma publishNext_at k (p : publisher_t) :
  0 <= k < 2 ^ 61 -> publisher_at k p -> pub_ok (XORCounterPublisher.publisher p) ->
  exists r p' l, XORCounterPublisher.publishNext p = Ok (r, p') /\
    pub_ok (XORCounterPublisher.publisher p') /\
    published (XORCounterPublisher.publisher p') = published (XORCounterPublisher.publisher p) ++ l /\
    l `prefix_of` packets_of k /\ (r = Ret tt -> l = packets_of k /\ publisher_at (k + 1) p').
Proof.
  intros Hk (Hc & Hg & He) Hp. destruct (TryEncode_at k _ Hk He) as (e' & Henc & He').
  unfold XORCounterPublisher.publishNext, XORCounterPublisher.take_numbers. unfold gm_bind at 1.
  rewrite Hc, Hg, !uint64_small by lia. unfold gm_bind at 1, XORCounterPublisher.encode at 1.
  cbn [XORCounterPublisher.encoder XORCounterPublisher.publisher XORCounterPublisher.sessionID
    XORCounterPublisher.requestID XORCounterPublisher.counter XORCounterPublisher.groupID
    XORCounterPublisher.run].
  rewrite Henc. set (p1 := XORCounterPublisher.mk _ _ _ _ _ _ _).
  set (o := Object.mk k 0 _ k _). unfold gm_bind at 1.
  assert (maxVarInt = 2 ^ 62 - 1) as Hmax by done.
  destruct (send_wrapped (str "failed to send data packet") o p1) as (r & q & E & Hq & Hpub);
    [done|unfold sendable; cbn; lia|]. rewrite E. cbn [XORCounterPublisher.publisher p1] in Hpub.
  destruct r as [[]|er].
  2: { eexists _, _, []. split; [done|]. split_and!; [done|by rewrite app_nil_r in *|apply prefix_nil|done]. }
  change (received o) with (data_object k) in Hpub. unfold packets_of.
  destruct (k mod 4 =? 3) eqn:E4.
  - set (p2 := XORCounterPublisher.mk _ _ _ _ _ _ _). cbv zeta.
    set (o2 := Object.mk (k + 1000) 0 _ _ _).
    destruct (send_wrapped (str "failed to send parity packet") o2 p2) as (r2 & q2 & E2 & Hq2 & Hpub2);
      [done|unfold sendable; cbn; lia|]. rewrite E2. cbn [XORCounterPublisher.publisher p2] in Hpub2.
    rewrite Hpub in Hpub2.
    assert (received o2 = parity_object (k / 4)) as Ho2.
    { subst o2. unfold parity_object. replace (4 * (k / 4) + 3 + 1000) with (k + 1000)
        by (Z.div_mod_to_equations; lia). done. }
    rewrite Ho2, <- app_assoc in Hpub2.
    destruct r2 as [[]|er2]; (eexists _, _, _; split; [done|]; split_and!; [done|exact Hpub2| |done]);
      [done|by exists [parity_object (k / 4)]].
  - eexists _, _, _. split; [done|]. split_and!; [done|exact Hpub|done|done].
Qed.

Lemma stream_from_S k n : stream_from k (S n) = packets_of k ++ stream_from (k + 1) n.
Proof. unfold stream_from. rewrite seqZ_cons by lia. cbn. by replace (Z.pred (Z.of_nat (S n))) with (Z.of_nat n) by lia. Qed.

Lemma ticks_at n k (p : publisher_t) :
  0 <= k -> k + Z.of_nat n <= 2 ^ 61 -> publisher_at k p -> pub_ok (XORCounterPublisher.publisher p) ->
  exists r p' l, select_loop XORCounterPublisher.publishNext (replicate n Tick) p = Ok (r, p') /\
    pub_ok (XORCounterPublisher.publisher p') /\
    published (XORCounterPublisher.publisher p') = published (XORCounterPublisher.publisher p) ++ l /\
    l `prefix_of` stream_from k n /\ (forall b, r = Ret b -> b = false /\ l = stream_from k n).
Proof.
  revert k p. induction n as [|n IH]; intros k p Hk Hn Hat Hp.
  - exists (Ret false), p, []. split_and!; [done|done|by rewrite app_nil_r|done|]. by intros b [= <-].
  - destruct (publishNext_at k p ltac:(lia) Hat Hp) as (r & p1 & l1 & E1 & Hp1 & Hpub1 & Hl1 & Hr1).
    cbn [replicate select_loop]. unfold gm_bind at 1. rewrite E1, stream_from_S. destruct r as [[]|e].
    + destruct (Hr1 eq_refl) as [-> Hat1].
      destruct (IH (k + 1) p1) as (r & p2 & l2 & E2 & Hp2 & Hpub2 & Hl2 & Hr2); [lia|lia|done|done|].
      rewrite Hpub1, <- app_assoc in Hpub2.
      exists r, p2, (packets_of k ++ l2). split_and!; [done|done|done|by apply prefix_app|].
      intros b Hb. destruct (Hr2 b Hb) as [-> ->]. done.
    + exists (Error e), p1, l1. split_and!; [done|done|done| |done]. by apply prefix_app_r.
Qed.

(** C20: What a publisher sends.  Started with [n] ticks to come, at most 2^61, it sends to any
    publisher that keeps what the interface promises, and whatever datagrams
    fail: nothing panics, what the track of the peer is given is the stream of
    the numbers from 0 on -- each with the ID of its block, its place in the
    block, from 1 to 4, and its digits, every fourth followed by the parity of its
    block -- or a prefix of it, and it is the whole stream unless Start returned an
    error.  So 5 has the place 2 in the block 1, and 7 the place 4, where the README
    of the example shows 1 and 3. *)
Theorem counter_stream_published (pub : P) sid rid n :
  pub_ok pub -> Z.of_nat n <= 2 ^ 61 ->
  exists p0 r p' l, XORCounterPublisher.NewXORPublisher pub sid rid = Ok p0 /\
    XORCounterPublisher.Start (replicate n Tick) p0 = Ok (r, p') /\
    published (XORCounterPublisher.publisher p') = published pub ++ l /\
    l `prefix_of` stream n /\ (forall b, r = Ret b -> b = false /\ l = stream n).
Proof.
  intros Hp Hn. set (e := xor.Encoder.mk xor_config 0 0 []).
  exists (XORCounterPublisher.mk pub e sid rid 0 0 Runner.new).
  set (p0 := XORCounterPublisher.mk pub e sid rid 0 0 (Runner.mk true false)).
  destruct (ticks_at n 0 p0) as (r & p' & l & E & _ & H); [done|lia|done|done|].
  exists r, p', l. split; [done|]. split; [exact E|exact H].
Qed.

(** With a publisher that accepts every object, all ticks succeed. *)
Section Accepted.
Context (accepts : P -> Prop).
Context (Hall : forall o q, sendable o -> accepts q -> exists q', SendDatagram o q = Ok (Ret tt, q') /\ accepts q').

Lemma send_accepted text o (p : publisher_t) :
  accepts (XORCounterPublisher.publisher p) -> sendable o ->
  exists q, CounterPublisher.wrap_error text (XORCounterPublisher.on_publisher (SendDatagram o)) p =
    Ok (Ret tt, XORCounterPublisher.mk q (XORCounterPublisher.encoder p) (XORCounterPublisher.sessionID p)
      (XORCounterPublisher.requestID p) (XORCounterPublisher.counter p) (XORCounterPublisher.groupID p)
      (XORCounterPublisher.run p)) /\ accepts q.
Proof.
  intros Hp Ho. destruct (Hall o _ Ho Hp) as (q & E & Hq).
  unfold CounterPublisher.wrap_error, XORCounterPublisher.on_publisher, gm_bind, attempt. rewrite E. by exists q.
Qed.

Lemma publishNext_accepted k (p : publisher_t) :
  0 <= k < 2 ^ 61 -> publisher_at k p -> accepts (XORCounterPublisher.publisher p) ->
  exists p', XORCounterPublisher.publishNext p = Ok (Ret tt, p') /\ publisher_at (k + 1) p' /\
    accepts (XORCounterPublisher.publisher p').
Proof.
  intros Hk (Hc & Hg & He) Hp. destruct (TryEncode_at k _ Hk He) as (e' & Henc & He').
  unfold XORCounterPublisher.publishNext, XORCounterPublisher.take_numbers. unfold gm_bind at 1.
  rewrite Hc, Hg, !uint64_small by lia. unfold gm_bind at 1, XORCounterPublisher.encode at 1.
  cbn [XORCounterPublisher.encoder XORCounterPublisher.publisher XORCounterPublisher.sessionID
    XORCounterPublisher.requestID XORCounterPublisher.counter XORCounterPublisher.groupID
    XORCounterPublisher.run].
  rewrite Henc. set (p1 := XORCounterPublisher.mk _ _ _ _ _ _ _).
  set (o := Object.mk k 0 _ k _). unfold gm_bind at 1.
  assert (maxVarInt = 2 ^ 62 - 1) as Hmax by done.
  destruct (send_accepted (str "failed to send data packet") o p1) as (q & E & Hq);
    [done|unfold sendable; cbn; lia|]. rewrite E.
  destruct (k mod 4 =? 3) eqn:E4; [|by eexists].
  set (p2 := XORCounterPublisher.mk _ _ _ _ _ _ _). cbv zeta. set (o2 := Object.mk (k + 1000) 0 _ _ _).
  destruct (send_accepted (str "failed to send parity packet") o2 p2) as (q2 & E2 & Hq2);
    [done|unfold sendable; cbn; lia|]. rewrite E2. by eexists.
Qed.

Lemma ticks_accepted n k (p : publisher_t) :
  0 <= k -> k + Z.of_nat n <= 2 ^ 61 -> publisher_at k p -> accepts (XORCounterPublisher.publisher p) ->
  exists p', select_loop XORCounterPublisher.publishNext (replicate n Tick) p = Ok (Ret false, p').
Proof.
  revert k p. induction n as [|n IH]; intros k p Hk Hn Hat Hp; [by eexists|].
  destruct (publishNext_accepted k p ltac:(lia) Hat Hp) as (p1 & E1 & Hat1 & Hp1).
  cbn [replicate select_loop]. unfold gm_bind at 1. rewrite E1. apply (IH (k + 1)); [lia|lia|done|done].
Qed.

End Accepted.

End Publishing.

(** ** At concrete inputs *)

Lemma metadata_roundtrip_witness :
  unwrapMetadata (wrapWithMetadata [byte.of_Z 52] (- 2 ^ 31) (-1) true) =
    Ret (- 2 ^ 31, -1, true, [byte.of_Z 52]).
Proof. apply metadata_roundtrip; vm_compute; split; congruence. Defined.

(** The writer of a subscription with the alias 7; the connection refuses the
    sixth datagram. *)
Definition ex_writer : SubscribeResponseWriter.t := SubscribeResponseWriter.mk 0 7 0 true.
Definition ex_session : Session.t :=
  Session.set_localHeap [localTrack.newLocalTrack 0 7 true]
    (new_session PerspectiveServer ProtocolQUIC [] 100).
Definition ex_answers : list (option error) := [None; None; None; None; None; Some (errTransport 1)].

Lemma ex_writer_ok answers : writer_ok ex_writer 7 (writer_state.mk ex_session answers []).
Proof. split; [vm_compute; split; congruence|]. split; [constructor|]. by eexists. Defined.

Lemma counter_stream_published_witness :
  let pub := writer_state.mk ex_session ex_answers [] in
  exists p0 r p' l,
    @XORCounterPublisher.NewXORPublisher writer_state.t pub 1 0 = Ok p0 /\
    @XORCounterPublisher.Start writer_state.t (writer_publisher ex_writer) (replicate 7 Tick) p0 = Ok (r, p') /\
    omap (received_datagram 7) (writer_state.wire (XORCounterPublisher.publisher p')) = l /\
    l `prefix_of` stream 7 /\ (forall b, r = Ret b -> b = false /\ l = stream 7).
Proof.
  intros pub. destruct (@counter_stream_published writer_state.t (writer_publisher ex_writer)
    (writer_publisher_laws ex_writer 7) pub 1 0 7) as (p0 & r & p' & l & H1 & H2 & H3 & H4 & H5).
  - apply ex_writer_ok.
  - vm_compute. congruence.
  - exists p0, r, p', l. split; [exact H1|]. split; [exact H2|]. split; [exact H3|]. split; [exact H4|exact H5].
Defined.
