(* ===== verification/XorCounterLoss.v ===== *)
(** The subscriber of the counter application with FEC when packets are lost:
    what it prints and counts for the packets of a block, and for the stream of
    a publisher. *)

From Stdlib Require Import String.
From S2P Require Import Prelude VarInt Codec WireTypes Objects Errors State.
From S2P Require Import Tracks SessionState Session Xor Publishers Strconv Counter XorCounter XorCounterStream.
Local Open Scope Z_scope.

Module Sub := XORCounterSubscriber.

(** * One packet *)

(** The payload of the datagram of a packet. *)
Definition arrival_payload (b : Z) (a : arrival) : list byte :=
  match a with
  | Data seq payload => wrapWithMetadata payload b seq false
  | Parity payload => wrapWithMetadata payload b (-1) true
  end.
Definition seq_of (a : arrival) : Z := match a with Data seq _ => seq | Parity _ => -1 end.
Definition carries (b : Z) (a : arrival) (o : Object.t) : Prop :=
  Object.Payload o = arrival_payload b a /\ - 2 ^ 31 <= seq_of a < 2 ^ 31.

(** The line printed for a packet of which the decoder made [out]. *)
Definition line_of (b : Z) (a : arrival) (out : option (list byte) * bool) : option log_line :=
  match out.1 with
  | Some payload =>
      match parseCounterValue payload with
      | Ret v => Some (line v b (seq_of a) out.2)
      | Error _ => None
      end
  | None => None
  end.
Definition lines_of (b : Z) (l : list arrival) (outs : list (option (list byte) * bool)) : list log_line :=
  omap (fun '(a, out) => line_of b a out) (zip l outs).

(** The counters agree with the lines printed. *)
Definition tallied (s : Sub.t) : Prop :=
  Sub.lastReceived s = match last (Sub.printed s) with Some l => counterValue l | None => 0 end /\
  Sub.totalReceived s = uint64 (len (Sub.printed s)) /\
  Sub.recoveredCount s = uint64 (len (filter (fun l => recovered l = true) (Sub.printed s))).

Section Packets.
Context {MR : MapRange}.

(** The decoder looks at and changes one block. *)
Lemma decode_local b a d d' :
  xor.Decoder.config d = xor.Decoder.config d' -> xor.Decoder.blocks d !! b = xor.Decoder.blocks d' !! b ->
  let '(p, r, e) := decode b a d in let '(p', r', e') := decode b a d' in
  p = p' /\ r = r' /\ xor.Decoder.config e = xor.Decoder.config e' /\
  xor.Decoder.blocks e !! b = xor.Decoder.blocks e' !! b /\
  xor.Decoder.config e = xor.Decoder.config d /\
  forall k, k <> b -> xor.Decoder.blocks e !! k = xor.Decoder.blocks d !! k.
Proof.
  intros Hc Hb.
  destruct a as [seq payload|payload]; cbn [decode]; unfold xor.TryDecode; rewrite <- Hc, <- Hb;
    set (block := xor.store _ _ _ _); destruct (xor.Block.receivedData block =? xor.Block.size block);
    [|destruct (if _ : bool then _ else None) as [rec|]| |destruct (if _ : bool then _ else None) as [rec|]];
    cbn [negb]; split_and!; try done; cbn [xor.set_blocks xor.Decoder.blocks];
    rewrite ?lookup_delete_eq, ?lookup_insert_eq; try done;
    intros k Hk; rewrite ?lookup_delete_ne, ?lookup_insert_ne by done; done.
Qed.

Lemma decode_config b a d : xor.Decoder.config (decode b a d).2 = xor.Decoder.config d.
Proof.
  pose proof (decode_local b a d d eq_refl eq_refl) as H. destruct (decode b a d) as [[p r] e].
  by destruct H as (_ & _ & _ & _ & ? & _).
Qed.

Lemma cleanup_blocks b d k :
  - 2 ^ 31 <= b < 2 ^ 31 ->
  (is_Some (xor.Decoder.blocks (xor.CleanupOldBlocks b d) !! k) -> is_Some (xor.Decoder.blocks d !! k)) /\
  (b - 10 <= k -> xor.Decoder.blocks (xor.CleanupOldBlocks b d) !! k = xor.Decoder.blocks d !! k).
Proof.
  intros Hb. unfold xor.CleanupOldBlocks. cbn [xor.set_blocks xor.Decoder.blocks]. split.
  - intros [x Hx]. apply map_lookup_filter_Some in Hx as [Hx _]. by exists x.
  - intros Hk. rewrite int64_small by lia.
    destruct (xor.Decoder.blocks d !! k) as [x|] eqn:E.
    + apply map_lookup_filter_Some. split; [done|]. cbn. lia.
    + apply map_lookup_filter_None. by left.
Qed.

(** What the packets of a block leave of a decoder: the other blocks, but for those
    that are forgotten, which are more than ten blocks back. *)
Definition keeps_to (b : Z) (s s' : Sub.t) : Prop :=
  xor.Decoder.config (Sub.decoder s') = xor.Decoder.config (Sub.decoder s) /\
  (forall k, k <> b -> is_Some (xor.Decoder.blocks (Sub.decoder s') !! k) ->
     is_Some (xor.Decoder.blocks (Sub.decoder s) !! k)) /\
  (forall k, k <> b -> b - 10 <= k ->
     xor.Decoder.blocks (Sub.decoder s') !! k = xor.Decoder.blocks (Sub.decoder s) !! k).

Lemma tallied_count l s : tallied s -> tallied (Sub.count l s).
Proof.
  intros (H1 & H2 & H3). unfold tallied, Sub.count.
  cbn [Sub.lastReceived Sub.totalReceived Sub.recoveredCount Sub.printed].
  rewrite last_snoc, list.filter_app, !len_app, H2, H3. split_and!; [done|by rewrite uint64_add_l|].
  cbn. destruct (recovered l) eqn:E; cbn.
  - rewrite decide_True by done. by rewrite uint64_add_l.
  - rewrite decide_False by done. by rewrite Z.add_0_r.
Qed.

Lemma tallied_cleanup b s : tallied s -> tallied (Sub.cleanup b s).
Proof. unfold Sub.cleanup. by destruct (_ =? 0). Qed.

(** One packet: the subscriber prints what the decoder makes of it. *)
Lemma processObject_arrival b a o d s :
  - 2 ^ 31 <= b < 2 ^ 31 -> carries b a o -> tallied s ->
  xor.Decoder.config d = xor.Decoder.config (Sub.decoder s) ->
  xor.Decoder.blocks d !! b = xor.Decoder.blocks (Sub.decoder s) !! b ->
  exists r s', Sub.processObject o s = Ok (r, s') /\ tallied s' /\ keeps_to b s s' /\
    let '(p, rec, e) := decode b a d in
    Sub.printed s' = Sub.printed s ++ option_list (line_of b a (p, rec)) /\
    xor.Decoder.blocks e !! b = xor.Decoder.blocks (Sub.decoder s') !! b.
Proof.
  intros Hb [Ho Hseq] Ht Hc Hbl. unfold Sub.processObject.
  assert (unwrapMetadata (Object.Payload o) = Ret (b, seq_of a,
    match a with Data _ _ => false | Parity _ => true end, match a with Data _ p => p | Parity p => p end)) as ->.
  { rewrite Ho. destruct a; apply unwrap_wrap; cbn in *; lia. }
  assert (xor.TryDecode b (seq_of a) (match a with Data _ p => p | Parity p => p end)
    (match a with Data _ _ => false | Parity _ => true end) (Sub.decoder s) = decode b a (Sub.decoder s)) as ->
    by (by destruct a).
  pose proof (decode_local b a (Sub.decoder s) d (eq_sym Hc) (eq_sym Hbl)) as Hloc.
  destruct (decode b a d) as [[p rec] e], (decode b a (Sub.decoder s)) as [[p' rec'] e'].
  destruct Hloc as (-> & -> & _ & Hbe & Hce & Hoth). unfold line_of. cbn [fst snd].
  set (s1 := Sub.set_decoder e' s).
  assert (tallied s1) as Ht1 by done.
  assert (keeps_to b s s1) as Hk1
    by (split; [done|split; intros k Hk; cbn; [by rewrite Hoth|intros _; by apply Hoth]]).
  destruct p as [payload|]; [|by exists (Ret tt), s1; rewrite app_nil_r].
  unfold Sub.process_payload. destruct (parseCounterValue payload) as [v|er];
    [|by eexists _, s1; rewrite app_nil_r].
  set (l := line v b (seq_of a) rec). exists (Ret tt), (Sub.cleanup b (Sub.count l s1)).
  split; [done|]. split; [by apply tallied_cleanup, tallied_count|].
  unfold Sub.cleanup. destruct (_ =? 0); [|done].
  destruct (cleanup_blocks b e' b Hb) as [_ Hcb]. specialize (Hcb ltac:(lia)).
  split; [split; [done|split]|split; [done|by rewrite <- Hbe, <- Hcb]]; intros k Hk Hs; cbn in Hs |- *.
  - apply (cleanup_blocks b e' k Hb) in Hs. by apply Hk1.
  - transitivity (xor.Decoder.blocks e' !! k); [by apply (cleanup_blocks b e' k Hb)|by apply Hoth].
Qed.

Lemma keeps_to_trans b s1 s2 s3 : keeps_to b s1 s2 -> keeps_to b s2 s3 -> keeps_to b s1 s3.
Proof.
  intros (H1 & H2 & H3) (H4 & H5 & H6). split; [congruence|]. split; intros k Hk Hs; [auto|].
  by rewrite H6, H3.
Qed.

(** The packets of a block. *)
Lemma processObjects_arrivals b l objs d s :
  - 2 ^ 31 <= b < 2 ^ 31 -> Forall2 (carries b) l objs -> tallied s ->
  xor.Decoder.config d = xor.Decoder.config (Sub.decoder s) ->
  xor.Decoder.blocks d !! b = xor.Decoder.blocks (Sub.decoder s) !! b ->
  exists s', Sub.processObjects objs s = Ok s' /\ tallied s' /\ keeps_to b s s' /\
    let '(outs, e) := decode_all b l d in
    Sub.printed s' = Sub.printed s ++ lines_of b l outs /\
    xor.Decoder.blocks e !! b = xor.Decoder.blocks (Sub.decoder s') !! b.
Proof.
  intros Hb Hl. revert d s. induction Hl as [|a o l objs Ha Hl IH]; intros d s Ht Hc Hbl.
  - exists s. cbn. rewrite app_nil_r. split_and!; [done|done|by split|done|done].
  - destruct (processObject_arrival b a o d s Hb Ha Ht Hc Hbl) as (r & s1 & E1 & Ht1 & Hk1 & H1).
    pose proof (decode_config b a d) as Hcd. cbn [decode_all Sub.processObjects]. rewrite E1.
    destruct (decode b a d) as [[p rec] e]. destruct H1 as [Hp1 Hb1]. cbn [snd] in Hcd.
    destruct (IH e s1 Ht1) as (s2 & E2 & Ht2 & Hk2 & H2); [by rewrite (proj1 Hk1), Hcd|done|].
    exists s2. cbn [mbind res_bind]. rewrite E2. destruct (decode_all b l e) as [outs e2].
    destruct H2 as [Hp2 Hb2]. split_and!; [done|done|by eapply keeps_to_trans| |done].
    rewrite Hp2, Hp1, <- app_assoc. f_equal. unfold lines_of. cbn.
    by destruct (line_of b a (p, rec)).
Qed.

End Packets.

(** * A block of the stream *)

(** The packets of the block [b], and the object each travels in. *)
Definition is_packet (b : Z) (a : arrival) : Prop :=
  exists i, 0 <= i < 4 /\ a = Data (i + 1) (FormatUint (4 * b + i)).
Definition object_of_arrival (b : Z) (a : arrival) : Object.t :=
  match a with Data seq _ => data_object (4 * b + seq - 1) | Parity _ => parity_object b end.

Definition data_objects (b : Z) : list Object.t := (fun i => data_object (4 * b + i)) <$> [0; 1; 2; 3].
Definition block_objects (b : Z) : list Object.t := data_objects b ++ [parity_object b].

Section Block.
Context {MR : MapRange}.

Lemma is_packet_carries b a :
  is_packet b a -> carries b a (object_of_arrival b a).
Proof.
  intros (i & Hi & ->). unfold carries. cbn [seq_of object_of_arrival]. split; [|lia].
  replace (4 * b + (i + 1) - 1) with (4 * b + i) by lia.
  unfold data_object, received. cbn [Object.Payload arrival_payload].
  by replace ((4 * b + i) / 4) with b by (Z.div_mod_to_equations; lia);
    replace ((4 * b + i) mod 4) with i by (Z.div_mod_to_equations; lia).
Qed.

Lemma block_packets b : Forall (is_packet b) (data_packets (block_payloads b)).
Proof.
  unfold data_packets, block_payloads. cbn -[Z.mul Z.add].
  repeat constructor; [exists 0|exists 1|exists 2|exists 3]; (split; [lia|done]).
Qed.

Lemma data_objects_arrivals b :
  data_objects b = object_of_arrival b <$> data_packets (block_payloads b).
Proof.
  unfold data_objects, data_packets, block_payloads, compose.
  cbn -[Z.mul Z.add Z.sub data_object Z.of_nat]. repeat f_equal; lia.
Qed.

Lemma stream_blocks N k :
  stream_from (4 * k) (4 * N) = concat (block_objects <$> seqZ k (Z.of_nat N)).
Proof.
  revert k. induction N as [|N IH]; intros k; [done|].
  replace (4 * S N)%nat with (S (S (S (S (4 * N))))) by lia.
  rewrite !stream_from_S. rewrite seqZ_cons by lia. cbn [fmap list_fmap concat].
  replace (Z.pred (Z.of_nat (S N))) with (Z.of_nat N) by lia.
  replace (4 * k + 1 + 1 + 1 + 1) with (4 * Z.succ k) by lia. rewrite IH.
  unfold packets_of, block_objects, data_objects. cbn [fmap list_fmap].
  replace ((4 * k) mod 4 =? 3) with false by (Z.div_mod_to_equations; lia).
  replace ((4 * k + 1) mod 4 =? 3) with false by (Z.div_mod_to_equations; lia).
  replace ((4 * k + 1 + 1) mod 4 =? 3) with false by (Z.div_mod_to_equations; lia).
  replace ((4 * k + 1 + 1 + 1) mod 4 =? 3) with true by (Z.div_mod_to_equations; lia).
  replace ((4 * k + 1 + 1 + 1) / 4) with k by (Z.div_mod_to_equations; lia).
  replace (4 * k + 1 + 1 + 1) with (4 * k + 3) by lia. replace (4 * k + 1 + 1) with (4 * k + 2) by lia.
  by rewrite Z.add_0_r.
Qed.

(** The numbers of a block, but for one, have the same number of digits, as a
    power of ten beyond 10 is divisible by 4. *)
Lemma block_lengths b i j :
  0 <= b < 2 ^ 31 -> 0 <= i < 4 -> 0 <= j < 4 -> (b = 2 -> 2 <= j) ->
  (length (FormatUint (4 * b + i)) <= length (FormatUint (4 * b + j)))%nat.
Proof.
  intros Hb Hi Hj H2. destruct (Nat.le_gt_cases (length (FormatUint (4 * b + i)))
    (length (FormatUint (4 * b + j)))) as [|Hgt]; [done|exfalso].
  assert (maxUint64 = 2 ^ 64 - 1) as Hmax by done.
  destruct (Z.le_gt_cases i j) as [Hij|Hij].
  - destruct (FormatUint_longer (4 * b + i) (4 * b + j)) as [H _]; lia.
  - destruct (FormatUint_longer (4 * b + j) (4 * b + i)) as (_ & k & Hk1 & Hk2); [lia|lia|lia|].
    destruct k as [|k].
    + change (10 ^ Z.of_nat 1) with 10 in *. lia.
    + rewrite !Nat2Z.inj_succ, !Z.pow_succ_r in * by lia.
      set (p := 10 ^ Z.of_nat k) in *. lia.
Qed.

Lemma lost_unpadded b j lost :
  0 <= b < 2 ^ 31 -> block_payloads b !! j = Some lost -> (b = 2 -> (2 <= j)%nat) ->
  lost = FormatUint (4 * b + Z.of_nat j) /\ (j < 4)%nat /\
  (xor.maxLen (block_payloads b) - length lost = 0)%nat.
Proof.
  intros Hb Hj H2. assert (j < 4)%nat as Hlt by (by apply lookup_lt_Some in Hj).
  assert (lost = FormatUint (4 * b + Z.of_nat j)) as ->.
  { unfold block_payloads in Hj. do 4 (destruct j as [|j]; [by injection Hj as <-|]). lia. }
  split; [done|]. split; [done|].
  enough (xor.maxLen (block_payloads b) <= length (FormatUint (4 * b + Z.of_nat j)))%nat by lia.
  unfold block_payloads. cbn [fmap list_fmap]. rewrite !maxLen_cons.
  change (xor.maxLen []) with 0%nat.
  repeat apply Nat.max_lub; try (apply block_lengths; lia). lia.
Qed.

(** What is printed for packets that are delivered as they are. *)
Lemma plain_line b a :
  0 <= b < 2 ^ 31 -> is_packet b a ->
  line_of b a (plain a) = Some (line (4 * b + seq_of a - 1) b (seq_of a) false).
Proof.
  intros Hb (i & Hi & ->). unfold line_of. cbn [plain fst snd seq_of].
  rewrite parse_formatted by lia. do 2 f_equal. lia.
Qed.

Lemma plain_lines b l :
  0 <= b < 2 ^ 31 -> Forall (is_packet b) l ->
  lines_of b l (map plain l) = (fun a => line (4 * b + seq_of a - 1) b (seq_of a) false) <$> l.
Proof.
  intros Hb. unfold lines_of. induction 1 as [|a l Ha Hl IH]; [done|]. cbn [map zip zip_with omap list_omap].
  rewrite plain_line by done. cbn. by rewrite IH.
Qed.

Lemma lines_of_app b l1 l2 o1 o2 :
  length l1 = length o1 -> lines_of b (l1 ++ l2) (o1 ++ o2) = lines_of b l1 o1 ++ lines_of b l2 o2.
Proof. intros H. unfold lines_of. by rewrite zip_with_app, omap_app. Qed.

End Block.

(** * Blocks that lose a packet *)

(** What a network makes of the objects of a block, the last of which is the
    parity: all the data in any order, with or without the parity after it; or
    all but the [j]-th, in any order, and then the parity. *)
Inductive deliver {A} : list A -> option nat -> list A -> Prop :=
  | deliver_data data parity got :
      got ≡ₚ data -> deliver (data ++ [parity]) None got
  | deliver_all data parity got :
      got ≡ₚ data -> deliver (data ++ [parity]) None (got ++ [parity])
  | deliver_but j data parity got :
      (j < length data)%nat -> got ≡ₚ delete j data -> deliver (data ++ [parity]) (Some j) (got ++ [parity]).

(** The same on both sides of a relation. *)
Section Related.
Context {A B : Type} (R : A -> B -> Prop).

Lemma deliver_related blk blk' lost got :
  Forall2 R blk blk' -> deliver blk lost got -> exists got', deliver blk' lost got' /\ Forall2 R got got'.
Proof.
  intros Hb Hd. destruct Hd as [data parity g Hg|data parity g Hg|j data parity g Hj Hg];
    apply Forall2_app_inv_l in Hb as (data' & l & Hd & Hl & ->);
    inversion Hl as [|? parity' ? ? Hp Hnil]; subst; inversion Hnil; subst.
  - apply (Permutation_Forall2 (symmetry Hg)) in Hd as (g' & Hg' & Hr).
    exists g'. split; [by apply deliver_data|done].
  - apply (Permutation_Forall2 (symmetry Hg)) in Hd as (g' & Hg' & Hr).
    exists (g' ++ [parity']). split; [by apply deliver_all|by apply Forall2_app].
  - pose proof (Forall2_length _ _ _ Hd) as Hlen. apply (Forall2_delete _ _ _ j) in Hd.
    apply (Permutation_Forall2 (symmetry Hg)) in Hd as (g' & Hg' & Hr).
    exists (g' ++ [parity']). split; [apply deliver_but; [lia|done]|by apply Forall2_app].
Qed.

Lemma delivers_related blks blks' losts gots :
  Forall2 (Forall2 R) blks blks' -> Forall3 deliver blks losts gots ->
  exists gots', Forall3 deliver blks' losts gots' /\ Forall2 (Forall2 R) gots gots'.
Proof.
  intros Hb H3. revert blks' Hb. induction H3 as [|blk lost got blks losts gots Hd H3 IH]; intros blks' Hb;
    inversion Hb as [|? blk' ? bs' Hr Hb']; subst; [exists []; by repeat constructor|].
  destruct (deliver_related _ _ _ _ Hr Hd) as (got' & Hd' & Hg). destruct (IH _ Hb') as (gots' & H3' & Hg').
  exists (got' :: gots'). by split; constructor.
Qed.

Lemma Forall2_blocks l ls : Forall2 R l (concat ls) -> exists blks, l = concat blks /\ Forall2 (Forall2 R) blks ls.
Proof.
  revert l. induction ls as [|l' ls IH]; intros l H; cbn in H; [inversion H; by exists []|].
  apply Forall2_app_inv_r in H as (l1 & l2 & H1 & H2 & ->). destruct (IH l2 H2) as (blks & -> & Hb).
  exists (l1 :: blks). by split; [|constructor].
Qed.

End Related.

(** A data packet or the parity of the block. *)
Definition carried (b : Z) (a : arrival) : Prop := carries b a (object_of_arrival b a).

Section Delivered.
Context {MR : MapRange}.

Definition from_block (b : Z) (s : Sub.t) : Prop :=
  tallied s /\ xor.Config.BlockSize (xor.Decoder.config (Sub.decoder s)) = 4 /\
  forall k, b <= k -> xor.Decoder.blocks (Sub.decoder s) !! k = None.

Definition plain_lines_of (b : Z) (l : list arrival) : list log_line :=
  (fun a => line (4 * b + seq_of a - 1) b (seq_of a) false) <$> l.

Lemma plain_unrecovered b l : filter (fun l => recovered l = true) (plain_lines_of b l) = [].
Proof. induction l as [|a l IH]; [done|]. cbn. by rewrite decide_False. Qed.

(** Data packets in any order, and what follows them. *)
Lemma arrivals_delivered b data tl outs s e :
  0 <= b < 2 ^ 31 -> from_block b s -> Forall (is_packet b) data -> Forall (carried b) tl ->
  decode_all b (data ++ tl) (Sub.decoder s) = (map plain data ++ outs, e) ->
  exists s', Sub.processObjects (object_of_arrival b <$> data ++ tl) s = Ok s' /\ tallied s' /\
    keeps_to b s s' /\ Sub.printed s' = Sub.printed s ++ plain_lines_of b data ++ lines_of b tl outs.
Proof.
  intros Hb (Ht & Hc & Hbl) Hdata Htl Hdec.
  destruct (processObjects_arrivals b (data ++ tl) (object_of_arrival b <$> data ++ tl) (Sub.decoder s) s)
    as (s' & E & Ht' & Hk' & H); [lia| |done..|].
  { apply Forall2_fmap_r, Forall_Forall2_diag, Forall_app. split; [|done].
    eapply list.Forall_impl; [exact Hdata|]. apply is_packet_carries. }
  rewrite Hdec in H. destruct H as [Hp _].
  rewrite lines_of_app, plain_lines in Hp by (done || by rewrite length_map). by exists s'.
Qed.

Lemma from_next_block b s s' : from_block b s -> tallied s' -> keeps_to b s s' -> from_block (b + 1) s'.
Proof.
  intros (Ht & Hc & Hbl) Ht' (Hc' & Hk' & _). split; [done|]. split; [by rewrite Hc'|]. intros k Hk.
  destruct (xor.Decoder.blocks (Sub.decoder s') !! k) eqn:Ek; [|done].
  destruct (Hk' k) as [x Hx]; [lia|by eexists|]. rewrite Hbl in Hx by lia. done.
Qed.

(** The numbers of the data packets. *)
Definition value_of (b : Z) (a : arrival) : Z := 4 * b + seq_of a - 1.

Lemma block_values b : value_of b <$> data_packets (block_payloads b) = seqZ (4 * b) 4.
Proof.
  unfold data_packets, block_payloads, value_of, compose, seqZ.
  cbn -[Z.mul Z.add Z.sub Z.of_nat]. simpl. repeat f_equal; lia.
Qed.

Lemma got_arrivals b got L :
  got ≡ₚ object_of_arrival b <$> L -> exists l, got = object_of_arrival b <$> l /\ l ≡ₚ L.
Proof. intros H. apply Permutation_map_inv in H as (l & -> & Hl). by exists l. Qed.

Lemma values_fmap b l : counterValue <$> plain_lines_of b l = value_of b <$> l.
Proof. unfold plain_lines_of. by rewrite <- list_fmap_compose. Qed.

Lemma parity_carried b : 0 <= b < 2 ^ 31 -> carried b (Parity (block_parity b)).
Proof. intros Hb. split; [done|cbn; lia]. Qed.

Lemma perm_packets b l L :
  l ≡ₚ L -> Forall (is_packet b) L -> Forall (is_packet b) l.
Proof. intros Hl H. by rewrite Hl. Qed.

Lemma decode_all_config b l d : xor.Decoder.config (decode_all b l d).2 = xor.Decoder.config d.
Proof.
  revert d. induction l as [|a l IH]; intros d; [done|]. cbn [decode_all].
  pose proof (decode_config b a d) as Ha. destruct (decode b a d) as [[p r] e]. cbn in Ha.
  specialize (IH e). destruct (decode_all b l e) as [outs e']. cbn in *. congruence.
Qed.

Lemma lost_line b j lost :
  0 <= b < 2 ^ 31 -> (j < 4)%nat -> lost = FormatUint (4 * b + Z.of_nat j) ->
  lines_of b [Parity (block_parity b)] [(Some lost, true)] = [line (4 * b + Z.of_nat j) b (-1) true].
Proof.
  intros Hb Hj ->. unfold lines_of. cbn [zip zip_with omap list_omap].
  unfold line_of. cbn [fst snd seq_of]. by rewrite parse_formatted by lia.
Qed.

(** What is printed for a block, whatever comes between its packets. *)
Definition block_prints (b : Z) (lost : option nat) (ls : list log_line) : Prop :=
  counterValue <$> ls ≡ₚ seqZ (4 * b) 4 /\
  len (filter (fun l => recovered l = true) ls) = match lost with Some _ => 1 | None => 0 end.

Definition lines_by (b : Z) (l : list arrival) (d : xor.Decoder.t) : list log_line := lines_of b l (decode_all b l d).1.

(** All data packets: the decoder has nothing to add, nor has the parity. *)
Lemma complete_prints b l tl d :
  0 <= b < 2 ^ 31 -> xor.Config.BlockSize (xor.Decoder.config d) = 4 -> xor.Decoder.blocks d !! b = None ->
  l ≡ₚ data_packets (block_payloads b) -> tl = [] \/ tl = [Parity (block_parity b)] ->
  block_prints b None (lines_by b (l ++ tl) d).
Proof.
  intros Hb Hc Hbl Hl Htl. unfold lines_by.
  destruct (xor_block_complete (block_payloads b) d b l) as (e & E & He); [done..|].
  assert (lines_of b (l ++ tl) (decode_all b (l ++ tl) d).1 = plain_lines_of b l) as ->.
  { rewrite decode_all_app, E. pose proof (decode_all_config b l d) as Hce. rewrite E in Hce. cbn [snd] in Hce.
    destruct (decode_prefix b e tl 4) as (e' & E' & _);
      [by rewrite Hce|done|by rewrite He|by destruct Htl as [->| ->]; constructor|by destruct Htl as [->| ->]|].
    rewrite E'. cbn [fst]. rewrite lines_of_app by (by rewrite length_map).
    rewrite plain_lines by (done || by apply (perm_packets b _ _ Hl), block_packets).
    destruct Htl as [->| ->]; cbn; by rewrite app_nil_r. }
  split; [by rewrite values_fmap, Hl, block_values|by rewrite plain_unrecovered].
Qed.

(** All data packets but the [j]-th, and the parity: the line of the lost packet
    comes last. *)
Lemma loss_prints b j lost l d :
  0 <= b < 2 ^ 31 -> xor.Config.BlockSize (xor.Decoder.config d) = 4 -> xor.Decoder.blocks d !! b = None ->
  block_payloads b !! j = Some lost -> (b = 2 -> (2 <= j)%nat) ->
  l ≡ₚ delete j (data_packets (block_payloads b)) ->
  block_prints b (Some j) (lines_by b (l ++ [Parity (block_parity b)]) d).
Proof.
  intros Hb Hc Hbl Hlost H2 Hl. unfold lines_by.
  destruct (lost_unpadded b j lost Hb Hlost H2) as (Hv & Hj4 & Hpad).
  destruct (generateParity_spec (block_payloads b)) as (parity & Hgen & Hlen & Hat); [done|].
  assert (block_parity b = parity) as Hpar by (unfold block_parity; by rewrite Hgen).
  destruct (block_recovers (block_payloads b) d b j lost (block_parity b) l
    (Parity (block_parity b))) as (e & E & _); [done|done|done|done|by rewrite Hpar|by rewrite Hpar| |].
  { by rewrite Hl, Permutation_app_comm. }
  rewrite Hpad, app_nil_r in E. rewrite E. cbn [fst].
  assert (data_packets (block_payloads b) !! j = Some (Data (Z.of_nat j + 1) lost)) as Hpj
    by (unfold data_packets; by rewrite list_lookup_imap, Hlost).
  pose proof (delete_Permutation _ _ _ Hpj) as Hdel. rewrite <- Hl in Hdel.
  pose proof (perm_packets b _ _ (symmetry Hdel) (block_packets b)) as Hpl. apply list.Forall_cons_1 in Hpl as [_ Hpl].
  rewrite lines_of_app, plain_lines, (lost_line b j lost Hb Hj4 Hv) by (done || by rewrite length_map).
  change ((fun a => line (4 * b + seq_of a - 1) b (seq_of a) false) <$> l) with (plain_lines_of b l).
  split; [|by rewrite list.filter_app, plain_unrecovered].
  rewrite fmap_app, values_fmap, <- block_values, Hdel, Permutation_app_comm. cbn -[Z.mul Z.add Z.sub].
  unfold value_of at 2. cbn -[Z.mul Z.add Z.sub].
  by replace (4 * b + (Z.of_nat j + 1) - 1) with (4 * b + Z.of_nat j) by lia.
Qed.

Lemma block_delivered b lost got d :
  0 <= b < 2 ^ 31 -> deliver (block_objects b) lost got ->
  (b = 2 -> lost <> Some 0%nat /\ lost <> Some 1%nat) ->
  xor.Config.BlockSize (xor.Decoder.config d) = 4 -> xor.Decoder.blocks d !! b = None ->
  exists l, Forall2 (carries b) l got /\ block_prints b lost (lines_by b l d).
Proof.
  intros Hb Hd H2 Hc Hbl. remember (block_objects b) as blk eqn:Eblk.
  assert (forall l, Forall (carried b) l -> Forall2 (carries b) l (object_of_arrival b <$> l)) as Hobj
    by (intros l Hl; by apply Forall2_fmap_r, Forall_Forall2_diag).
  assert (forall l, Forall (is_packet b) l -> Forall (carried b) l) as Hcar
    by (intros l Hl; eapply list.Forall_impl; [exact Hl|apply is_packet_carries]).
  assert (Forall2 (carries b) [Parity (block_parity b)] [parity_object b]) as Hpar
    by (constructor; [by apply parity_carried|done]).
  destruct Hd as [data parity got Hg|data parity got Hg|j data parity got Hj Hg];
    unfold block_objects in Eblk; apply app_inj_tail in Eblk as [-> ->];
    rewrite data_objects_arrivals in *.
  - apply got_arrivals in Hg as (l & -> & Hl). exists l.
    split; [by apply Hobj, Hcar, (perm_packets b _ _ Hl), block_packets|].
    rewrite <- (app_nil_r l). apply complete_prints; auto.
  - apply got_arrivals in Hg as (l & -> & Hl). exists (l ++ [Parity (block_parity b)]).
    split; [apply Forall2_app; [by apply Hobj, Hcar, (perm_packets b _ _ Hl), block_packets|done]|].
    apply complete_prints; auto.
  - rewrite <- list_fmap_delete in Hg. rewrite length_fmap in Hj. apply got_arrivals in Hg as (l & -> & Hl).
    destruct (lookup_lt_is_Some_2 (block_payloads b) j) as [lost Hlost];
      [unfold data_packets in Hj; by rewrite length_imap in Hj|].
    exists (l ++ [Parity (block_parity b)]). split.
    + apply Forall2_app; [|done]. apply Hobj, Hcar. pose proof (block_packets b) as Hpk.
      destruct (lookup_lt_is_Some_2 _ _ Hj) as [a Ha]. rewrite (delete_Permutation _ _ _ Ha), <- Hl in Hpk.
      by apply list.Forall_cons_1 in Hpk as [_ ?].
    + apply (loss_prints b j lost); try done.
      intros Hb2. destruct (H2 Hb2). destruct j as [|[|j]]; [done|done|lia].
Qed.

End Delivered.

(** * What the blocks cannot survive *)

Section Losses.
Context {MR : MapRange}.

Lemma parse_padded text n : (0 < n)%nat -> exists e, parseCounterValue (text ++ xor.zeros n) = Error e.
Proof.
  intros Hn. unfold parseCounterValue, xor.zeros. rewrite ParseUint_padded by done.
  destruct (text ++ _); by eexists.
Qed.

(** 8 and 9 cannot be recovered.  When the block of 8, 9, 10 and 11 loses one
    of the two, the other three packets and the parity arrive, in any order but
    with the parity last, and the decoder recovers the digit followed by a zero
    byte: the subscriber reports an invalid counter, prints the three numbers
    only, and has forgotten the block. *)
Theorem short_number_never_recovered s j got :
  from_block 2 s -> (j < 2)%nat -> got ≡ₚ delete j (data_objects 2) ->
  exists s' ls, Sub.processObjects (got ++ [parity_object 2]) s = Ok s' /\ from_block 3 s' /\
    Sub.printed s' = Sub.printed s ++ ls /\ counterValue <$> ls ≡ₚ delete j [8; 9; 10; 11].
Proof.
  intros Hs Hj Hg. pose proof Hs as (Ht & Hc & Hbl). specialize (Hbl 2 ltac:(lia)).
  rewrite data_objects_arrivals, <- list_fmap_delete in Hg. apply got_arrivals in Hg as (l & -> & Hl).
  destruct (lookup_lt_is_Some_2 (block_payloads 2) j) as [lost Hlost]; [cbn; lia|].
  destruct (generateParity_spec (block_payloads 2)) as (parity & Hgen & Hlen & Hat); [done|].
  assert (block_parity 2 = parity) as Hpar by (unfold block_parity; by rewrite Hgen).
  destruct (block_recovers (block_payloads 2) (Sub.decoder s) 2 j lost (block_parity 2) l
    (Parity (block_parity 2))) as (e & E & _); [done|done|done|done|by rewrite Hpar|by rewrite Hpar| |].
  { by rewrite Hl, Permutation_app_comm. }
  assert (length lost = 1%nat) as H1 by (destruct j as [|[|j]]; [by injection Hlost as <-..|lia]).
  change (xor.maxLen (block_payloads 2)) with 2%nat in E. rewrite H1 in E.
  destruct (parse_padded lost (2 - 1)) as [er Her]; [lia|].
  assert (Forall (is_packet 2) l) as Hpl.
  { pose proof (block_packets 2) as Hpk.
    assert (exists a, data_packets (block_payloads 2) !! j = Some a) as [a Ha]
      by (apply lookup_lt_is_Some_2; cbn; lia).
    rewrite (delete_Permutation _ _ _ Ha), <- Hl in Hpk. by apply list.Forall_cons_1 in Hpk as [_ ?]. }
  destruct (arrivals_delivered 2 l [Parity (block_parity 2)] [(Some (lost ++ xor.zeros (2 - 1)), true)] s e
    ltac:(lia) Hs Hpl) as (s' & E2 & Ht' & Hk & Hp); [|exact E|].
  { constructor; [by apply parity_carried|done]. }
  rewrite fmap_app in E2. exists s', (plain_lines_of 2 l).
  split_and!; [done|by apply (from_next_block 2 s s')| |].
  - rewrite Hp. unfold lines_of, line_of. cbn [zip zip_with omap list_omap fst snd].
    rewrite Her. by rewrite app_nil_r.
  - rewrite values_fmap, Hl, list_fmap_delete. by rewrite block_values.
Qed.

(** A parity packet that overtakes the last data packet of its block makes
    the subscriber count a number twice: nothing is lost, but the parity
    completes the block, the number that is still on its way is "recovered", and
    when its packet arrives it starts the block anew and is counted again. *)
Theorem early_parity_counts_twice b s got last :
  0 <= b < 2 ^ 31 -> b <> 2 -> from_block b s -> got ++ [last] ≡ₚ data_objects b ->
  exists s' ls v, Sub.processObjects (got ++ [parity_object b; last]) s = Ok s' /\
    Sub.printed s' = Sub.printed s ++ ls /\ counterValue <$> ls ≡ₚ v :: seqZ (4 * b) 4 /\
    4 * b <= v < 4 * b + 4 /\ len (filter (fun l => recovered l = true) ls) = 1.
Proof.
  intros Hb H2 Hs Hg. pose proof Hs as (Ht & Hc & Hbl). specialize (Hbl b ltac:(lia)).
  pose proof (block_packets b) as Hpk. rewrite data_objects_arrivals in Hg.
  apply got_arrivals in Hg as (la & Hla & Hl). symmetry in Hla.
  apply fmap_app_inv in Hla as (l & [|a [|]] & -> & Hgot & Hlast); try done. rewrite Hgot.
  subst la.
  assert (a ∈ data_packets (block_payloads b)) as Ha by (rewrite <- Hl; apply elem_of_app; right; by left).
  apply list_elem_of_lookup in Ha as [j Hj]. pose proof (delete_Permutation _ _ _ Hj) as Hdel.
  assert (l ≡ₚ delete j (data_packets (block_payloads b))) as Hld.
  { apply (Permutation_cons_inv (a := a)). by rewrite <- Hdel, <- Hl, Permutation_app_comm. }
  destruct (block_payloads b !! j) as [lost|] eqn:Hlost;
    [|by unfold data_packets in Hj; rewrite list_lookup_imap, Hlost in Hj].
  assert (a = Data (Z.of_nat j + 1) lost) as ->
    by (unfold data_packets in Hj; rewrite list_lookup_imap, Hlost in Hj; by injection Hj as <-).
  destruct (lost_unpadded b j lost Hb Hlost) as (Hv & Hj4 & Hpad); [done|].
  destruct (generateParity_spec (block_payloads b)) as (parity & Hgen & Hlen & Hat); [done|].
  assert (block_parity b = parity) as Hpar by (unfold block_parity; by rewrite Hgen).
  destruct (block_recovers (block_payloads b) (Sub.decoder s) b j lost (block_parity b) l
    (Parity (block_parity b))) as (e & E & He); [done|done|done|done|by rewrite Hpar|by rewrite Hpar| |].
  { by rewrite Hld, Permutation_app_comm. }
  rewrite Hpad, app_nil_r in E.
  pose proof (decode_all_config b (l ++ [Parity (block_parity b)]) (Sub.decoder s)) as Hce. rewrite E in Hce. cbn [snd] in Hce.
  set (a := Data (Z.of_nat j + 1) lost) in *.
  destruct (decode_prefix b e [a] 4) as (e' & E' & _);
    [by rewrite Hce|done|by rewrite He|apply NoDup_singleton|done|].
  rewrite <- Hl in Hpk. apply Forall_app in Hpk as [Hpl Hpa]. apply list.Forall_cons_1 in Hpa as [Hpa _].
  destruct (arrivals_delivered b l [Parity (block_parity b); a] [(Some lost, true); plain a] s e' Hb Hs Hpl)
    as (s' & E2 & Ht' & Hk & Hp).
  { constructor; [by apply parity_carried|constructor; [by apply is_packet_carries|done]]. }
  { change (l ++ [Parity (block_parity b); a]) with (l ++ [Parity (block_parity b)] ++ [a]).
    rewrite app_assoc, decode_all_app, E, E'. by rewrite <- app_assoc. }
  exists s', (plain_lines_of b l ++ [line (4 * b + Z.of_nat j) b (-1) true;
    line (4 * b + Z.of_nat j) b (Z.of_nat j + 1) false]), (4 * b + Z.of_nat j).
  rewrite fmap_app in E2. split_and!; [done| | |lia|lia|].
  - rewrite Hp. do 2 f_equal. change [Parity (block_parity b); a] with ([Parity (block_parity b)] ++ [a]).
    change [(Some lost, true); plain a] with ([(Some lost, true)] ++ [plain a]).
    rewrite lines_of_app, (lost_line b j lost) by done. cbn [app]. f_equal.
    change [plain a] with (map plain [a]). rewrite plain_lines by (done || by constructor).
    cbn. do 2 f_equal. lia.
  - rewrite fmap_app, values_fmap, <- block_values, Hdel, <- Hld. cbn -[Z.mul Z.add Z.sub].
    rewrite Permutation_app_comm. cbn -[Z.mul Z.add Z.sub value_of].
    replace (value_of b a) with (4 * b + Z.of_nat j) by (unfold value_of; cbn [seq_of a]; lia). done.
  - by rewrite list.filter_app, plain_unrecovered.
Qed.

End Losses.

(** * Interleaved blocks *)

(** What a network makes of several sequences: it takes an element of one after the
    other, and none of a sequence that has, more than ten places before it, one that
    is not at its end. *)
Inductive interleaves {A} : list (list A) -> list A -> Prop :=
  | interleaves_nil gots : Forall (fun got => got = []) gots -> interleaves gots []
  | interleaves_next gots i x got all :
      gots !! i = Some (x :: got) ->
      (forall k got', (k + 10 < i)%nat -> gots !! k = Some got' -> got' = []) ->
      interleaves (<[i := got]> gots) all -> interleaves gots (x :: all).

(** One sequence after the other. *)
Lemma interleaves_concat {A} (gots : list (list A)) : interleaves gots (concat gots).
Proof.
  assert (forall done gots, Forall (fun got : list A => got = []) done -> interleaves (done ++ gots) (concat gots)) as H;
    [|by apply (H [])].
  clear gots. intros done' gots. revert done'. induction gots as [|got gots IH]; intros done' Hd; cbn.
  { apply interleaves_nil. by rewrite app_nil_r. }
  induction got as [|x got IHgot]; cbn.
  - change ([] :: gots) with ([[]] ++ gots). rewrite app_assoc. apply IH, Forall_app. split; [done|by constructor].
  - apply (interleaves_next _ (length done') x got).
    + by rewrite list_lookup_middle.
    + intros k got' Hk Hg. rewrite lookup_app_l in Hg by lia.
      by apply (proj1 (list.Forall_forall _ _) Hd), (list_elem_of_lookup_2 _ k).
    + rewrite <- (Nat.add_0_r (length done')), insert_app_r. exact IHgot.
Qed.

Lemma interleaves_related {A B} (R : A -> B -> Prop) gots all gots' :
  interleaves gots all -> Forall2 (Forall2 R) gots gots' ->
  exists all', interleaves gots' all' /\ Forall2 R all all'.
Proof.
  intros H. revert gots'. induction H as [gots Hn|gots i x got all Hi Hk H IH]; intros gots' Hg.
  - exists []. split; [|done]. apply interleaves_nil. induction Hg as [|got got' gots gots' Hr Hg IH]; [done|].
    apply list.Forall_cons_1 in Hn as [-> Hn]. constructor; [by inversion Hr|by apply IH].
  - destruct (Forall2_lookup_l _ _ _ _ _ Hg Hi) as (l & Hi' & Hl). inversion Hl as [|? x' ? got' Hx Hr]; subst.
    destruct (IH (<[i:=got']> gots')) as (all' & H' & Ha); [by apply Forall2_insert|].
    exists (x' :: all'). split; [|by constructor]. apply (interleaves_next _ i x' got'); [done| |done].
    intros k l Hki Hkl. destruct (Forall2_lookup_r _ _ _ _ _ Hg Hkl) as (l0 & Hk0 & Hl0).
    rewrite (Hk k l0 Hki Hk0) in Hl0. by inversion Hl0.
Qed.

(** An interleaving of a few sequences, as the places its elements come from. *)
Ltac interleave places :=
  match places with
  | [] => apply interleaves_nil; repeat constructor
  | ?i :: ?l => eapply (interleaves_next _ i); [reflexivity|intros; lia|cbn [insert list_insert]; interleave l]
  end.

Section Interleaved.
Context {MR : MapRange}.

Lemma line_of_block b a out l : line_of b a out = Some l -> blockID l = b.
Proof.
  unfold line_of. destruct out.1 as [payload|]; [|done]. destruct (parseCounterValue payload); [|done].
  by intros [= <-].
Qed.

Lemma lines_by_cons b a l d :
  let '(p, r, e) := decode b a d in lines_by b (a :: l) d = option_list (line_of b a (p, r)) ++ lines_by b l e.
Proof.
  unfold lines_by. cbn [decode_all]. destruct (decode b a d) as [[p r] e]. destruct (decode_all b l e) as [outs e'].
  unfold lines_of. cbn. by destruct (line_of b a (p, r)).
Qed.

(** Whatever the order, the lines of each block are those of its packets: the decoder
    keeps the blocks apart, and forgets none that still has packets to come. *)
Lemma interleaved_lines gots all : interleaves gots all -> forall las (ds : nat -> xor.Decoder.t) s,
  Z.of_nat (length gots) <= 2 ^ 31 -> length las = length gots ->
  (forall k la got, las !! k = Some la -> gots !! k = Some got -> Forall2 (carries (Z.of_nat k)) la got) ->
  tallied s -> (forall k, xor.Decoder.config (ds k) = xor.Decoder.config (Sub.decoder s)) ->
  (forall k a la, las !! k = Some (a :: la) ->
     xor.Decoder.blocks (ds k) !! Z.of_nat k = xor.Decoder.blocks (Sub.decoder s) !! Z.of_nat k) ->
  exists s' L, Sub.processObjects all s = Ok s' /\ tallied s' /\ Sub.printed s' = Sub.printed s ++ L /\
    Forall (fun l => 0 <= blockID l < len las) L /\
    forall k la, las !! k = Some la -> filter (fun l => blockID l = Z.of_nat k) L = lines_by (Z.of_nat k) la (ds k).
Proof.
  induction 1 as [gots Hn|gots i o got all Hi Hfar H IH]; intros las ds s Hmax Hlen Hla Ht Hc Hb.
  - exists s, []. rewrite app_nil_r. split_and!; [done..|]. intros k la Hk.
    destruct (lookup_lt_is_Some_2 gots k) as [got Hg]; [by rewrite <- Hlen; apply lookup_lt_Some in Hk|].
    specialize (Hla k la got Hk Hg). rewrite (proj1 (list.Forall_forall _ _) Hn got) in Hla
      by (by apply list_elem_of_lookup_2 with k). by inversion Hla.
  - destruct (lookup_lt_is_Some_2 las i) as [l Hl]; [by rewrite Hlen; apply lookup_lt_Some in Hi|].
    pose proof (Hla i l _ Hl Hi) as Hr. inversion Hr as [|a ? la ? Ha Hr']; subst.
    pose proof (lookup_lt_Some _ _ _ Hi) as Hlt. set (b := Z.of_nat i) in *.
    destruct (processObject_arrival b a o (ds i) s) as (r & s1 & E1 & Ht1 & (Hk1 & _ & Hk3) & H1);
      [lia|done|done|done|by eapply Hb|].
    pose proof (decode_config b a (ds i)) as Hcd. pose proof (lines_by_cons b a la (ds i)) as Hlines.
    destruct (decode b a (ds i)) as [[p rec] e]. destruct H1 as [Hp1 Hb1]. cbn [snd] in Hcd.
    destruct (IH (<[i := la]> las) (fun k => if decide (k = i) then e else ds k) s1)
      as (s' & L & E & Ht' & Hp & HL & Hf); [by rewrite length_insert|by rewrite !length_insert| |done| | |].
    + intros k l' g Hk Hg. destruct (decide (k = i)) as [->|Hne].
      * rewrite list_lookup_insert_eq in Hk by lia. rewrite list_lookup_insert_eq in Hg by lia.
        by injection Hk as <-; injection Hg as <-.
      * rewrite list_lookup_insert_ne in Hk by done. rewrite list_lookup_insert_ne in Hg by done. by apply Hla.
    + intros k. rewrite Hk1. case_decide; [by rewrite Hcd|done].
    + intros k a' l' Hk. case_decide as Hki; [by subst k|]. rewrite list_lookup_insert_ne in Hk by done.
      rewrite Hk3, (Hb k a' l' Hk); [done|lia|].
      destruct (decide (k + 10 < i)%nat) as [Hlt'|]; [|lia]. exfalso.
      destruct (lookup_lt_is_Some_2 gots k) as [g Hg]; [by rewrite <- Hlen; apply lookup_lt_Some in Hk|].
      specialize (Hla k _ _ Hk Hg). rewrite (Hfar k g Hlt' Hg) in Hla. by inversion Hla.
    + assert (forall l, line_of b a (p, rec) = Some l -> blockID l = b) as Hid by (intros l; apply line_of_block).
      exists s', (option_list (line_of b a (p, rec)) ++ L). cbn [Sub.processObjects]. rewrite E1. cbn [mbind res_bind].
      split; [done|]. split; [done|]. split; [by rewrite Hp, Hp1, app_assoc|]. unfold len in *. rewrite length_insert in HL.
      split.
      * apply Forall_app. split; [|done]. destruct (line_of b a (p, rec)) as [l'|]; [|done]. constructor; [|done].
        rewrite (Hid l' eq_refl). lia.
      * intros k l' Hk. rewrite list.filter_app. destruct (decide (k = i)) as [->|Hne].
        -- rewrite Hl in Hk. injection Hk as <-. rewrite (Hf i la) by (apply list_lookup_insert_eq; lia).
           rewrite decide_True by done. fold b. rewrite Hlines. f_equal.
           destruct (line_of b a (p, rec)) as [l'|]; [|done]. cbn. by rewrite decide_True by (by apply Hid).
        -- rewrite (Hf k l') by (by rewrite list_lookup_insert_ne). rewrite decide_False by done.
           destruct (line_of b a (p, rec)) as [l0|]; [|done]. cbn.
           rewrite decide_False; [done|]. rewrite (Hid l0 eq_refl). unfold b. lia.
Qed.

(** Lines, block by block. *)
Lemma by_blocks losts L :
  Forall (fun l => 0 <= blockID l < len losts) L ->
  (forall b lost, losts !! b = Some lost -> block_prints (Z.of_nat b) lost (filter (fun l => blockID l = Z.of_nat b) L)) ->
  counterValue <$> L ≡ₚ seqZ 0 (4 * len losts) /\
  len (filter (fun l => recovered l = true) L) = len (omap (fun lost => lost) losts).
Proof.
  revert L. induction losts as [|lost losts IH] using rev_ind; intros L HL Hb.
  - destruct L as [|l L]; [done|]. apply list.Forall_cons_1 in HL as [HL _]. change (len _) with 0 in HL. lia.
  - assert (len (losts ++ [lost]) = len losts + 1) as Hlen by (by rewrite len_app).
    rewrite Hlen in HL |- *. set (n := len losts) in *.
    set (P := fun l => blockID l = n). pose proof (filter_app_complement P L) as HP.
    destruct (Hb (length losts) lost) as [Hv Hr]; [by rewrite list_lookup_middle|].
    change (Z.of_nat (length losts)) with n in Hv, Hr. change (filter (fun l => blockID l = n) L) with (filter P L) in Hv, Hr.
    destruct (IH (filter (fun l => ~ P l) L)) as [Hv' Hr'].
    + apply list.Forall_forall. intros l Hl. apply list_elem_of_filter in Hl as [Hn Hl].
      pose proof (proj1 (list.Forall_forall _ _) HL l Hl) as Hl'. cbn in Hl'. unfold P in Hn. lia.
    + intros b x Hx. rewrite list_filter_filter. rewrite (list_filter_iff _ (fun l => blockID l = Z.of_nat b)).
      * apply Hb. by apply lookup_app_l_Some.
      * intros l. apply lookup_lt_Some in Hx. unfold P, n, len. split; [by intros [? _]|]. intros ->. split; [done|lia].
    + pose proof (len_nonneg losts). split.
      * rewrite <- HP, fmap_app, Hv, Hv', Permutation_app_comm.
        replace (4 * (n + 1)) with (4 * n + 4) by lia. rewrite (seqZ_app 0 (4 * n)) by lia. by rewrite Z.add_0_l.
      * assert (len (filter (fun l => recovered l = true) L) =
          len (filter (fun l => recovered l = true) (filter P L ++ filter (fun l => ~ P l) L))) as ->
          by (unfold len; by rewrite HP).
        rewrite list.filter_app, len_app, Hr, Hr', omap_app, len_app. destruct lost; cbn; unfold len; cbn; lia.
Qed.

(** The packets of each block, as what the decoder takes. *)
Lemma blocks_delivered losts gots k d :
  Forall3 deliver (block_objects <$> seqZ k (len losts)) losts gots -> 0 <= k -> k + len losts <= 2 ^ 31 ->
  (forall i lost, losts !! i = Some lost -> k + Z.of_nat i = 2 -> lost <> Some 0%nat /\ lost <> Some 1%nat) ->
  xor.Config.BlockSize (xor.Decoder.config d) = 4 -> (forall b, k <= b -> xor.Decoder.blocks d !! b = None) ->
  exists las, length las = length losts /\
    forall i la lost got, las !! i = Some la -> losts !! i = Some lost -> gots !! i = Some got ->
      Forall2 (carries (k + Z.of_nat i)) la got /\ block_prints (k + Z.of_nat i) lost (lines_by (k + Z.of_nat i) la d).
Proof.
  revert gots k. induction losts as [|lost losts IH]; intros gots k H3 Hk Hmax H2 Hc Hd; [by exists []|].
  rewrite len_cons in *. pose proof (len_nonneg losts). rewrite seqZ_cons in H3 by lia. cbn [fmap list_fmap] in H3.
  replace (Z.pred (1 + len losts)) with (len losts) in H3 by lia.
  inversion H3 as [|? ? got ? ? gots' Hd1 H3']; subst.
  destruct (block_delivered k lost got d) as (la & Hla & Hp); [lia|done| |done|by apply Hd|].
  { intros ->. by apply (H2 0%nat). }
  destruct (IH gots' (Z.succ k)) as (las & Hl & Hall); [done|lia|lia| |done| |].
  { intros i x Hi Hx. apply (H2 (S i) x Hi). lia. }
  { intros b Hb. apply Hd. lia. }
  exists (la :: las). split; [by cbn; rewrite Hl|]. intros [|i] l x g Hli Hxi Hgi; cbn in Hli, Hxi, Hgi.
  - injection Hli as <-. injection Hxi as <-. injection Hgi as <-. by rewrite Z.add_0_r.
  - replace (k + Z.of_nat (S i)) with (Z.succ k + Z.of_nat i) by lia. by apply Hall.
Qed.

(** The blocks from 0 on, interleaved, for a new subscriber: every number is printed
    once, and the counters say so. *)
Lemma new_subscriber_survives N losts gots all s :
  Z.of_nat N <= 2 ^ 31 -> Forall3 deliver (block_objects <$> seqZ 0 (Z.of_nat N)) losts gots ->
  (forall lost, losts !! 2%nat = Some lost -> lost <> Some 0%nat /\ lost <> Some 1%nat) ->
  interleaves gots all -> from_block 0 s -> Sub.printed s = [] ->
  exists s', Sub.processObjects all s = Ok s' /\
    counterValue <$> Sub.printed s' ≡ₚ seqZ 0 (4 * Z.of_nat N) /\
    Sub.GetTotalReceived s' = 4 * Z.of_nat N /\ Sub.GetRecoveredCount s' = len (omap (fun lost => lost) losts).
Proof.
  intros HN H3 H2 Hw (Ht & Hc & Hbl) Hnil.
  pose proof (Forall3_length_lm _ _ _ _ H3) as Hl1. pose proof (Forall3_length_lr _ _ _ _ H3) as Hl2.
  rewrite length_fmap, length_seqZ, Nat2Z.id in Hl1, Hl2. assert (len losts = Z.of_nat N) as Hlen by (unfold len; lia).
  rewrite <- Hlen in H3.
  destruct (blocks_delivered losts gots 0 (Sub.decoder s) H3) as (las & Hll & Hlas); [lia|lia| |done|done|].
  { intros i lost Hi Hi2. replace i with 2%nat in Hi by lia. by apply H2. }
  destruct (interleaved_lines gots all Hw las (fun _ => Sub.decoder s) s)
    as (s' & L & E & (Ht1 & Ht2 & Ht3) & Hp & HL & Hf); [lia|lia| |done|done|done|].
  { intros k la got Hk Hg. destruct (lookup_lt_is_Some_2 losts k) as [lost Hx]; [by rewrite <- Hll; apply lookup_lt_Some in Hk|].
    by destruct (Hlas k la lost got Hk Hx Hg). }
  destruct (by_blocks losts L) as [Hv Hr].
  { unfold len. by rewrite <- Hll. }
  { intros b lost Hb. destruct (lookup_lt_is_Some_2 las b) as [la Hla]; [by rewrite Hll; apply lookup_lt_Some in Hb|].
    destruct (lookup_lt_is_Some_2 gots b) as [got Hg]; [rewrite <- Hl2, Hl1; by apply lookup_lt_Some in Hb|].
    rewrite (Hf b la Hla). by destruct (Hlas b la lost got Hla Hb Hg). }
  rewrite Hnil in Hp. cbn in Hp. subst L. rewrite Hlen in Hv.
  exists s'. split; [done|]. split; [done|]. unfold Sub.GetTotalReceived, Sub.GetRecoveredCount.
  assert (len (Sub.printed s') = 4 * Z.of_nat N) as Hn.
  { apply Permutation_length in Hv. rewrite length_fmap, length_seqZ in Hv. unfold len. lia. }
  pose proof (len_nonneg (omap (fun lost => lost) losts)).
  assert (len (omap (fun lost => lost) losts) <= len (Sub.printed s')).
  { rewrite <- Hr. unfold len. apply inj_le. apply length_filter. }
  rewrite Ht2, Ht3, Hn, Hr, !uint64_small by lia. done.
Qed.

End Interleaved.

(** * The stream *)

Section Stream.
Context {MR : MapRange} {P : Type} {HP : Publisher P} {HL : PublisherLaws P}.

(** From publisher to subscriber over a network that loses and reorders.  A
    publisher sends [4 N] numbers in [N] blocks of five objects each.  A new
    subscriber gets the data of each block in any order -- all of it, with or without
    the parity, or all but one packet and then the parity -- and the blocks
    interleaved, as long as no packet is overtaken by one of a block more than ten
    later.  It prints every number exactly once, and its counters say so: [4 N]
    received, as many recovered as data packets were lost.  The one exception is
    the block of 8, 9, 10 and 11, where neither 8 nor 9 may be the one lost: they
    are recovered with a zero byte after their digit, which is no number. *)
Theorem counter_survives_loss (pub : P) sid rid N p0 p' track sid' ns name :
  pub_ok pub -> published pub = [] -> Z.of_nat N <= 2 ^ 31 ->
  XORCounterPublisher.NewXORPublisher pub sid rid = Ok p0 ->
  XORCounterPublisher.Start (replicate (4 * N) Tick) p0 = Ok (Ret false, p') ->
  exists blocks, published (XORCounterPublisher.publisher p') = concat blocks /\ length blocks = N /\
    forall losts gots all, Forall3 deliver blocks losts gots ->
      (forall lost, losts !! 2%nat = Some lost -> lost <> Some 0%nat /\ lost <> Some 1%nat) ->
      interleaves gots all ->
      exists s', Sub.processObjects all (Sub.NewXORSubscriber track sid' ns name) = Ok s' /\
        counterValue <$> Sub.printed s' ≡ₚ seqZ 0 (4 * Z.of_nat N) /\
        Sub.GetTotalReceived s' = 4 * Z.of_nat N /\ Sub.GetRecoveredCount s' = len (omap (fun lost => lost) losts).
Proof.
  intros Hp Hpub HN Hnew Hstart. injection Hnew as <-.
  destruct (ticks_at (4 * N) 0 (XORCounterPublisher.mk pub (xor.Encoder.mk xor_config 0 0 []) sid rid 0 0
    (Runner.mk true false))) as (r & p1 & l & E & _ & Hl & _ & Hr); [done|lia|done|done|].
  change (XORCounterPublisher.Start (replicate (4 * N) Tick) _) with
    (select_loop XORCounterPublisher.publishNext (replicate (4 * N) Tick)
      (XORCounterPublisher.mk pub (xor.Encoder.mk xor_config 0 0 []) sid rid 0 0 (Runner.mk true false))) in Hstart.
  rewrite Hstart in E. injection E as <- <-. destruct (Hr false eq_refl) as [_ ->].
  exists (block_objects <$> seqZ 0 (Z.of_nat N)).
  assert (length (block_objects <$> seqZ 0 (Z.of_nat N)) = N) as Hlen
    by (rewrite length_fmap, length_seqZ; lia).
  split; [by rewrite Hl, <- (stream_blocks N 0); cbn [XORCounterPublisher.publisher]; rewrite Hpub|].
  split; [done|]. intros losts gots all H3 H2 Hw.
  apply (new_subscriber_survives N losts gots all); [done|done|done|done| |done].
  split; [done|]. split; [done|]. intros k _. apply lookup_empty.
Qed.

End Stream.

(** ** At concrete inputs *)

(** A new subscriber. *)
Definition ex_subscriber : Sub.t :=
  Sub.NewXORSubscriber (RemoteTrack.newRemoteTrack 0 Unsubscribes true) 1 [] [].

Lemma from_block_new b : from_block b ex_subscriber.
Proof. split; [done|]. split; [done|]. intros k _. apply lookup_empty. Defined.

(** The first block loses the number 1; 3 arrives before 0. *)
Lemma counter_survives_loss_witness :
  let pub := writer_state.mk ex_session [] [] in
  exists blk s',
    Sub.processObjects ([data_object 2; data_object 3; data_object 0] ++ [parity_object 0]) ex_subscriber = Ok s' /\
    blk = block_objects 0 /\
    counterValue <$> Sub.printed s' ≡ₚ seqZ 0 4 /\ Sub.GetTotalReceived s' = 4 /\ Sub.GetRecoveredCount s' = 1.
Proof.
  intros pub. exists (block_objects 0).
  set (P := writer_state.t). set (HP := writer_publisher ex_writer).
  set (p0 := match @XORCounterPublisher.NewXORPublisher P pub 1 0 with Ok p => p | _ =>
    XORCounterPublisher.mk pub (xor.Encoder.mk xor_config 0 0 []) 1 0 0 0 Runner.new end).
  set (p' := match @XORCounterPublisher.Start P HP (replicate 4 Tick) p0 with Ok (_, p) => p | _ => p0 end).
  destruct (@counter_survives_loss _ P HP (writer_publisher_laws ex_writer 7) pub 1 0 1 p0 p'
    (RemoteTrack.newRemoteTrack 0 Unsubscribes true) 1 [] []) as (blocks & Hb & Hl & H).
  - apply ex_writer_ok.
  - reflexivity.
  - vm_compute. congruence.
  - reflexivity.
  - vm_compute. reflexivity.
  - assert (concat blocks = block_objects 0) as Hc by (rewrite <- Hb; vm_compute; reflexivity).
    destruct blocks as [|blk [|]]; [discriminate| |discriminate]. cbn in Hc. rewrite app_nil_r in Hc. subst blk.
    destruct (H [Some 1%nat] [[data_object 2; data_object 3; data_object 0] ++ [parity_object 0]]
      ([data_object 2; data_object 3; data_object 0] ++ [parity_object 0])) as (s' & E & Hv & Ht & Hr).
    + constructor; [|constructor].
      apply (deliver_but 1 (data_objects 0) (parity_object 0) [data_object 2; data_object 3; data_object 0]);
        [cbn; lia|].
      apply (Permutation_app_comm [data_object 2; data_object 3] [data_object 0]).
    + discriminate.
    + apply (interleaves_concat [[data_object 2; data_object 3; data_object 0] ++ [parity_object 0]]).
    + exists s'. split; [exact E|]. split; [reflexivity|]. split; [exact Hv|]. split; [exact Ht|exact Hr].
Defined.

Lemma short_number_never_recovered_witness :
  exists s' ls,
    Sub.processObjects ([data_object 10; data_object 11; data_object 9] ++ [parity_object 2]) ex_subscriber = Ok s' /\
    from_block 3 s' /\ Sub.printed s' = ls /\ counterValue <$> ls ≡ₚ [9; 10; 11].
Proof.
  destruct (short_number_never_recovered ex_subscriber 0 [data_object 10; data_object 11; data_object 9])
    as (s' & ls & H1 & H2 & H3 & H4).
  - apply from_block_new.
  - lia.
  - apply (Permutation_app_comm [data_object 10; data_object 11] [data_object 9]).
  - exists s', ls. split; [exact H1|]. split; [exact H2|]. split; [exact H3|exact H4].
Defined.

Lemma early_parity_counts_twice_witness :
  exists s' ls v,
    Sub.processObjects ([data_object 20; data_object 21; data_object 22] ++ [parity_object 5; data_object 23])
      ex_subscriber = Ok s' /\ Sub.printed s' = ls /\ counterValue <$> ls ≡ₚ v :: seqZ 20 4 /\ 20 <= v < 24 /\
    len (filter (fun l => recovered l = true) ls) = 1.
Proof.
  destruct (early_parity_counts_twice 5 ex_subscriber [data_object 20; data_object 21; data_object 22]
    (data_object 23)) as (s' & ls & v & H1 & H2 & H3 & H4 & H5).
  - vm_compute. split; congruence.
  - discriminate.
  - apply from_block_new.
  - reflexivity.
  - exists s', ls, v. split; [exact H1|]. split; [exact H2|]. split; [exact H3|]. split; [exact H4|exact H5].
Defined.
