(* ===== verification/Subscriptions.v ===== *)
(** Starting, reading and stopping in the counter applications: what every
    subscriber of the interface of Counter.v does when it is stopped, and when
    its track ends; and what a publisher that is started twice does. *)

From Stdlib Require Import String.
From S2P Require Import Prelude VarInt Codec WireTypes Objects Errors State.
From S2P Require Import Tracks SessionState Session Publishers Strconv Counter Xor XorCounter.
Local Open Scope Z_scope.

(** * The interface of a subscriber *)

(** The two fields are independent, and processObject changes neither. *)
Class SubscriberLaws (S : Type) `{Subscriber S} : Prop := {
  runner_set r (s : S) : runner (set_runner r s) = r;
  track_set rt (s : S) : remoteTrack (set_remoteTrack rt s) = rt;
  runner_set_track rt (s : S) : runner (set_remoteTrack rt s) = runner s;
  track_set_runner r (s : S) : remoteTrack (set_runner r s) = remoteTrack s;
  set_runner_id (s : S) : set_runner (runner s) s = s;
  set_track_id (s : S) : set_remoteTrack (remoteTrack s) s = s;
  set_set r rt r' rt' (s : S) :
    set_runner r (set_remoteTrack rt (set_runner r' (set_remoteTrack rt' s))) =
    set_runner r (set_remoteTrack rt s);
  processObject_returns o (s : S) :
    exists r s', processObject o s = Ok (r, s') /\ runner s' = runner s /\ remoteTrack s' = remoteTrack s;
}.

#[export] Instance CounterSubscriber_laws : SubscriberLaws CounterSubscriber.t.
Proof.
  split; try by intros; repeat match goal with s : CounterSubscriber.t |- _ => destruct s end.
  intros o s. cbn. unfold CounterSubscriber.processObject.
  destruct (parseCounterValue (Object.Payload o)); by eexists _, _.
Qed.

#[export] Instance XORCounterSubscriber_laws {MR : MapRange} : SubscriberLaws XORCounterSubscriber.t.
Proof.
  split; try by intros; repeat match goal with s : XORCounterSubscriber.t |- _ => destruct s end.
  intros o s. cbn. unfold XORCounterSubscriber.processObject.
  destruct (unwrapMetadata (Object.Payload o)) as [[[[b seq] par] payload]|e]; [|by eexists _, _].
  destruct (xor.TryDecode b seq payload par (XORCounterSubscriber.decoder s)) as [[[p|] rec] d];
    [|by eexists _, _].
  unfold XORCounterSubscriber.process_payload. destruct (parseCounterValue p); [|by eexists _, _].
  eexists _, _. split; [done|]. unfold XORCounterSubscriber.cleanup. by destruct (_ =? 0).
Qed.

Section Subscriber.
Context {S : Type} `{SubscriberLaws S}.
Implicit Types (s : S) (x : subscription.t S).

(** Nothing but the track and the runner has changed: no object was processed. *)
Definition untouched s s' : Prop := exists r rt, s' = set_runner r (set_remoteTrack rt s).

Lemma untouched_refl s : untouched s s.
Proof. exists (runner s), (remoteTrack s). by rewrite set_track_id, set_runner_id. Qed.
Lemma untouched_set_runner s s' r : untouched s s' -> untouched s (set_runner r s').
Proof.
  intros (r' & rt & ->). exists r, rt.
  rewrite <- (set_set r rt r' rt s). f_equal. rewrite <- (set_track_id (set_runner r' _)) at 1.
  by rewrite track_set_runner, track_set.
Qed.
Lemma untouched_set_track s s' rt : untouched s s' -> untouched s (set_remoteTrack rt s').
Proof.
  intros (r & rt' & ->). exists r, rt. rewrite <- (set_set r rt r rt' s).
  rewrite <- (set_runner_id (set_remoteTrack rt (set_runner r _))) at 1.
  by rewrite runner_set_track, runner_set.
Qed.

(** stopChan is closed only together with the end of isRunning, and the loop has
    not ended with isRunning set. *)
Definition wf x : Prop :=
  (Runner.stopChan (runner (subscription.sub x)) = true ->
   Runner.isRunning (runner (subscription.sub x)) = false) /\
  (subscription.reading x = false -> Runner.isRunning (runner (subscription.sub x)) = false).

(** Stop was called, or the context is done. *)
Definition stopping x : Prop :=
  subscription.ctx x <> None \/ Runner.stopChan (runner (subscription.sub x)) = true.

Lemma loop_head_wf x : wf x -> wf (loop_head x).
Proof.
  intros [H1 H2]. unfold loop_head, wf.
  destruct (subscription.ctx x), (Runner.stopChan (runner (subscription.sub x))) eqn:E;
    cbn; rewrite ?runner_set, ?E; cbn; auto; split; congruence.
Qed.

Lemma loop_head_stopping x :
  stopping x -> stopping (loop_head x) /\ subscription.reading (loop_head x) = false /\
  IsRunning (subscription.sub (loop_head x)) = false.
Proof.
  intros Hs. unfold loop_head, stopping, IsRunning in *.
  destruct (subscription.ctx x) eqn:Ec, (Runner.stopChan (runner (subscription.sub x))) eqn:E;
    cbn; rewrite ?runner_set; cbn; [..|destruct Hs; congruence]; (split; [|done]);
    first [by left|by right].
Qed.

Lemma loop_returns_wf x : wf x -> wf (loop_returns x).
Proof. intros [H1 H2]. unfold loop_returns, wf. cbn. by rewrite runner_set. Qed.

Lemma Stop_run s :
  (Runner.stopChan (runner s) = true -> Runner.isRunning (runner s) = false) ->
  Stop s = Ok (Ret tt, if Runner.isRunning (runner s) then set_runner (Runner.mk false true) s else s).
Proof.
  intros Hw. unfold Stop, gm_bind, get, panic. destruct (runner s) as [[|] [|]]; cbn in *; try done.
  by specialize (Hw eq_refl).
Qed.

(** Every step is taken without a panic, and keeps that a subscriber is
    stopping. *)
Lemma step_spec e x :
  wf x -> exists x', subscriber_step e x = Ok x' /\ wf x' /\ (stopping x -> stopping x') /\
    (is_Some (subscription.started x) -> is_Some (subscription.started x')).
Proof.
  intros Hw. pose proof Hw as [H1 H2]. destruct e as [o|st r|er| |c| |]; cbn [subscriber_step].
  - eexists. split; [done|]. unfold wf, stopping. cbn. by rewrite runner_set_track.
  - eexists. split; [done|]. unfold wf, stopping. cbn. by rewrite runner_set_track.
  - eexists. split; [done|]. unfold wf, stopping. cbn. split; [done|]. split; [|done].
    intros _. left. by destruct (subscription.ctx x).
  - rewrite Stop_run by done. eexists. split; [done|]. unfold wf, stopping. cbn.
    destruct (Runner.isRunning (runner (subscription.sub x))); cbn; rewrite ?runner_set; cbn; auto.
  - destruct (subscription.reading x) eqn:Er; [|by exists x]. unfold loop_body.
    destruct (RemoteTrack.ReadObject c _ _) as [[[[o|] [er|]] rt]|] eqn:E; [| | | |by exists x].
    + eexists. split; [done|]. split; [apply loop_returns_wf; unfold wf; cbn; by rewrite runner_set_track, Er|].
      split; [|done]. unfold stopping, loop_returns. cbn. by rewrite runner_set, runner_set_track.
    + destruct (processObject_returns o (set_remoteTrack rt (subscription.sub x))) as (r & s' & Ep & Hr & _).
      rewrite Ep. cbn [mbind res_bind]. rewrite runner_set_track in Hr.
      assert (wf (subscription.set_sub s' x)) as Hw' by (unfold wf; cbn; by rewrite Hr, Er).
      eexists. split; [done|]. split; [by apply loop_head_wf|]. split.
      * intros Hs. apply loop_head_stopping. unfold stopping in *. cbn. by rewrite Hr.
      * unfold loop_head. cbn. repeat case_match; done.
    + eexists. split; [done|]. split; [apply loop_returns_wf; unfold wf; cbn; by rewrite runner_set_track, Er|].
      split; [|done]. unfold stopping, loop_returns. cbn. by rewrite runner_set, runner_set_track.
    + exfalso. destruct c; cbn in E; repeat case_match; simplify_eq/=;
        repeat match goal with H : context [_ ≫= _] |- _ => destruct (_ : option error); simplify_eq/= end.
  - destruct (subscription.started x) eqn:Es, (subscription.ctx x) eqn:Ec; eexists; (split; [done|]);
      unfold wf, stopping; cbn; rewrite ?Es, ?Ec; auto.
  - destruct (subscription.started x) eqn:Es, (Runner.stopChan (runner (subscription.sub x))) eqn:Ec;
      eexists; (split; [done|]); unfold wf, stopping; cbn; rewrite ?Es, ?Ec; auto.
Qed.

Lemma run_app es1 es2 x :
  subscriber_run (es1 ++ es2) x = (x ← subscriber_run es1 x; subscriber_run es2 x).
Proof.
  revert x. induction es1 as [|e es1 IH]; intros x; [done|]. cbn.
  by destruct (subscriber_step e x); cbn.
Qed.

Lemma run_spec es x :
  wf x -> exists x', subscriber_run es x = Ok x' /\ wf x' /\ (stopping x -> stopping x') /\
    (is_Some (subscription.started x) -> is_Some (subscription.started x')).
Proof.
  revert x. induction es as [|e es IH]; intros x Hw; [by exists x|].
  destruct (step_spec e x Hw) as (x1 & E1 & Hw1 & Hs1 & Hi1).
  destruct (IH x1 Hw1) as (x2 & E2 & Hw2 & Hs2 & Hi2).
  exists x2. cbn. rewrite E1. cbn. split_and!; auto.
Qed.

(** stopChan stays closed. *)
Lemma step_closed e x x' :
  Runner.stopChan (runner (subscription.sub x)) = true -> wf x -> subscriber_step e x = Ok x' ->
  Runner.stopChan (runner (subscription.sub x')) = true.
Proof.
  intros Hc Hw. destruct e as [o|st r|er| |c| |]; cbn [subscriber_step].
  1-3: intros [= <-]; cbn; by rewrite ?runner_set_track.
  - rewrite Stop_run by apply Hw. cbn. intros [= <-]. cbn. destruct (Runner.isRunning _); by rewrite ?runner_set.
  - destruct (subscription.reading x); [|by intros [= <-]]. unfold loop_body.
    destruct (RemoteTrack.ReadObject c _ _) as [[[[o|] [er|]] rt]|]; [| | |done|by intros [= <-]].
    1, 3: intros [= <-]; unfold loop_returns; cbn; by rewrite runner_set, runner_set_track.
    destruct (processObject_returns o (set_remoteTrack rt (subscription.sub x))) as (r & s' & -> & Hr & _).
    cbn. intros [= <-]. rewrite runner_set_track in Hr. unfold loop_head. cbn.
    destruct (subscription.ctx x); rewrite Hr, Hc; cbn; by rewrite runner_set.
  - destruct (subscription.started x), (subscription.ctx x); by intros [= <-].
  - rewrite Hc. destruct (subscription.started x); by intros [= <-].
Qed.

Lemma run_closed es x :
  wf x -> Runner.stopChan (runner (subscription.sub x)) = true ->
  exists x', subscriber_run es x = Ok x' /\ wf x' /\ Runner.stopChan (runner (subscription.sub x')) = true.
Proof.
  revert x. induction es as [|e es IH]; intros x Hw Hc; [by exists x|].
  destruct (step_spec e x Hw) as (x1 & E1 & Hw1 & _ & _).
  destruct (IH x1 Hw1) as (x2 & E2 & H2); [by eapply step_closed|]. exists x2. cbn. by rewrite E1.
Qed.

(** A loop that is stopping ends with the next ReadObject. *)
Lemma stopped_read_ends c x :
  stopping x -> RemoteTrack.ReadObject c (subscription.ctx x) (remoteTrack (subscription.sub x)) <> None ->
  wf x ->
  exists x', loop_body c x = Ok x' /\ subscription.reading x' = false /\
    IsRunning (subscription.sub x') = false.
Proof.
  intros Hs Hc Hw. unfold loop_body.
  destruct (RemoteTrack.ReadObject c _ _) as [[[o [er|]] rt]|] eqn:E; [| |done].
  - destruct o; (eexists; split; [done|]); unfold loop_returns, IsRunning; cbn; by rewrite runner_set.
  - destruct o as [o|].
    + destruct (processObject_returns o (set_remoteTrack rt (subscription.sub x))) as (r & s' & -> & Hr & _).
      cbn [mbind res_bind]. eexists. split; [done|]. apply loop_head_stopping. unfold stopping in *. cbn.
      by rewrite Hr, runner_set_track.
    + exfalso. destruct (step_spec (ReadReturns c) (subscription.mk (subscription.sub x) (subscription.ctx x) true
        (subscription.started x))) as (x' & E' & _).
      * unfold wf in *. cbn. split; [apply Hw|done].
      * cbn in E'. unfold loop_body in E'. cbn in E'. by rewrite E in E'.
Qed.

Lemma start_wf text ctx s r x0 :
  runner s = Runner.new -> Start text ctx s = Ok (r, x0) ->
  wf x0 /\ subscription.started x0 = None /\ subscription.ctx x0 = ctx.
Proof.
  intros Hr Hs. unfold Start, begin, gm_bind, get, modify in Hs. rewrite Hr in Hs. cbn in Hs.
  injection Hs as _ <-. split; [|by unfold loop_head; cbn; rewrite runner_set; destruct ctx].
  apply loop_head_wf. unfold wf. cbn. by rewrite runner_set.
Qed.

(** C35: A subscriber that is stopped comes to its end.  Whatever has happened to
    it since it was started -- objects pushed and read, Stop called before, the
    track ended, the context cancelled, in any order -- nothing has panicked, and
    when it is running and Stop is called, then after whatever else happens:
    Start has returned once its select was scheduled, and the next ReadObject
    that returns, in whatever way, is the last one. *)
Theorem stopped_subscriber_ends text s x0 es1 es2 :
  runner s = Runner.new -> Start text None s = Ok (Ret tt, x0) ->
  exists x1, subscriber_run es1 x0 = Ok x1 /\
    (IsRunning (subscription.sub x1) = true ->
     exists x2, subscriber_run (Stopping :: es2) x1 = Ok x2 /\
       (StartStopped ∈ es2 -> is_Some (subscription.started x2)) /\
       (forall c, subscription.reading x2 = true ->
          RemoteTrack.ReadObject c (subscription.ctx x2) (remoteTrack (subscription.sub x2)) <> None ->
          exists x3, subscriber_step (ReadReturns c) x2 = Ok x3 /\ subscription.reading x3 = false /\
            IsRunning (subscription.sub x3) = false)).
Proof.
  intros Hr Hs. destruct (start_wf _ _ _ _ _ Hr Hs) as (Hw0 & _ & _).
  destruct (run_spec es1 x0 Hw0) as (x1 & E1 & Hw1 & _ & _). exists x1. split; [done|]. intros Hrun.
  cbn [subscriber_run subscriber_step]. unfold IsRunning in Hrun.
  rewrite Stop_run by apply Hw1. rewrite Hrun. cbn [mbind res_bind].
  set (y := subscription.set_sub _ x1).
  assert (stopping y) as Hy by (right; cbn; by rewrite runner_set).
  assert (wf y) as Hwy by (unfold wf; cbn; by rewrite runner_set).
  destruct (run_spec es2 y Hwy) as (x2 & E2 & Hw2 & Hs2 & _). specialize (Hs2 Hy).
  exists x2. split; [done|]. split.
  - intros Hin. apply list_elem_of_split in Hin as (l1 & l2 & ->). rewrite run_app in E2.
    assert (Runner.stopChan (runner (subscription.sub y)) = true) as Hcy by (cbn; by rewrite runner_set).
    destruct (run_closed l1 y Hwy Hcy) as (z & Ez & Hwz & Hcz). rewrite Ez in E2. cbn in E2. rewrite Hcz in E2.
    destruct (subscription.started z) eqn:Est; cbn in E2;
      match goal with E : subscriber_run l2 ?z' = _ |- _ => destruct (run_spec l2 z') as (z2 & Ez2 & _ & _ & Hi) end;
      [done| |exact Hwz|]; rewrite Ez2 in E2; injection E2 as <-; apply Hi; [by rewrite Est|by eexists].
  - intros c Hread Hc. cbn. rewrite Hread. by apply (stopped_read_ends c x2).
Qed.

(** The loop has ended, Start has not. *)
Definition hung x : Prop :=
  subscription.reading x = false /\ runner (subscription.sub x) = Runner.new /\
  subscription.ctx x = None /\ subscription.started x = None.

Lemma step_hung s0 e x :
  hung x -> untouched s0 (subscription.sub x) -> (forall er, e <> Cancelled er) ->
  exists x', subscriber_step e x = Ok x' /\ hung x' /\ untouched s0 (subscription.sub x').
Proof.
  intros (Hread & Hrun & Hctx & Hst) Hu Hne.
  destruct e as [o|st r|er| |c| |]; cbn [subscriber_step]; [..|by destruct (Hne er)| | | |].
  1-2: eexists; split; [done|]; unfold hung; cbn; rewrite runner_set_track;
    split; [done|by apply untouched_set_track].
  - rewrite Stop_run by (by rewrite Hrun). rewrite Hrun. cbn. eexists. split; [done|]. destruct x. by split.
  - rewrite Hread. by exists x.
  - rewrite Hst, Hctx. by exists x.
  - rewrite Hst, Hrun. by exists x.
Qed.

Lemma run_hung s0 es x :
  hung x -> untouched s0 (subscription.sub x) -> (forall er, Cancelled er ∉ es) ->
  exists x', subscriber_run es x = Ok x' /\ hung x' /\ untouched s0 (subscription.sub x').
Proof.
  revert x. induction es as [|e es IH]; intros x Hx Hu Hne; [by exists x|].
  destruct (step_hung s0 e x Hx Hu) as (x1 & E1 & Hx1 & Hu1); [intros er ->; apply (Hne er); by left|].
  destruct (IH x1 Hx1 Hu1) as (x2 & E2 & H2); [intros er Hin; apply (Hne er); by right|].
  exists x2. cbn. by rewrite E1.
Qed.

(** Neither stopped nor cancelled. *)
Definition unstopped x : Prop :=
  Runner.stopChan (runner (subscription.sub x)) = false /\ subscription.ctx x = None /\
  subscription.started x = None.

Lemma step_unstopped e x :
  unstopped x -> e <> Stopping -> (forall er, e <> Cancelled er) -> wf x ->
  exists x', subscriber_step e x = Ok x' /\ unstopped x' /\ wf x'.
Proof.
  intros (Hc & Hctx & Hst) Hns Hne Hw. destruct (step_spec e x Hw) as (x' & E & Hw' & _ & _).
  exists x'. split; [done|]. split; [|done]. revert E.
  destruct e as [o|st r|er| |c| |]; cbn [subscriber_step]; [| |by destruct (Hne er)|done|..].
  1-2: intros [= <-]; unfold unstopped; cbn; by rewrite runner_set_track.
  - destruct (subscription.reading x); [|by intros [= <-]]. unfold loop_body.
    destruct (RemoteTrack.ReadObject c _ _) as [[[[o|] [er|]] rt]|]; [| | |done|by intros [= <-]].
    1, 3: intros [= <-]; unfold unstopped, loop_returns; cbn; by rewrite runner_set, runner_set_track.
    destruct (processObject_returns o (set_remoteTrack rt (subscription.sub x))) as (r & s' & -> & Hr & _).
    cbn. intros [= <-]. rewrite runner_set_track in Hr. unfold unstopped, loop_head. cbn.
    rewrite Hctx, Hr, Hc. cbn. by rewrite Hr.
  - rewrite Hst, Hctx. by intros [= <-].
  - rewrite Hst, Hc. by intros [= <-].
Qed.

Lemma run_unstopped es x :
  unstopped x -> wf x -> Stopping ∉ es -> (forall er, Cancelled er ∉ es) ->
  exists x', subscriber_run es x = Ok x' /\ unstopped x' /\ wf x'.
Proof.
  revert x. induction es as [|e es IH]; intros x Hx Hw Hns Hne; [by exists x|].
  destruct (step_unstopped e x Hx) as (x1 & E1 & Hx1 & Hw1);
    [intros ->; apply Hns; by left|intros er ->; apply (Hne er); by left|done|].
  destruct (IH x1 Hx1 Hw1) as (x2 & E2 & H2);
    [intros Hin; apply Hns; by right|intros er Hin; apply (Hne er); by right|].
  exists x2. cbn. by rewrite E1.
Qed.

(** When its track ends, a subscriber hangs.  After SUBSCRIBE_DONE the next
    ReadObject that returns ends the loop, also when it returns an object, which
    is dropped with all that are still in the buffer; the loop resets isRunning,
    so Stop does nothing from then on, and Start, which only waits for its
    context and for Stop, never returns while the context is not cancelled. *)
Theorem track_end_hangs text s x0 es1 status reason c es2 :
  runner s = Runner.new -> Start text None s = Ok (Ret tt, x0) ->
  Stopping ∉ es1 -> (forall er, Cancelled er ∉ es1 ++ es2) ->
  exists x1, subscriber_run (es1 ++ [TrackEnded status reason]) x0 = Ok x1 /\
    (RemoteTrack.ReadObject c None (remoteTrack (subscription.sub x1)) <> None ->
     exists x2, subscriber_run (ReadReturns c :: es2) x1 = Ok x2 /\
       untouched (subscription.sub x1) (subscription.sub x2) /\
       subscription.reading x2 = false /\ IsRunning (subscription.sub x2) = false /\
       subscription.started x2 = None).
Proof.
  intros Hr Hs Hns Hne. destruct (start_wf _ _ _ _ _ Hr Hs) as (Hw0 & Hst0 & Hctx0).
  assert (unstopped x0) as Hu0.
  { unfold Start, begin, gm_bind, get, modify in Hs. rewrite Hr in Hs. cbn in Hs. injection Hs as <-.
    unfold loop_head, unstopped. cbn. rewrite runner_set. cbn. by rewrite runner_set. }
  destruct (run_unstopped es1 x0 Hu0 Hw0 Hns) as (x & E & (Hc & Hctx & Hst) & Hw).
  { intros er Hin. apply (Hne er), elem_of_app. by left. }
  set (rt := RemoteTrack.done status reason (remoteTrack (subscription.sub x))).
  set (x1 := subscription.set_sub (set_remoteTrack rt (subscription.sub x)) x).
  exists x1. split; [rewrite run_app, E; done|]. cbn [x1 subscription.set_sub subscription.sub].
  rewrite track_set. intros Hready.
  assert (exists x2, subscriber_step (ReadReturns c) x1 = Ok x2 /\ hung x2 /\
    untouched (subscription.sub x1) (subscription.sub x2)) as (x2 & E2 & Hx2 & Hu2).
  { cbn. destruct (subscription.reading x) eqn:Eread.
    - unfold loop_body. cbn. rewrite Hctx, track_set.
      assert (exists o er rt', RemoteTrack.ReadObject c None rt = Some (o, Some er, rt')) as (o & er & rt' & ->).
      { destruct c; cbn in Hready |- *; [done| |].
        - destruct (RemoteTrack.doneCtx _); cbn; by eexists _, _, _.
        - destruct (RemoteTrack.buffer _); [done|]. destruct (RemoteTrack.doneCtx _); cbn; by eexists _, _, _. }
      destruct o; (eexists; split; [done|]; split;
        [unfold hung, loop_returns; cbn; rewrite runner_set, !runner_set_track, Hc; by split_and!
        |cbn; by apply untouched_set_runner, untouched_set_track, untouched_refl]).
    - exists x1. split; [done|]. split; [|apply untouched_refl]. split_and!; [done| |done|done].
      cbn. rewrite runner_set_track. destruct Hw as [_ Hw]. specialize (Hw Eread).
      destruct (runner (subscription.sub x)) as [[|] [|]]; done. }
  destruct (run_hung (subscription.sub x1) es2 x2 Hx2 Hu2) as (x3 & E3 & (H1 & H2 & H3 & H4) & Hu3).
  { intros er Hin. apply (Hne er), elem_of_app. by right. }
  exists x3. cbn [subscriber_run]. rewrite E2. cbn. split; [done|]. split; [done|]. split; [done|].
  split; [|done]. unfold IsRunning. by rewrite H2.
Qed.

End Subscriber.

(** * Publishers *)

(** A publisher that was stopped must not be started again.  Stop closes
    stopChan and Start returns; a second Start claims the publisher and returns
    at once, since the channel is closed, and leaves it marked as running: the
    next Stop closes the channel once more, which panics. *)
Theorem publisher_restart_panics {P : Type} `{Publisher P} (p : XORCounterPublisher.t P) :
  XORCounterPublisher.run p = Runner.new ->
  exists p1 p2,
    XORCounterPublisher.Start [CallStop; StopClosed] p = Ok (Ret true, p1) /\
    XORCounterPublisher.Start [StopClosed] p1 = Ok (Ret true, p2) /\
    IsRunning p2 = true /\ XORCounterPublisher.Stop p2 = Panic.
Proof.
  destruct p as [pub e sid rid c g r]. cbn. intros ->.
  exists (XORCounterPublisher.mk pub e sid rid c g (Runner.mk false true)).
  by exists (XORCounterPublisher.mk pub e sid rid c g (Runner.mk true true)).
Qed.

(** ** At concrete inputs *)

Definition ex_track : RemoteTrack.t := RemoteTrack.newRemoteTrack 0 Unsubscribes true.
Definition ex_counter : CounterSubscriber.t := CounterSubscriber.NewCounterSubscriber ex_track 1 [] [].
Definition ex_started (s : CounterSubscriber.t) : subscription.t CounterSubscriber.t :=
  match CounterSubscriber.Start None s with Ok (_, x) => x | _ => subscription.mk s None false None end.
Definition ex_object (n : Z) : Object.t := Object.mk n 0 0 0 (FormatUint n).

(** An object is read, then Stop is called while the loop waits; Start returns,
    and the next object is the last that is read. *)
Lemma stopped_subscriber_ends_witness :
  exists x1, subscriber_run [Pushed (ex_object 5); ReadReturns RemoteTrack.FromBuffer] (ex_started ex_counter)
      = Ok x1 /\
    exists x2, subscriber_run [Stopping; StartStopped; Pushed (ex_object 6)] x1 = Ok x2 /\
      is_Some (subscription.started x2) /\
      exists x3, subscriber_step (ReadReturns RemoteTrack.FromBuffer) x2 = Ok x3 /\
        subscription.reading x3 = false /\ IsRunning (subscription.sub x3) = false.
Proof.
  destruct (stopped_subscriber_ends (str "counter subscriber is already running") ex_counter
    (ex_started ex_counter) [Pushed (ex_object 5); ReadReturns RemoteTrack.FromBuffer]
    [StartStopped; Pushed (ex_object 6)]) as (x1 & E1 & H); [reflexivity|reflexivity|].
  exists x1. split; [exact E1|]. injection E1 as <-.
  destruct H as (x2 & E2 & Hs & Hr); [reflexivity|].
  exists x2. split; [exact E2|]. split; [apply Hs; left|].
  injection E2 as <-. apply (Hr RemoteTrack.FromBuffer); [reflexivity|discriminate].
Defined.

(** The track ends while the number 7 is in the buffer; Stop is called twice. *)
Lemma track_end_hangs_witness :
  exists x1 x2, subscriber_run ([Pushed (ex_object 7)] ++ [TrackEnded 0 []]) (ex_started ex_counter) = Ok x1 /\
    subscriber_run (ReadReturns RemoteTrack.FromBuffer :: [Stopping; StartStopped; Stopping]) x1 = Ok x2 /\
    untouched (subscription.sub x1) (subscription.sub x2) /\ subscription.started x2 = None.
Proof.
  destruct (track_end_hangs (str "counter subscriber is already running") ex_counter
    (ex_started ex_counter) [Pushed (ex_object 7)] 0 [] RemoteTrack.FromBuffer [Stopping; StartStopped; Stopping])
    as (x1 & E1 & H).
  - reflexivity.
  - reflexivity.
  - rewrite list_elem_of_singleton. discriminate.
  - intros er Hin. cbn [app] in Hin. rewrite !elem_of_cons in Hin. destruct Hin as [Hin|[Hin|[Hin|[Hin|Hin]]]]; try discriminate.
    by apply not_elem_of_nil in Hin.
  - injection E1 as <-. eexists _. destruct H as (x2 & E2 & Hu & _ & _ & Hs); [discriminate|].
    exists x2. split; [reflexivity|]. split; [exact E2|]. split; [exact Hu|exact Hs].
Defined.

Lemma publisher_restart_panics_witness :
  exists p1 p2 : XORCounterPublisher.t unit,
    let p := XORCounterPublisher.mk tt (xor.Encoder.mk xor_config 0 0 []) 0 0 0 0 Runner.new in
    let HP := {| SendDatagram := fun _ => mret tt; OpenSubgroup := fun _ _ _ => throw io_EOF;
                 CloseWithError := fun _ _ => mret tt |} in
    @XORCounterPublisher.Start unit HP [CallStop; StopClosed] p = Ok (Ret true, p1) /\
    @XORCounterPublisher.Start unit HP [StopClosed] p1 = Ok (Ret true, p2) /\
    XORCounterPublisher.Stop p2 = Panic.
Proof.
  set (HP := {| SendDatagram := fun _ => mret tt; OpenSubgroup := fun _ _ _ => throw io_EOF;
                CloseWithError := fun _ _ => mret tt |} : Publisher unit).
  destruct (@publisher_restart_panics unit HP
    (XORCounterPublisher.mk tt (xor.Encoder.mk xor_config 0 0 []) 0 0 0 0 Runner.new))
    as (p1 & p2 & H1 & H2 & _ & H3); [reflexivity|].
  exists p1, p2. split; [exact H1|]. split; [exact H2|exact H3].
Defined.
