(* ===== verification/ReedSolomon.v ===== *)
(** Forward error correction with Reed-Solomon codes
    (fec/reed-solomon/reed-solomon.go): the Encoder turns a block of payloads
    into data and parity shards, the Decoder rebuilds the shards that were lost.

    The code itself is the package klauspost/reedsolomon, which is not part of the
    repository: the class [ReedSolomon] is what reed-solomon.go calls of it, and
    its laws are the documentation of these calls.  [int] is 64 bits wide; the
    mutexes make each method one step. *)

From S2P Require Import Prelude State Xor.
Local Open Scope Z_scope.
Local Arguments int64 : simpl never.
Local Arguments Z.add : simpl never.

Abbreviation shards := (list (list byte)).

(** Of the errors only that of New is looked at.  Split answers nil shards with
    its error; [rs_Encode] and [rs_Reconstruct] are the shards after the call,
    which works in place; an empty shard is a missing one.  The answer of Verify is
    dropped, and it changes nothing. *)
Class ReedSolomon := {
  rs_coder : Type;
  rs_New : Z -> Z -> option rs_coder;
  rs_Split : rs_coder -> list byte -> option shards;
  rs_Encode : rs_coder -> shards -> shards;
  rs_Reconstruct : rs_coder -> shards -> shards;
}.

(** The shards with those lost set to nil. *)
Definition lose (lost : list bool) (s : shards) : shards :=
  zip_with (fun (l : bool) shard => if l then [] else shard) lost s.
Definition lost_count (lost : list bool) : Z := len (filter Is_true lost).

Definition sized (n : nat) (s : shards) : Prop := Forall (fun shard => length shard = n) s.

Class ReedSolomonLaws `{ReedSolomon} : Prop := {
  rs_New_bounds D P c : rs_New D P = Some c -> 0 < D /\ 0 <= P /\ D + P <= 65536;
  (** ErrShortData. *)
  rs_Split_short D P c : rs_New D P = Some c -> rs_Split c [] = None;
  (** Equally sized shards, the last data shards padded with zeros. *)
  rs_Split_shards D P c data : rs_New D P = Some c -> data <> [] ->
    exists s n k, rs_Split c data = Some s /\ len s = D + P /\ (0 < n)%nat /\ sized n s /\
      concat (take (Z.to_nat D) s) = data ++ xor.zeros k;
  (** ErrTooFewShards: the number of shards has to be that given to New. *)
  rs_Encode_count D P c s : rs_New D P = Some c -> len s <> D + P -> rs_Encode c s = s;
  (** The data shards are kept, the parity shards filled in. *)
  rs_Encode_parity D P c s n : rs_New D P = Some c -> len s = D + P -> (0 < n)%nat -> sized n s ->
    exists parity, rs_Encode c s = take (Z.to_nat D) s ++ parity /\ len parity = P /\ sized n parity;
  (** As many shards as there is parity can be lost. *)
  rs_Reconstruct_lost D P c s n lost : rs_New D P = Some c -> len s = D + P -> (0 < n)%nat -> sized n s ->
    len lost = D + P -> lost_count lost <= P ->
    rs_Reconstruct c (lose lost (rs_Encode c s)) = rs_Encode c s;
}.

Module rs.

Module Config.
Record t := mk { DataShards : Z; ParityShards : Z }.
End Config.

(** Both sides keep the same fields; [coder] is rsEncoder and rsDecoder. *)
Module Encoder.
Record t `{ReedSolomon} := mk {
  coder : rs_coder;
  config : Config.t;
  blockID : Z;
  seqID : Z;
  buffer : list (list byte) }.
#[global] Arguments mk {_} _ _ _ _ _.
End Encoder.

Module Decoder.
Record t `{ReedSolomon} := mk {
  coder : rs_coder;
  config : Config.t;
  blockID : Z;
  seqID : Z;
  buffer : list (list byte) }.
#[global] Arguments mk {_} _ _ _ _ _.
End Decoder.

Section Operations.
Context {RS : ReedSolomon}.

(** [None] is the nil pointer. *)
Definition NewEncoder (config : Config.t) : res (option Encoder.t) :=
  match rs_New (Config.DataShards config) (Config.ParityShards config) with
  | None => Ok None
  | Some enc =>
      buffer ← xor.make_buffer (Config.DataShards config);
      Ok (Some (Encoder.mk enc config 0 0 buffer))
  end.

Definition flushEncoder (enc : Encoder.t) : res Encoder.t :=
  buffer ← xor.make_buffer (Config.DataShards (Encoder.config enc));
  Ok (Encoder.mk (Encoder.coder enc) (Encoder.config enc) (int64 (Encoder.blockID enc + 1)) 0 buffer).

(** Data and parity packets; [None] are the nil slices. *)
Definition TryEncode (payload : list byte) (e : Encoder.t) : res (option (shards * shards) * Encoder.t) :=
  let e := Encoder.mk (Encoder.coder e) (Encoder.config e) (Encoder.blockID e)
             (int64 (Encoder.seqID e + 1)) (Encoder.buffer e ++ [payload]) in
  let n := Config.DataShards (Encoder.config e) in
  if Encoder.seqID e <? n then Ok (None, e)
  else
    let concat := concat (Encoder.buffer e) in
    let s := default [] (rs_Split (Encoder.coder e) concat) in
    let s := rs_Encode (Encoder.coder e) s in
    e ← flushEncoder e;
    data ← slice_to s n;
    parity ← slice_from s n;
    Ok (Some (data, parity), e).

(** The buffer starts as nil. *)
Definition NewDecoder (config : Config.t) : option Decoder.t :=
  dec ← rs_New (Config.DataShards config) (Config.ParityShards config);
  Some (Decoder.mk dec config 0 0 []).

Definition flushDecoder (dec : Decoder.t) : res Decoder.t :=
  buffer ← xor.make_buffer (Config.DataShards (Decoder.config dec));
  Ok (Decoder.mk (Decoder.coder dec) (Decoder.config dec) (int64 (Decoder.blockID dec + 1)) 0 buffer).

Definition TryDecode (payload : list byte) (d : Decoder.t) : res (option (shards * shards) * Decoder.t) :=
  let d := Decoder.mk (Decoder.coder d) (Decoder.config d) (Decoder.blockID d)
             (int64 (Decoder.seqID d + 1)) (Decoder.buffer d ++ [payload]) in
  let n := Config.DataShards (Decoder.config d) in
  if Decoder.seqID d <? int64 (n + Config.ParityShards (Decoder.config d)) then Ok (None, d)
  else
    let dataPackets := rs_Reconstruct (Decoder.coder d) (Decoder.buffer d) in
    d ← flushDecoder d;
    data ← slice_to dataPackets n;
    parity ← slice_from dataPackets n;
    Ok (Some (data, parity), d).

(** A sequence of calls. *)
Fixpoint encode_all (payloads : list (list byte)) (e : Encoder.t) :
    res (list (option (shards * shards)) * Encoder.t) :=
  match payloads with
  | [] => Ok ([], e)
  | payload :: payloads =>
      '(out, e) ← TryEncode payload e;
      '(outs, e) ← encode_all payloads e;
      Ok (out :: outs, e)
  end.

Fixpoint decode_all (packets : list (list byte)) (d : Decoder.t) :
    res (list (option (shards * shards)) * Decoder.t) :=
  match packets with
  | [] => Ok ([], d)
  | packet :: packets =>
      '(out, d) ← TryDecode packet d;
      '(outs, d) ← decode_all packets d;
      Ok (out :: outs, d)
  end.

End Operations.
End rs.

(** * Blocks *)

Section Blocks.
Context {RS : ReedSolomon} {RSL : ReedSolomonLaws}.

(** What the calls of a block of [n] packets answer. *)
Definition block_answers (n : Z) (packets : shards * shards) : list (option (shards * shards)) :=
  replicate (Z.to_nat (n - 1)) None ++ [Some packets].

(** Between two blocks. *)
Definition encoder_ready (D P : Z) (c : rs_coder) (e : rs.Encoder.t) : Prop :=
  exists b, e = rs.Encoder.mk c (rs.Config.mk D P) b 0 [].
Definition decoder_ready (D P : Z) (c : rs_coder) (d : rs.Decoder.t) : Prop :=
  exists b, d = rs.Decoder.mk c (rs.Config.mk D P) b 0 [].

Lemma rs_encode_all_app l1 l2 e :
  rs.encode_all (l1 ++ l2) e =
    ('(o1, e) ← rs.encode_all l1 e; '(o2, e) ← rs.encode_all l2 e; Ok (o1 ++ o2, e)).
Proof.
  revert e. induction l1 as [|p l1 IH]; intros e; cbn; [by destruct (rs.encode_all l2 e) as [[? ?]| | |]|].
  destruct (rs.TryEncode p e) as [[o e']| | |]; cbn; [|done..]. rewrite IH.
  destruct (rs.encode_all l1 e') as [[o1 e1]| | |]; cbn; [|done..].
  by destruct (rs.encode_all l2 e1) as [[o2 e2]| | |].
Qed.

Lemma rs_decode_all_app l1 l2 d :
  rs.decode_all (l1 ++ l2) d =
    ('(o1, d) ← rs.decode_all l1 d; '(o2, d) ← rs.decode_all l2 d; Ok (o1 ++ o2, d)).
Proof.
  revert d. induction l1 as [|p l1 IH]; intros d; cbn; [by destruct (rs.decode_all l2 d) as [[? ?]| | |]|].
  destruct (rs.TryDecode p d) as [[o d']| | |]; cbn; [|done..]. rewrite IH.
  destruct (rs.decode_all l1 d') as [[o1 d1]| | |]; cbn; [|done..].
  by destruct (rs.decode_all l2 d1) as [[o2 d2]| | |].
Qed.

Lemma rs_encode_pending D P c b payloads buffer :
  D <= 65536 -> len buffer + len payloads < D ->
  rs.encode_all payloads (rs.Encoder.mk c (rs.Config.mk D P) b (len buffer) buffer) =
    Ok (replicate (length payloads) None,
        rs.Encoder.mk c (rs.Config.mk D P) b (len (buffer ++ payloads)) (buffer ++ payloads)).
Proof.
  intros HD. revert buffer. induction payloads as [|p payloads IH]; intros buffer Hl; cbn; [by rewrite app_nil_r|].
  rewrite len_cons in Hl. pose proof (len_nonneg buffer). pose proof (len_nonneg payloads).
  unfold rs.TryEncode at 1. cbn. rewrite int64_small by lia.
  replace (len buffer + 1 <? D) with true by lia. cbn.
  replace (len buffer + 1) with (len (buffer ++ [p])) by (by rewrite len_app, len_cons, len_nil).
  rewrite IH by (rewrite len_app, len_cons, len_nil; lia). cbn. by rewrite <- app_assoc.
Qed.

Lemma rs_decode_pending D P c b packets buffer :
  0 <= D + P <= 65536 -> len buffer + len packets < D + P ->
  rs.decode_all packets (rs.Decoder.mk c (rs.Config.mk D P) b (len buffer) buffer) =
    Ok (replicate (length packets) None,
        rs.Decoder.mk c (rs.Config.mk D P) b (len (buffer ++ packets)) (buffer ++ packets)).
Proof.
  intros HD. revert buffer. induction packets as [|p packets IH]; intros buffer Hl; cbn; [by rewrite app_nil_r|].
  rewrite len_cons in Hl. pose proof (len_nonneg buffer). pose proof (len_nonneg packets).
  unfold rs.TryDecode at 1. cbn. rewrite !int64_small by lia.
  replace (len buffer + 1 <? D + P) with true by lia. cbn.
  replace (len buffer + 1) with (len (buffer ++ [p])) by (by rewrite len_app, len_cons, len_nil).
  rewrite IH by (rewrite len_app, len_cons, len_nil; lia). cbn. by rewrite <- app_assoc.
Qed.

Lemma slices_of {A} (l1 l2 : list A) :
  slice_to (l1 ++ l2) (len l1) = Ok l1 /\ slice_from (l1 ++ l2) (len l1) = Ok l2.
Proof. split; [apply slice_to_app|apply slice_from_app]. Qed.

(** The shards an encoder makes of a block, before the parity is filled in. *)
Definition shards_of (D P : Z) (data : list byte) (s : shards) : Prop :=
  exists n k, len s = D + P /\ (0 < n)%nat /\ sized n s /\ concat (take (Z.to_nat D) s) = data ++ xor.zeros k.

Lemma rs_encode_last D P c b payload buffer s data parity :
  0 < D <= 65536 -> len buffer = D - 1 -> rs_Split c (concat (buffer ++ [payload])) = Some s ->
  rs_Encode c s = data ++ parity -> len data = D ->
  rs.TryEncode payload (rs.Encoder.mk c (rs.Config.mk D P) b (len buffer) buffer) =
    Ok (Some (data, parity), rs.Encoder.mk c (rs.Config.mk D P) (int64 (b + 1)) 0 []).
Proof.
  intros HD Hl Hs He Hd. assert (65536 * 24 <= maxAlloc) by (vm_compute; congruence).
  unfold rs.TryEncode, rs.flushEncoder. cbn. rewrite int64_small by lia.
  replace (len buffer + 1 <? D) with false by lia. rewrite make_buffer_Ok by lia. cbn.
  rewrite Hs. cbn. rewrite He, <- Hd. destruct (slices_of data parity) as [-> ->]. done.
Qed.

Lemma rs_decode_last D P c b packet buffer data parity :
  0 < D -> 0 <= P -> D + P <= 65536 -> len buffer = D + P - 1 ->
  rs_Reconstruct c (buffer ++ [packet]) = data ++ parity -> len data = D ->
  rs.TryDecode packet (rs.Decoder.mk c (rs.Config.mk D P) b (len buffer) buffer) =
    Ok (Some (data, parity), rs.Decoder.mk c (rs.Config.mk D P) (int64 (b + 1)) 0 []).
Proof.
  intros HD HP HDP Hl He Hd. assert (65536 * 24 <= maxAlloc) by (vm_compute; congruence).
  unfold rs.TryDecode, rs.flushDecoder. cbn. rewrite !int64_small by lia.
  replace (len buffer + 1 <? D + P) with false by lia. rewrite make_buffer_Ok by lia. cbn.
  rewrite He, <- Hd. destruct (slices_of data parity) as [-> ->]. done.
Qed.

Lemma split_last (l : list (list byte)) n :
  0 < n -> len l = n -> exists init last, l = init ++ [last] /\ len init = n - 1.
Proof.
  intros Hn Hl. destruct (exists_last (l := l)) as (init & last & ->).
  - intros ->. rewrite len_nil in Hl. lia.
  - exists init, last. split; [done|]. rewrite len_app, len_cons, len_nil in Hl. lia.
Qed.

(** A block of payloads, not all of them empty. *)
Lemma rs_encode_block D P c e block :
  rs_New D P = Some c -> encoder_ready D P c e -> len block = D -> concat block <> [] ->
  exists s data parity e', shards_of D P (concat block) s /\ data = take (Z.to_nat D) s /\
    rs_Encode c s = data ++ parity /\ len data = D /\ len parity = P /\
    rs.encode_all block e = Ok (block_answers D (data, parity), e') /\ encoder_ready D P c e'.
Proof.
  intros HN [b ->] Hl Hne. destruct (rs_New_bounds D P c HN) as (HD & HP & HDP).
  destruct (rs_Split_shards D P c _ HN Hne) as (s & n & k & Hs & Hsl & Hn & Hsz & Hc).
  destruct (rs_Encode_parity D P c s n HN Hsl Hn Hsz) as (parity & He & Hp & _).
  assert (len (take (Z.to_nat D) s) = D) as Hd by (unfold len in *; rewrite length_take; lia).
  exists s, (take (Z.to_nat D) s), parity. eexists. split; [by exists n, k|].
  do 4 (split; [done|]). destruct (split_last block D HD Hl) as (init & last & -> & Hi).
  pose proof (rs_encode_pending D P c b init [] ltac:(lia) ltac:(rewrite len_nil; lia)) as Hpend.
  rewrite len_nil in Hpend. rewrite rs_encode_all_app, Hpend.
  cbn [mbind res_bind app rs.encode_all]. rewrite (rs_encode_last D P c b last init s _ parity) by (done || lia).
  cbn. split; [|by eexists]. unfold block_answers. do 3 f_equal.
  unfold len in Hi. rewrite <- Hi. f_equal. lia.
Qed.

Lemma rs_decode_block D P c d s n data parity lost :
  rs_New D P = Some c -> decoder_ready D P c d -> len s = D + P -> (0 < n)%nat -> sized n s ->
  rs_Encode c s = data ++ parity -> len data = D -> len parity = P ->
  len lost = D + P -> lost_count lost <= P ->
  exists d', rs.decode_all (lose lost (data ++ parity)) d = Ok (block_answers (D + P) (data, parity), d') /\
    decoder_ready D P c d'.
Proof.
  intros HN [b ->] Hsl Hn Hsz He Hd Hp Hll Hlc. destruct (rs_New_bounds D P c HN) as (HD & HP & HDP).
  pose proof (rs_Reconstruct_lost D P c s n lost HN Hsl Hn Hsz Hll Hlc) as Hr. rewrite He in Hr.
  assert (len (lose lost (data ++ parity)) = D + P) as Hl.
  { unfold lose, len. rewrite length_zip_with, length_app. unfold len in *. lia. }
  destruct (split_last _ (D + P) ltac:(lia) Hl) as (init & last & E & Hi). rewrite E in *.
  pose proof (rs_decode_pending D P c b init [] ltac:(lia) ltac:(rewrite len_nil; lia)) as Hpend.
  rewrite len_nil in Hpend. rewrite rs_decode_all_app, Hpend.
  cbn [mbind res_bind app rs.decode_all]. rewrite (rs_decode_last D P c b last init data parity) by (done || lia).
  cbn. eexists. split; [|by eexists]. unfold block_answers. do 3 f_equal.
  unfold len in Hi. rewrite <- Hi. f_equal. lia.
Qed.

(** The shards of a block: they carry the bytes of the payloads, joined. *)
Definition carries (D P : Z) (block : list (list byte)) (packets : shards * shards) : Prop :=
  len packets.1 = D /\ len packets.2 = P /\ exists k, concat packets.1 = concat block ++ xor.zeros k.

(** What arrives: of every block the shards that were not lost, and nil in the
    place of the others. *)
Definition lost_stream (losses : list (list bool)) (packets : list (shards * shards)) : list (list byte) :=
  concat (zip_with (fun lost p => lose lost (p.1 ++ p.2)) losses packets).

Lemma stream_recovers D P c blocks losses e d :
  rs_New D P = Some c -> encoder_ready D P c e -> decoder_ready D P c d ->
  Forall (fun b => len b = D /\ concat b <> []) blocks ->
  Forall (fun l => len l = D + P /\ lost_count l <= P) losses -> length losses = length blocks ->
  exists packets e' d', Forall2 (carries D P) blocks packets /\
    rs.encode_all (concat blocks) e = Ok (concat (map (block_answers D) packets), e') /\
    rs.decode_all (lost_stream losses packets) d = Ok (concat (map (block_answers (D + P)) packets), d').
Proof.
  intros HN He Hd Hb. revert losses e d He Hd.
  induction Hb as [|block blocks [Hl Hne] Hb IH]; intros losses e d He Hd Hlo Hlen.
  - exists [], e, d. destruct losses; [|done]. by split_and!.
  - destruct Hlo as [|lost losses [Hll Hlc] Hlo]; [done|].
    destruct (rs_encode_block D P c e block HN He Hl Hne)
      as (s & data & parity & e1 & (n & k & Hsl & Hn & Hsz & Hcc) & -> & Hs & Hdl & Hpl & Henc & He1).
    destruct (rs_decode_block D P c d s n _ parity lost HN Hd Hsl Hn Hsz Hs Hdl Hpl Hll Hlc) as (d1 & Hdec & Hd1).
    destruct (IH losses e1 d1 He1 Hd1 Hlo ltac:(by injection Hlen)) as (packets & e' & d' & Hc & HE & HD).
    exists ((take (Z.to_nat D) s, parity) :: packets), e', d'. split; [|split].
    + constructor; [|done]. split_and!; [done..|]. by exists k.
    + cbn [concat map]. rewrite rs_encode_all_app, Henc. cbn [mbind res_bind]. by rewrite HE.
    + unfold lost_stream. cbn [zip_with concat map]. rewrite rs_decode_all_app. cbn [fst snd].
      rewrite Hdec. cbn [mbind res_bind]. unfold lost_stream in HD. by rewrite HD.
Qed.

Lemma NewEncoder_ready D P e :
  rs.NewEncoder (rs.Config.mk D P) = Ok (Some e) -> exists c, rs_New D P = Some c /\ encoder_ready D P c e.
Proof.
  unfold rs.NewEncoder. cbn. destruct (rs_New D P) as [c|]; [|done]. unfold xor.make_buffer.
  destruct (make_slice 24 D); cbn; [|done..]. intros [= <-]. exists c. split; [done|by eexists].
Qed.

Lemma NewDecoder_ready D P d :
  rs.NewDecoder (rs.Config.mk D P) = Some d -> exists c, rs_New D P = Some c /\ decoder_ready D P c d.
Proof.
  unfold rs.NewDecoder. cbn. destruct (rs_New D P) as [c|]; [|done]. intros [= <-].
  exists c. split; [done|by eexists].
Qed.

(** C23: Reed-Solomon from end to end, over any number of blocks.  An encoder
    answers nothing for the payloads of a block but the last, and for that the data
    and the parity shards of the block.  A decoder with the same configuration that
    is given the shards in order, with nil for those that were lost, at most as
    many of a block as there is parity, answers nothing but at the end of each
    block, and there exactly the shards of the encoder.  The data shards joined are
    the payloads joined, followed by zeros: where one payload ends and the next
    begins is not kept. *)
Theorem rs_stream_recovers D P e d blocks losses :
  rs.NewEncoder (rs.Config.mk D P) = Ok (Some e) -> rs.NewDecoder (rs.Config.mk D P) = Some d ->
  Forall (fun b => len b = D /\ concat b <> []) blocks ->
  Forall (fun l => len l = D + P /\ lost_count l <= P) losses -> length losses = length blocks ->
  exists packets e' d', Forall2 (carries D P) blocks packets /\
    rs.encode_all (concat blocks) e = Ok (concat (map (block_answers D) packets), e') /\
    rs.decode_all (lost_stream losses packets) d = Ok (concat (map (block_answers (D + P)) packets), d').
Proof.
  intros He Hd. apply NewEncoder_ready in He as (c & HN & He). apply NewDecoder_ready in Hd as (c' & HN' & Hd).
  rewrite HN in HN'. injection HN' as <-. by eapply stream_recovers.
Qed.

(** A block of empty payloads brings the encoder down: Split answers its error and
    nil shards, the error is dropped, and nil is sliced. *)
Theorem empty_block_panics D P e block :
  rs.NewEncoder (rs.Config.mk D P) = Ok (Some e) -> len block = D -> concat block = [] ->
  rs.encode_all block e = Panic.
Proof.
  intros He Hl Hc. apply NewEncoder_ready in He as (c & HN & b & ->).
  destruct (rs_New_bounds D P c HN) as (HD & HP & HDP).
  destruct (split_last block D HD Hl) as (init & last & -> & Hi).
  pose proof (rs_encode_pending D P c b init [] ltac:(lia) ltac:(rewrite len_nil; lia)) as Hpend.
  rewrite len_nil in Hpend. rewrite rs_encode_all_app, Hpend. cbn [mbind res_bind app rs.encode_all].
  unfold rs.TryEncode, rs.flushEncoder. cbn. rewrite int64_small by lia.
  replace (len init + 1 <? D) with false by lia. rewrite Hc, (rs_Split_short D P c HN). cbn.
  assert (65536 * 24 <= maxAlloc) by (vm_compute; congruence). rewrite make_buffer_Ok by lia. cbn.
  rewrite (rs_Encode_count D P c [] HN) by (rewrite len_nil; lia).
  unfold slice_to. replace (D <=? len []) with false by (rewrite len_nil; lia). by rewrite andb_false_r.
Qed.

End Blocks.

(** * A code

    The code with a single parity shard, the exclusive or of the data shards,
    keeps the laws. *)

Fixpoint chunks (n c : nat) (l : list byte) : shards :=
  match c with
  | O => []
  | S c => take n l :: chunks n c (drop n l)
  end.

Definition xor_shard (n : nat) (s : shards) : list byte := map (fun i => xor_sum (map (at_ i) s)) (seq 0 n).
Definition missing (s : shards) : nat := length (filter (fun shard => shard = []) s).

#[export] Instance single_parity : ReedSolomon := {|
  rs_coder := nat;
  rs_New D P := if (0 <? D) && (P =? 1) && (D <? 65536) then Some (Z.to_nat D) else None;
  rs_Split c data :=
    match data with
    | [] => None
    | _ =>
        let n := ((length data + c - 1) / c)%nat in
        Some (chunks n c (data ++ xor.zeros (n * c - length data)) ++ [xor.zeros n])
    end;
  rs_Encode c s :=
    if (length s =? S c)%nat then take c s ++ [xor_shard (xor.maxLen s) (take c s)] else s;
  rs_Reconstruct c s :=
    if (length s =? S c)%nat && (missing s <=? 1)%nat
    then map (fun shard => match shard with [] => xor_shard (xor.maxLen s) s | _ => shard end) s else s;
|}.

Section SingleParity.

Lemma length_chunks n c l : length (chunks n c l) = c.
Proof. revert l. induction c as [|c IH]; intros l; cbn; [done|by rewrite IH]. Qed.

Lemma chunks_spec n c l : length l = (n * c)%nat -> sized n (chunks n c l) /\ concat (chunks n c l) = l.
Proof.
  revert l. induction c as [|c IH]; intros l Hl; cbn.
  - split; [constructor|]. symmetry. apply length_zero_iff_nil. lia.
  - destruct (IH (drop n l)) as [H1 H2]; [rewrite length_drop; lia|]. split.
    + constructor; [rewrite length_take; lia|done].
    + by rewrite H2, take_drop.
Qed.

Lemma maxLen_app s1 s2 : xor.maxLen (s1 ++ s2) = Nat.max (xor.maxLen s1) (xor.maxLen s2).
Proof. induction s1 as [|x s1 IH]; [done|]. cbn [app]. rewrite !maxLen_cons, IH. lia. Qed.

Lemma maxLen_sized n s : s <> [] -> sized n s -> xor.maxLen s = n.
Proof.
  intros Hne Hs. destruct Hs as [|x s Hx Hs]; [done|]. rewrite maxLen_cons.
  enough (xor.maxLen s <= n)%nat by lia. clear Hne.
  induction Hs as [|y s Hy Hs IH]; [unfold xor.maxLen; cbn; lia|]. rewrite maxLen_cons. lia.
Qed.

Lemma length_xor_shard n s : length (xor_shard n s) = n.
Proof. unfold xor_shard. by rewrite length_map, length_seq. Qed.

Lemma at_xor_shard n s i : (i < n)%nat -> at_ i (xor_shard n s) = xor_sum (map (at_ i) s).
Proof.
  intros Hi. unfold at_ at 1, xor_shard.
  rewrite list_lookup_fmap, lookup_seq_lt by done. done.
Qed.

Lemma xor_sum_cons x l : xor_sum (x :: l) = byte.xor x (xor_sum l).
Proof. done. Qed.

Lemma xor_sum_app l1 l2 : xor_sum (l1 ++ l2) = byte.xor (xor_sum l1) (xor_sum l2).
Proof.
  induction l1 as [|x l1 IH]; [by rewrite xor_zero_l|]. cbn [app].
  by rewrite !xor_sum_cons, IH, xor_assoc.
Qed.

Lemma xor_cancel a b c : byte.xor a b = byte.xor a c -> b = c.
Proof.
  intros H. apply (f_equal (byte.xor a)) in H. by rewrite !xor_assoc, !xor_self, !xor_zero_l in H.
Qed.

(** Shards whose columns sum up to zero determine each one by the others. *)
Lemma rebuilt n s1 x s2 :
  sized n (s1 ++ x :: s2) -> (forall i, (i < n)%nat -> xor_sum (map (at_ i) (s1 ++ x :: s2)) = byte.of_Z 0) ->
  xor_shard n (s1 ++ [] :: s2) = x.
Proof.
  intros Hs H0. assert (length x = n) as Hx by (apply Forall_app in Hs as [_ Hs]; by inversion Hs).
  apply at_ext; rewrite length_xor_shard; [done|]. intros i Hi. rewrite at_xor_shard by done.
  specialize (H0 i Hi). rewrite map_app, xor_sum_app, map_cons, xor_sum_cons in *.
  rewrite (at_beyond i []), xor_zero_l by (cbn; lia).
  set (a := xor_sum (map (at_ i) s1)) in *. set (b := xor_sum (map (at_ i) s2)) in *.
  apply (xor_cancel (at_ i x)). by rewrite xor_self, xor_assoc, (xor_comm _ a), <- xor_assoc.
Qed.

Lemma encoded_column n s i :
  (i < n)%nat -> xor_sum (map (at_ i) (s ++ [xor_shard n s])) = byte.of_Z 0.
Proof.
  intros Hi. rewrite map_app, xor_sum_app. cbn [map]. rewrite xor_sum_cons, at_xor_shard by done.
  change (xor_sum []) with (byte.of_Z 0). by rewrite xor_zero_r, xor_self.
Qed.

Lemma lost_count_cons b lost : lost_count (b :: lost) = (if b then 1 else 0) + lost_count lost.
Proof.
  unfold lost_count. rewrite filter_cons. destruct b.
  - rewrite decide_True by done. by rewrite len_cons.
  - by rewrite decide_False by auto.
Qed.

Lemma lost_count_nonneg lost : 0 <= lost_count lost.
Proof. apply len_nonneg. Qed.

Lemma nothing_lost lost : lost_count lost <= 0 -> forall s, length s = length lost -> lose lost s = s.
Proof.
  induction lost as [|b lost IH]; intros Hl [|x s] H; try done. rewrite lost_count_cons in Hl.
  pose proof (lost_count_nonneg lost). destruct b; [lia|]. unfold lose in *. cbn. by rewrite IH by (lia || (cbn in H; lia)).
Qed.

(** At most one shard is missing. *)
Lemma lost_one lost s :
  lost_count lost <= 1 -> length s = length lost ->
  lose lost s = s \/ exists s1 x s2, s = s1 ++ x :: s2 /\ lose lost s = s1 ++ [] :: s2.
Proof.
  revert s. induction lost as [|b lost IH]; intros [|x s] Hl H; try done; [by left|].
  rewrite lost_count_cons in Hl. injection H as H. destruct b.
  - right. exists [], x, s. split; [done|]. cbn. f_equal. apply nothing_lost; [lia|done].
  - destruct (IH s ltac:(lia) H) as [E|(s1 & y & s2 & -> & E)].
    + left. cbn. by f_equal.
    + right. exists (x :: s1), y, s2. split; [done|]. cbn. by f_equal.
Qed.

Lemma nonempty_kept n (f : list byte -> list byte) s :
  (0 < n)%nat -> sized n s -> map (fun shard => match shard with [] => f shard | _ => shard end) s = s.
Proof.
  intros Hn Hs. induction Hs as [|x s Hx Hs IH]; [done|]. cbn [map]. rewrite IH.
  destruct x; [cbn in Hx; lia|done].
Qed.

Lemma none_missing n s : (0 < n)%nat -> sized n s -> missing s = 0%nat.
Proof.
  intros Hn Hs. unfold missing. induction Hs as [|x s Hx Hs IH]; [done|]. rewrite filter_cons.
  destruct (decide (x = [])) as [->|]; [cbn in Hx; lia|done].
Qed.

Lemma reconstruct_one n (s1 : shards) x s2 :
  (0 < n)%nat -> s1 ++ s2 <> [] -> sized n (s1 ++ x :: s2) ->
  (forall i, (i < n)%nat -> xor_sum (map (at_ i) (s1 ++ x :: s2)) = byte.of_Z 0) ->
  rs_Reconstruct (ReedSolomon := single_parity) (length (s1 ++ s2)) (s1 ++ [] :: s2) = s1 ++ x :: s2.
Proof.
  intros Hn Hne Hs H0. pose proof (rebuilt n s1 x s2 Hs H0) as Hx.
  apply Forall_app in Hs as [Hs1 Hs2]. apply list.Forall_cons_1 in Hs2 as [_ Hs2]. cbn [rs_Reconstruct single_parity].
  assert (missing (s1 ++ [] :: s2) = 1%nat) as ->.
  { unfold missing. rewrite list.filter_app, length_app, filter_cons, decide_True by done. cbn.
    pose proof (none_missing n s1 Hn Hs1). pose proof (none_missing n s2 Hn Hs2). unfold missing in *. lia. }
  replace (length (s1 ++ [] :: s2) =? S (length (s1 ++ s2)))%nat with true
    by (rewrite !length_app; cbn; symmetry; apply Nat.eqb_eq; lia).
  cbn [andb Nat.leb]. assert (xor.maxLen (s1 ++ [] :: s2) = n) as ->.
  { rewrite maxLen_app, maxLen_cons. cbn [length]. rewrite Nat.max_0_l, <- maxLen_app.
    apply maxLen_sized; [done|]. by apply Forall_app. }
  rewrite map_app. cbn [map]. rewrite (nonempty_kept n _ s1), (nonempty_kept n _ s2) by done. by rewrite Hx.
Qed.

Lemma single_New D P c :
  rs_New (ReedSolomon := single_parity) D P = Some c -> exists d, c = S d /\ D = Z.of_nat (S d) /\ P = 1 /\ D < 65536.
Proof.
  cbn. destruct ((0 <? D) && (P =? 1) && (D <? 65536)) eqn:E; [|done]. intros [= <-].
  exists (Z.to_nat (D - 1)). lia.
Qed.

Lemma single_Split c data :
  (0 < c)%nat -> data <> [] ->
  exists s n k, rs_Split (ReedSolomon := single_parity) c data = Some s /\ length s = S c /\ (0 < n)%nat /\
    sized n s /\ concat (take c s) = data ++ xor.zeros k.
Proof.
  intros Hc Hne. cbn [rs_Split single_parity]. set (n := ((length data + c - 1) / c)%nat).
  assert (length data <= n * c)%nat as Hle.
  { subst n. pose proof (Nat.div_mod (length data + c - 1) c ltac:(lia)).
    pose proof (Nat.mod_upper_bound (length data + c - 1) c ltac:(lia)). lia. }
  assert (0 < length data)%nat as Hlen by (destruct data; [done|cbn; lia]).
  set (k := (n * c - length data)%nat).
  destruct (chunks_spec n c (data ++ xor.zeros k)) as [Hs Hj].
  { unfold xor.zeros. rewrite length_app, length_replicate. lia. }
  exists (chunks n c (data ++ xor.zeros k) ++ [xor.zeros n]), n, k.
  split; [by destruct data|]. split; [rewrite length_app, length_chunks; cbn; lia|]. split; [nia|]. split.
  - apply Forall_app. split; [done|]. constructor; [apply length_replicate|constructor].
  - rewrite take_app_length' by (by rewrite length_chunks). done.
Qed.

Lemma single_Encode c s n :
  (0 < n)%nat -> length s = S c -> sized n s ->
  rs_Encode (ReedSolomon := single_parity) c s = take c s ++ [xor_shard n (take c s)].
Proof.
  intros Hn Hl Hs. cbn [rs_Encode single_parity]. rewrite Hl, Nat.eqb_refl.
  rewrite (maxLen_sized n s); [done| |done]. by destruct s.
Qed.

#[export] Instance single_parity_laws : ReedSolomonLaws (H := single_parity).
Proof.
  split.
  - intros D P c (d & -> & -> & -> & H)%single_New. lia.
  - done.
  - intros D P c data (d & -> & -> & -> & H)%single_New Hne.
    destruct (single_Split (S d) data ltac:(lia) Hne) as (s & n & k & H1 & H2 & H3 & H4 & H5).
    exists s, n, k. rewrite Nat2Z.id. split; [done|]. split; [unfold len; lia|]. done.
  - intros D P c s (d & -> & -> & -> & H)%single_New Hl. cbn [rs_Encode single_parity].
    replace (length s =? S (S d))%nat with false; [done|]. unfold len in Hl. symmetry. apply Nat.eqb_neq. lia.
  - intros D P c s n (d & -> & -> & -> & H)%single_New Hl Hn Hs. rewrite Nat2Z.id.
    exists [xor_shard n (take (S d) s)]. split; [apply single_Encode; [done|unfold len in Hl; lia|done]|].
    split; [done|]. constructor; [apply length_xor_shard|constructor].
  - intros D P c s n lost (d & -> & -> & -> & H)%single_New Hl Hn Hs Hll Hlc.
    rewrite (single_Encode _ s n) by (done || (unfold len in Hl; lia)).
    set (data := take (S d) s) in *.
    assert (length data = S d) as Hd by (subst data; rewrite length_take; unfold len in Hl; lia).
    assert (sized n (data ++ [xor_shard n data])) as Hsz.
    { apply Forall_app. split; [by apply Forall_take|]. constructor; [apply length_xor_shard|constructor]. }
    assert (length (data ++ [xor_shard n data]) = S (S d)) as Hdl by (rewrite length_app; cbn; lia).
    pose proof (fun i Hi => encoded_column n data i Hi) as Hcol.
    destruct (lost_one lost (data ++ [xor_shard n data]) Hlc) as [->|(s1 & x & s2 & E & ->)].
    { unfold len in Hll. lia. }
    + cbn [rs_Reconstruct single_parity]. rewrite nonempty_kept with (n := n) by done.
      by destruct (_ && _).
    + rewrite E in *. assert (length (s1 ++ s2) = S d) as Hl12.
      { rewrite length_app in *. cbn in Hdl. lia. }
      rewrite <- Hl12. apply (reconstruct_one n); [done| |done|done]. intros E0. by rewrite E0 in Hl12.
Qed.

End SingleParity.

(** * Examples *)

Module rs_example.
Import rs.
Definition config : Config.t := Config.mk 3 1.
Definition block (a b c : Z) : list (list byte) := [[byte.of_Z a]; [byte.of_Z b; byte.of_Z b]; [byte.of_Z c]].
Definition blocks : list (list (list byte)) := [block 1 2 3; block 4 5 6].
Definition losses : list (list bool) := [[false; true; false; false]; [false; false; false; true]].
Definition encoder : Encoder.t := Encoder.mk (3%nat : rs_coder (ReedSolomon := single_parity)) config 0 0 [].
Definition decoder : Decoder.t := Decoder.mk (3%nat : rs_coder (ReedSolomon := single_parity)) config 0 0 [].
End rs_example.

Lemma rs_stream_recovers_witness :
  exists packets e d e' d',
    rs.NewEncoder rs_example.config = Ok (Some e) /\ rs.NewDecoder rs_example.config = Some d /\
    rs.encode_all (concat rs_example.blocks) e = Ok (concat (map (block_answers 3) packets), e') /\
    rs.decode_all (lost_stream rs_example.losses packets) d = Ok (concat (map (block_answers 4) packets), d').
Proof.
  destruct (rs_stream_recovers 3 1 rs_example.encoder rs_example.decoder rs_example.blocks
    rs_example.losses) as (packets & e' & d' & _ & He & Hd).
  - reflexivity.
  - reflexivity.
  - repeat constructor; vm_compute; discriminate.
  - repeat constructor; vm_compute; discriminate.
  - reflexivity.
  - exists packets. do 2 eexists. exists e', d'. split; [reflexivity|]. split; [reflexivity|]. split; [exact He|exact Hd].
Defined.

Lemma empty_block_panics_witness :
  rs.encode_all [[]; []; []] rs_example.encoder = Panic.
Proof. by apply (empty_block_panics 3 1). Defined.
