(* ===== verification/Applications.v ===== *)
(** The applications of the repository (examples/counter, fec/xor/example and
    examples/date): the handlers they give to their sessions.

    The three programs decide alike which announcements and subscriptions they
    take; the handlers of fec/xor/example/main.go are those of
    examples/counter/main.go, line by line, with another publisher.  The log lines
    are left out, and so is what a handler does after it has accepted a
    subscription: the publishers that are started are in Counter, XorCounter. *)

From Stdlib Require Import String.
From S2P Require Import Prelude VarInt Codec WireTypes Messages ControlMessages Objects Params.
From S2P Require Import ParserSafety Errors Framing State RequestID TrackMaps Tracks Announcements.
From S2P Require Import SessionState Session SessionInv SessionSafety Sending Handshake Requests Exchanges.
Local Open Scope Z_scope.
Local Open Scope go_scope.

(** [for i, t := range a { if t != b[i] { return false } }] *)
Fixpoint tuple_loop (a b : list gostring) : bool :=
  match a, b with
  | t :: a, u :: b => if negb (bool_decide (t = u)) then false else tuple_loop a b
  | _, _ => true
  end.

Definition tupleEqual (a b : list gostring) : bool :=
  if negb (len a =? len b) then false else tuple_loop a b.

(** The fields of a counterHandler, and of a moqHandler, that its handlers read. *)
Module counterHandler.
Record t := mk { namespace : list gostring; trackname : gostring; publish : bool; subscribe : bool }.
End counterHandler.

Module moqHandler.
Record t := mk { namespace : list gostring; trackname : gostring; publish : bool; subscribe : bool;
  largestGroup : Z }.
End moqHandler.

(** [getHandler]: answers announcements, and leaves all other requests to the
    session. *)
Definition getHandler (h : counterHandler.t) (r : Message.t) : prog rw_call :=
  if bool_decide (Message.Method r = MessageAnnounce) then
    if negb (counterHandler.subscribe h)
    then Call (RwReject 0 (str "counter doesn't take announcements")) (fun _ => Return)
    else if negb (tupleEqual (Message.Namespace r) (counterHandler.namespace h))
    then Call (RwReject 0 (str "non-matching namespace")) (fun _ => Return)
    else Call RwAccept (fun _ => Return)
  else Return.

Definition getSubscribeHandler (h : counterHandler.t) (m : PublicSubscribe.t) : prog subscribe_call :=
  if negb (counterHandler.publish h)
  then Call (SubReject ErrorCodeSubscribeTrackDoesNotExist (str "endpoint does not publish any tracks"))
         (fun _ => Return)
  else if negb (tupleEqual (PublicSubscribe.Namespace m) (counterHandler.namespace h)) ||
          negb (bool_decide (PublicSubscribe.Track m = counterHandler.trackname h))
  then Call (SubReject ErrorCodeSubscribeTrackDoesNotExist (str "unknown track")) (fun _ => Return)
  else Call (SubAccept []) (fun _ => Return).

Definition date_getHandler (h : moqHandler.t) (r : Message.t) : prog rw_call :=
  if bool_decide (Message.Method r = MessageAnnounce) then
    if negb (moqHandler.subscribe h)
    then Call (RwReject 0 (str "date doesn't take announcements")) (fun _ => Return)
    else if negb (tupleEqual (Message.Namespace r) (moqHandler.namespace h))
    then Call (RwReject 0 (str "non-matching namespace")) (fun _ => Return)
    else Call RwAccept (fun _ => Return)
  else Return.

Definition date_getSubscribeHandler (h : moqHandler.t) (m : PublicSubscribe.t) : prog subscribe_call :=
  if negb (moqHandler.publish h)
  then Call (SubReject ErrorCodeSubscribeTrackDoesNotExist (str "endpoint does not publish any tracks"))
         (fun _ => Return)
  else if negb (tupleEqual (PublicSubscribe.Namespace m) (moqHandler.namespace h)) ||
          negb (bool_decide (PublicSubscribe.Track m = moqHandler.trackname h))
  then Call (SubReject ErrorCodeSubscribeTrackDoesNotExist (str "unknown track")) (fun _ => Return)
  else Call (SubAccept [WithLargestLocation (Some (Location.mk (moqHandler.largestGroup h) 0))])
         (fun _ => Return).

(** The session of [handle] has both handlers. *)
Definition counter_application (h : counterHandler.t) : Application := {|
  Handler := Some (getHandler h);
  SubscribeHandler := Some (getSubscribeHandler h);
|}.

Definition date_application (h : moqHandler.t) : Application := {|
  Handler := Some (date_getHandler h);
  SubscribeHandler := Some (date_getSubscribeHandler h);
|}.

(** * What an application offers

    The interface of an application to the peer: the track it publishes, with the
    options it accepts a subscription with, and the namespace it takes
    announcements of. *)

Definition subscribe_answer (offered : option (list gostring * gostring * list SubscribeOKOption))
    (m : PublicSubscribe.t) : prog subscribe_call :=
  match offered with
  | Some (namespace, track, options) =>
      if bool_decide (PublicSubscribe.Namespace m = namespace) && bool_decide (PublicSubscribe.Track m = track)
      then Call (SubAccept options) (fun _ => Return)
      else Call (SubReject ErrorCodeSubscribeTrackDoesNotExist (str "unknown track")) (fun _ => Return)
  | None =>
      Call (SubReject ErrorCodeSubscribeTrackDoesNotExist (str "endpoint does not publish any tracks"))
        (fun _ => Return)
  end.

Definition announce_answer (refusal : gostring) (taken : option (list gostring)) (namespace : list gostring) :
    rw_call :=
  match taken with
  | Some expected =>
      if bool_decide (namespace = expected) then RwAccept else RwReject 0 (str "non-matching namespace")
  | None => RwReject 0 refusal
  end.

Class Offers (Ap : Application) := {
  offered : option (list gostring * gostring * list SubscribeOKOption);
  taken : option (list gostring);
  refusal : gostring;
  refusal_short : len refusal <= 60000;
  no_expiry namespace track options : offered = Some (namespace, track, options) ->
    SubscribeOkOptions.Expires (apply_options options SubscribeOkOptions.default) = 0;
  answers_subscriptions :
    exists h, SubscribeHandler (Application := Ap) = Some h /\ forall m, h m = subscribe_answer offered m;
  answers_announcements :
    exists h, Handler (Application := Ap) = Some h /\
      forall r, h r = if bool_decide (Message.Method r = MessageAnnounce)
                      then Call (announce_answer refusal taken (Message.Namespace r)) (fun _ => Return)
                      else Return;
}.

Lemma tuple_loop_spec a b : length a = length b -> tuple_loop a b = bool_decide (a = b).
Proof.
  revert b. induction a as [|t a IH]; intros [|u b] H; try done. injection H as H. cbn.
  rewrite (IH b H). repeat case_bool_decide; simplify_eq/=; congruence.
Qed.

Lemma tupleEqual_spec a b : tupleEqual a b = bool_decide (a = b).
Proof.
  unfold tupleEqual, len. destruct (Z.eqb_spec (Z.of_nat (length a)) (Z.of_nat (length b))) as [H|H].
  - apply tuple_loop_spec. lia.
  - symmetry. apply bool_decide_eq_false_2. by intros ->.
Qed.

#[export] Program Instance counter_offers h : Offers (counter_application h) := {|
  offered := if counterHandler.publish h
             then Some (counterHandler.namespace h, counterHandler.trackname h, []) else None;
  taken := if counterHandler.subscribe h then Some (counterHandler.namespace h) else None;
  refusal := str "counter doesn't take announcements";
|}.
Next Obligation. vm_compute. discriminate. Qed.
Next Obligation. intros h ns name options H. destruct (counterHandler.publish h); [by injection H as _ _ <-|done]. Qed.
Next Obligation.
  intros h. exists (getSubscribeHandler h). split; [done|]. intros m. unfold getSubscribeHandler, subscribe_answer.
  rewrite tupleEqual_spec. destruct (counterHandler.publish h); [|done]. by do 2 destruct (bool_decide _).
Qed.
Next Obligation.
  intros h. exists (getHandler h). split; [done|]. intros r. unfold getHandler, announce_answer.
  rewrite tupleEqual_spec. destruct (counterHandler.subscribe h), (bool_decide (Message.Method r = _)); try done.
  by destruct (bool_decide _).
Qed.

#[export] Program Instance date_offers h : Offers (date_application h) := {|
  offered := if moqHandler.publish h
             then Some (moqHandler.namespace h, moqHandler.trackname h,
                        [WithLargestLocation (Some (Location.mk (moqHandler.largestGroup h) 0))]) else None;
  taken := if moqHandler.subscribe h then Some (moqHandler.namespace h) else None;
  refusal := str "date doesn't take announcements";
|}.
Next Obligation. vm_compute. discriminate. Qed.
Next Obligation. intros h ns name options H. destruct (moqHandler.publish h); [by injection H as _ _ <-|done]. Qed.
Next Obligation.
  intros h. exists (date_getSubscribeHandler h). split; [done|]. intros m.
  unfold date_getSubscribeHandler, subscribe_answer.
  rewrite tupleEqual_spec. destruct (moqHandler.publish h); [|done]. by do 2 destruct (bool_decide _).
Qed.
Next Obligation.
  intros h. exists (date_getHandler h). split; [done|]. intros r. unfold date_getHandler, announce_answer.
  rewrite tupleEqual_spec. destruct (moqHandler.subscribe h), (bool_decide (Message.Method r = _)); try done.
  by destruct (bool_decide _).
Qed.

(** * Announcements *)

Section Applications.
Context {QV : QuicVarint} {QVL : QuicVarintLaws} {MR : MapRange}.
Context (Ap : Application) {OF : Offers Ap}.

Lemma fits_AnnounceError id code reason :
  0 <= id <= maxVarInt -> 0 <= code <= maxVarInt -> len reason <= 60000 ->
  fits (AnnounceError (AnnounceErrorMessage.mk id code reason)).
Proof.
  intros Hid Hc Hr. apply (bounded_fits (8 + (8 + (8 + len reason)))); [|lia].
  repeat (apply bounded_seq; [by apply bounded_varint|]). apply bounded_VarIntBytes. cbn. lia.
Qed.

(** The announcement is filed as pending. *)
Definition incoming_record (msg : AnnounceMessage.t) (s : Session.t) : announcement.t :=
  announcement.mk (AnnounceMessage.RequestID msg) (AnnounceMessage.TrackNamespace msg)
    (AnnounceMessage.Parameters msg) (length (Session.chans s)).
Definition incoming (msg : AnnounceMessage.t) (s : Session.t) : Session.t :=
  Session.set_incomingAnnouncements
    (announcementMap.add (Session.incomingAnnouncements s) (incoming_record msg s))
    (Session.set_chans (Session.chans s ++ [[]]) s).

(** onAnnounce, for a handler that answers with one call. *)
Lemma onAnnounce_run msg h a s r :
  Handler (Application := Ap) = Some h ->
  h (message MessageAnnounce (AnnounceMessage.RequestID msg) (AnnounceMessage.TrackNamespace msg) [])
    = Call a (fun _ => Return) ->
  valid_namespace (AnnounceMessage.TrackNamespace msg) = true ->
  announcement_exec (AnnounceMessage.RequestID msg) a false (incoming msg s) = Ok (Ret (None, true), r) ->
  onAnnounce (App := Ap) msg s = Ok (Ret tt, r).
Proof.
  intros Hh Ha Hn He. unfold onAnnounce. rewrite Hn. cbn [negb].
  unfold gm_bind at 1, make_chan. unfold gm_bind at 1, modify. fold (incoming_record msg s). fold (incoming msg s).
  assert (Handle (App := Ap) (announcement_exec (AnnounceMessage.RequestID msg)) false
    (message MessageAnnounce (AnnounceMessage.RequestID msg) (AnnounceMessage.TrackNamespace msg) [])
    (incoming msg s) = Ok (Ret true, r)) as Hrun.
  { unfold Handle. rewrite Hh, Ha. cbn [run_handler]. by rewrite (run_bind _ _ _ _ _ He). }
  by rewrite (run_bind _ _ _ _ _ Hrun).
Qed.

(** How an application answers announcements.  An ANNOUNCE of the namespace it
    takes is answered with ANNOUNCE_OK and the announcement is confirmed; one of
    any other namespace, and every one when it takes none, is answered with an
    ANNOUNCE_ERROR of code 0 and the reason; the announcement stays filed as
    pending then. *)
Theorem application_announcements msg s :
  let id := AnnounceMessage.RequestID msg in
  let ns := AnnounceMessage.TrackNamespace msg in
  Session.handshakeDone s = true -> valid_namespace ns = true -> 0 <= id <= maxVarInt -> next_answer s = None ->
  exists s', receive (App := Ap) (Announce msg) s = Ok (Ret tt, s') /\
    (taken = Some ns ->
       Session.written s' = Session.written s ++ [AnnounceOk (AnnounceOkMessage.mk id)] /\
       announcementMap.announcements (Session.incomingAnnouncements s') !! id = Some (incoming_record msg s) /\
       announcementMap.pending (Session.incomingAnnouncements s') !! id = None) /\
    (taken <> Some ns ->
       exists reason, reason = match taken with Some _ => str "non-matching namespace" | None => refusal end /\
       Session.written s' = Session.written s ++ [AnnounceError (AnnounceErrorMessage.mk id 0 reason)] /\
       announcementMap.announcements (Session.incomingAnnouncements s') =
         announcementMap.announcements (Session.incomingAnnouncements s) /\
       announcementMap.pending (Session.incomingAnnouncements s') !! id = Some (incoming_record msg s)).
Proof.
  intros id ns Hd Hn Hid Ha. destruct answers_announcements as (h & Hh & Hr).
  specialize (Hr (message MessageAnnounce id ns [])). cbn [message Message.Method Message.Namespace] in Hr.
  rewrite bool_decide_eq_true_2 in Hr by done.
  assert (forall r s', announcement_exec id (announce_answer refusal taken ns) false (incoming msg s)
    = Ok (r, s') -> r = Ret (None, true) -> receive (App := Ap) (Announce msg) s = Ok (Ret tt, s')) as Hrun.
  { intros r s' He ->. unfold receive. rewrite receive_ready by done. cbn [negb]. by eapply onAnnounce_run. }
  assert (forall reason, len reason <= 60000 -> announcement_exec id (RwReject 0 reason) false (incoming msg s) =
    Ok (Ret (None, true), wrote (AnnounceError (AnnounceErrorMessage.mk id 0 reason)) (incoming msg s))) as Hrej.
  { intros reason Hl. cbn [announcement_exec]. unfold try_call, rejectAnnouncement, gm_bind, attempt.
    by rewrite write_fits by (done || (apply fits_AnnounceError; [done|vm_compute; split; discriminate|done])). }
  unfold announce_answer in *. destruct taken as [expected|] eqn:Et; [case_bool_decide as E|].
  - destruct (announcement_exec id RwAccept false (incoming msg s)) as [[r s']| | |] eqn:He;
      cbn [announcement_exec] in He; unfold try_call, acceptAnnouncement, gm_bind, attempt, on,
        announcementMap.confirmAndGet in He; cbn in He; rewrite lookup_insert_eq, write_fits in He
        by (done || by apply fits_AnnounceOk); try discriminate He.
    injection He as <- <-. eexists. split; [by eapply Hrun|]. split; [|by rewrite E].
    intros _. rewrite wrote_written. autorewrite with wrote. cbn.
    split; [done|]. by rewrite lookup_insert_eq, lookup_delete_eq.
  - specialize (Hrej (str "non-matching namespace") ltac:(vm_compute; discriminate)).
    eexists. split; [by eapply Hrun|]. split; [intros [= ->]; by destruct E|]. intros _. eexists.
    split; [done|]. rewrite wrote_written. autorewrite with wrote. cbn. by rewrite lookup_insert_eq.
  - specialize (Hrej refusal refusal_short).
    eexists. split; [by eapply Hrun|]. split; [done|]. intros _. eexists.
    split; [done|]. rewrite wrote_written. autorewrite with wrote. cbn. by rewrite lookup_insert_eq.
Qed.

(** * Subscriptions *)

Context (Ac : Application).

(** The options the application accepts a subscription to a track with, if it
    publishes the track. *)
Definition offer (ns : list gostring) (name : gostring) : option (list SubscribeOKOption) :=
  match offered with
  | Some (namespace, track, options) =>
      if bool_decide (ns = namespace) && bool_decide (name = track) then Some options else None
  | None => None
  end.

Definition no_offer : gostring :=
  match offered with Some _ => str "unknown track" | None => str "endpoint does not publish any tracks" end.

Definition unknown_track (id : Z) : SubscribeErrorMessage.t :=
  SubscribeErrorMessage.mk id ErrorCodeSubscribeTrackDoesNotExist no_offer.

Lemma answers_with m :
  exists h, SubscribeHandler (Application := Ap) = Some h /\ forall auth,
    h (public_subscribe m auth) =
      Call (match offer (SubscribeMessage.TrackNamespace m) (SubscribeMessage.TrackName m) with
            | Some options => SubAccept options
            | None => SubReject ErrorCodeSubscribeTrackDoesNotExist no_offer
            end) (fun _ => Return).
Proof.
  destruct answers_subscriptions as (h & Hh & Ha). exists h. split; [done|]. intros auth. rewrite Ha.
  unfold subscribe_answer, offer, no_offer. destruct offered as [[[namespace track] options]|]; [|done].
  cbn. by destruct (_ && _).
Qed.

Lemma offer_no_expiry id ns name options :
  offer ns name = Some options -> ControlMessage.faithful (SubscribeOk (subscribe_ok id options)).
Proof.
  unfold offer. destruct offered as [[[namespace track] o]|] eqn:E; [|done].
  destruct (_ && _); [|done]. intros [= <-]. by eapply no_expiry.
Qed.

(** C30: How an application answers subscriptions, from end to end over the bytes
    of the control streams.  Subscribe to the track that the application publishes
    returns the track, open, after a SUBSCRIBE, and a SUBSCRIBE_OK with the options
    of the application, each parsed by its receiver as it was written; Subscribe to
    any other namespace or name, and to every one of an application that publishes
    nothing, returns the error with the code of a track that does not exist, after
    a SUBSCRIBE_ERROR, and leaves the tables of tracks of both sides as they
    were.  The options are in the ranges the parser accepts, and no track of the
    subscriber has the alias 0, which every accepted subscription takes. *)
Theorem application_subscriptions pc c p ns name options :
  reachable (App := Ac) pc c ->
  let id := next_id c in
  let m := subscribe_message id ns name options in
  let answer := match offer ns name with
                | Some okoptions => SubscribeOk (subscribe_ok id okoptions)
                | None => SubscribeError (unknown_track id)
                end in
  Session.handshakeDone c = true -> Session.handshakeDone p = true ->
  id < requestIDGenerator.max (Session.requestIDs c) -> next_answer c = None ->
  remoteTrackMap.trackAliasToRequestID (Session.remoteTracks c) !! 0 = None ->
  codable (Subscribe m) -> codable answer ->
  fits (Subscribe m) -> fits answer -> valid_namespace ns = true ->
  id < Session.localMaxRequestID p -> can_raise id p ->
  localTrackMap.findByID (Session.localTracks p) id = None ->
  next_answer (limit_checked id (subscribed m p)) = None ->
  exists rt c1 p1 c2 c3 l,
    Subscribe_send ns name options c = Ok (Ret rt, c1) /\
    Session.written c1 = Session.written c ++ [Subscribe m] /\
    crosses (Subscribe m) (Subscribe m) /\
    receive (App := Ap) (Subscribe m) p = Ok (Ret tt, p1) /\
    Session.written p1 = Session.written p ++ l ++ [answer] /\
    crosses answer answer /\
    receive (App := Ac) answer c1 = Ok (Ret tt, c2) /\
    match offer ns name with
    | Some okoptions =>
        Subscribe_wait rt None c2 = Ok (Ret (Some rt), c3) /\
        localTrackMap.open (Session.localTracks p1) !! id = Some (length (Session.localHeap p)) /\
        Session.remoteHeap c3 !! rt =
          Some (accepted_track (subscribe_ok id okoptions) (RemoteTrack.newRemoteTrack id Unsubscribes true))
    | None =>
        Subscribe_wait rt None c2 = Ok (Error (ProtocolError ErrorCodeSubscribeTrackDoesNotExist no_offer), c3) /\
        Session.localTracks p1 = Session.localTracks p /\ Session.remoteTracks c3 = Session.remoteTracks c
    end.
Proof.
  intros Hr id m answer Hc Hp Hlt Ha Halias Hcm Hca Hf Hfa Hn Hlim Hraise Hfree Hap.
  assert (crosses (Subscribe m) (Subscribe m)) as Hx by (by apply codable_crosses).
  assert (crosses answer answer) as Hy.
  { apply codable_crosses; [done|done|]. apply received_faithful. subst answer.
    destruct (offer ns name) eqn:E; [by eapply offer_no_expiry|done]. }
  destruct (answers_with m) as (h & Hh & Hm). cbn in Hm. subst answer. destruct (offer ns name) as [okoptions|].
  - destruct (accepted_exchange Ac okoptions Ap h pc c p ns name options (subscribe_ok id okoptions) Hr eq_refl eq_refl
      Hh Hm Hc Hp Hlt Ha Halias Hf Hfa Hn Hlim Hraise Hfree Hap)
      as (rt & c1 & p1 & c2 & c3 & l & H1 & H0 & H2 & H3 & [H4 _] & H5 & H6 & _ & _ & H7).
    exists rt, c1, p1, c2, c3, l. split_and!; done.
  - destruct (refused_exchange Ac Ap h pc c p ns name options _ _ Hr Hh Hm Hc Hp Hlt Ha Hf Hfa
      Hn Hlim Hraise Hfree Hap) as (rt & c1 & p1 & c2 & c3 & l & H1 & H0 & H2 & H3 & H4 & H5 & H6 & H7).
    exists rt, c1, p1, c2, c3, l. split_and!; done.
Qed.

End Applications.

(** * Examples *)

(** A server that publishes the date, and a client that reads it. *)
Definition ex_date_server : moqHandler.t := moqHandler.mk [str "clock"] (str "second") true false 7.
Definition ex_date_client : moqHandler.t := moqHandler.mk [str "clock"] (str "second") false true 0.

Lemma application_announcements_witness :
  exists s', receive (App := date_application ex_date_client)
      (Announce (AnnounceMessage.mk 1 [str "clock"] [])) established_client = Ok (Ret tt, s') /\
    Session.written s' = Session.written established_client ++ [AnnounceOk (AnnounceOkMessage.mk 1)].
Proof.
  destruct (application_announcements (date_application ex_date_client)
    (AnnounceMessage.mk 1 [str "clock"] []) established_client) as (s' & H & Hok & _).
  - reflexivity.
  - reflexivity.
  - vm_compute. split; discriminate.
  - reflexivity.
  - exists s'. split; [exact H|]. exact (proj1 (Hok eq_refl)).
Defined.

Lemma application_subscriptions_witness :
  exists rt c1 c2 c3,
    Subscribe_send [str "clock"] (str "second") [] established_client = Ok (Ret rt, c1) /\
    receive (App := date_application ex_date_client) (SubscribeOk (subscribe_ok 0
      [WithLargestLocation (Some (Location.mk 7 0))])) c1 = Ok (Ret tt, c2) /\
    Subscribe_wait rt None c2 = Ok (Ret (Some rt), c3).
Proof.
  destruct (application_subscriptions (date_application ex_date_server) (date_application ex_date_client)
    PerspectiveClient established_client established_server [str "clock"] (str "second") [])
    as (rt & c1 & p1 & c2 & c3 & l & H1 & _ & _ & _ & _ & _ & H2 & H3 & _).
  - apply established_client_reachable.
  - reflexivity.
  - reflexivity.
  - vm_compute. reflexivity.
  - reflexivity.
  - reflexivity.
  - codable_term.
  - codable_term.
  - eexists. vm_compute. reflexivity.
  - eexists. vm_compute. reflexivity.
  - reflexivity.
  - vm_compute. reflexivity.
  - left. vm_compute. reflexivity.
  - reflexivity.
  - reflexivity.
  - exists rt, c1, c2, c3. split; [exact H1|]. split; [exact H2|exact H3].
Defined.
