(* ===== verification/DateTrack.v ===== *)
(** The date track (examples/date): the ticker of setupDateTrack publishes the
    time of every second as a group of its own to all registered publishers, the
    subscribe handler tells a subscriber the largest group and registers a
    publisher, and subscribeAndRead reads until the track ends.

    The ticker and the handlers share [publishers] under a lock and [largestGroup]
    as an atomic: the interleavings of their critical sections are the steps of
    [date_step].  The publishers are reached through the interface Publisher; its
    promise for streams is the class [SubgroupLaws], which the writer of an
    accepted subscription keeps. *)

From stdpp Require Import sets.
From Stdlib Require Import String.
From S2P Require Import Prelude VarInt Codec WireTypes Messages ControlMessages Objects Params.
From S2P Require Import Errors State RequestID TrackMaps Tracks SessionState Session SessionInv.
From S2P Require Import SessionSafety Sending Handshake Requests Exchanges Publishers Applications.
Local Open Scope Z_scope.
Local Open Scope go_scope.

(** * publisher.go *)

(** The wrapper of examples/date adds log lines to the publisher [p]. *)
Module publisher.
Record t := mk { sessionID : Z; requestID : Z }.

Section publisher.
Context {W : Type} (p : Publisher W).

Definition SendDatagram (d : t) (o : Object.t) : GM W unit := Publishers.SendDatagram (Publisher := p) o.
Definition OpenSubgroup (d : t) (groupID subgroupID priority : Z) : GM W Subgroup.t :=
  Publishers.OpenSubgroup (Publisher := p) groupID subgroupID priority.
Definition CloseWithError (d : t) (code : Z) (reason : gostring) : GM W unit :=
  Publishers.CloseWithError (Publisher := p) code reason.

(** It is a Publisher itself: the one that the handler registers. *)
Definition as_publisher (d : t) : Publisher W := {|
  Publishers.SendDatagram := SendDatagram d;
  Publishers.OpenSubgroup := OpenSubgroup d;
  Publishers.CloseWithError := CloseWithError d;
|}.

End publisher.
End publisher.

(** * handler.go: setupDateTrack *)

(** The fields of the moqHandler that change, the loop variable of the ticker,
    and the streams that were opened and closed: the publisher and what it wrote. *)
Module date_track.
Record t (W : Type) := mk {
  publishers : gset nat;
  largestGroup : Z;
  groupID : Z;
  world : W;
  streams : list (nat * Subgroup.t) }.
Arguments mk {W} publishers largestGroup groupID world streams.
Arguments publishers {W} t.
Arguments largestGroup {W} t.
Arguments groupID {W} t.
Arguments world {W} t.
Arguments streams {W} t.

Section date_track.
Context {W : Type}.

Definition set_publishers (x : gset nat) (h : t W) : t W :=
  mk x (largestGroup h) (groupID h) (world h) (streams h).
Definition set_world (w : W) (h : t W) : t W :=
  mk (publishers h) (largestGroup h) (groupID h) w (streams h).
Definition add_stream (p : nat) (sg : Subgroup.t) (h : t W) : t W :=
  mk (publishers h) (largestGroup h) (groupID h) (world h) (streams h ++ [(p, sg)]).

End date_track.
End date_track.

Section DateTrack.
Context {QV : QuicVarint} {W : Type} (pub : nat -> Publisher W).

(** A call of a method of the publisher at a pointer. *)
Definition call_publisher {A} (m : GM W A) : GM (date_track.t W) A := fun h =>
  match m (date_track.world h) with
  | Ok (r, w) => Ok (r, date_track.set_world w h)
  | Err e => Err e
  | Panic => Panic
  | NoFuel => NoFuel
  end.

(** The body of [for p := range h.publishers]; [ts] is the formatted time and
    [werr] the transport's answer to the write of the object. *)
Definition publish_date (ts : list byte) (werr : option error) (p : nat) : GM (date_track.t W) unit :=
  groupID <- get date_track.groupID;
  r <- attempt (call_publisher (OpenSubgroup (Publisher := pub p) (uint64 groupID) 0 0));
  match r with
  | Error _ =>
      _ <- attempt (call_publisher (CloseWithError (Publisher := pub p)
             ErrorCodeSubscribeDoneSubscriptionEnded []));
      modify (fun h => date_track.set_publishers (date_track.publishers h ∖ {[p]}) h)
  | Ret sg =>
      r <- localTrack.lift_res (Subgroup.WriteObject sg 0 ts werr);
      modify (date_track.add_stream p r.2)
  end.

(** The loop, in an order of the publishers that the language leaves open. *)
Fixpoint publish_loop (ts : list byte) (werr : nat -> option error) (order : list nat) :
    GM (date_track.t W) unit :=
  match order with
  | [] => mret tt
  | p :: order => _ <- publish_date ts (werr p) p; publish_loop ts werr order
  end.

(** One tick: the loop under the lock, and then what follows it. *)
Definition store_group (h : date_track.t W) : date_track.t W :=
  date_track.mk (date_track.publishers h) (uint64 (date_track.groupID h))
    (int64 (date_track.groupID h + 1)) (date_track.world h) (date_track.streams h).

Definition tick (ts : list byte) (werr : nat -> option error) (order : list nat) :
    GM (date_track.t W) unit :=
  _ <- publish_loop ts werr order; modify store_group.

(** Registering the publisher of an accepted subscription. *)
Definition register (p : nat) (h : date_track.t W) : date_track.t W :=
  date_track.set_publishers (date_track.publishers h ∪ {[p]}) h.

End DateTrack.

(** ** What a publisher promises of streams *)

Class SubgroupLaws {QV : QuicVarint} {W : Type} (pub : nat -> Publisher W) := {
  valid : nat -> Prop;
  alias : nat -> Z;
  pub_world : W -> Prop;
  (** The streams a publisher has opened: the number it closes with. *)
  opened : nat -> W -> Z;
  alias_range p : valid p -> 0 <= alias p <= maxVarInt;
  OpenSubgroup_returns p g w :
    valid p -> pub_world w -> 0 <= g <= maxVarInt ->
    exists r w', OpenSubgroup (Publisher := pub p) g 0 0 w = Ok (r, w') /\ pub_world w' /\
      opened p w' <= opened p w + 1 /\ (forall q, q <> p -> opened q w' = opened q w) /\
      forall sg, r = Ret sg -> Subgroup.newSubgroup [] (alias p) g 0 0 None = Ok sg;
  CloseWithError_returns p w :
    valid p -> pub_world w -> opened p w <= maxVarInt ->
    exists r w', CloseWithError (Publisher := pub p) ErrorCodeSubscribeDoneSubscriptionEnded [] w
                 = Ok (r, w') /\ pub_world w' /\ (forall q, opened q w' = opened q w);
}.

Section Ticks.
Context {QV : QuicVarint} {QVL : QuicVarintLaws} {W : Type} (pub : nat -> Publisher W).
Context {SL : SubgroupLaws pub}.

(** What the subscriber's parser reads from a closed stream. *)
Definition carries (g : Z) (ts : list byte) (p : nat) (sg : Subgroup.t) : Prop :=
  exists ps, ObjectStreamParser.NewObjectStreamParser (mkReader (Subgroup.stream sg) io_EOF) = Ok ps /\
    ObjectStreamParser.Identifier ps = alias p /\
    ObjectStreamParser.Messages 2 ps =
      ([ObjectMessage.mk (alias p) g 0 0 0 (Some []) 0 ts], Err io_EOF).

Lemma WriteObject_total sg ts werr :
  len ts <= maxAlloc ->
  exists n e sg', Subgroup.WriteObject sg 0 ts werr = Ok (n, e, sg') /\
    Subgroup.groupID sg' = Subgroup.groupID sg /\
    (werr = None -> Subgroup.WriteObjects sg [(0, ts)] = Ok sg').
Proof.
  intros Hl. pose proof (len_nonneg ts). assert (0 <= len ts <= maxVarInt) as Hr.
  { unfold maxAlloc, maxVarInt in *. lia. }
  assert (exists buf, ObjectMessage.AppendSubgroup (ObjectMessage.mk 0 0 0 0 0 None 0 ts) [] = Ok buf) as [buf Hb].
  { unfold ObjectMessage.AppendSubgroup. cbn -[qv_Append len].
    rewrite qv_Append_enc by done. cbn -[qv_Append len]. rewrite qv_Append_enc by done. cbn -[qv_Append len].
    rewrite qv_Append_enc by done. cbn -[qv_Append len].
    destruct (len ts =? 0); [rewrite qv_Append_enc by done|]; by eexists. }
  unfold Subgroup.WriteObject. cbn [Subgroup.WriteObjects]. unfold Subgroup.WriteObject. rewrite Hb.
  cbn [mbind res_bind]. destruct werr as [e|]; cbn [Write]; (eexists _, _, _; split_and!; [done|done|]); [done|].
  done.
Qed.

(** One publisher: it gets the group in a stream of its own, or it is closed
    and dropped. *)
Lemma publish_date_run ts werr p h :
  len ts <= maxAlloc -> 0 <= date_track.groupID h <= maxVarInt -> pub_world (date_track.world h) ->
  valid p -> opened p (date_track.world h) < maxVarInt ->
  exists h', publish_date pub ts werr p h = Ok (Ret tt, h') /\
    pub_world (date_track.world h') /\
    opened p (date_track.world h') <= opened p (date_track.world h) + 1 /\
    (forall q, q <> p -> opened q (date_track.world h') = opened q (date_track.world h)) /\ date_track.groupID h' = date_track.groupID h /\
    date_track.largestGroup h' = date_track.largestGroup h /\
    ((exists sg, date_track.publishers h' = date_track.publishers h /\
        date_track.streams h' = date_track.streams h ++ [(p, sg)] /\
        Subgroup.groupID sg = date_track.groupID h /\
        (werr = None -> carries (date_track.groupID h) ts p sg)) \/
     (date_track.publishers h' = date_track.publishers h ∖ {[p]} /\
        date_track.streams h' = date_track.streams h)).
Proof.
  intros Hl Hg Hw Hv Hc. unfold publish_date. unfold gm_bind at 1, get.
  rewrite uint64_small by (unfold maxVarInt in *; lia).
  destruct (OpenSubgroup_returns p (date_track.groupID h) (date_track.world h) Hv Hw Hg)
    as (r & w & Ho & Hw' & Hop & Hoq & Hsg).
  unfold gm_bind at 1, attempt, call_publisher. rewrite Ho. destruct r as [sg|e].
  - destruct (WriteObject_total sg ts werr Hl) as (n & e & sg' & Hwr & Hid & Hws).
    unfold gm_bind, localTrack.lift_res. rewrite Hwr. eexists. split; [done|].
    do 5 (split; [done|]). left. exists sg'. split; [done|].
    split; [done|]. specialize (Hsg sg eq_refl). split.
    { rewrite Hid. unfold Subgroup.newSubgroup in Hsg. inv_bind Hsg. by injection Hsg as <-. }
    intros ->. destruct (subgroup_stream_read (alias p) (date_track.groupID h) 0 0 [(0, ts)] sg sg')
      as (ps & H1 & _ & H2 & H3); try done; try lia; [by apply alias_range|by repeat constructor|by apply Hws|].
    exists ps. split_and!; [done|done|exact H3].
  - destruct (CloseWithError_returns p w Hv Hw' ltac:(lia)) as (r & w' & Hcl & Hw'' & Hcq).
    unfold gm_bind, modify. cbn. rewrite Hcl. eexists. split; [done|]. cbn. rewrite Hcq.
    do 2 (split; [done|]). split; [intros q Hq; rewrite Hcq; by apply Hoq|].
    do 2 (split; [done|]). by right.
Qed.

(** The streams of one publisher. *)
Definition streams_of (p : nat) (l : list (nat * Subgroup.t)) : list Subgroup.t :=
  omap (fun '(q, sg) => if bool_decide (q = p) then Some sg else None) l.

Lemma streams_of_app p l1 l2 : streams_of p (l1 ++ l2) = streams_of p l1 ++ streams_of p l2.
Proof. apply omap_app. Qed.

Lemma streams_of_one p q sg :
  streams_of p [(q, sg)] = if bool_decide (q = p) then [sg] else [].
Proof. unfold streams_of. cbn. by case_bool_decide. Qed.

(** What a tick does for one publisher: it stays registered and has got exactly
    one stream, with the group of the tick, or it is gone and has got none. *)
Definition served (g : Z) (ts : list byte) (werr : option error) (p : nat)
    (publishers : gset nat) (got : list Subgroup.t) : Prop :=
  (p ∈ publishers /\ exists sg, got = [sg] /\ Subgroup.groupID sg = g /\
     (werr = None -> carries g ts p sg)) \/
  ((p ∉ publishers) /\ got = []).

Lemma publish_loop_run ts werr order h :
  len ts <= maxAlloc -> 0 <= date_track.groupID h <= maxVarInt -> pub_world (date_track.world h) ->
  NoDup order -> (forall p, p ∈ order -> p ∈ date_track.publishers h) ->
  (forall p, p ∈ order -> valid p /\ opened p (date_track.world h) < maxVarInt) ->
  exists h' new, publish_loop pub ts werr order h = Ok (Ret tt, h') /\
    pub_world (date_track.world h') /\
    (forall p, opened p (date_track.world h') <=
       opened p (date_track.world h) + (if bool_decide (p ∈ order) then 1 else 0)) /\ date_track.groupID h' = date_track.groupID h /\
    date_track.largestGroup h' = date_track.largestGroup h /\
    date_track.streams h' = date_track.streams h ++ new /\
    (forall p, p ∈ order -> served (date_track.groupID h) ts (werr p) p (date_track.publishers h')
       (streams_of p new)) /\
    (forall p, (p ∉ order) -> streams_of p new = [] /\
       (p ∈ date_track.publishers h' <-> p ∈ date_track.publishers h)).
Proof.
  intros Hl. revert h. induction order as [|p order IH]; intros h Hg Hw Hnd Hin Hop; cbn [publish_loop].
  { exists h, []. rewrite app_nil_r. split_and!; try done; [intros p; case_bool_decide; lia|]. intros p Hp. set_solver. }
  apply NoDup_cons in Hnd as [Hp Hnd].
  destruct (publish_date_run ts (werr p) p h Hl Hg Hw) as (h1 & H1 & Hw1 & Hop1 & Hoq1 & Hg1 & Hl1 & Hcase);
    [apply Hop; set_solver..|].
  unfold gm_bind. rewrite H1.
  destruct (IH h1) as (h2 & new & H2 & Hw2 & Hop2 & Hg2 & Hl2 & Hs2 & Hin2 & Hout2);
    [by rewrite Hg1|done|done| | |].
  { intros q Hq. assert (q <> p) by set_solver. assert (q ∈ date_track.publishers h) by set_solver.
    destruct Hcase as [(sg & -> & _)|[-> _]]; set_solver. }
  { intros q Hq. rewrite Hoq1 by set_solver. apply Hop. by apply elem_of_cons; right. }
  assert (forall q, opened q (date_track.world h2) <=
    opened q (date_track.world h) + (if bool_decide (q ∈ p :: order) then 1 else 0)) as Hopened.
  { intros q. specialize (Hop2 q). destruct (decide (q = p)) as [->|Hne].
    - rewrite bool_decide_eq_false_2 in Hop2 by done. rewrite bool_decide_eq_true_2 by set_solver. lia.
    - rewrite <- (Hoq1 q Hne). replace (bool_decide (q ∈ p :: order)) with (bool_decide (q ∈ order)); [done|].
      apply bool_decide_ext. set_solver. }
  destruct (Hout2 p Hp) as [Hnone Hsame].
  destruct Hcase as [(sg & Hpub & Hst & Hid & Hc)|[Hpub Hst]].
  - exists h2, ((p, sg) :: new). rewrite H2. rewrite Hs2, Hst, <- app_assoc.
    split_and!; try done; try congruence.
    + intros q Hq. change ((p, sg) :: new) with ([(p, sg)] ++ new).
      rewrite streams_of_app, streams_of_one. destruct (decide (p = q)) as [<-|Hne].
      * rewrite bool_decide_eq_true_2 by done. rewrite Hnone. left.
        split; [apply Hsame; rewrite Hpub; apply Hin; set_solver|].
        exists sg. split_and!; [done|congruence|done].
      * rewrite bool_decide_eq_false_2 by done. cbn [app]. rewrite <- Hg1. apply Hin2. set_solver.
    + intros q Hq. change ((p, sg) :: new) with ([(p, sg)] ++ new).
      rewrite streams_of_app, streams_of_one. rewrite bool_decide_eq_false_2 by set_solver.
      destruct (Hout2 q) as [-> H]; [set_solver|]. rewrite H, Hpub. done.
  - exists h2, new. rewrite H2, Hs2, Hst. split_and!; try done; try congruence.
    + intros q Hq. destruct (decide (p = q)) as [<-|Hne].
      * right. split; [|done]. rewrite Hsame, Hpub. set_solver.
      * rewrite <- Hg1. apply Hin2. set_solver.
    + intros q Hq. destruct (Hout2 q) as [-> H]; [set_solver|]. rewrite H, Hpub. set_solver.
Qed.

(** * The ticker and the handlers *)

(** Between the loop of a tick and the store that follows it the lock is free:
    [pending].  [told] is the group each handler has read from [largestGroup],
    [joined] the publishers that were ever registered. *)
Record shared := mk_shared {
  track : date_track.t W;
  pending : bool;
  told : gmap nat Z;
  joined : gset nat }.

Inductive date_step (s : shared) : shared -> Prop :=
  | date_load p :
      told s !! p = None ->
      date_step s (mk_shared (track s) (pending s)
        (<[p := date_track.largestGroup (track s)]> (told s)) (joined s))
  | date_register p :
      is_Some (told s !! p) -> (p ∉ joined s) -> valid p ->
      date_step s (mk_shared (register p (track s)) (pending s) (told s) (joined s ∪ {[p]}))
  | date_loop ts werr order h :
      pending s = false -> order ≡ₚ elements (date_track.publishers (track s)) ->
      len ts <= maxAlloc -> date_track.groupID (track s) < maxVarInt ->
      publish_loop pub ts werr order (track s) = Ok (Ret tt, h) ->
      date_step s (mk_shared h true (told s) (joined s))
  | date_store :
      pending s = true ->
      date_step s (mk_shared (store_group (track s)) false (told s) (joined s))
  | date_world w :
      pub_world w -> (forall p, opened p w <= opened p (date_track.world (track s))) ->
      date_step s (mk_shared (date_track.set_world w (track s)) (pending s) (told s) (joined s)).

(** The start of the program: no publisher, and the group to come is 0. *)
Definition date_initial (w : W) : shared :=
  mk_shared (date_track.mk ∅ 0 0 w []) false ∅ ∅.

Inductive date_reachable : shared -> Prop :=
  | date_start w : pub_world w -> (forall p, opened p w <= 0) -> date_reachable (date_initial w)
  | date_next s s' : date_reachable s -> date_step s s' -> date_reachable s'.

(** The next group a publisher will be given. *)
Definition next_group (s : shared) : Z :=
  date_track.groupID (track s) + (if pending s then 1 else 0).

(** The groups of a publisher: consecutive from one on, which is not before what
    its handler was told. *)
Definition groups_ok (s : shared) (p : nat) (l : Z) : Prop :=
  exists g n, map Subgroup.groupID (streams_of p (date_track.streams (track s))) = seqZ g n /\
    0 <= n /\ g + n <= next_group s /\ l <= g /\ (l = 0 \/ l < g) /\
    (p ∈ date_track.publishers (track s) -> g + n = next_group s).

Record date_inv (s : shared) : Prop := {
  di_world : pub_world (date_track.world (track s));
  di_opened p : opened p (date_track.world (track s)) <= next_group s;
  di_group : 0 <= date_track.groupID (track s) <= maxVarInt;
  di_bound : pending s = true -> date_track.groupID (track s) < maxVarInt;
  di_largest : date_track.largestGroup (track s) = Z.max 0 (date_track.groupID (track s) - 1);
  di_publishers : date_track.publishers (track s) ⊆ joined s;
  di_valid p : p ∈ joined s -> valid p;
  di_streams p : (p ∉ joined s) -> streams_of p (date_track.streams (track s)) = [];
  di_told p l : told s !! p = Some l -> l <= next_group s /\ (l = 0 \/ l < next_group s);
  di_joined p : p ∈ joined s -> exists l, told s !! p = Some l /\ groups_ok s p l;
}.

Lemma seqZ_one m : seqZ m 1 = [m].
Proof. by rewrite seqZ_cons by lia. Qed.

Lemma date_inv_loop s ts werr order h :
  date_inv s -> pending s = false -> order ≡ₚ elements (date_track.publishers (track s)) ->
  len ts <= maxAlloc -> date_track.groupID (track s) < maxVarInt ->
  publish_loop pub ts werr order (track s) = Ok (Ret tt, h) ->
  date_inv (mk_shared h true (told s) (joined s)).
Proof.
  intros [Hw Hop Hg Hb Hl Hp Hv Hs Ht Hj] Hpend Hord Hts Hlt H.
  assert (next_group s = date_track.groupID (track s)) as Hnow by (unfold next_group; rewrite Hpend; lia).
  destruct (publish_loop_run ts werr order (track s) Hts Hg Hw)
    as (h' & new & H' & Hw' & Hop' & Hg' & Hl' & Hs' & Hin & Hout).
  { rewrite Hord. apply NoDup_elements. }
  { intros q. rewrite Hord. by rewrite elem_of_elements. }
  { intros q Hq. split; [|specialize (Hop q); lia]. apply Hv, Hp, elem_of_elements. by rewrite <- Hord. }
  rewrite H in H'. injection H' as <-.
  assert (forall q, q ∈ order <-> q ∈ date_track.publishers (track s)) as Hmem
    by (intros q; by rewrite Hord, elem_of_elements).
  assert (next_group (mk_shared h true (told s) (joined s)) = next_group s + 1) as Hnext
    by (unfold next_group; cbn; rewrite Hg', Hpend; lia).
  constructor; cbn [track pending told joined].
  - done.
  - intros q. rewrite Hnext. specialize (Hop q). specialize (Hop' q). case_bool_decide; lia.
  - by rewrite Hg'.
  - intros _. by rewrite Hg'.
  - by rewrite Hl', Hg'.
  - intros q Hq. apply Hp. destruct (decide (q ∈ order)) as [Ho|Ho]; [by apply Hmem|].
    by apply (Hout q Ho).
  - exact Hv.
  - intros q Hq. rewrite Hs', streams_of_app, (Hs q Hq). cbn [app]. apply Hout.
    rewrite Hmem. intros Hq'. by apply Hq, Hp.
  - intros q l Hq. rewrite Hnext. destruct (Ht q l Hq). lia.
  - intros q Hq. destruct (Hj q Hq) as (l & Hq1 & g & n & Hmap & Hn & Hle & Hlg & Hl0 & Hreg).
    exists l. split; [done|]. destruct (decide (q ∈ order)) as [Ho|Ho].
    + pose proof (proj1 (Hmem q) Ho) as Hqp. specialize (Hreg Hqp).
      destruct (Hin q Ho) as [(_ & sg & Hsg & Hid & _)|[Hgone Hsg]].
      * exists g, (n + 1). unfold groups_ok. cbn [track]. rewrite Hnext, Hs', streams_of_app, Hsg, map_app, Hmap.
        split_and!; try lia. cbn [map]. rewrite Hid, seqZ_app, seqZ_one by lia. do 2 f_equal. lia.
      * exists g, n. cbn [track]. rewrite Hnext, Hs', streams_of_app, Hsg, app_nil_r.
        split_and!; try done; try lia.
    + destruct (Hout q Ho) as [Hsg Hsame]. exists g, n. cbn [track].
      rewrite Hnext, Hs', streams_of_app, Hsg, app_nil_r. split_and!; try done; try lia.
      intros Hq'. exfalso. apply Ho, Hmem, Hsame, Hq'.
Qed.

Lemma date_inv_store s :
  date_inv s -> pending s = true ->
  date_inv (mk_shared (store_group (track s)) false (told s) (joined s)).
Proof.
  intros [Hw Hop Hg Hb Hl Hps Hv Hst Ht Hj] Hpend. specialize (Hb Hpend).
  assert (date_track.groupID (store_group (track s)) = date_track.groupID (track s) + 1) as Hid
    by (cbn; rewrite int64_small by (unfold maxVarInt in *; lia); done).
  assert (next_group (mk_shared (store_group (track s)) false (told s) (joined s)) = next_group s) as Hnext
    by (unfold next_group; cbn [track pending]; rewrite Hid, Hpend; lia).
  constructor; cbn [track pending told joined]; rewrite ?Hid; try done; try lia.
  - intros q. rewrite Hnext. apply Hop.
  - cbn. rewrite uint64_small by (unfold maxVarInt in *; lia). lia.
  - intros q l Hq. rewrite Hnext. exact (Ht q l Hq).
  - intros q Hq. destruct (Hj q Hq) as (l & Hlq & g & n & Hok). exists l. split; [done|].
    exists g, n. rewrite Hnext. exact Hok.
Qed.

Lemma date_inv_step s s' : date_inv s -> date_step s s' -> date_inv s'.
Proof.
  intros Hi Hs. destruct Hs as [p Hp|p Htold Hp Hvp|ts werr order h Hpend Hord Hts Hlt H|Hpend|w Hw Hopw];
    [| |by eapply date_inv_loop|by apply date_inv_store|];
    destruct Hi as [Hw0 Hop Hg Hb Hl Hps Hv Hst Ht Hj]; constructor; cbn; try done;
    try (intros q; etrans; [apply Hopw|apply Hop]).
  - intros q l. destruct (decide (p = q)) as [<-|Hne].
    + rewrite lookup_insert_eq. intros [= <-]. rewrite Hl. unfold next_group. cbn. destruct (pending s); lia.
    + rewrite lookup_insert_ne by done. apply Ht.
  - intros q Hq. destruct (Hj q Hq) as (l & Hlq & Hok). exists l. split; [|exact Hok].
    destruct (decide (p = q)) as [<-|Hne]; [congruence|]. by rewrite lookup_insert_ne.
  - set_solver.
  - intros q Hq. apply elem_of_union in Hq as [Hq|Hq]; [by apply Hv|]. by apply elem_of_singleton in Hq as ->.
  - intros q Hq. apply Hst. set_solver.
  - intros q Hq. destruct (decide (q ∈ joined s)) as [Hin|Hout].
    + destruct (Hj q Hin) as (l & Hlq & g & n & H1 & H2 & H3 & H4 & H5 & H6). exists l. split; [done|].
      exists g, n. cbn [track register date_track.streams date_track.publishers date_track.set_publishers].
      split_and!; try done. intros Hqp. apply elem_of_union in Hqp as [Hqp|Hqp]; [by apply H6|]. set_solver.
    + assert (q = p) as -> by set_solver. destruct Htold as [l Hlp]. exists l. split; [done|].
      destruct (Ht p l Hlp) as [H1 H2]. exists (next_group s), 0.
      cbn [track register date_track.streams date_track.set_publishers]. rewrite (Hst p Hp).
      unfold next_group in *. cbn. split_and!; try done; lia.
Qed.

Lemma date_inv_initial w : pub_world w -> (forall p, opened p w <= 0) -> date_inv (date_initial w).
Proof. intros Hw Hop. constructor; cbn; try done; set_solver. Qed.

Lemma date_reachable_inv s : date_reachable s -> date_inv s.
Proof. induction 1; [by apply date_inv_initial|by eapply date_inv_step]. Qed.

(** * Properties *)

(** C26: One tick of the date track, in whatever order the publishers are visited:
    it returns, and every publisher either stays registered and has been given
    exactly one stream, of the tick's group, which when the write succeeds the
    subscriber reads as the time in the group's object 0 and then the end, or it
    could not open a stream, or write its header, and is dropped; the group is stored for the
    subscriptions to come, and the next group is the next number. *)
Theorem date_tick ts werr order h :
  pub_world (date_track.world h) -> order ≡ₚ elements (date_track.publishers h) ->
  len ts <= maxAlloc -> 0 <= date_track.groupID h < maxVarInt ->
  (forall p, p ∈ date_track.publishers h -> valid p /\ opened p (date_track.world h) < maxVarInt) ->
  exists h' new, tick pub ts werr order h = Ok (Ret tt, h') /\
    pub_world (date_track.world h') /\
    date_track.streams h' = date_track.streams h ++ new /\
    date_track.largestGroup h' = date_track.groupID h /\
    date_track.groupID h' = date_track.groupID h + 1 /\
    date_track.publishers h' ⊆ date_track.publishers h /\
    (forall p, p ∈ date_track.publishers h ->
       served (date_track.groupID h) ts (werr p) p (date_track.publishers h') (streams_of p new)) /\
    (forall p, (p ∉ date_track.publishers h) -> streams_of p new = []).
Proof.
  intros Hw Hord Hts Hg Hop.
  destruct (publish_loop_run ts werr order h Hts ltac:(lia) Hw)
    as (h' & new & H & Hw' & _ & Hg' & Hl' & Hs' & Hin & Hout).
  { rewrite Hord. apply NoDup_elements. }
  { intros q. rewrite Hord. by rewrite elem_of_elements. }
  { intros q Hq. apply Hop. by rewrite <- elem_of_elements, <- Hord. }
  exists (store_group h'), new. unfold tick. unfold gm_bind. rewrite H.
  assert (forall q, q ∈ order <-> q ∈ date_track.publishers h) as Hmem
    by (intros q; by rewrite Hord, elem_of_elements).
  cbn. rewrite Hg', uint64_small, int64_small by (unfold maxVarInt in *; lia).
  split_and!; try done.
  - intros q Hq. destruct (decide (q ∈ order)) as [Ho|Ho]; [by apply Hmem|]. by apply (Hout q Ho).
  - intros q Hq. by apply Hin, Hmem.
  - intros q Hq. apply Hout. by rewrite Hmem.
Qed.

(** C27: The ticker and the subscribe handlers, interleaved: whenever a publisher
    is registered, the groups it has been given are consecutive, and none is
    missing up to the next one for as long as it stays registered; they start
    after the group its subscriber was told in SUBSCRIBE_OK, except that a
    subscriber that was told 0 may be given group 0 itself: the handler tells 0
    before anything was published. *)
Theorem date_groups_consecutive s p :
  date_reachable s -> p ∈ joined s ->
  exists l g n, told s !! p = Some l /\
    map Subgroup.groupID (streams_of p (date_track.streams (track s))) = seqZ g n /\
    0 <= n /\ l <= g /\ (l = 0 \/ l < g) /\
    (p ∈ date_track.publishers (track s) -> g + n = next_group s).
Proof.
  intros Hr Hp. destruct (di_joined _ (date_reachable_inv s Hr) p Hp)
    as (l & Hl & g & n & H1 & H2 & _ & H3 & H4 & H5).
  by exists l, g, n.
Qed.

End Ticks.

(** * The writers of a session *)

(** The publishers that the handler of one session has registered: the wrapped
    writers of its accepted subscriptions.  A pointer of no publisher is nil. *)
Definition nil_publisher (W : Type) : Publisher W := {|
  Publishers.SendDatagram := fun _ => panic;
  Publishers.OpenSubgroup := fun _ _ _ => panic;
  Publishers.CloseWithError := fun _ _ => panic;
|}.

Section Writers.
Context {QV : QuicVarint} {QVL : QuicVarintLaws} {MR : MapRange}.
Context (sessionID : Z) (writers : list SubscribeResponseWriter.t) (aliases : list Z).

Definition session_publisher (p : nat) : Publisher writer_state.t :=
  match writers !! p with
  | Some w => publisher.as_publisher (writer_publisher w)
                (publisher.mk sessionID (SubscribeResponseWriter.id w))
  | None => nil_publisher writer_state.t
  end.

(** The tracks of the writers are in the session's store. *)
Record writers_world (w : writer_state.t) : Prop := {
  ww_tracks p wr al :
    writers !! p = Some wr -> aliases !! p = Some al ->
    exists lt, Session.localHeap (writer_state.session w) !! SubscribeResponseWriter.localTrack wr = Some lt /\
      localTrack.trackAlias lt = al /\ 0 <= localTrack.subgroupCount lt;
  ww_heap : Forall (fun lt => 0 <= localTrack.requestID lt <= maxVarInt)
              (Session.localHeap (writer_state.session w));
  ww_table id q :
    localTrackMap.findByID (Session.localTracks (writer_state.session w)) id = Some q ->
    is_Some (Session.localHeap (writer_state.session w) !! q);
}.

Definition writer_opened (p : nat) (w : writer_state.t) : Z :=
  match writers !! p with
  | Some wr =>
      match Session.localHeap (writer_state.session w) !! SubscribeResponseWriter.localTrack wr with
      | Some lt => localTrack.subgroupCount lt
      | None => 0
      end
  | None => 0
  end.

Context (Haliases : Forall (fun al => 0 <= al <= maxVarInt) aliases).
Context (Hlength : length aliases = length writers).
Context (Hdistinct : NoDup (map SubscribeResponseWriter.localTrack writers)).

(** A change of one track of the store that keeps its request. *)
Lemma world_set_track w q lt lt' answers wire :
  writers_world w -> Session.localHeap (writer_state.session w) !! q = Some lt ->
  localTrack.requestID lt' = localTrack.requestID lt ->
  localTrack.trackAlias lt' = localTrack.trackAlias lt -> 0 <= localTrack.subgroupCount lt' ->
  writers_world (writer_state.mk (Session.set_localHeap (<[q := lt']>
    (Session.localHeap (writer_state.session w))) (writer_state.session w)) answers wire).
Proof.
  intros [Ht Hh Htab] Hq Hid Hal Hc. pose proof (lookup_lt_Some _ _ _ Hq) as Hlt. constructor; cbn.
  - intros p wr al Hp Ha. destruct (Ht p wr al Hp Ha) as (l & Hl & Hla & Hlc).
    destruct (decide (q = SubscribeResponseWriter.localTrack wr)) as [->|Hne].
    + rewrite list_lookup_insert_eq by done. exists lt'. simplify_eq. by rewrite Hal.
    + rewrite list_lookup_insert_ne by done. by exists l.
  - apply Forall_insert; [done|]. rewrite Hid. exact (Forall_lookup_1 _ _ _ _ Hh Hq).
  - intros id q' Hf. rewrite list_lookup_insert_is_Some. by apply (Htab id).
Qed.

(** What a call may do to the tracks: one of them changes, but for its request
    and its alias. *)
Lemma opened_set_track w q lt lt' answers wire p :
  Session.localHeap (writer_state.session w) !! q = Some lt ->
  (forall wr, writers !! p = Some wr -> q = SubscribeResponseWriter.localTrack wr ->
     localTrack.subgroupCount lt' = localTrack.subgroupCount lt) ->
  writer_opened p (writer_state.mk (Session.set_localHeap (<[q := lt']>
    (Session.localHeap (writer_state.session w))) (writer_state.session w)) answers wire)
  = writer_opened p w.
Proof.
  intros Hq H. unfold writer_opened. destruct (writers !! p) as [wr|] eqn:Hp; [|done].
  specialize (H wr eq_refl). cbn. destruct (decide (q = SubscribeResponseWriter.localTrack wr)) as [->|Hne].
  - rewrite list_lookup_insert_eq by (by apply lookup_lt_Some in Hq). rewrite Hq. by apply H.
  - by rewrite list_lookup_insert_ne.
Qed.

(** The writers have tracks of their own. *)
Lemma writer_unique p q wp wq :
  writers !! p = Some wp -> writers !! q = Some wq ->
  SubscribeResponseWriter.localTrack wp = SubscribeResponseWriter.localTrack wq -> p = q.
Proof.
  intros Hp Hq He. eapply (NoDup_lookup _ p q (SubscribeResponseWriter.localTrack wp) Hdistinct);
    rewrite list_lookup_fmap, ?Hp, ?Hq; cbn; [done|by rewrite He].
Qed.

Lemma writer_OpenSubgroup p g w :
  (p < length writers)%nat -> writers_world w -> 0 <= g <= maxVarInt ->
  exists r w', Publishers.OpenSubgroup (Publisher := session_publisher p) g 0 0 w = Ok (r, w') /\
    writers_world w' /\ writer_opened p w' <= writer_opened p w + 1 /\
    (forall q, q <> p -> writer_opened q w' = writer_opened q w) /\
    forall sg, r = Ret sg -> Subgroup.newSubgroup [] (default 0 (aliases !! p)) g 0 0 None = Ok sg.
Proof.
  intros Hp Hw Hg. destruct (lookup_lt_is_Some_2 writers p Hp) as [wr Hwr].
  rewrite <- Hlength in Hp. destruct (lookup_lt_is_Some_2 aliases p Hp) as [al Hal].
  destruct (ww_tracks w Hw p wr al Hwr Hal) as (lt & Hlt & Hla & Hc).
  assert (0 <= al <= maxVarInt) as Hr by (exact (Forall_lookup_1 _ _ _ _ Haliases Hal)).
  assert (exists sg, Subgroup.newSubgroup [] al g 0 0 None = Ok sg) as [sg Hsg].
  { unfold Subgroup.newSubgroup, SubgroupHeaderMessage.Append. cbn -[qv_Append append_byte].
    do 4 (rewrite qv_Append_enc by (done || (vm_compute; split; discriminate)); cbn -[qv_Append append_byte]).
    by eexists. }
  unfold session_publisher. rewrite Hwr. cbn [Publishers.OpenSubgroup publisher.as_publisher].
  unfold publisher.OpenSubgroup. cbn [Publishers.OpenSubgroup writer_publisher].
  unfold SubscribeResponseWriter_OpenSubgroup, with_local. rewrite Hlt.
  unfold localTrack.openSubgroup, localTrack.check_open, mbind, GM_bind, gm_bind.
  assert (forall q, q <> p -> forall wq, writers !! q = Some wq ->
    SubscribeResponseWriter.localTrack wr <> SubscribeResponseWriter.localTrack wq) as Hne.
  { intros q Hq wq Hwq He. by apply Hq, (writer_unique q p wq wr). }
  destruct (localTrack.closed lt) as [e|].
  { eexists _, _. split; [done|]. split; [by eapply world_set_track|].
    rewrite (opened_set_track w _ lt) by done. split; [lia|]. split; [|done].
    intros q Hq. by rewrite (opened_set_track w _ lt). }
  destruct (writer_state.answer w) as [e|]; cbn [localTrack.OpenUniStream throw].
  { eexists _, _. split; [done|]. split; [by eapply world_set_track|].
    rewrite (opened_set_track w _ lt) by done. split; [lia|]. split; [|done].
    intros q Hq. by rewrite (opened_set_track w _ lt). }
  cbn -[Subgroup.newSubgroup uint64]. rewrite Hla. unfold localTrack.lift_res.
  rewrite (newSubgroup_answer _ _ _ _ _ _ (writer_state.header_answer w) Hsg).
  set (lt' := localTrack.set_subgroupCount lt _). set (w' := writer_state.mk (Session.set_localHeap
    (<[SubscribeResponseWriter.localTrack wr := lt']> (Session.localHeap (writer_state.session w))) (writer_state.session w))
    (tail (tail (writer_state.answers w))) (writer_state.wire w)).
  assert (writers_world w' /\ writer_opened p w' <= writer_opened p w + 1 /\
    (forall q, q <> p -> writer_opened q w' = writer_opened q w)) as (H1 & H2 & H3).
  { split; [eapply world_set_track; [done|done|done|done|]; cbn; apply Z.mod_pos_bound; done|]. split.
    - unfold writer_opened. rewrite Hwr. cbn. rewrite list_lookup_insert_eq by (by apply lookup_lt_Some in Hlt).
      rewrite Hlt. cbn. unfold uint64. apply Z.mod_le; lia.
    - intros q Hq. apply (opened_set_track w _ lt); [done|]. intros wq Hwq He. exfalso. by eapply Hne. }
  destruct (writer_state.header_answer w) as [e|]; eexists _, _; (split; [done|]); rewrite Hal;
    (split; [exact H1|]); (split; [exact H2|]); (split; [exact H3|]); [done|by intros ? [= <-]].
Qed.

Lemma local_delete_find (m : localTrackMap.t nat) id id' q :
  localTrackMap.findByID (localTrackMap.delete m id).2 id' = Some q ->
  localTrackMap.findByID m id' = Some q.
Proof.
  unfold localTrackMap.delete. destruct (localTrackMap.findByID m id); [|done].
  unfold localTrackMap.findByID. cbn. rewrite !lookup_delete. case_decide; [done|done].
Qed.

(** A write of a message of a size the framing takes returns. *)
Lemma write_returns msg s :
  fits msg -> exists r s', write msg s = Ok (r, s') /\ Session.localHeap s' = Session.localHeap s /\
    Session.localTracks s' = Session.localTracks s.
Proof.
  intros Hf. destruct (next_answer s) as [e|] eqn:Ha.
  - eexists _, _. split; [by apply (write_fails msg s e)|done].
  - eexists _, _. split; [by apply (write_fits msg s)|]. by autorewrite with wrote.
Qed.

(** Deleting the request and writing SUBSCRIBE_DONE. *)
Lemma subscriptionDone_returns id code count s :
  0 <= code <= maxVarInt -> 0 <= count <= maxVarInt ->
  Forall (fun lt => 0 <= localTrack.requestID lt <= maxVarInt) (Session.localHeap s) ->
  (forall id q, localTrackMap.findByID (Session.localTracks s) id = Some q ->
     is_Some (Session.localHeap s !! q)) ->
  exists r s', subscriptionDone id code count [] s = Ok (r, s') /\
    Session.localHeap s' = Session.localHeap s /\
    (forall id q, localTrackMap.findByID (Session.localTracks s') id = Some q ->
       is_Some (Session.localHeap s !! q)).
Proof.
  intros Hcode Hcount Hheap Htab. unfold subscriptionDone, on, mbind, GM_bind.
  destruct (localTrackMap.delete (Session.localTracks s) id) as [r m] eqn:Hdel.
  assert (forall id q, localTrackMap.findByID m id = Some q -> is_Some (Session.localHeap s !! q)) as Hm.
  { intros id' q Hq. apply (Htab id'). apply (local_delete_find _ id). by rewrite Hdel. }
  unfold gm_bind at 1. rewrite Hdel.
  destruct r as [q|]; [|by eexists _, _].
  assert (localTrackMap.findByID (Session.localTracks s) id = Some q) as Hq.
  { unfold localTrackMap.delete in Hdel. destruct (localTrackMap.findByID (Session.localTracks s) id); by simplify_eq. }
  destruct (Htab id q Hq) as [lt Hlt].
  unfold gm_bind at 1. cbn [of_option mret GM_ret]. unfold local_requestID, with_local, get.
  unfold gm_bind at 1. cbn. rewrite Hlt.
  destruct (write_returns (SubscribeDone (SubscribeDoneMessage.mk (localTrack.requestID lt) code count []))
    (Session.set_localHeap (<[q := lt]> (Session.localHeap s)) (Session.set_localTracks m s)))
    as (r & s' & H & Hh & Ht).
  { apply fits_SubscribeDone; [|done..]. exact (Forall_lookup_1 _ _ _ _ Hheap Hlt). }
  exists r, s'. rewrite list_insert_id in * by done. split; [exact H|]. rewrite Hh, Ht. done.
Qed.

Lemma writer_CloseWithError p w :
  (p < length writers)%nat -> writers_world w -> writer_opened p w <= maxVarInt ->
  exists r w', Publishers.CloseWithError (Publisher := session_publisher p)
      ErrorCodeSubscribeDoneSubscriptionEnded [] w = Ok (r, w') /\
    writers_world w' /\ (forall q, writer_opened q w' = writer_opened q w).
Proof.
  intros Hp Hw Ho. destruct (lookup_lt_is_Some_2 writers p Hp) as [wr Hwr].
  rewrite <- Hlength in Hp. destruct (lookup_lt_is_Some_2 aliases p Hp) as [al Hal].
  destruct (ww_tracks w Hw p wr al Hwr Hal) as (lt & Hlt & Hla & Hc).
  unfold writer_opened in Ho. rewrite Hwr, Hlt in Ho.
  unfold session_publisher. rewrite Hwr. cbn [Publishers.CloseWithError publisher.as_publisher].
  unfold publisher.CloseWithError. cbn [Publishers.CloseWithError writer_publisher].
  unfold SubscribeResponseWriter_CloseWithError, on_session, localTrack_close, local_requestID, with_local, mbind, GM_bind, get.
  unfold gm_bind at 1. rewrite Hlt. unfold gm_bind at 1. cbn [Session.localHeap Session.set_localHeap].
  rewrite list_insert_id by done. rewrite Hlt.
  cbn [localTrack.close localTrack.set_ctx localTrack.subscribeDone localTrack.subgroupCount].
  set (lt' := localTrack.set_ctx lt _). set (s' := Session.set_localHeap _ _).
  assert (forall a wi, writers_world (writer_state.mk s' a wi)) as Hw'
    by (intros a wi; by eapply (world_set_track w _ lt)).
  assert (forall a wi q, writer_opened q (writer_state.mk s' a wi) = writer_opened q w) as Ho'
    by (intros a wi q; by apply (opened_set_track w _ lt)).
  destruct (localTrack.subscribeDone lt); [|by eexists _, _].
  destruct (subscriptionDone_returns (localTrack.requestID lt) ErrorCodeSubscribeDoneSubscriptionEnded
    (localTrack.subgroupCount lt) s') as (r & s2 & H & Hh & Htab).
  { vm_compute. split; discriminate. }
  { done. }
  { apply (Hw' [] []). }
  { apply (Hw' [] []). }
  rewrite H. eexists _, _. split; [done|]. destruct (Hw' [] []) as [Ht Hhp _]. split.
  - constructor; cbn; rewrite Hh; [exact Ht|exact Hhp|exact Htab].
  - intros q. rewrite <- (Ho' [] [] q). unfold writer_opened. cbn. by rewrite Hh.
Qed.

Lemma writer_alias_range p :
  (p < length writers)%nat -> 0 <= default 0 (aliases !! p) <= maxVarInt.
Proof.
  rewrite <- Hlength. intros Hp. destruct (lookup_lt_is_Some_2 aliases p Hp) as [al Hal].
  rewrite Hal. exact (Forall_lookup_1 _ _ _ _ Haliases Hal).
Qed.

(** The registered writers keep the promise. *)
Definition writers_laws : SubgroupLaws session_publisher := {|
  valid p := (p < length writers)%nat;
  alias p := default 0 (aliases !! p);
  pub_world := writers_world;
  opened := writer_opened;
  alias_range := writer_alias_range;
  OpenSubgroup_returns := writer_OpenSubgroup;
  CloseWithError_returns := writer_CloseWithError;
|}.

End Writers.

(** * Examples *)

(** Two subscriptions are accepted, and the second one is cancelled. *)
Definition ex_receive (msg : ControlMessage) (s : Session.t) : Session.t :=
  match receive (App := date_application ex_date_server) msg s with
  | Ok (Ret _, s) => s
  | _ => s
  end.
Definition ex_subscribe (id : Z) : ControlMessage :=
  Subscribe (subscribe_message id [str "clock"] (str "second") []).
Definition ex_served : Session.t := ex_receive (ex_subscribe 2) (ex_receive (ex_subscribe 0) established_server).
Definition ex_cancelled : Session.t :=
  ex_receive (Unsubscribe (UnsubscribeMessage.mk 2)) ex_served.
Definition ex_writers : list SubscribeResponseWriter.t :=
  [SubscribeResponseWriter.mk 0 0 0 true; SubscribeResponseWriter.mk 2 1 1 true].
Definition ex_publisher : nat -> Publisher writer_state.t := session_publisher 5 ex_writers.
Definition ex_world (s : Session.t) : writer_state.t := writer_state.mk s [] [].

Lemma tracks_in_heap s :
  map_Forall (fun _ q => is_Some (Session.localHeap s !! q)) (localTrackMap.pending (Session.localTracks s)) ->
  map_Forall (fun _ q => is_Some (Session.localHeap s !! q)) (localTrackMap.open (Session.localTracks s)) ->
  forall id q, localTrackMap.findByID (Session.localTracks s) id = Some q ->
    is_Some (Session.localHeap s !! q).
Proof.
  intros Hp Ho id q. unfold localTrackMap.findByID.
  destruct (localTrackMap.pending (Session.localTracks s) !! id) eqn:E; [intros [= ->]; by eapply Hp|].
  intros H. by eapply Ho.
Qed.

Lemma ex_worlds : writers_world ex_writers [0; 1] (ex_world ex_cancelled).
Proof.
  constructor.
  - intros [|[|p]] wr al Hw Ha; [| |done]; injection Hw as <-; injection Ha as <-; eexists.
    + split; [vm_compute; reflexivity|]. vm_compute. split; [done|discriminate].
    + split; [vm_compute; reflexivity|]. vm_compute. split; [done|discriminate].
  - apply (bool_decide_eq_true_1 _). vm_compute. reflexivity.
  - apply tracks_in_heap; apply (bool_decide_eq_true_1 _); vm_compute; reflexivity.
Qed.

Lemma ex_aliases : Forall (fun al => 0 <= al <= maxVarInt) [0; 1].
Proof. apply (bool_decide_eq_true_1 _). vm_compute. reflexivity. Qed.
Lemma ex_distinct : NoDup (map SubscribeResponseWriter.localTrack ex_writers).
Proof. apply (bool_decide_eq_true_1 _). vm_compute. reflexivity. Qed.

Definition ex_laws : SubgroupLaws ex_publisher :=
  writers_laws 5 ex_writers [0; 1] ex_aliases eq_refl ex_distinct.

(** The time in the format of the handler, and the state before a tick. *)
Definition ex_time : list byte := str "2025-01-02 03:04:05".
Definition ex_ticking : date_track.t writer_state.t := date_track.mk {[0; 1]}%nat 6 7 (ex_world ex_cancelled) [].

(** Publisher 0 gets group 7 with the time, publisher 1 is dropped. *)
Lemma date_tick_witness :
  exists h' sg, tick ex_publisher ex_time (fun _ => None) [1; 0]%nat ex_ticking = Ok (Ret tt, h') /\
    date_track.publishers h' = {[0%nat]} /\ date_track.groupID h' = 8 /\
    streams_of 0 (date_track.streams h') = [sg] /\ carries (SL := ex_laws) ex_publisher 7 ex_time 0 sg.
Proof.
  destruct (date_tick (SL := ex_laws) ex_publisher ex_time (fun _ => None) [1; 0]%nat ex_ticking)
    as (h' & new & H & Hw & Hs & Hl & Hg & Hp & Hin & Hout).
  - apply ex_worlds.
  - apply (bool_decide_eq_true_1 _). vm_compute. reflexivity.
  - vm_compute. discriminate.
  - vm_compute. split; [discriminate|reflexivity].
  - intros p Hp. assert (p = 0 \/ p = 1)%nat as [->| ->] by set_solver; (split; [cbn; lia|vm_compute; reflexivity]).
  - exists h'. pose proof H as E. vm_compute in E. injection E as E.
    destruct (Hin 0%nat) as [(Hin0 & sg & Hsg & _ & Hc)|[Hn _]].
    + set_solver.
    + exists sg. split; [exact H|]. split; [by subst h'; vm_compute|]. split; [exact Hg|].
      rewrite Hs. split; [exact Hsg|by apply Hc].
    + exfalso. apply Hn. subst h'. vm_compute. by apply (bool_decide_eq_true_1 _).
Defined.

(** The handler of publisher 0 joins before the first tick. *)
Definition ex_told : shared :=
  mk_shared (track (date_initial (ex_world ex_cancelled))) false (<[0%nat := 0]> ∅) ∅.
Definition ex_joined : shared :=
  mk_shared (register 0 (track ex_told)) false (told ex_told) (joined ex_told ∪ {[0%nat]}).
Definition ex_looped : shared :=
  mk_shared
    match publish_loop ex_publisher ex_time (fun _ => None) [0%nat] (track ex_joined) with
    | Ok (_, h) => h
    | _ => track ex_joined
    end true (told ex_joined) (joined ex_joined).

#[local] Existing Instance ex_laws.

Lemma ex_looped_reachable : date_reachable ex_publisher ex_looped.
Proof.
  apply (date_next _ ex_joined); [apply (date_next _ ex_told);
    [apply (date_next _ (date_initial (ex_world ex_cancelled)))|]|].
  - apply date_start; [apply ex_worlds|]. intros [|[|p]]; vm_compute; discriminate.
  - by apply (date_load _ (date_initial (ex_world ex_cancelled)) 0).
  - apply (date_register _ ex_told 0); [by eexists|set_solver|cbn; lia].
  - apply (date_loop _ ex_joined ex_time (fun _ => None) [0%nat]); [done| |vm_compute; discriminate|done|].
    + apply (bool_decide_eq_true_1 _). vm_compute. reflexivity.
    + vm_compute. reflexivity.
Qed.

(** It was told 0, and is given group 0. *)
Lemma date_groups_consecutive_witness :
  date_reachable (SL := ex_laws) ex_publisher ex_looped /\ told ex_looped !! 0%nat = Some 0 /\
  exists n, map Subgroup.groupID (streams_of 0 (date_track.streams (track ex_looped))) = seqZ 0 n /\ n = 1.
Proof.
  pose proof ex_looped_reachable as Hr. split; [exact Hr|]. split; [reflexivity|].
  destruct (date_groups_consecutive (SL := ex_laws) ex_publisher ex_looped 0 Hr)
    as (l & g & n & Hl & Hg & Hn & Hlg & _ & H); [set_solver|].
  exists n. assert (g + n = 1) as Hs by (apply H; vm_compute; by apply (bool_decide_eq_true_1 _)).
  injection Hl as <-. assert (g = 0) as ->.
  { assert (map Subgroup.groupID (streams_of 0 (date_track.streams (track ex_looped))) = [0]) as E
      by (vm_compute; reflexivity).
    rewrite Hg in E. destruct (decide (n = 0)) as [->|]; [by rewrite seqZ_nil in E|].
    rewrite seqZ_cons in E by lia. by injection E. }
  split; [exact Hg|lia].
Defined.
