(* ===== verification/Lifecycle.v ===== *)
(** The life of a session (session.go: Run, Close, readControlStream,
    readStreams, readDatagrams): the goroutines that Run starts, the group they
    belong to, and how the session ends.

    golang.org/x/sync/errgroup is not part of the repository: the class
    [ErrGroup] is what the session uses of a group, as functions of what its
    goroutines have returned so far, and the laws are what its documentation
    promises.  The goroutines interleave: an execution is a sequence of events,
    each a step of one goroutine, in any order. *)

From Stdlib Require Import String.
From S2P Require Import Prelude VarInt Codec WireTypes Messages ControlMessages Objects Params.
From S2P Require Import ParserSafety Errors State RequestID TrackMaps Tracks Announcements.
From S2P Require Import SessionState Session SessionInv SessionSafety.
Local Open Scope Z_scope.
Local Open Scope go_scope.

(** The first error that was returned. *)
Definition first_error (returned : list (option error)) : option error := head (omap (fun e => e) returned).

Class ErrGroup := {
  (** The context of the group is done; its cause. *)
  eg_done : list (option error) -> bool;
  eg_cause : list (option error) -> error;
  (** What Wait returns when all goroutines have returned. *)
  eg_Wait : list (option error) -> option error;
}.

Class ErrGroupLaws `{ErrGroup} : Prop := {
  eg_done_first returned : eg_done returned = bool_decide (is_Some (first_error returned));
  eg_Wait_first returned : eg_Wait returned = first_error returned;
}.

(** A group that gives the first error as the cause. *)
#[export] Instance first_error_group : ErrGroup := {|
  eg_done returned := bool_decide (is_Some (first_error returned));
  eg_cause returned := default (errContext 0) (first_error returned);
  eg_Wait := first_error;
|}.
#[export] Instance first_error_group_laws : ErrGroupLaws.
Proof. by split. Qed.

(** Where the call of Run is: it is to send the CLIENT_SETUP, it waits for the
    handshake, or it has returned. *)
Inductive run_phase := Sending | Waiting | RunReturned (r : ret unit).

(** [control], [streams], [datagrams]: the three goroutines of the group are
    running; [returned]: what those that ended returned, in that order;
    [uni]: goroutines that read a unidirectional stream; [connected]: Run got as
    far as to set the fields of the session, among them conn; [closes]: what the
    connection was closed with; [closed]: what Close returned. *)
Module process.
Record t := mk {
  session : Session.t;
  connected : bool;
  run : run_phase;
  control : bool;
  streams : bool;
  datagrams : bool;
  returned : list (option error);
  uni : nat;
  cancelled : bool;
  closes : list (Z * gostring);
  closing : bool;
  closed : option (option error) }.

Definition set_session (s : Session.t) (x : t) : t :=
  mk s (connected x) (run x) (control x) (streams x) (datagrams x) (returned x) (uni x) (cancelled x) (closes x)
    (closing x) (closed x).
Definition set_run (r : run_phase) (x : t) : t :=
  mk (session x) (connected x) r (control x) (streams x) (datagrams x) (returned x) (uni x) (cancelled x) (closes x)
    (closing x) (closed x).
Definition set_uni (n : nat) (x : t) : t :=
  mk (session x) (connected x) (run x) (control x) (streams x) (datagrams x) (returned x) n (cancelled x) (closes x)
    (closing x) (closed x).
Definition end_control (e : error) (x : t) : t :=
  mk (session x) (connected x) (run x) false (streams x) (datagrams x) (returned x ++ [Some e]) (uni x) (cancelled x)
    (closes x) (closing x) (closed x).
Definition end_streams (e : error) (x : t) : t :=
  mk (session x) (connected x) (run x) (control x) false (datagrams x) (returned x ++ [Some e]) (uni x) (cancelled x)
    (closes x) (closing x) (closed x).
Definition end_datagrams (e : error) (x : t) : t :=
  mk (session x) (connected x) (run x) (control x) (streams x) false (returned x ++ [Some e]) (uni x) (cancelled x)
    (closes x) (closing x) (closed x).
Definition close_conn (code : Z) (reason : gostring) (x : t) : t :=
  mk (session x) (connected x) (run x) (control x) (streams x) (datagrams x) (returned x) (uni x) true
    (closes x ++ [(code, reason)]) true (closed x).
Definition set_closed (e : option error) (x : t) : t :=
  mk (session x) (connected x) (run x) (control x) (streams x) (datagrams x) (returned x) (uni x) (cancelled x)
    (closes x) (closing x) (Some e).
End process.

(** What a blocking call of a goroutine returns, and what the application does. *)
Inductive process_event :=
  | RunSends
  | RunContextDone
  | RunHandshakeDone
  | ControlParses (r : ret ControlMessage)
  | AcceptsUniStream (r : ret unit)
  | ReadsUniStream (r : option (ObjectStreamParser.t * (list ObjectMessage.t * res unit)))
  | ReceivesDgram (r : ret (list byte))
  | CallsClose
  | CloseWaits
  | AppCalls (c : call).

Section Process.
Context {QV : QuicVarint} {MR : MapRange} {App : Application} {EG : ErrGroup}.

(** The context of the group: the one Run made was cancelled, or the group
    cancelled its own. *)
Definition ctx_done (x : process.t) : bool :=
  process.cancelled x || eg_done (process.returned x).
Definition ctx_cause (x : process.t) : error :=
  if eg_done (process.returned x) then eg_cause (process.returned x) else context_Canceled.

(** Run, up to the goroutines; [open] is the error of the connection when the
    control stream is accepted or opened.  The perspective of a connection is that
    of a client or that of a server: the error for any other is left out. *)
Definition Run (p : Perspective) (protocol : Protocol) (path : gostring) (InitialMaxRequestID : Z)
    (open : option error) : process.t :=
  let s := new_session p protocol path InitialMaxRequestID in
  match open with
  | Some e => process.mk s false (RunReturned (Error e)) false false false [] 0 false [] false None
  | None => process.mk s true Sending true true true [] 0 false [] false None
  end.

(** A call on the session, whose error is handled by [k]. *)
Definition on_process (m : SM unit) (k : option error -> process.t -> process.t) (x : process.t) :
    res process.t :=
  match m (process.session x) with
  | Ok (Ret _, s) => Ok (k None (process.set_session s x))
  | Ok (Error e, s) => Ok (k (Some e) (process.set_session s x))
  | Err e => Err e
  | Panic => Panic
  | NoFuel => NoFuel
  end.

Definition on_error (f : error -> process.t -> process.t) (e : option error) (x : process.t) : process.t :=
  match e with Some e => f e x | None => x end.

(** An iteration of readDatagrams. *)
Definition read_datagram (dgram : list byte) : SM unit :=
  r <- localTrack.lift_res (ObjectDatagramMessage.Parse (S (length dgram)) dgram []);
  match r with
  | (_, _, Some e) => throw e
  | (msg, _, None) => receiveDatagram msg
  end.

(** An event of a goroutine that is not running, or of a select that is not
    ready, changes nothing.  The fields of a session whose Run failed to open the
    control stream are nil. *)
Definition process_step (e : process_event) (x : process.t) : res process.t :=
  match e with
  | RunSends =>
      match process.run x with
      | Sending => on_process Run_start (fun e x => process.set_run
          (match e with Some e => RunReturned (Error e) | None => Waiting end) x) x
      | _ => Ok x
      end
  | RunContextDone =>
      match process.run x with
      | Waiting => if ctx_done x then Ok (process.set_run (RunReturned (Error (ctx_cause x))) x) else Ok x
      | _ => Ok x
      end
  | RunHandshakeDone =>
      match process.run x with
      | Waiting => if Session.handshakeDoneCh (process.session x)
                   then Ok (process.set_run (RunReturned (Ret tt)) x) else Ok x
      | _ => Ok x
      end
  | ControlParses r =>
      if process.control x then
        match r with
        | Error e => Ok (process.end_control e x)
        | Ret msg => on_process (receive msg) (on_error process.end_control) x
        end
      else Ok x
  | AcceptsUniStream r =>
      if process.streams x then
        match r with
        | Error e => Ok (process.end_streams e x)
        | Ret _ => Ok (process.set_uni (S (process.uni x)) x)
        end
      else Ok x
  | ReadsUniStream r =>
      match process.uni x with
      | O => Ok x
      | S n =>
          let x := process.set_uni n x in
          match r with
          | None => Ok x
          | Some (p, msgs) => on_process (handleUniStream p msgs) (fun _ x => x) x
          end
      end
  | ReceivesDgram r =>
      if process.datagrams x then
        match r with
        | Error e => Ok (process.end_datagrams e x)
        | Ret dgram => on_process (read_datagram dgram) (on_error process.end_datagrams) x
        end
      else Ok x
  | CallsClose => if process.connected x then Ok (process.close_conn 0 [] x) else Panic
  | CloseWaits =>
      if process.closing x && negb (process.control x || process.streams x || process.datagrams x)
      then Ok (process.set_closed (eg_Wait (process.returned x)) x) else Ok x
  | AppCalls c => if process.connected x then on_process (run_call c) (fun _ x => x) x else Panic
  end.

Fixpoint process_run (es : list process_event) (x : process.t) : res process.t :=
  match es with
  | [] => Ok x
  | e :: es => x ← process_step e x; process_run es x
  end.

End Process.
