(* ===== verification/SessionEnd.v ===== *)
(** How a session ends: what Run and Close return, and what becomes of the calls
    that wait when the control stream is gone. *)

From Stdlib Require Import String.
From S2P Require Import Prelude VarInt Codec WireTypes Messages ControlMessages Objects Params.
From S2P Require Import ParserSafety Errors State RequestID TrackMaps Tracks Announcements.
From S2P Require Import SessionState Session SessionInv SessionSafety Handshake Lifecycle.
Local Open Scope Z_scope.
Local Open Scope go_scope.

(** * Channels nobody sends to

    The response channels of the tracks [rts] and the channels [cs] are empty.
    Only the handlers of received messages send to them. *)

Definition silent (rts cs : list nat) (s : Session.t) : Prop :=
  Forall (fun p => exists r, Session.remoteHeap s !! p = Some r /\ RemoteTrack.responseChan r = []) rts /\
  Forall (fun c => Session.chans s !! c = Some []) cs.

Section Silent.
Context {QV : QuicVarint} {MR : MapRange} {App : Application} (rts cs : list nat).
Abbreviation P := (silent rts cs).

Lemma silent_same s s' :
  Session.remoteHeap s' = Session.remoteHeap s -> Session.chans s' = Session.chans s -> P s -> P s'.
Proof. unfold silent. by intros -> ->. Qed.

Lemma keeps_on {F A} (proj : Session.t -> F) upd (f : F -> A * F) :
  (forall x s, Session.remoteHeap (upd x s) = Session.remoteHeap s) ->
  (forall x s, Session.chans (upd x s) = Session.chans s) -> keeps P (on proj upd f).
Proof.
  intros H1 H2 s r s' Hs H. unfold on in H. destruct (f (proj s)) as [a x]. injection H as _ <-.
  by apply (silent_same s).
Qed.

Lemma keeps_try {F} (proj : Session.t -> F) upd (f : F -> option error * F) :
  (forall x s, Session.remoteHeap (upd x s) = Session.remoteHeap s) ->
  (forall x s, Session.chans (upd x s) = Session.chans s) -> keeps P (try_ proj upd f).
Proof.
  intros H1 H2 s r s' Hs H. unfold try_ in H. destruct (f (proj s)) as [a x]. injection H as _ <-.
  by apply (silent_same s).
Qed.

Lemma keeps_write msg : keeps P (write msg).
Proof.
  intros s r s' Hs H. unfold write in H. destruct (compileMessage msg); [|by injection H as _ <-|done..].
  destruct (Session.writes s) as [|[e|] ws]; injection H as _ <-; by apply (silent_same s).
Qed.

Lemma keeps_alloc_local lt : keeps P (alloc_local lt).
Proof. intros s r s' Hs [= _ <-]. by apply (silent_same s). Qed.

Lemma keeps_alloc_remote rt : keeps P (alloc_remote rt).
Proof.
  intros s r s' [H1 H2] [= _ <-]. split; [|done]. eapply list.Forall_impl; [exact H1|].
  intros p (t & Ht & Hr). exists t. split; [|done]. by apply lookup_app_l_Some.
Qed.

Lemma keeps_make_chan : keeps P make_chan.
Proof.
  intros s r s' [H1 H2] [= _ <-]. split; [done|]. eapply list.Forall_impl; [exact H2|].
  intros c Hc. by apply lookup_app_l_Some.
Qed.

Lemma keeps_with_local {A} p (m : GM localTrack.t A) : keeps P (with_local p m).
Proof.
  intros s r s' Hs H. unfold with_local in H. destruct (Session.localHeap s !! p) as [lt|]; [|done].
  destruct (m lt) as [[r1 lt']| | |]; [|done..]. injection H as _ <-. by apply (silent_same s).
Qed.

(** A method of a track that finds its response channel empty leaves it empty. *)
Definition quiet {A} (m : GM RemoteTrack.t A) : Prop := keeps (fun r => RemoteTrack.responseChan r = []) m.

Lemma keeps_with_remote {A} p (m : GM RemoteTrack.t A) : quiet m -> keeps P (with_remote p m).
Proof.
  intros Hm s r s' [H1 H2] H. unfold with_remote in H.
  destruct (Session.remoteHeap s !! p) as [rt|] eqn:E; [|done].
  destruct (m rt) as [[r1 rt']| | |] eqn:Em; [|done..]. injection H as _ <-. split; [|done]. cbn.
  eapply list.Forall_impl; [exact H1|]. intros q (t & Ht & Hr). destruct (decide (q = p)) as [->|Hne].
  - exists rt'. rewrite list_lookup_insert_eq by (by eapply lookup_lt_Some). split; [done|].
    rewrite E in Ht. injection Ht as ->. by eapply Hm.
  - exists t. by rewrite list_lookup_insert_ne.
Qed.

Lemma keeps_recv_chan c : keeps P (recv_chan c).
Proof.
  intros s r s' [H1 H2] H. unfold recv_chan in H. destruct (Session.chans s !! c) as [ch|] eqn:E; [|done].
  destruct ch as [|x ch]; cbn in H; injection H as _ <-; [done|]. split; [done|]. cbn.
  eapply list.Forall_impl; [exact H2|]. intros d Hd. destruct (decide (d = c)) as [->|Hne]; [congruence|].
  by rewrite list_lookup_insert_ne.
Qed.

Lemma silent_lift_res {A} (m : res A) : keeps P (localTrack.lift_res m).
Proof. intros s r s' Hs H. unfold localTrack.lift_res in H. destruct m; [| |done..]; by injection H as _ <-. Qed.

Hint Resolve keeps_write keeps_alloc_local keeps_alloc_remote keeps_make_chan keeps_with_local
  keeps_recv_chan silent_lift_res : go.
Hint Extern 1 (keeps _ (on _ _ _)) => (apply keeps_on; intros; reflexivity) : go.
Hint Extern 1 (keeps _ (try_ _ _ _)) => (apply keeps_try; intros; reflexivity) : go.
Hint Extern 1 (keeps _ (modify _)) =>
  (apply keeps_modify; intros ? ?; eapply silent_same; [reflexivity|reflexivity|eassumption]) : go.

(** ** Methods of a track *)

Lemma quiet_push o : quiet (modify (RemoteTrack.push o)).
Proof. apply keeps_modify. intros r Hr. unfold RemoteTrack.push. by destruct (_ <? _)%nat. Qed.

Lemma quiet_foldl (ms : list ObjectMessage.t) r :
  RemoteTrack.responseChan r = [] ->
  RemoteTrack.responseChan (foldl (fun r m => RemoteTrack.push (RemoteTrack.object_of m) r) r ms) = [].
Proof.
  revert r. induction ms as [|m ms IH]; intros r Hr; [done|]. apply IH. unfold RemoteTrack.push.
  by destruct (_ <? _)%nat.
Qed.

Lemma quiet_readStream msgs : quiet (RemoteTrack.readStream msgs).
Proof.
  intros r a r' Hr H. unfold RemoteTrack.readStream in H. pose proof (quiet_foldl msgs.1 r Hr) as Hf.
  destruct msgs.2; [by injection H as _ <-| |done..].
  destruct (bool_decide _); by injection H as _ <-.
Qed.

Hint Resolve quiet_push quiet_readStream : go.
Hint Extern 1 (quiet _) => (unfold quiet) : go.

Lemma quiet_get {A} (f : RemoteTrack.t -> A) : quiet (get f).
Proof. apply keeps_get. Qed.

Lemma quiet_ReadObject c ctx :
  quiet (fun r => match RemoteTrack.ReadObject c ctx r with
                  | None => Ok (Ret None, r)
                  | Some (o, e, r) => Ok (Ret (Some (o, e)), r)
                  end).
Proof.
  intros r a r' Hr H. destruct (RemoteTrack.ReadObject c ctx r) as [[[o e] r1]|] eqn:E; [|by injection H as _ <-].
  injection H as _ <-. destruct c; cbn in E.
  - by destruct ctx; cbn in E; simplify_eq.
  - by destruct (RemoteTrack.doneCtx r); cbn in E; simplify_eq.
  - destruct (RemoteTrack.buffer r); [done|]. by injection E as _ _ <-.
Qed.

Lemma quiet_recv :
  quiet (fun r => match chan_recv (RemoteTrack.responseChan r) with
                  | None => Ok (Ret None, r)
                  | Some (e, ch) => Ok (Ret (Some e), RemoteTrack.set_responseChan r ch)
                  end).
Proof. intros r a r' Hr H. rewrite Hr in H. by injection H as _ <-. Qed.

Lemma quiet_readSubgroupStream msgs : quiet (RemoteTrack.readSubgroupStream msgs).
Proof.
  unfold quiet, RemoteTrack.readSubgroupStream. apply keeps_bind; [by apply keeps_modify|].
  intros _. apply quiet_readStream.
Qed.

Lemma quiet_readFetchStream msgs : quiet (RemoteTrack.readFetchStream msgs).
Proof.
  unfold quiet, RemoteTrack.readFetchStream. apply keeps_bind; [by apply keeps_modify|]. intros _.
  apply keeps_bind; [apply keeps_get|]. intros n. destruct (n >? 1); [apply keeps_throw|apply quiet_readStream].
Qed.

Hint Resolve keeps_with_remote quiet_get quiet_ReadObject quiet_recv quiet_readSubgroupStream
  quiet_readFetchStream : go.

(** ** The calls of an application *)

Lemma keeps_getRequestID : keeps P getRequestID.
Proof. unfold getRequestID. keeps_auto. Qed.
Lemma keeps_local_requestID lt : keeps P (local_requestID lt).
Proof. apply keeps_with_local. Qed.
Lemma keeps_try_call m : keeps P m -> keeps P (try_call m).
Proof. intros H. unfold try_call. keeps_auto. Qed.
Lemma keeps_try_local {A} lt (m : GM localTrack.t A) : keeps P (try_local lt m).
Proof. unfold try_local. keeps_auto. Qed.
Lemma keeps_await_track rt ctx : keeps P (await_track rt ctx).
Proof. unfold await_track. keeps_auto. Qed.
Lemma keeps_await_err ch ctx : keeps P (await_err ch ctx).
Proof. unfold await_err. keeps_auto. Qed.
Lemma keeps_RemoteTrack_Close rt : keeps P (RemoteTrack_Close rt).
Proof. unfold RemoteTrack_Close, unsubscribe, fetchCancel. keeps_auto. Qed.

Hint Resolve keeps_getRequestID keeps_local_requestID keeps_try_local keeps_await_track keeps_await_err
  keeps_RemoteTrack_Close : go.

Lemma keeps_UpdateSubscription id opts : keeps P (UpdateSubscription id opts).
Proof. unfold UpdateSubscription. keeps_auto. Qed.
Hint Resolve keeps_UpdateSubscription : go.

Lemma keeps_run_call c : keeps P (run_call c).
Proof.
  destruct c; cbn [run_call]; unfold ignore;
    unfold Subscribe_send, Subscribe_wait, RemoteTrack_UpdateSubscription, RemoteTrack_ReadObject, Fetch_send,
      Fetch_wait, RequestTrackStatus_send, RequestTrackStatus_wait, Announce_send, Announce_wait,
      Unannounce, AnnounceCancel, SubscribeAnnouncements_send, SubscribeAnnouncements_wait,
      UnsubscribeAnnouncements, subscribe_exec, announcement_exec, announcementSubscription_exec,
      fetch_exec, trackStatus_exec, trackStatus_Reject, trackStatus_Accept, SubscribeResponseWriter_Accept,
      SubscribeResponseWriter_Reject, try_call, acceptSubscriptionWithOptions, rejectSubscription,
      localTrack_close, subscriptionDone, acceptFetch, rejectFetch, sendTrackStatus, acceptAnnouncement,
      rejectAnnouncement, acceptAnnouncementSubscription, rejectAnnouncementSubscription;
    keeps_auto; repeat (apply keeps_attempt; keeps_auto).
Qed.

Lemma keeps_streams p msgs : keeps P (handleUniStream p msgs).
Proof. unfold handleUniStream, readFetchStream, readSubgroupStream. keeps_auto. Qed.

Lemma keeps_datagram dgram : keeps P (read_datagram dgram).
Proof. unfold read_datagram, receiveDatagram. keeps_auto. Qed.

Lemma keeps_Run_start : keeps P Run_start.
Proof. unfold Run_start, sendClientSetup. keeps_auto. Qed.

End Silent.

(** * Executions *)

Section Executions.
Context {QV : QuicVarint} {MR : MapRange} {App : Application} {EG : ErrGroup}.

Lemma run_process_app es1 es2 x :
  process_run (es1 ++ es2) x = (x ← process_run es1 x; process_run es2 x).
Proof.
  revert x. induction es1 as [|e es1 IH]; intros x; [done|]. cbn. by destruct (process_step e x); cbn.
Qed.

Lemma on_process_Ok m k x x' :
  on_process m k x = Ok x' ->
  exists r s, m (process.session x) = Ok (r, s) /\
    x' = k (match r with Ret _ => None | Error e => Some e end) (process.set_session s x).
Proof.
  unfold on_process. intros H. destruct (m (process.session x)) as [[[[]|e] s]| | |]; [| |done..];
    injection H as <-; by eexists _, _.
Qed.

(** What every event keeps: an invariant of states of the process that has to be
    checked where a goroutine of the group ends, where the session is stepped,
    and where Run and Close move on. *)
Ltac step_cases H :=
  match type of H with
  | Ok _ = Ok _ => injection H as <-
  | on_process _ _ _ = Ok _ => apply on_process_Ok in H as ([?|?] & ? & ? & ->)
  | (if ?b then _ else _) = Ok _ => destruct b eqn:?; step_cases H
  | match ?x with _ => _ end = Ok _ => destruct x eqn:?; step_cases H
  | Panic = Ok _ => discriminate H
  | _ => idtac
  end.

(** ** The group *)

Definition alive (b : bool) : nat := if b then 1%nat else 0%nat.

(** Every goroutine that has ended has returned an error; the connection was
    closed with the code 0 only. *)
Definition group_ok (x : process.t) : Prop :=
  (length (process.returned x) + alive (process.control x) + alive (process.streams x) +
     alive (process.datagrams x) = 3)%nat /\
  Forall is_Some (process.returned x) /\ Forall (eq (0, [])) (process.closes x).

Lemma group_step e x x' : group_ok x -> process_step e x = Ok x' -> group_ok x'.
Proof.
  intros (Hn & Hr & Hc) H.
  destruct e as [| | |r|r|[[p msgs]|]|r| | |c]; cbn [process_step] in H; step_cases H;
    unfold group_ok, on_error; cbn; rewrite ?length_app; cbn;
    repeat match goal with E : process.control _ = _ |- _ => rewrite E in * end;
    repeat match goal with E : process.streams _ = _ |- _ => rewrite E in * end;
    repeat match goal with E : process.datagrams _ = _ |- _ => rewrite E in * end;
    cbn [alive] in *; split_and!; try done; try lia;
    try (apply Forall_app; split; [done|]; by repeat constructor).
Qed.

Lemma group_run es x x' : group_ok x -> process_run es x = Ok x' -> group_ok x'.
Proof.
  revert x. induction es as [|e es IH]; intros x Hx H; cbn in H; [by injection H as <-|].
  destruct (process_step e x) as [x1| | |] eqn:E; [|done..]. eapply IH; [|exact H]. by eapply group_step.
Qed.

Lemma Run_group p proto path init : group_ok (Run p proto path init None).
Proof. split; [done|]. by split. Qed.

(** ** Ended goroutines stay ended *)

Lemma ended_step e x x' :
  process_step e x = Ok x' ->
  (process.control x = false -> process.control x' = false) /\
  (process.streams x = false -> process.streams x' = false) /\
  (process.datagrams x = false -> process.datagrams x' = false) /\
  (process.closing x = true -> process.closing x' = true).
Proof.
  intros H. destruct e as [| | |r|r|[[p msgs]|]|r| | |c]; cbn [process_step] in H; step_cases H;
    unfold on_error; cbn; split_and!; auto; congruence.
Qed.

Lemma ended_run es x x' :
  process_run es x = Ok x' ->
  (process.control x = false -> process.control x' = false) /\
  (process.streams x = false -> process.streams x' = false) /\
  (process.datagrams x = false -> process.datagrams x' = false) /\
  (process.closing x = true -> process.closing x' = true).
Proof.
  revert x. induction es as [|e es IH]; intros x H; cbn in H; [by injection H as <-|].
  destruct (process_step e x) as [x1| | |] eqn:E; [|done..].
  apply ended_step in E as (E1 & E2 & E3 & E4). apply IH in H as (H1 & H2 & H3 & H4).
  split_and!; auto.
Qed.

Lemma connected_step e x x' : process_step e x = Ok x' -> process.connected x' = process.connected x.
Proof.
  intros H. destruct e as [| | |r|r|[[p msgs]|]|r| | |c]; cbn [process_step] in H; step_cases H;
    unfold on_error; cbn; auto.
Qed.

Lemma connected_run es x x' : process_run es x = Ok x' -> process.connected x' = process.connected x.
Proof.
  revert x. induction es as [|e es IH]; intros x H; cbn in H; [by injection H as <-|].
  destruct (process_step e x) as [x1| | |] eqn:E; [|done..]. apply connected_step in E. apply IH in H. congruence.
Qed.

(** A call of the connection that fails ends its goroutine. *)
Lemma fails_ends e ev es x x' :
  process_run es x = Ok x' -> ev ∈ es ->
  (ev = ControlParses (Error e) -> process.control x' = false) /\
  (ev = AcceptsUniStream (Error e) -> process.streams x' = false) /\
  (ev = ReceivesDgram (Error e) -> process.datagrams x' = false).
Proof.
  intros H Hin. apply list_elem_of_split in Hin as (l1 & l2 & ->).
  rewrite run_process_app in H. destruct (process_run l1 x) as [x1| | |]; [|done..].
  cbn in H. destruct (process_step ev x1) as [x2| | |] eqn:E; [|done..].
  apply ended_run in H as (H1 & H2 & H3 & _).
  split_and!; intros ->; cbn in E; step_cases E; cbn in *; auto.
Qed.

(** ** The session of a process *)

Definition valid_process_event (e : process_event) : Prop :=
  match e with
  | ControlParses (Ret msg) => in_range msg
  | _ => True
  end.

Lemma read_datagram_session dgram s r s' :
  read_datagram dgram s = Ok (r, s') -> s' = s \/ SessionSafety.step s s'.
Proof.
  unfold read_datagram. intros H. apply gm_bind_Ok in H as [([[msg n] [er|]] & s1 & E1 & E2)|(er & E1 & _)];
    unfold localTrack.lift_res, throw in *; destruct (ObjectDatagramMessage.Parse _ _ _); simplify_eq/=;
    [by left| |by left]. right. by apply (step_event _ _ (ReceivesDatagram msg) r).
Qed.

(** An event of the process leaves the session alone or is an event of it. *)
Lemma process_step_session e x x' :
  valid_process_event e -> process_step e x = Ok x' ->
  process.session x' = process.session x \/ SessionSafety.step (process.session x) (process.session x').
Proof.
  intros He H.
  assert (forall ev r s, valid_event ev -> run_event ev (process.session x) = Ok (r, s) ->
    s = process.session x \/ SessionSafety.step (process.session x) s) as Hev
    by (intros ev r s Hv Hs; right; by econstructor).
  destruct e as [| | |r|r|[[ps msgs]|]|[dgram|er]| | |c]; cbn [process_step] in H; step_cases H;
    unfold on_error; cbn in *; try by left.
  all: try first [by eapply (Hev Starts)|by eapply (Hev (Receives _))|by eapply (Hev (ReceivesStream _ _))
    |by eapply (Hev (Calls _))].
  all: match goal with E : read_datagram _ _ = Ok _ |- _ => by apply read_datagram_session in E end.
Qed.

Lemma process_step_reachable p e x x' :
  valid_process_event e -> reachable p (process.session x) -> process_step e x = Ok x' ->
  reachable p (process.session x').
Proof.
  intros He Hr H. destruct (process_step_session e x x' He H) as [->|Hs]; [done|].
  by eapply reachable_step.
Qed.

Lemma process_step_done p e x x' :
  valid_process_event e -> reachable p (process.session x) -> process_step e x = Ok x' ->
  Session.handshakeDoneCh (process.session x) = true -> Session.handshakeDoneCh (process.session x') = true.
Proof.
  intros He Hr H. destruct (process_step_session e x x' He H) as [->|Hs]; [done|].
  destruct (reachable_inv p _ Hr) as [Hi _]. destruct (step_ext _ _ Hi Hs) as [_ Hext]. apply Hext.
Qed.

Lemma process_run_reachable p es x x' :
  Forall valid_process_event es -> reachable p (process.session x) -> process_run es x = Ok x' ->
  reachable p (process.session x').
Proof.
  intros Hes. revert x. induction Hes as [|e es He Hes IH]; intros x Hr H; cbn in H; [by injection H as <-|].
  destruct (process_step e x) as [x1| | |] eqn:E; [|done..]. eapply IH; [|exact H].
  by eapply process_step_reachable.
Qed.

(** ** What Run has returned *)

Definition run_ok (x : process.t) : Prop :=
  process.run x = RunReturned (Ret tt) -> Session.handshakeDoneCh (process.session x) = true.

Lemma run_ok_step p e x x' :
  valid_process_event e -> reachable p (process.session x) -> run_ok x -> process_step e x = Ok x' ->
  run_ok x'.
Proof.
  intros He Hr Hx H. pose proof (process_step_done p e x x' He Hr H) as Hdone. unfold run_ok in *.
  destruct (process.run x) as [| |[[]|er]] eqn:Erun.
  1,2,4: destruct e as [| | |r|r|[[ps msgs]|]|r| | |c]; cbn [process_step] in H; rewrite ?Erun in H; step_cases H;
      unfold on_error; cbn in *; rewrite ?Erun; done.
  intros _. by apply Hdone, Hx.
Qed.

Lemma run_ok_run p es x x' :
  Forall valid_process_event es -> reachable p (process.session x) -> run_ok x ->
  process_run es x = Ok x' -> run_ok x'.
Proof.
  intros Hes. revert x. induction Hes as [|e es He Hes IH]; intros x Hr Hx H; cbn in H; [by injection H as <-|].
  destruct (process_step e x) as [x1| | |] eqn:E; [|done..]. eapply IH; [| |exact H].
  - by eapply process_step_reachable.
  - by eapply run_ok_step.
Qed.

(** The event with which Run fails in the state [x]. *)
Definition run_fails (e : error) (ev : process_event) (x : process.t) : Prop :=
  (ev = RunSends /\ process.run x = Sending /\
     exists s', Run_start (process.session x) = Ok (Error e, s')) \/
  (ev = RunContextDone /\ process.run x = Waiting /\ ctx_done x = true /\ e = ctx_cause x).

Lemma run_fails_step e ev x x' :
  process_step ev x = Ok x' -> process.run x' = RunReturned (Error e) ->
  process.run x = RunReturned (Error e) \/ run_fails e ev x.
Proof.
  intros H He. unfold run_fails. destruct (process.run x) as [| |r] eqn:Erun;
    destruct ev as [| | |r'|r'|[[ps msgs]|]|r'| | |c]; cbn [process_step] in H; rewrite ?Erun in H; step_cases H;
    unfold on_error in *; cbn in *; rewrite ?Erun in He; simplify_eq/=; auto 10.
  right. left. split_and!; [done..|by eexists].
Qed.

Lemma run_fails_run e es x x' :
  process_run es x = Ok x' -> process.run x' = RunReturned (Error e) ->
  process.run x = RunReturned (Error e) \/
  exists es1 ev es2 x0, es = es1 ++ ev :: es2 /\ process_run es1 x = Ok x0 /\ run_fails e ev x0.
Proof.
  revert x. induction es as [|ev es IH]; intros x H He; cbn in H; [injection H as <-; by left|].
  destruct (process_step ev x) as [x1| | |] eqn:E; [|done..].
  destruct (IH x1 H He) as [H1|(es1 & ev' & es2 & x0 & -> & H1 & H2)].
  - destruct (run_fails_step e ev x x1 E H1) as [H2|H2]; [by left|right]. by exists [], ev, es, x.
  - right. exists (ev :: es1), ev', es2, x0. split; [done|]. split; [|done]. cbn. by rewrite E.
Qed.

(** Only Close cancels the context of Run. *)
Lemma cancelled_run es x x' :
  process_run es x = Ok x' -> process.cancelled x' = true -> process.cancelled x = true \/ CallsClose ∈ es.
Proof.
  revert x. induction es as [|e es IH]; intros x H Hc; cbn in H; [injection H as <-; by left|].
  destruct (process_step e x) as [x1| | |] eqn:E; [|done..].
  destruct (IH x1 H Hc) as [H1|H1]; [|right; by apply list_elem_of_further].
  destruct e as [| | |r|r|[[p msgs]|]|r| | |c]; cbn [process_step] in E; step_cases E;
    unfold on_error in *; cbn in *; try (by left); right; apply list_elem_of_here.
Qed.

Context {EGL : ErrGroupLaws}.

(** C21: What Run returns.  In every interleaving of its goroutines, with whatever
    the parsers deliver of what the peer sends and the connection answers, the session stays in the states of
    the executions of its handlers and calls, so that its invariant holds; Run
    returns nil only when the handshake was completed by a setup message; and when
    it returns an error, then it is the error with which the control stream could
    not be opened or accepted, or the one with which this session's CLIENT_SETUP
    could not be sent, or the cause of the context that Run found done while it
    waited, and before that Close had been called or a goroutine of the session
    had failed. *)
Theorem Run_returns p proto path init open es x :
  Forall valid_process_event es -> process_run es (Run p proto path init open) = Ok x ->
  inv (process.session x) /\ Session.perspective (process.session x) = p /\
  (process.run x = RunReturned (Ret tt) -> Session.handshakeDoneCh (process.session x) = true) /\
  (forall e, process.run x = RunReturned (Error e) ->
     open = Some e \/
     exists es1 es2 x0, process_run es1 (Run p proto path init open) = Ok x0 /\
       ((es = es1 ++ RunSends :: es2 /\ process.run x0 = Sending /\
         exists s', Run_start (process.session x0) = Ok (Error e, s')) \/
        (es = es1 ++ RunContextDone :: es2 /\ process.run x0 = Waiting /\ e = ctx_cause x0 /\
         (CallsClose ∈ es1 \/ is_Some (first_error (process.returned x0)))))).
Proof.
  intros Hes H. assert (reachable p (process.session (Run p proto path init open))) as Hr0
    by (destruct open; exact (reachable_new p proto path init [])).
  pose proof (process_run_reachable p es _ _ Hes Hr0 H) as Hr.
  destruct (reachable_inv p _ Hr) as [Hi Hp]. split; [done|]. split; [done|]. split.
  - apply (run_ok_run p es (Run p proto path init open)); try done. by destruct open.
  - intros e He. destruct (run_fails_run e es _ _ H He) as [H0|(es1 & ev & es2 & x0 & -> & H1 & H2)].
    { left. destruct open; [|done]. cbn in H0. by injection H0 as ->. }
    right. exists es1, es2, x0. split; [exact H1|]. destruct H2 as [(-> & H2)|(-> & Hw & Hd & ->)]; [by left|right].
    do 3 (split; [done|]). unfold ctx_done in Hd. rewrite eg_done_first in Hd.
    apply orb_true_iff in Hd as [Hd|Hd]; [left|right; by apply bool_decide_eq_true in Hd].
    destruct (cancelled_run _ _ _ H1 Hd) as [Hc|Hc]; [|done]. by destruct open.
Qed.

(** C22: Close comes to its end, and never says that all is well.  Whatever the
    session has been through, once Close was called and the three calls its
    goroutines block in have failed -- as a connection that is closed makes them
    -- whatever else happens in between, every goroutine has ended and Close
    returns: the error of the goroutine that ended first, also when nothing went
    wrong before.  The connection was closed with the code 0 and no reason,
    whatever error ended the session. *)
Theorem close_returns p proto path init es1 es2 x1 x2 e1 e2 e3 :
  process_run es1 (Run p proto path init None) = Ok x1 ->
  process_run (CallsClose :: es2) x1 = Ok x2 ->
  ControlParses (Error e1) ∈ es2 -> AcceptsUniStream (Error e2) ∈ es2 -> ReceivesDgram (Error e3) ∈ es2 ->
  process.control x2 = false /\ process.streams x2 = false /\ process.datagrams x2 = false /\
  exists e rest x3, process.returned x2 = Some e :: rest /\ process_step CloseWaits x2 = Ok x3 /\
    process.closed x3 = Some (Some e) /\ Forall (eq (0, [])) (process.closes x3).
Proof.
  intros H1 H2 Hin1 Hin2 Hin3. pose proof (group_run _ _ _ (Run_group p proto path init) H1) as Hg.
  assert (process.connected x1 = true) as Hc by (by rewrite (connected_run _ _ _ H1)).
  cbn in H2. rewrite Hc in H2. cbn in H2.
  assert (group_ok (process.close_conn 0 [] x1)) as Hg'.
  { destruct Hg as (Ha & Hb & Hd). split_and!; [done|done|]. cbn. apply Forall_app. by repeat constructor. }
  pose proof (group_run _ _ _ Hg' H2) as (Hn & Hr & Hcl).
  destruct (fails_ends e1 _ _ _ _ H2 Hin1) as (Hc1 & _). specialize (Hc1 eq_refl).
  destruct (fails_ends e2 _ _ _ _ H2 Hin2) as (_ & Hc2 & _). specialize (Hc2 eq_refl).
  destruct (fails_ends e3 _ _ _ _ H2 Hin3) as (_ & _ & Hc3). specialize (Hc3 eq_refl).
  split; [done|]. split; [done|]. split; [done|]. rewrite Hc1, Hc2, Hc3 in Hn. cbn in Hn.
  destruct (process.returned x2) as [|e rest] eqn:Er; [cbn in Hn; lia|].
  apply list.Forall_cons_1 in Hr as [[e' ->] _]. exists e', rest.
  destruct (ended_run _ _ _ H2) as (_ & _ & _ & Hcl4). specialize (Hcl4 eq_refl).
  cbn [process_step]. rewrite Hcl4, Hc1, Hc2, Hc3. eexists. split; [done|]. split; [done|].
  cbn. by rewrite Er, eg_Wait_first.
Qed.

(** ** A session without its control stream *)

Lemma silent_step rts cs e x x' :
  process.control x = false -> silent rts cs (process.session x) -> process_step e x = Ok x' ->
  silent rts cs (process.session x').
Proof.
  intros Hc Hs H.
  destruct e as [| | |r|r|[[ps msgs]|]|[dgram|er]| | |c]; cbn [process_step] in H; rewrite ?Hc in H; step_cases H;
    unfold on_error; cbn -[Run_start] in *; try done.
  all: match goal with
    | E : Run_start _ = _ |- _ => by eapply keeps_Run_start in E
    | E : handleUniStream _ _ _ = _ |- _ => by eapply keeps_streams in E
    | E : read_datagram _ _ = _ |- _ => by eapply keeps_datagram in E
    | E : run_call _ _ = _ |- _ => by eapply keeps_run_call in E
    end.
Qed.

Lemma silent_run rts cs es x x' :
  process.control x = false -> silent rts cs (process.session x) -> process_run es x = Ok x' ->
  silent rts cs (process.session x').
Proof.
  revert x. induction es as [|e es IH]; intros x Hc Hs H; cbn in H; [by injection H as <-|].
  destruct (process_step e x) as [x1| | |] eqn:E; [|done..]. eapply IH; [| |exact H].
  - by apply (proj1 (ended_step _ _ _ E)).
  - by eapply silent_step.
Qed.

(** C37: When the session dies its callers are not told.  Once the goroutine that
    reads the control stream has ended -- the peer closed the connection, or a
    message failed -- a call that was waiting for the answer to its request,
    Subscribe, Fetch, RequestTrackStatus or a call that waits for an error on its
    channel, never returns unless its own context is cancelled: whatever happens
    afterwards, Close included, it is still waiting. *)
Theorem dead_session_hangs_callers rts cs es x x' :
  process.control x = false -> silent rts cs (process.session x) -> process_run es x = Ok x' ->
  (forall rt, rt ∈ rts ->
     (exists s, Subscribe_wait rt None (process.session x') = Ok (Ret None, s)) /\
     (exists s, Fetch_wait rt None (process.session x') = Ok (Ret None, s))) /\
  (forall c, c ∈ cs ->
     await_err c None (process.session x') = Ok (Ret None, process.session x') /\
     forall t, trackStatusRequest.response t = c ->
       RequestTrackStatus_wait t None (process.session x') = Ok (Ret None, process.session x')).
Proof.
  intros Hc Hs H. destruct (silent_run _ _ _ _ _ Hc Hs H) as [H1 H2]. split.
  - intros rt Hin. rewrite list.Forall_forall in H1. destruct (H1 rt Hin) as (r & Hr & Hch).
    assert (Session.remoteHeap (Session.set_remoteHeap (<[rt := r]> (Session.remoteHeap (process.session x')))
      (process.session x')) !! rt = Some r) as Hr'
      by (apply list_lookup_insert_eq; by eapply lookup_lt_Some).
    split; unfold Subscribe_wait, Fetch_wait, await_track, gm_bind, with_remote;
      rewrite Hr; cbn [get]; rewrite Hr', Hch; by eexists.
  - intros c Hin. rewrite list.Forall_forall in H2.
    split; [|intros t <-]; unfold await_err, RequestTrackStatus_wait, gm_bind, recv_chan; by rewrite (H2 _ Hin).
Qed.

End Executions.

(** * Examples *)

(** A client whose handshake is completed by the peer. *)
Definition ex_process : process.t := Run PerspectiveClient ProtocolQUIC (str "/moq") 10 None.
Definition ex_handshake : list process_event :=
  [RunSends; ControlParses (Ret (ServerSetup server_setup)); RunHandshakeDone].

(** The process after some events; these do not fail. *)
Definition ex_after (es : list process_event) (x : process.t) : process.t :=
  match process_run (App := no_handlers) es x with Ok x' => x' | _ => x end.

Definition ex_open : process.t := ex_after ex_handshake ex_process.

Lemma ex_handshake_runs : process_run (App := no_handlers) ex_handshake ex_process = Ok ex_open.
Proof. vm_compute. reflexivity. Qed.

(** The handshake is completed; a server refuses a version, and its Run says so. *)
Definition ex_refused : list process_event :=
  [RunSends; ControlParses (Ret (ClientSetup (ClientSetupMessage.mk [1] []))); RunContextDone].
Definition ex_server_process : process.t := Run PerspectiveServer ProtocolQUIC [] 10 None.

Lemma Run_returns_witness :
  process.run ex_open = RunReturned (Ret tt) /\ Session.handshakeDoneCh (process.session ex_open) = true /\
  process.run (ex_after ex_refused ex_server_process) = RunReturned (Error errIncompatibleVersions) /\
  exists es1 x0, process_run (App := no_handlers) es1 ex_server_process = Ok x0 /\
    errIncompatibleVersions = ctx_cause x0 /\ is_Some (first_error (process.returned x0)).
Proof.
  assert (process.run ex_open = RunReturned (Ret tt)) as Hr by (vm_compute; reflexivity). split; [exact Hr|].
  assert (process_run (App := no_handlers) ex_refused ex_server_process
    = Ok (ex_after ex_refused ex_server_process)) as He by (vm_compute; reflexivity).
  assert (process.run (ex_after ex_refused ex_server_process) = RunReturned (Error errIncompatibleVersions)) as Hf
    by (vm_compute; reflexivity).
  destruct (Run_returns (App := no_handlers) PerspectiveClient ProtocolQUIC (str "/moq") 10 None ex_handshake ex_open)
    as (_ & _ & H & _).
  - constructor; [exact I|]. constructor; [|constructor; [exact I|constructor]].
    split; [|vm_compute; intuition congruence].
    split; [vm_compute; congruence|]. constructor; [|constructor]. repeat split; vm_compute; congruence.
  - exact ex_handshake_runs.
  - split; [exact (H Hr)|]. split; [exact Hf|].
    destruct (Run_returns (App := no_handlers) PerspectiveServer ProtocolQUIC [] 10 None ex_refused
      (ex_after ex_refused ex_server_process)) as (_ & _ & _ & H').
    + constructor; [exact I|]. constructor; [|constructor; [exact I|constructor]].
      split; [|vm_compute; intuition congruence]. split; [|constructor].
      constructor; [vm_compute; congruence|constructor].
    + exact He.
    + destruct (H' _ Hf) as [[=]|(es1 & es2 & x0 & Hx & [(Hes & _ & s' & Hs')|(Hes & _ & Hc & [Hin|Hs])])].
      * exfalso. destruct es1 as [|e1 es1]; [|destruct es1 as [|e2 es1]; [discriminate Hes|]];
          [|destruct es1 as [|e3 es1]; [|destruct es1]; discriminate Hes].
        cbn in Hx. injection Hx as <-. vm_compute in Hs'. discriminate Hs'.
      * exfalso. assert (CallsClose ∈ ex_refused) as Hno by (rewrite Hes; apply elem_of_app; by left).
        unfold ex_refused in Hno. do 3 (apply elem_of_cons in Hno as [[=]|Hno]). by apply not_elem_of_nil in Hno.
      * exists es1, x0. by split_and!.
Defined.

(** Nothing goes wrong until Close is called, which answers what the calls of the
    connection that it closed returned. *)
Definition ex_closing : list process_event :=
  [ReceivesDgram (Error context_Canceled); AcceptsUniStream (Error context_Canceled);
   ControlParses (Error io_EOF)].

Lemma close_returns_witness :
  process.run ex_open = RunReturned (Ret tt) /\ process.returned ex_open = [] /\
  exists x3, process_step (App := no_handlers) CloseWaits (ex_after (CallsClose :: ex_closing) ex_open) = Ok x3 /\
    process.closed x3 = Some (Some context_Canceled).
Proof.
  assert (process_run (App := no_handlers) (CallsClose :: ex_closing) ex_open
    = Ok (ex_after (CallsClose :: ex_closing) ex_open)) as H2 by (vm_compute; reflexivity).
  split; [vm_compute; reflexivity|]. split; [vm_compute; reflexivity|].
  destruct (close_returns (App := no_handlers) PerspectiveClient ProtocolQUIC (str "/moq") 10 ex_handshake ex_closing
    _ _ io_EOF context_Canceled context_Canceled ex_handshake_runs H2) as (_ & _ & _ & e & rest & x3 & Hr & H & Hc & _).
  - do 2 apply list_elem_of_further. apply list_elem_of_here.
  - apply list_elem_of_further, list_elem_of_here.
  - apply list_elem_of_here.
  - exists x3. split; [exact H|]. rewrite Hc. vm_compute in Hr. by injection Hr as <- _.
Defined.

(** Subscribe has written its SUBSCRIBE when the peer goes away. *)
Definition ex_lost : process.t :=
  ex_after [AppCalls (CallSubscribe [str "live"] (str "video") []); ControlParses (Error io_EOF)] ex_open.
Definition ex_over : process.t := ex_after (CallsClose :: ex_closing ++ [CloseWaits]) ex_lost.

Lemma dead_session_hangs_callers_witness :
  process.closed ex_over = Some (Some io_EOF) /\
  exists s, Subscribe_wait 0 None (process.session ex_over) = Ok (Ret None, s).
Proof.
  split; [vm_compute; reflexivity|].
  assert (process.control ex_lost = false) as Hc by (vm_compute; reflexivity).
  assert (silent [0%nat] [] (process.session ex_lost)) as Hs.
  { split; [|constructor]. constructor; [|constructor]. eexists. split; vm_compute; reflexivity. }
  assert (process_run (App := no_handlers) (CallsClose :: ex_closing ++ [CloseWaits]) ex_lost = Ok ex_over) as H
    by (vm_compute; reflexivity).
  destruct (dead_session_hangs_callers (App := no_handlers) _ _ _ _ _ Hc Hs H) as [Hrts _].
  exact (proj1 (Hrts 0%nat (list_elem_of_here 0%nat []))).
Defined.
