(* ===== verification/CounterApp.v ===== *)
(** The counter application from end to end: a subscription, the datagrams of the
    publisher it starts, and the numbers the subscriber prints. *)

From Stdlib Require Import String.
From S2P Require Import Prelude VarInt Codec WireTypes Messages ControlMessages Objects Params.
From S2P Require Import ParserSafety Errors Framing State RequestID TrackMaps Tracks Announcements.
From S2P Require Import SessionState Session SessionInv SessionSafety Sending Handshake Requests Exchanges.
From S2P Require Import Strconv Publishers Counter Applications Lifecycle.
Local Open Scope Z_scope.
Local Open Scope go_scope.

(** * What the publisher sends *)

(** The object of a number, as the subscriber's track is given it. *)
Definition counter_object (k : Z) : Object.t :=
  Object.mk k 0 ObjectForwardingPreferenceDatagram 0 (FormatUint k).

Section Publishing.
Context {P : Type} `{PublisherLaws P}.
Abbreviation publisher_t := (CounterPublisher.t P).

Definition counter_at (k : Z) (p : publisher_t) : Prop :=
  CounterPublisher.counter p = k /\ CounterPublisher.groupID p = k.

Lemma counter_publishNext k (p : publisher_t) :
  0 <= k < 2 ^ 61 -> counter_at k p -> pub_ok (CounterPublisher.publisher p) ->
  exists r p', CounterPublisher.publishNext p = Ok (r, p') /\ counter_at (k + 1) p' /\
    pub_ok (CounterPublisher.publisher p') /\
    published (CounterPublisher.publisher p') = published (CounterPublisher.publisher p) ++
      match r with Ret _ => [counter_object k] | Error _ => [] end.
Proof.
  intros Hk [Hc Hg] Hp. unfold CounterPublisher.publishNext, CounterPublisher.take_numbers. unfold gm_bind at 1.
  rewrite Hc, Hg, !uint64_small by lia. set (o := Object.mk k 0 _ k _).
  assert (maxVarInt = 2 ^ 62 - 1) as Hmax by done.
  destruct (SendDatagram_returns o _ Hp) as (r & q & E & Hq & Hpub); [unfold sendable; cbn; lia|].
  unfold CounterPublisher.wrap_error, CounterPublisher.on_publisher, gm_bind, attempt.
  cbn [CounterPublisher.publisher]. rewrite E. by destruct r as [[]|e]; cbn; eexists _, _.
Qed.

(** A start with [n] ticks to come sends the objects of [n] numbers, or the first
    few of them and returns an error. *)
Lemma counter_ticks n k (p : publisher_t) :
  0 <= k -> k + Z.of_nat n <= 2 ^ 61 -> counter_at k p -> pub_ok (CounterPublisher.publisher p) ->
  exists r p' l, select_loop CounterPublisher.publishNext (replicate n Tick) p = Ok (r, p') /\
    pub_ok (CounterPublisher.publisher p') /\
    published (CounterPublisher.publisher p') = published (CounterPublisher.publisher p) ++ l /\
    l `prefix_of` (counter_object <$> seqZ k (Z.of_nat n)) /\
    (forall b, r = Ret b -> b = false /\ l = counter_object <$> seqZ k (Z.of_nat n)).
Proof.
  revert k p. induction n as [|n IH]; intros k p Hk Hn Hat Hp.
  - exists (Ret false), p, []. split_and!; [done|done|by rewrite app_nil_r|done|]. by intros b [= <-].
  - destruct (counter_publishNext k p ltac:(lia) Hat Hp) as (r & p1 & E1 & Hat1 & Hp1 & Hpub1).
    cbn [replicate select_loop]. unfold gm_bind at 1. rewrite E1, seqZ_cons by lia. rewrite fmap_cons.
    replace (Z.pred (Z.of_nat (S n))) with (Z.of_nat n) by lia. destruct r as [[]|e].
    + destruct (IH (k + 1) p1) as (r & p2 & l2 & E2 & Hp2 & Hpub2 & Hl2 & Hr2); [lia|lia|done|done|].
      rewrite Hpub1, <- app_assoc in Hpub2.
      exists r, p2, (counter_object k :: l2). split_and!; [done|done|done|by apply prefix_cons|].
      intros b Hb. by destruct (Hr2 b Hb) as [-> ->].
    + exists (Error e), p1, []. split_and!; [done|done|done|apply prefix_nil|done].
Qed.

(** With a publisher that accepts every object, all ticks succeed. *)
Lemma counter_ticks_accepted (accepts : P -> Prop) n k (p : publisher_t) :
  (forall o q, sendable o -> accepts q -> exists q', SendDatagram o q = Ok (Ret tt, q') /\ accepts q') ->
  0 <= k -> k + Z.of_nat n <= 2 ^ 61 -> counter_at k p -> accepts (CounterPublisher.publisher p) ->
  exists p', select_loop CounterPublisher.publishNext (replicate n Tick) p = Ok (Ret false, p').
Proof.
  intros Hall. revert k p. induction n as [|n IH]; intros k p Hk Hn Hat Hp; [by eexists|].
  destruct Hat as [Hc Hg]. destruct p as [q sid rid ? ? run]. cbn in Hc, Hg, Hp. subst.
  destruct (Hall (Object.mk k 0 ObjectForwardingPreferenceDatagram k (FormatUint k)) q) as (q' & E & Hq');
    [unfold sendable; change maxVarInt with (2 ^ 62 - 1); cbn; lia|done|].
  destruct (IH (k + 1) (CounterPublisher.mk q' sid rid (k + 1) (k + 1) run)) as [p' Hp']; [lia..|done|done|].
  exists p'. rewrite <- Hp'. cbn [replicate select_loop]. unfold gm_bind at 1. unfold CounterPublisher.publishNext.
  unfold CounterPublisher.take_numbers, gm_bind at 1.
  cbn [CounterPublisher.counter CounterPublisher.groupID]. rewrite !uint64_small by lia.
  unfold CounterPublisher.wrap_error, CounterPublisher.on_publisher, gm_bind, attempt.
  cbn [CounterPublisher.publisher]. rewrite E. cbn. done.
Qed.

End Publishing.

(** * What arrives *)

(** The loop of readDatagrams. *)
Section Arrivals.
Context {QV : QuicVarint} {MR : MapRange}.

Fixpoint read_datagrams (dgrams : list (list byte)) : SM unit :=
  match dgrams with
  | [] => mret tt
  | dgram :: dgrams => _ <- read_datagram dgram; read_datagrams dgrams
  end.

Lemma read_datagram_pushes alias d o s rt r :
  received_datagram alias d = Some o ->
  remoteTrackMap.findByTrackAlias (Session.remoteTracks s) alias = Some rt ->
  Session.remoteHeap s !! rt = Some r ->
  read_datagram d s = Ok (Ret tt, Session.set_remoteHeap (<[rt := RemoteTrack.push o r]> (Session.remoteHeap s)) s).
Proof.
  intros Hd Hrt Hr. unfold received_datagram in Hd. unfold read_datagram, localTrack.lift_res.
  destruct (ObjectDatagramMessage.Parse _ _ _) as [[[m n] [e|]]| | |]; try discriminate Hd.
  unfold gm_bind at 1. unfold receiveDatagram. destruct (Z.eqb_spec (ObjectDatagramMessage.TrackAlias m) alias)
    as [->|]; [|done]. injection Hd as <-.
  unfold gm_bind, get, of_option, with_remote. rewrite Hrt. cbn. by rewrite Hr.
Qed.

(** Datagrams of one track are pushed to it, in order. *)
Lemma read_datagrams_push alias ds os s rt r :
  Forall2 (fun d o => received_datagram alias d = Some o) ds os ->
  remoteTrackMap.findByTrackAlias (Session.remoteTracks s) alias = Some rt ->
  Session.remoteHeap s !! rt = Some r ->
  exists s', read_datagrams ds s = Ok (Ret tt, s') /\
    Session.remoteHeap s' !! rt = Some (foldl (fun r o => RemoteTrack.push o r) r os).
Proof.
  intros H. revert s r. induction H as [|d o ds os Hd H IH]; intros s r Hrt Hr; [by exists s|].
  cbn [read_datagrams]. rewrite (run_bind _ _ _ _ _ (read_datagram_pushes alias d o s rt r Hd Hrt Hr)).
  apply IH; [done|]. cbn. apply list_lookup_insert_eq. by apply lookup_lt_Some in Hr.
Qed.

End Arrivals.

(** * What the subscriber prints *)

(** The loop, when all it gets are numbers: it reads them one after the other. *)
Lemma reads_numbers ks (x : subscription.t CounterSubscriber.t) :
  Forall (fun k => 0 <= k < 2 ^ 63) ks ->
  let s := subscription.sub x in
  RemoteTrack.buffer (CounterSubscriber.track s) = counter_object <$> ks ->
  RemoteTrack.doneCtx (CounterSubscriber.track s) = None ->
  subscription.ctx x = None -> subscription.reading x = true -> Runner.stopChan (CounterSubscriber.run s) = false ->
  CounterSubscriber.totalReceived s = len (CounterSubscriber.printed s) ->
  len (CounterSubscriber.printed s) + len ks < 2 ^ 64 ->
  exists x', subscriber_run (replicate (length ks) (ReadReturns RemoteTrack.FromBuffer)) x = Ok x' /\
    CounterSubscriber.printed (subscription.sub x') = CounterSubscriber.printed s ++ ks /\
    CounterSubscriber.GetTotalReceived (subscription.sub x') = len (CounterSubscriber.printed s) + len ks.
Proof.
  intros Hks. revert x. induction Hks as [|k ks Hk Hks IH]; intros [s ctx reading started] s' Hb Hd Hc Hrd Hst Ht Hlen;
    subst s'; cbn in Hc, Hrd; subst ctx reading; cbn [subscription.sub] in *.
  - eexists. split; [done|]. cbn. rewrite app_nil_r, len_nil. split; [done|]. unfold CounterSubscriber.GetTotalReceived. lia.
  - rewrite fmap_cons in Hb. rewrite len_cons in *. pose proof (len_nonneg ks).
    pose proof (len_nonneg (CounterSubscriber.printed s)).
    cbn [length replicate subscriber_run]. unfold subscriber_step at 1, loop_body, RemoteTrack.ReadObject.
    cbn [subscription.sub subscription.reading remoteTrack CounterSubscriber.subscriber]. rewrite Hb, Hd. cbn [mbind res_bind].
    cbn [processObject CounterSubscriber.subscriber]. unfold CounterSubscriber.processObject at 1. cbn [Object.Payload counter_object].
    rewrite parse_formatted by done. cbn [mbind res_bind]. unfold loop_head at 1. cbn. rewrite Hst.
    match goal with |- exists x', subscriber_run _ ?x = _ /\ _ =>
      destruct (IH x) as (x' & E & Hp & Hn); cbn; [done|done|done|done|done| | |] end.
    + rewrite Ht, uint64_small by lia. by rewrite len_app.
    + rewrite len_app, len_cons, len_nil. lia.
    + cbn in Hp, Hn. exists x'. split; [done|]. rewrite len_app, len_cons, len_nil in Hn. rewrite Hp, Hn, <- app_assoc.
      split; [done|lia].
Qed.

(** * From end to end *)

(** What the handler does once a subscription is accepted: a publisher for the
    writer of the subscription, whose session is in the state [s]. *)
Definition new_publisher (sessionID : Z) (requestID : Z) (answers : list (option error)) (s : Session.t) :
    CounterPublisher.t writer_state.t :=
  CounterPublisher.NewCounterPublisher (writer_state.mk s answers []) sessionID requestID.

(** What subscribeAndRead does with the track it got. *)
Definition new_subscriber (track : RemoteTrack.t) (sessionID : Z) (h : counterHandler.t) : CounterSubscriber.t :=
  CounterSubscriber.NewCounterSubscriber track sessionID (counterHandler.namespace h) (counterHandler.trackname h).

Lemma Forall2_omap {A B} (f : A -> option B) l :
  Forall (fun a => is_Some (f a)) l -> Forall2 (fun a b => f a = Some b) l (omap f l).
Proof. induction 1 as [|a l [b Hb] Hl IH]; [constructor|]. cbn. rewrite Hb. by constructor. Qed.

(** The datagrams at some places of what was sent. *)
Lemma pick {A B} (R : A -> B -> Prop) l l' (places : list nat) :
  Forall2 R l l' -> Forall (fun i => (i < length l)%nat) places ->
  exists ds os, Forall2 (fun i d => l !! i = Some d) places ds /\ Forall2 (fun i o => l' !! i = Some o) places os /\
    Forall2 R ds os.
Proof.
  intros HR. induction 1 as [|i places Hi His (ds & os & H1 & H2 & H3)]; [by exists [], []|].
  apply lookup_lt_is_Some_2 in Hi as [d Hd]. destruct (Forall2_lookup_l _ _ _ _ _ HR Hd) as (o & Ho & HRo).
  exists (d :: ds), (o :: os). by repeat constructor.
Qed.

Lemma picked_numbers n places os :
  Forall2 (fun i o => (counter_object <$> seqZ 0 (Z.of_nat n)) !! i = Some o) places os ->
  os = counter_object <$> (Z.of_nat <$> places).
Proof.
  induction 1 as [|i o places os Ho H IH]; [done|]. rewrite !fmap_cons, <- IH. f_equal.
  rewrite list_lookup_fmap in Ho. apply fmap_Some in Ho as (k & Hk & ->). apply lookup_seqZ in Hk as [-> _].
  by rewrite Z.add_0_l.
Qed.

Section EndToEnd.
Context {QV : QuicVarint} {QVL : QuicVarintLaws} {MR : MapRange}.

(** A new track that is given objects keeps them, up to its capacity. *)
Lemma accepted_pushed ok id f u (os : list Object.t) :
  (length os <= buffer_capacity)%nat ->
  let track := foldl (fun r o => RemoteTrack.push o r) (accepted_track ok (RemoteTrack.newRemoteTrack id f u)) os in
  RemoteTrack.buffer track = os /\ RemoteTrack.doneCtx track = None.
Proof.
  intros Hl. cbv zeta. rewrite (foldl_push (fun o => o)) by (cbn; lia).
  cbn. rewrite map_id, take_ge by done. done.
Qed.

(** The datagrams that arrive, from the client's session to the log. *)
Lemma subscriber_prints alias c rt ok id f u wire n places h sid :
  remoteTrackMap.findByTrackAlias (Session.remoteTracks c) alias = Some rt ->
  Session.remoteHeap c !! rt = Some (accepted_track ok (RemoteTrack.newRemoteTrack id f u)) ->
  Forall2 (fun d o => received_datagram alias d = Some o) wire (counter_object <$> seqZ 0 (Z.of_nat n)) ->
  Z.of_nat n <= 2 ^ 61 -> Forall (fun i => (i < n)%nat) places -> (length places <= buffer_capacity)%nat ->
  exists ds c' track x0 x,
    Forall2 (fun i d => wire !! i = Some d) places ds /\
    read_datagrams ds c = Ok (Ret tt, c') /\ Session.remoteHeap c' !! rt = Some track /\
    CounterSubscriber.Start None (new_subscriber track sid h) = Ok (Ret tt, x0) /\
    subscriber_run (replicate (length places) (ReadReturns RemoteTrack.FromBuffer)) x0 = Ok x /\
    CounterSubscriber.printed (subscription.sub x) = Z.of_nat <$> places /\
    CounterSubscriber.GetTotalReceived (subscription.sub x) = len places.
Proof.
  intros Hfind Htrack Hwire Hmax Hplaces Hlen.
  assert (length wire = n) as Hwl
    by (rewrite (Forall2_length _ _ _ Hwire), length_fmap, length_seqZ; lia).
  destruct (pick _ _ _ places Hwire) as (ds & os & Hds & Hos & Hrec); [by rewrite Hwl|].
  pose proof (picked_numbers n places os Hos) as ->.
  destruct (read_datagrams_push alias ds _ c rt _ Hrec Hfind Htrack) as (c' & Hread & Hheap).
  set (track := foldl _ _ _) in Hheap.
  destruct (accepted_pushed ok id f u (counter_object <$> (Z.of_nat <$> places))) as [Hb Hd];
    [by rewrite !length_fmap|]. fold track in Hb, Hd.
  set (x0 := subscription.mk (CounterSubscriber.mk track sid (counterHandler.namespace h)
    (counterHandler.trackname h) 0 0 (Runner.mk true false) []) None true None).
  assert (buffer_capacity = 100%nat) as Hcap by done.
  assert (len (Z.of_nat <$> places) = len places) as Hl by (unfold len; by rewrite length_fmap).
  destruct (reads_numbers (Z.of_nat <$> places) x0) as (x & Hx & Hp & Ht); [|done|done|done|done|done|done| |].
  { apply Forall_fmap. eapply list.Forall_impl; [exact Hplaces|]. cbn. lia. }
  { cbn. rewrite Hl, len_nil. unfold len. lia. }
  exists ds, c', track, x0, x. rewrite length_fmap in Hx. cbn in Ht. rewrite Hl, len_nil in Ht.
  split_and!; [done|done|done|done|done|exact Hp|]. rewrite Ht. lia.
Qed.

(** The counter application from end to end.  A client subscribes to the track
    that a server publishes, the first subscription the server is sent.  The
    server's handler accepts and starts a publisher on the writer, whose [n] ticks
    give [n] datagrams unless the connection fails.  Whatever the network makes of
    them -- they may be lost, repeated and reordered -- as long as those that
    arrive fit the buffer of the track the client's session pushes them to the track
    Subscribe returned, and the subscriber started on it prints exactly the numbers
    whose datagrams arrived, in that order, and counts them. *)
Theorem counter_end_to_end Ac h pc c p options sid sid' answers n :
  reachable (App := Ac) pc c ->
  let id := next_id c in
  let ns := counterHandler.namespace h in
  let name := counterHandler.trackname h in
  let m := subscribe_message id ns name options in
  let ok := subscribe_ok id [] in
  let w := SubscribeResponseWriter.set_handled (new_writer m p) in
  counterHandler.publish h = true ->
  Session.handshakeDone c = true -> Session.handshakeDone p = true ->
  id < requestIDGenerator.max (Session.requestIDs c) -> next_answer c = None ->
  remoteTrackMap.trackAliasToRequestID (Session.remoteTracks c) !! 0 = None ->
  fits (Subscribe m) -> fits (SubscribeOk ok) ->
  valid_namespace ns = true -> id < Session.localMaxRequestID p -> can_raise id p ->
  localTrackMap.findByID (Session.localTracks p) id = None ->
  next_answer (limit_checked id (subscribed m p)) = None ->
  (sequence.next (Session.trackAliases p)).1 = 0 -> Z.of_nat n <= 2 ^ 61 ->
  exists rt c1 p1 c2 c3 r q,
    Subscribe_send ns name options c = Ok (Ret rt, c1) /\
    receive (App := counter_application h) (Subscribe m) p = Ok (Ret tt, p1) /\
    receive (App := Ac) (SubscribeOk ok) c1 = Ok (Ret tt, c2) /\
    Subscribe_wait rt None c2 = Ok (Ret (Some rt), c3) /\
    CounterPublisher.Start (H := writer_publisher w) (replicate n Tick) (new_publisher sid id answers p1) = Ok (r, q) /\
    forall places b, r = Ret b -> Forall (fun i => (i < n)%nat) places -> (length places <= buffer_capacity)%nat ->
      exists ds c4 track x0 x,
        Forall2 (fun i d => writer_state.wire (CounterPublisher.publisher q) !! i = Some d) places ds /\
        read_datagrams ds c3 = Ok (Ret tt, c4) /\ Session.remoteHeap c4 !! rt = Some track /\
        CounterSubscriber.Start None (new_subscriber track sid' h) = Ok (Ret tt, x0) /\
        subscriber_run (replicate (length places) (ReadReturns RemoteTrack.FromBuffer)) x0 = Ok x /\
        CounterSubscriber.printed (subscription.sub x) = Z.of_nat <$> places /\
        CounterSubscriber.GetTotalReceived (subscription.sub x) = len places.
Proof.
  intros Hr id ns name m ok w Hpub Hc Hp Hlt Ha Halias Hf Hfo Hn Hlim Hraise Hfree Hap Hal Hmax.
  assert (forall auth, getSubscribeHandler h (public_subscribe m auth) = Call (SubAccept []) (fun _ => Return)) as Hm.
  { intros auth. unfold getSubscribeHandler. rewrite Hpub, tupleEqual_spec. cbn. by rewrite !bool_decide_eq_true_2. }
  destruct (accepted_exchange Ac [] (counter_application h) (getSubscribeHandler h) pc c p ns name options ok Hr eq_refl eq_refl eq_refl Hm
    Hc Hp Hlt Ha Halias Hf Hfo Hn Hlim Hraise Hfree Hap)
    as (rt & c1 & p1 & c2 & c3 & l & H1 & _ & H2 & _ & [_ Hheap] & H3 & H4 & _ & Hfind & Htrack).
  set (p0 := new_publisher sid id answers p1).
  destruct (counter_ticks (H0 := writer_publisher_laws w 0) n 0
    (CounterPublisher.mk (CounterPublisher.publisher p0) sid id 0 0 (Runner.mk true false)))
    as (r & q & os & Hq & Hok & Hos & _ & Hall); [done|lia|done| |].
  { split; [vm_compute; split; discriminate|]. split; [constructor|]. eexists. split; [exact Hheap|exact Hal]. }
  exists rt, c1, p1, c2, c3, r, q. split; [exact H1|]. split; [exact H2|]. split; [exact H3|]. split; [exact H4|].
  split; [exact Hq|]. intros places b Hb His Hlen. destruct (Hall b Hb) as [_ ->]. clear Hall.
  destruct Hok as (_ & Hread & _). apply Forall2_omap in Hread.
  change (omap (received_datagram 0) (writer_state.wire (CounterPublisher.publisher q)) =
    omap (received_datagram 0) [] ++ (counter_object <$> seqZ 0 (Z.of_nat n))) in Hos.
  rewrite Hos in Hread.
  exact (subscriber_prints 0 c3 rt _ _ _ _ _ n places h sid' Hfind Htrack Hread Hmax His Hlen).
Qed.

End EndToEnd.

(** * Examples *)

Definition ex_counter : counterHandler.t := counterHandler.mk [str "counter"] (str "count") true false.

(** Three numbers are sent; the third arrives before the first and the second is
    lost. *)
Lemma counter_end_to_end_witness :
  exists rt c1 c2 c3 ds c4 track x0 x,
    Subscribe_send [str "counter"] (str "count") [] established_client = Ok (Ret rt, c1) /\
    receive (App := no_handlers) (SubscribeOk (subscribe_ok 0 [])) c1 = Ok (Ret tt, c2) /\
    Subscribe_wait rt None c2 = Ok (Ret (Some rt), c3) /\
    read_datagrams ds c3 = Ok (Ret tt, c4) /\ Session.remoteHeap c4 !! rt = Some track /\
    CounterSubscriber.Start None (new_subscriber track 5 ex_counter) = Ok (Ret tt, x0) /\
    subscriber_run [ReadReturns RemoteTrack.FromBuffer; ReadReturns RemoteTrack.FromBuffer] x0 = Ok x /\
    CounterSubscriber.printed (subscription.sub x) = [2; 0].
Proof.
  destruct (counter_end_to_end no_handlers ex_counter PerspectiveClient established_client established_server [] 1 5 [] 3)
    as (rt & c1 & p1 & c2 & c3 & r & q & H1 & H2 & H3 & H4 & H5 & H6).
  - apply established_client_reachable.
  - reflexivity.
  - reflexivity.
  - reflexivity.
  - vm_compute. reflexivity.
  - reflexivity.
  - reflexivity.
  - eexists. vm_compute. reflexivity.
  - eexists. vm_compute. reflexivity.
  - reflexivity.
  - vm_compute. reflexivity.
  - left. vm_compute. reflexivity.
  - reflexivity.
  - reflexivity.
  - reflexivity.
  - vm_compute. discriminate.
  - assert (r = Ret false) as Hr.
    { pose proof H2 as E2. vm_compute in E2. injection E2 as E2. subst p1.
      pose proof H5 as E5. vm_compute in E5. by injection E5 as E5 _. }
    destruct (H6 [2; 0]%nat false Hr) as (ds & c4 & track & x0 & x & _ & E1 & E2 & E3 & E4 & E5 & _).
    + repeat constructor.
    + vm_compute. repeat constructor.
    + exists rt, c1, c2, c3, ds, c4, track, x0, x. split; [exact H1|]. split; [exact H3|]. split; [exact H4|].
      split; [exact E1|]. split; [exact E2|]. split; [exact E3|]. split; [exact E4|exact E5].
Defined.
