(* ===== verification/Connections.v ===== *)
(** The connections of a session (connection.go) and their two implementations,
    the packages quicmoq and webtransportmoq.

    quic-go and webtransport-go are not part of the repository: the class
    [TransportLibrary] lists the methods of their connections and streams that the
    adapters call, on a state [W] of the library, and the conversions to their
    types of error codes.  The interfaces of connection.go are records of methods;
    an adapter is a function that builds such a record. *)

From Stdlib Require Import String.
From S2P Require Import Prelude VarInt Codec WireTypes ControlMessages Errors State SessionState.
From S2P Require Import Session Lifecycle.
Local Open Scope Z_scope.
Local Open Scope go_scope.

(** * connection.go *)

(** The types Protocol and Perspective are integers. *)
Definition protocol_int (p : Protocol) : Z :=
  match p with ProtocolQUIC => 0 | ProtocolWebTransport => 1 end.

Definition Protocol_String (p : Z) : gostring :=
  if p =? protocol_int ProtocolQUIC then str "quic"
  else if p =? protocol_int ProtocolWebTransport then str "webtransport"
  else str "invalid protocol".

Definition Perspective_String (p : Z) : gostring :=
  if p =? perspective_uint64 PerspectiveServer then str "server"
  else if p =? perspective_uint64 PerspectiveClient then str "client"
  else str "invalid perspective".

(** What Read puts in a buffer of a length, and the error it may give with it;
    what Write gives. *)
Definition read_result : Type := list byte * option error.
Definition write_result : Type := Z * option error.

Module ReceiveStream.
Record t (W : Type) := mk { Read : Z -> GM W read_result; Stop : Z -> GM W unit; StreamID : GM W Z }.
Arguments mk {W} Read Stop StreamID.
Arguments Read {W} t.
Arguments Stop {W} t.
Arguments StreamID {W} t.
End ReceiveStream.

Module SendStream.
Record t (W : Type) := mk {
  Write : list byte -> GM W write_result; Close : GM W unit; Reset : Z -> GM W unit; StreamID : GM W Z }.
Arguments mk {W} Write Close Reset StreamID.
Arguments Write {W} t.
Arguments Close {W} t.
Arguments Reset {W} t.
Arguments StreamID {W} t.
End SendStream.

(** Both embedded interfaces have the method StreamID. *)
Module Stream.
Record t (W : Type) := mk {
  Read : Z -> GM W read_result; Write : list byte -> GM W write_result; Close : GM W unit;
  Reset : Z -> GM W unit; Stop : Z -> GM W unit; StreamID : GM W Z }.
Arguments mk {W} Read Write Close Reset Stop StreamID.
Arguments Read {W} t.
Arguments Write {W} t.
Arguments Close {W} t.
Arguments Reset {W} t.
Arguments Stop {W} t.
Arguments StreamID {W} t.
End Stream.

Module Connection.
Record t (Ctx W : Type) := mk {
  AcceptStream : Ctx -> GM W (Stream.t W);
  AcceptUniStream : Ctx -> GM W (ReceiveStream.t W);
  OpenStream : GM W (Stream.t W);
  OpenStreamSync : Ctx -> GM W (Stream.t W);
  OpenUniStream : GM W (SendStream.t W);
  OpenUniStreamSync : Ctx -> GM W (SendStream.t W);
  SendDatagram : list byte -> GM W unit;
  ReceiveDatagram : Ctx -> GM W (list byte);
  CloseWithError : Z -> gostring -> GM W unit;
  Context : GM W Ctx;
  Protocol : SessionState.Protocol;
  Perspective : Z }.
Arguments mk {Ctx W} AcceptStream AcceptUniStream OpenStream OpenStreamSync OpenUniStream OpenUniStreamSync
  SendDatagram ReceiveDatagram CloseWithError Context Protocol Perspective.
Arguments AcceptStream {Ctx W} t.
Arguments AcceptUniStream {Ctx W} t.
Arguments OpenStream {Ctx W} t.
Arguments OpenStreamSync {Ctx W} t.
Arguments OpenUniStream {Ctx W} t.
Arguments OpenUniStreamSync {Ctx W} t.
Arguments SendDatagram {Ctx W} t.
Arguments ReceiveDatagram {Ctx W} t.
Arguments CloseWithError {Ctx W} t.
Arguments Context {Ctx W} t.
Arguments Protocol {Ctx W} t.
Arguments Perspective {Ctx W} t.
End Connection.

(** * The libraries *)

Class TransportLibrary (Ctx W : Type) := {
  Conn : Type;
  BidiStream : Type;
  RecvStream : Type;
  UniSendStream : Type;
  lib_AcceptStream : Conn -> Ctx -> GM W BidiStream;
  lib_AcceptUniStream : Conn -> Ctx -> GM W RecvStream;
  lib_OpenStream : Conn -> GM W BidiStream;
  lib_OpenStreamSync : Conn -> Ctx -> GM W BidiStream;
  lib_OpenUniStream : Conn -> GM W UniSendStream;
  lib_OpenUniStreamSync : Conn -> Ctx -> GM W UniSendStream;
  lib_SendDatagram : Conn -> list byte -> GM W unit;
  lib_ReceiveDatagram : Conn -> Ctx -> GM W (list byte);
  (** The code is of the library's type: see [connection_code]. *)
  lib_CloseWithError : Conn -> Z -> gostring -> GM W unit;
  lib_Context : Conn -> GM W Ctx;
  bidi_Read : BidiStream -> Z -> GM W read_result;
  bidi_Write : BidiStream -> list byte -> GM W write_result;
  bidi_Close : BidiStream -> GM W unit;
  bidi_CancelWrite : BidiStream -> Z -> GM W unit;
  bidi_CancelRead : BidiStream -> Z -> GM W unit;
  bidi_StreamID : BidiStream -> GM W Z;
  recv_Read : RecvStream -> Z -> GM W read_result;
  recv_CancelRead : RecvStream -> Z -> GM W unit;
  recv_StreamID : RecvStream -> GM W Z;
  uni_Write : UniSendStream -> list byte -> GM W write_result;
  uni_Close : UniSendStream -> GM W unit;
  uni_CancelWrite : UniSendStream -> Z -> GM W unit;
  uni_StreamID : UniSendStream -> GM W Z;
  (** quic.ApplicationErrorCode, webtransport.SessionErrorCode. *)
  connection_code : Z -> Z;
  (** quic.StreamErrorCode, webtransport.StreamErrorCode. *)
  stream_code : Z -> Z;
}.

Definition uint32 (x : Z) : Z := x mod 2 ^ 32.

(** quic-go's codes have 64 bits, webtransport-go's have 32. *)
Class QuicCodes {Ctx W} (L : TransportLibrary Ctx W) : Prop := {
  quic_connection_code c : connection_code c = uint64 c;
  quic_stream_code c : stream_code c = uint64 c;
}.
Class WebTransportCodes {Ctx W} (L : TransportLibrary Ctx W) : Prop := {
  webtransport_connection_code c : connection_code c = uint32 c;
  webtransport_stream_code c : stream_code c = uint32 c;
}.

(** * quicmoq: connection.go, stream.go, send_stream.go, receive_stream.go *)

Module quicmoq.
Section quicmoq.
Context {Ctx W : Type} {L : TransportLibrary Ctx W}.

Definition Stream_Read (s : BidiStream) (p : Z) : GM W read_result := bidi_Read s p.
Definition Stream_Write (s : BidiStream) (p : list byte) : GM W write_result := bidi_Write s p.
Definition Stream_Close (s : BidiStream) : GM W unit := bidi_Close s.
Definition Stream_Reset (s : BidiStream) (code : Z) : GM W unit := bidi_CancelWrite s (stream_code code).
Definition Stream_Stop (s : BidiStream) (code : Z) : GM W unit := bidi_CancelRead s (stream_code code).
Definition Stream_StreamID (s : BidiStream) : GM W Z := id <- bidi_StreamID s; mret (uint64 id).

Definition ReceiveStream_Read (r : RecvStream) (p : Z) : GM W read_result := recv_Read r p.
Definition ReceiveStream_Stop (r : RecvStream) (code : Z) : GM W unit := recv_CancelRead r (stream_code code).
Definition ReceiveStream_StreamID (r : RecvStream) : GM W Z := id <- recv_StreamID r; mret (uint64 id).

Definition SendStream_Write (s : UniSendStream) (p : list byte) : GM W write_result := uni_Write s p.
Definition SendStream_Close (s : UniSendStream) : GM W unit := uni_Close s.
Definition SendStream_Reset (s : UniSendStream) (code : Z) : GM W unit := uni_CancelWrite s (stream_code code).
Definition SendStream_StreamID (s : UniSendStream) : GM W Z := id <- uni_StreamID s; mret (uint64 id).

(** [&Stream{stream: s}], as a value of the interface. *)
Definition Stream (s : BidiStream) : Stream.t W :=
  Stream.mk (Stream_Read s) (Stream_Write s) (Stream_Close s) (Stream_Reset s) (Stream_Stop s) (Stream_StreamID s).
Definition ReceiveStream (r : RecvStream) : ReceiveStream.t W :=
  ReceiveStream.mk (ReceiveStream_Read r) (ReceiveStream_Stop r) (ReceiveStream_StreamID r).
Definition SendStream (s : UniSendStream) : SendStream.t W :=
  SendStream.mk (SendStream_Write s) (SendStream_Close s) (SendStream_Reset s) (SendStream_StreamID s).

(** The struct of a connection. *)
Record connection := mk { conn : Conn; perspective : Z }.

Definition AcceptStream (c : connection) (ctx : Ctx) : GM W (Stream.t W) :=
  s <- lib_AcceptStream (conn c) ctx; mret (Stream s).
Definition AcceptUniStream (c : connection) (ctx : Ctx) : GM W (ReceiveStream.t W) :=
  s <- lib_AcceptUniStream (conn c) ctx; mret (ReceiveStream s).
Definition OpenStream (c : connection) : GM W (Stream.t W) :=
  s <- lib_OpenStream (conn c); mret (Stream s).
Definition OpenStreamSync (c : connection) (ctx : Ctx) : GM W (Stream.t W) :=
  s <- lib_OpenStreamSync (conn c) ctx; mret (Stream s).
Definition OpenUniStream (c : connection) : GM W (SendStream.t W) :=
  s <- lib_OpenUniStream (conn c); mret (SendStream s).
Definition OpenUniStreamSync (c : connection) (ctx : Ctx) : GM W (SendStream.t W) :=
  s <- lib_OpenUniStreamSync (conn c) ctx; mret (SendStream s).
Definition SendDatagram (c : connection) (b : list byte) : GM W unit := lib_SendDatagram (conn c) b.
Definition ReceiveDatagram (c : connection) (ctx : Ctx) : GM W (list byte) := lib_ReceiveDatagram (conn c) ctx.
Definition CloseWithError (c : connection) (e : Z) (msg : gostring) : GM W unit :=
  lib_CloseWithError (conn c) (connection_code e) msg.
Definition Context (c : connection) : GM W Ctx := lib_Context (conn c).
Definition Protocol (c : connection) : SessionState.Protocol := ProtocolQUIC.
Definition Perspective (c : connection) : Z := perspective c.

Definition New (cn : Conn) (p : Z) : Connection.t Ctx W :=
  let c := mk cn p in
  Connection.mk (AcceptStream c) (AcceptUniStream c) (OpenStream c) (OpenStreamSync c) (OpenUniStream c)
    (OpenUniStreamSync c) (SendDatagram c) (ReceiveDatagram c) (CloseWithError c) (Context c) (Protocol c)
    (Perspective c).
Definition NewServer (cn : Conn) : Connection.t Ctx W := New cn (perspective_uint64 PerspectiveServer).
Definition NewClient (cn : Conn) : Connection.t Ctx W := New cn (perspective_uint64 PerspectiveClient).

End quicmoq.
End quicmoq.

(** * webtransportmoq *)

Module webtransportmoq.
Section webtransportmoq.
Context {Ctx W : Type} {L : TransportLibrary Ctx W}.

Definition Stream_Read (s : BidiStream) (p : Z) : GM W read_result := bidi_Read s p.
Definition Stream_Write (s : BidiStream) (p : list byte) : GM W write_result := bidi_Write s p.
Definition Stream_Close (s : BidiStream) : GM W unit := bidi_Close s.
Definition Stream_Reset (s : BidiStream) (code : Z) : GM W unit := bidi_CancelWrite s (stream_code code).
Definition Stream_Stop (s : BidiStream) (code : Z) : GM W unit := bidi_CancelRead s (stream_code code).
Definition Stream_StreamID (s : BidiStream) : GM W Z := id <- bidi_StreamID s; mret (uint64 id).

Definition ReceiveStream_Read (r : RecvStream) (p : Z) : GM W read_result := recv_Read r p.
Definition ReceiveStream_Stop (r : RecvStream) (code : Z) : GM W unit := recv_CancelRead r (stream_code code).
Definition ReceiveStream_StreamID (r : RecvStream) : GM W Z := id <- recv_StreamID r; mret (uint64 id).

Definition SendStream_Write (s : UniSendStream) (p : list byte) : GM W write_result := uni_Write s p.
Definition SendStream_Close (s : UniSendStream) : GM W unit := uni_Close s.
Definition SendStream_Reset (s : UniSendStream) (code : Z) : GM W unit := uni_CancelWrite s (stream_code code).
Definition SendStream_StreamID (s : UniSendStream) : GM W Z := id <- uni_StreamID s; mret (uint64 id).

(** [&Stream{stream: s}], as a value of the interface. *)
Definition Stream (s : BidiStream) : Stream.t W :=
  Stream.mk (Stream_Read s) (Stream_Write s) (Stream_Close s) (Stream_Reset s) (Stream_Stop s) (Stream_StreamID s).
Definition ReceiveStream (r : RecvStream) : ReceiveStream.t W :=
  ReceiveStream.mk (ReceiveStream_Read r) (ReceiveStream_Stop r) (ReceiveStream_StreamID r).
Definition SendStream (s : UniSendStream) : SendStream.t W :=
  SendStream.mk (SendStream_Write s) (SendStream_Close s) (SendStream_Reset s) (SendStream_StreamID s).

(** The struct of a connection. *)
Record connection := mk { conn : Conn; perspective : Z }.

Definition AcceptStream (c : connection) (ctx : Ctx) : GM W (Stream.t W) :=
  s <- lib_AcceptStream (conn c) ctx; mret (Stream s).
Definition AcceptUniStream (c : connection) (ctx : Ctx) : GM W (ReceiveStream.t W) :=
  s <- lib_AcceptUniStream (conn c) ctx; mret (ReceiveStream s).
Definition OpenStream (c : connection) : GM W (Stream.t W) :=
  s <- lib_OpenStream (conn c); mret (Stream s).
Definition OpenStreamSync (c : connection) (ctx : Ctx) : GM W (Stream.t W) :=
  s <- lib_OpenStreamSync (conn c) ctx; mret (Stream s).
Definition OpenUniStream (c : connection) : GM W (SendStream.t W) :=
  s <- lib_OpenUniStream (conn c); mret (SendStream s).
Definition OpenUniStreamSync (c : connection) (ctx : Ctx) : GM W (SendStream.t W) :=
  s <- lib_OpenUniStreamSync (conn c) ctx; mret (SendStream s).
Definition SendDatagram (c : connection) (b : list byte) : GM W unit := lib_SendDatagram (conn c) b.
Definition ReceiveDatagram (c : connection) (ctx : Ctx) : GM W (list byte) := lib_ReceiveDatagram (conn c) ctx.
Definition CloseWithError (c : connection) (e : Z) (msg : gostring) : GM W unit :=
  lib_CloseWithError (conn c) (connection_code e) msg.
Definition Context (c : connection) : GM W Ctx := lib_Context (conn c).
Definition Protocol (c : connection) : SessionState.Protocol := ProtocolWebTransport.
Definition Perspective (c : connection) : Z := perspective c.

Definition New (cn : Conn) (p : Z) : Connection.t Ctx W :=
  let c := mk cn p in
  Connection.mk (AcceptStream c) (AcceptUniStream c) (OpenStream c) (OpenStreamSync c) (OpenUniStream c)
    (OpenUniStreamSync c) (SendDatagram c) (ReceiveDatagram c) (CloseWithError c) (Context c) (Protocol c)
    (Perspective c).
Definition NewServer (cn : Conn) : Connection.t Ctx W := New cn (perspective_uint64 PerspectiveServer).
Definition NewClient (cn : Conn) : Connection.t Ctx W := New cn (perspective_uint64 PerspectiveClient).

End webtransportmoq.
End webtransportmoq.

(** * A session on a connection *)

Section OnConnection.
Context {QV : QuicVarint} {MR : MapRange} {App : Application} {EG : ErrGroup} {Ctx W : Type}.

Definition errInvalidPerspective : error := errorf (str "invalid perspective").

(** Run: the control stream. *)
Definition control_stream (conn : Connection.t Ctx W) (ctx : Ctx) : GM W (Stream.t W) :=
  if Connection.Perspective conn =? perspective_uint64 PerspectiveServer then Connection.AcceptStream conn ctx
  else if Connection.Perspective conn =? perspective_uint64 PerspectiveClient then
    Connection.OpenStreamSync conn ctx
  else throw errInvalidPerspective.

(** Run, up to the goroutines: the control stream and the process of the session.
    The error for a perspective that is none comes before any field is set. *)
Definition Run_on (conn : Connection.t Ctx W) (ctx : Ctx) (path : gostring) (InitialMaxRequestID : Z) :
    GM W (option (Stream.t W) * process.t) :=
  r <- attempt (control_stream conn ctx);
  let p := if Connection.Perspective conn =? perspective_uint64 PerspectiveServer
           then PerspectiveServer else PerspectiveClient in
  match r with
  | Error e => mret (None, Run p (Connection.Protocol conn) path InitialMaxRequestID (Some e))
  | Ret cs => mret (Some cs, Run p (Connection.Protocol conn) path InitialMaxRequestID None)
  end.

(** Close: what it closes the connection with; its error is only logged. *)
Fixpoint close_connection (conn : Connection.t Ctx W) (closes : list (Z * gostring)) : GM W unit :=
  match closes with
  | [] => mret tt
  | (code, reason) :: closes =>
      _ <- attempt (Connection.CloseWithError conn code reason); close_connection conn closes
  end.

(** What a call of the library gives, in the adapter's terms. *)
Definition opens (f : Stream.t W -> option (Stream.t W) * process.t) (g : error -> process.t)
    {B} (wrap : B -> Stream.t W) (r : res (ret B * W)) :
    res (ret (option (Stream.t W) * process.t) * W) :=
  match r with
  | Ok (Ret s, w) => Ok (Ret (f (wrap s)), w)
  | Ok (Error e, w) => Ok (Ret (None, g e), w)
  | Err e => Err e
  | Panic => Panic
  | NoFuel => NoFuel
  end.

Context {L : TransportLibrary Ctx W}.

(** Run on a server's connection takes the stream that the peer opens, Run on a
    client's opens one; the session has the protocol of the adapter. *)
Lemma Run_on_opens cn ctx path max w :
  let start p proto cs := (Some cs, Run p proto path max None) in
  let fail p proto e := Run p proto path max (Some e) in
  Run_on (quicmoq.NewServer cn) ctx path max w =
    opens (start PerspectiveServer ProtocolQUIC) (fail PerspectiveServer ProtocolQUIC)
      quicmoq.Stream (lib_AcceptStream cn ctx w) /\
  Run_on (quicmoq.NewClient cn) ctx path max w =
    opens (start PerspectiveClient ProtocolQUIC) (fail PerspectiveClient ProtocolQUIC)
      quicmoq.Stream (lib_OpenStreamSync cn ctx w) /\
  Run_on (webtransportmoq.NewServer cn) ctx path max w =
    opens (start PerspectiveServer ProtocolWebTransport) (fail PerspectiveServer ProtocolWebTransport)
      webtransportmoq.Stream (lib_AcceptStream cn ctx w) /\
  Run_on (webtransportmoq.NewClient cn) ctx path max w =
    opens (start PerspectiveClient ProtocolWebTransport) (fail PerspectiveClient ProtocolWebTransport)
      webtransportmoq.Stream (lib_OpenStreamSync cn ctx w).
Proof.
  cbn zeta. unfold Run_on, control_stream, quicmoq.NewServer, quicmoq.NewClient, webtransportmoq.NewServer,
    webtransportmoq.NewClient. cbn -[Run mbind mret].
  unfold quicmoq.AcceptStream, quicmoq.OpenStreamSync, webtransportmoq.AcceptStream,
    webtransportmoq.OpenStreamSync, attempt, mbind, GM_bind, gm_bind. cbn -[Run mret].
  destruct (lib_AcceptStream cn ctx w) as [[[s|e] w1]| | |], (lib_OpenStreamSync cn ctx w) as [[[s'|e'] w2]| | |];
    by split_and!.
Qed.

(** Another perspective is an error, before the library is called. *)
Lemma Run_on_invalid cn p ctx path max w :
  p <> 0 -> p <> 1 ->
  exists x, Run_on (quicmoq.New cn p) ctx path max w = Ok (Ret (None, x), w) /\
    process.run x = RunReturned (Error errInvalidPerspective) /\ process.connected x = false.
Proof.
  intros H0 H1. unfold Run_on, control_stream. cbn. unfold quicmoq.Perspective. cbn.
  rewrite (proj2 (Z.eqb_neq p 1)), (proj2 (Z.eqb_neq p 0)) by done. by eexists.
Qed.

(** The code a connection is closed with: quic-go gets it as it is, webtransport-go
    its lower 32 bits. *)
Lemma CloseWithError_quic {QC : QuicCodes L} cn p code msg :
  0 <= code < 2 ^ 64 ->
  Connection.CloseWithError (quicmoq.New cn p) code msg = lib_CloseWithError cn code msg.
Proof.
  intros H. unfold quicmoq.New. cbn. unfold quicmoq.CloseWithError. cbn. rewrite quic_connection_code.
  by rewrite uint64_small.
Qed.

Lemma CloseWithError_webtransport {WC : WebTransportCodes L} cn p code msg :
  Connection.CloseWithError (webtransportmoq.New cn p) code msg = lib_CloseWithError cn (uint32 code) msg.
Proof.
  unfold webtransportmoq.New. cbn. unfold webtransportmoq.CloseWithError. cbn.
  by rewrite webtransport_connection_code.
Qed.

End OnConnection.
