(* ===== verification/CommandLine.v ===== *)
(** The command lines of the programs (examples/counter/main.go,
    fec/xor/example/main.go, examples/date/main.go): the options, the flags that
    parseOptions registers, and the parsing of the arguments.

    The package flag belongs to the standard library: [Parse] is its FlagSet.Parse
    for an error handling of ContinueOnError, with flags of strings and of
    booleans.  What it prints, and the texts of its errors beyond the flag they
    name, are left out. *)

From Stdlib Require Import String.
From S2P Require Import Prelude Codec WireTypes Errors State.
Local Open Scope Z_scope.
Local Open Scope go_scope.

(** * The package flag *)

Definition ErrHelp : error := errorf (str "flag: help requested").
Definition errBadSyntax (s : gostring) : error := errorf (str "bad flag syntax: " ++ s).
Definition errNotDefined (name : gostring) : error := errorf (str "flag provided but not defined: -" ++ name).
Definition errNeedsArgument (name : gostring) : error := errorf (str "flag needs an argument: -" ++ name).
Definition errInvalidBoolean (name : gostring) : error := errorf (str "invalid boolean value for -" ++ name).

(** strconv.ParseBool. *)
Definition ParseBool (s : gostring) : option bool :=
  if bool_decide (s ∈ [str "1"; str "t"; str "T"; str "TRUE"; str "true"; str "True"]) then Some true
  else if bool_decide (s ∈ [str "0"; str "f"; str "F"; str "FALSE"; str "false"; str "False"]) then Some false
  else None.

(** A flag sets a field of the options. *)
Inductive flag_value (O : Type) :=
  | StringVar (set : gostring -> O -> O)
  | BoolVar (set : bool -> O -> O).
Arguments StringVar {O} set.
Arguments BoolVar {O} set.

Definition FlagSet (O : Type) : Type := list (gostring * flag_value O).

Fixpoint formal {O} (fs : FlagSet O) (name : gostring) : option (flag_value O) :=
  match fs with
  | [] => None
  | (n, v) :: fs => if bool_decide (n = name) then Some v else formal fs name
  end.

Definition minus : byte := Byte.x2d.
Definition equals : byte := Byte.x3d.

(** The name and the value of [name=value]; the sign cannot be first. *)
Fixpoint cut_value (s : gostring) : gostring * option gostring :=
  match s with
  | [] => ([], None)
  | c :: s =>
      if bool_decide (c = equals) then ([], Some s)
      else let '(name, value) := cut_value s in (c :: name, value)
  end.
Definition split_name (s : gostring) : gostring * option gostring :=
  match s with
  | [] => ([], None)
  | c :: s => let '(name, value) := cut_value s in (c :: name, value)
  end.

(** The argument is no flag, ends the flags, is malformed, or is a flag. *)
Inductive argument := NoFlag | Terminator | Malformed | Flag (name : gostring) (value : option gostring).

Definition classify (s : gostring) : argument :=
  match s with
  | c :: c' :: rest =>
      if negb (bool_decide (c = minus)) then NoFlag
      else
        let flag name :=
          match name with
          | [] => Malformed
          | d :: _ =>
              if bool_decide (d = minus) || bool_decide (d = equals) then Malformed
              else let '(name, value) := split_name name in Flag name value
          end in
        if bool_decide (c' = minus) then match rest with [] => Terminator | _ => flag rest end
        else flag (c' :: rest)
  | _ => NoFlag
  end.

Section Parse.
Context {O : Type} (fs : FlagSet O).

Definition not_defined (name : gostring) : error :=
  if bool_decide (name = str "help") || bool_decide (name = str "h") then ErrHelp else errNotDefined name.

(** Parse, with parseOne inlined: a flag of a string takes the next argument when
    it has no value of its own. *)
Fixpoint Parse (args : list gostring) (o : O) : ret O :=
  match args with
  | [] => Ret o
  | s :: args =>
      match classify s with
      | NoFlag | Terminator => Ret o
      | Malformed => Error (errBadSyntax s)
      | Flag name value =>
          match formal fs name with
          | None => Error (not_defined name)
          | Some (BoolVar set) =>
              match ParseBool (default (str "true") value) with
              | None => Error (errInvalidBoolean name)
              | Some b => Parse args (set b o)
              end
          | Some (StringVar set) =>
              match value with
              | Some v => Parse args (set v o)
              | None =>
                  match args with
                  | [] => Error (errNeedsArgument name)
                  | v :: args => Parse args (set v o)
                  end
              end
          end
      end
  end.

End Parse.

(** * The options *)

Module options.
Record t := mk {
  certFile : gostring; keyFile : gostring; addr : gostring;
  server : bool; publish : bool; subscribe : bool; webtransport : bool;
  namespace : gostring; trackname : gostring }.

Definition set_certFile (x : gostring) (o : t) : t :=
  mk x (keyFile o) (addr o) (server o) (publish o) (subscribe o) (webtransport o) (namespace o) (trackname o).
Definition set_keyFile (x : gostring) (o : t) : t :=
  mk (certFile o) x (addr o) (server o) (publish o) (subscribe o) (webtransport o) (namespace o) (trackname o).
Definition set_addr (x : gostring) (o : t) : t :=
  mk (certFile o) (keyFile o) x (server o) (publish o) (subscribe o) (webtransport o) (namespace o) (trackname o).
Definition set_server (x : bool) (o : t) : t :=
  mk (certFile o) (keyFile o) (addr o) x (publish o) (subscribe o) (webtransport o) (namespace o) (trackname o).
Definition set_publish (x : bool) (o : t) : t :=
  mk (certFile o) (keyFile o) (addr o) (server o) x (subscribe o) (webtransport o) (namespace o) (trackname o).
Definition set_subscribe (x : bool) (o : t) : t :=
  mk (certFile o) (keyFile o) (addr o) (server o) (publish o) x (webtransport o) (namespace o) (trackname o).
Definition set_webtransport (x : bool) (o : t) : t :=
  mk (certFile o) (keyFile o) (addr o) (server o) (publish o) (subscribe o) x (namespace o) (trackname o).
Definition set_namespace (x : gostring) (o : t) : t :=
  mk (certFile o) (keyFile o) (addr o) (server o) (publish o) (subscribe o) (webtransport o) x (trackname o).
Definition set_trackname (x : gostring) (o : t) : t :=
  mk (certFile o) (keyFile o) (addr o) (server o) (publish o) (subscribe o) (webtransport o) (namespace o) x.
End options.

(** The flags of all programs, and those before and after the flag that only the
    date program has. *)
Definition flags_head : FlagSet options.t :=
  [(str "cert", StringVar options.set_certFile); (str "key", StringVar options.set_keyFile);
   (str "addr", StringVar options.set_addr); (str "server", BoolVar options.set_server);
   (str "publish", BoolVar options.set_publish); (str "subscribe", BoolVar options.set_subscribe)].
Definition flags_tail : FlagSet options.t :=
  [(str "namespace", StringVar options.set_namespace); (str "trackname", StringVar options.set_trackname)].

Definition counter_flags : FlagSet options.t := flags_head ++ flags_tail.
Definition xor_flags : FlagSet options.t := flags_head ++ flags_tail.
Definition date_flags : FlagSet options.t :=
  flags_head ++ [(str "webtransport", BoolVar options.set_webtransport)] ++ flags_tail.

(** Registering a flag sets its default. *)
Definition counter_defaults : options.t :=
  options.mk (str "localhost.pem") (str "localhost-key.pem") (str "localhost:8080") false false false false
    (str "counter") (str "count").
Definition xor_defaults : options.t :=
  options.mk (str "localhost.pem") (str "localhost-key.pem") (str "localhost:8080") false false false false
    (str "counter") (str "count").
Definition date_defaults : options.t :=
  options.mk (str "localhost.pem") (str "localhost-key.pem") (str "localhost:8080") false false false false
    (str "clock") (str "second").

(** [parseOptions]; the arguments without the name of the program panic. *)
Definition parse_args (fs : FlagSet options.t) (defaults : options.t) (args : list gostring) :
    res (ret options.t) :=
  match args with
  | [] => Panic
  | _ :: args => Ok (Parse fs args defaults)
  end.
Definition counter_parseOptions : list gostring -> res (ret options.t) := parse_args counter_flags counter_defaults.
Definition xor_parseOptions : list gostring -> res (ret options.t) := parse_args xor_flags xor_defaults.
Definition date_parseOptions : list gostring -> res (ret options.t) := parse_args date_flags date_defaults.

(** [run]: it returns, or goes on as a server or as a client. *)
Inductive started := Returned (r : ret unit) | RunsServer (o : options.t) | RunsClient (o : options.t).

Definition run_options (r : ret options.t) : started :=
  match r with
  | Error e => if bool_decide (e = ErrHelp) then Returned (Ret tt) else Returned (Error e)
  | Ret o => if options.server o then RunsServer o else RunsClient o
  end.
Definition counter_run (args : list gostring) : res started := r ← counter_parseOptions args; mret (run_options r).
Definition xor_run (args : list gostring) : res started := r ← xor_parseOptions args; mret (run_options r).
Definition date_run (args : list gostring) : res started := r ← date_parseOptions args; mret (run_options r).

(** * Writing command lines *)

(** One or two dashes; a string flag has its value behind a sign or in the next
    argument; a boolean flag may have no value. *)
Inductive setting :=
  | SetString (dashes : bool) (name value : gostring) (inline : bool)
  | SetBool (dashes : bool) (name : gostring) (text : option gostring).

Definition dash (dashes : bool) : gostring := if dashes then [minus; minus] else [minus].

Definition render (s : setting) : list gostring :=
  match s with
  | SetString d name value true => [dash d ++ name ++ equals :: value]
  | SetString d name value false => [dash d ++ name; value]
  | SetBool d name (Some t) => [dash d ++ name ++ equals :: t]
  | SetBool d name None => [dash d ++ name]
  end.

Section Rendering.
Context {O : Type} (fs : FlagSet O).

(** What a setting does, if it is one of a flag of the program. *)
Definition effect (s : setting) : option (O -> O) :=
  match s with
  | SetString _ name value _ =>
      match formal fs name with Some (StringVar set) => Some (set value) | _ => None end
  | SetBool _ name text =>
      match formal fs name, ParseBool (default (str "true") text) with
      | Some (BoolVar set), Some b => Some (set b)
      | _, _ => None
      end
  end.

(** The options after a list of settings, the last one of a flag counting. *)
Fixpoint settings_effect (l : list setting) (o : O) : option O :=
  match l with
  | [] => Some o
  | s :: l => f ← effect s; settings_effect l (f o)
  end.

(** Names that can be written: not empty, without the sign, no dash in front. *)
Definition name_ok (name : gostring) : Prop :=
  match name with [] => False | c :: _ => c <> minus end /\ equals ∉ name.

Definition well_named : Prop := Forall (fun f => name_ok f.1) fs.

Lemma formal_named name v : well_named -> formal fs name = Some v -> name_ok name.
Proof.
  unfold well_named. induction 1 as [|[n w] l Hn _ IH]; cbn; [done|]. case_bool_decide as E; [|exact IH].
  subst. done.
Qed.

Lemma cut_value_none name : equals ∉ name -> cut_value name = (name, None).
Proof.
  induction name as [|c name IH]; intros H; cbn; [done|]. rewrite bool_decide_eq_false_2 by (intros ->; apply H; left).
  rewrite IH; [done|]. intros Hin. apply H. by right.
Qed.

Lemma cut_value_some name v : equals ∉ name -> cut_value (name ++ equals :: v) = (name, Some v).
Proof.
  induction name as [|c name IH]; intros H; cbn; [by rewrite bool_decide_eq_true_2|].
  rewrite bool_decide_eq_false_2 by (intros ->; apply H; left).
  rewrite IH; [done|]. intros Hin. apply H. by right.
Qed.

Lemma classify_flag d name (value : option gostring) :
  name_ok name ->
  classify (dash d ++ name ++ match value with Some v => equals :: v | None => [] end) = Flag name value.
Proof.
  intros [Hc He]. destruct name as [|c name]; [done|].
  assert (c <> equals) as Hce by (intros ->; apply He; left).
  assert (equals ∉ name) as He' by (intros Hin; apply He; by right).
  assert (split_name (c :: name ++ match value with Some v => equals :: v | None => [] end)
    = (c :: name, value)) as Hs.
  { destruct value as [v|]; cbn [split_name]; [by rewrite cut_value_some|]. by rewrite app_nil_r, cut_value_none. }
  unfold classify. destruct d; cbn [dash app].
  - rewrite (bool_decide_eq_true_2 (minus = minus)) by done. cbn [negb].
    rewrite !bool_decide_eq_false_2 by done. cbn [orb]. by rewrite Hs.
  - rewrite (bool_decide_eq_true_2 (minus = minus)) by done. cbn [negb].
    rewrite !bool_decide_eq_false_2 by done. cbn [orb]. by rewrite Hs.
Qed.

Lemma classify_rendered d name value rest :
  name_ok name -> rest = match value with Some v => equals :: v | None => [] end ->
  classify (dash d ++ name ++ rest) = Flag name value.
Proof. intros Hn ->. by apply classify_flag. Qed.

Lemma Parse_setting s f args o :
  well_named -> effect s = Some f -> Parse fs (render s ++ args) o = Parse fs args (f o).
Proof.
  intros Hw He. destruct s as [d name value inline|d name text]; unfold effect in He.
  - destruct (formal fs name) as [[set|set]|] eqn:E; [|done..]. injection He as <-.
    pose proof (formal_named name _ Hw E) as Hn. destruct inline; cbn [render app Parse].
    + by rewrite (classify_rendered d name (Some value)), E by done.
    + rewrite <- (app_nil_r name). rewrite (classify_rendered d name None), E by done. done.
  - destruct (formal fs name) as [[set|set]|] eqn:E; [done| |done].
    destruct (ParseBool (default (str "true") text)) as [b|] eqn:Eb; [|done]. injection He as <-.
    pose proof (formal_named name _ Hw E) as Hn. destruct text as [t|]; cbn [render app Parse].
    + rewrite (classify_rendered d name (Some t)), E by done. by rewrite Eb.
    + rewrite <- (app_nil_r name). rewrite (classify_rendered d name None), E by done. by rewrite Eb.
Qed.

(** A list of settings is parsed as their effects, in order, and the rest of the
    arguments comes next. *)
Lemma Parse_settings l args o o' :
  well_named -> settings_effect l o = Some o' ->
  Parse fs (concat (render <$> l) ++ args) o = Parse fs args o'.
Proof.
  intros Hw. revert o. induction l as [|s l IH]; intros o H; cbn in H; [by injection H as ->|].
  apply bind_Some in H as (f & Hf & H). cbn [fmap list_fmap concat].
  rewrite <- app_assoc. rewrite (Parse_setting s f) by done. by apply IH.
Qed.

End Rendering.

(** The settings of all options. *)
Definition bool_text (b : bool) : gostring := if b then str "true" else str "false".
Definition common_settings (o : options.t) : list setting :=
  [SetString false (str "cert") (options.certFile o) true; SetString false (str "key") (options.keyFile o) false;
   SetString true (str "addr") (options.addr o) true; SetBool false (str "server") (Some (bool_text (options.server o)));
   SetBool true (str "publish") (Some (bool_text (options.publish o)));
   SetBool false (str "subscribe") (Some (bool_text (options.subscribe o)));
   SetString false (str "namespace") (options.namespace o) false;
   SetString false (str "trackname") (options.trackname o) true].
Definition date_settings (o : options.t) : list setting :=
  SetBool false (str "webtransport") (Some (bool_text (options.webtransport o))) :: common_settings o.

Lemma ParseBool_text b : ParseBool (bool_text b) = Some b.
Proof. by destruct b. Qed.

Lemma flags_named : well_named counter_flags /\ well_named xor_flags /\ well_named date_flags.
Proof.
  split_and!; repeat constructor; cbn; try discriminate; intros H;
    repeat (apply elem_of_cons in H as [H|H]; [discriminate H|]); by apply elem_of_nil in H.
Qed.

Lemma effect_string {O} (fs : FlagSet O) d name value inline set :
  formal fs name = Some (StringVar set) -> effect fs (SetString d name value inline) = Some (set value).
Proof. intros H. unfold effect. by rewrite H. Qed.

Lemma effect_bool {O} (fs : FlagSet O) d name b set :
  formal fs name = Some (BoolVar set) -> effect fs (SetBool d name (Some (bool_text b))) = Some (set b).
Proof.
  intros H. unfold effect. rewrite H. change (default (str "true") (Some (bool_text b))) with (bool_text b).
  by rewrite ParseBool_text.
Qed.

Lemma settings_cons {O} (fs : FlagSet O) s l f o :
  effect fs s = Some f -> settings_effect fs (s :: l) o = settings_effect fs l (f o).
Proof. intros H. cbn [settings_effect]. by rewrite H. Qed.

Lemma common_effect fs o o0 :
  (forall n v, formal counter_flags n = Some v -> formal fs n = Some v) ->
  settings_effect fs (common_settings o) o0 = Some (options.set_webtransport (options.webtransport o0) o).
Proof.
  intros Hf. unfold common_settings.
  do 3 (erewrite settings_cons; [|apply effect_string, Hf; reflexivity]).
  do 3 (erewrite settings_cons; [|apply effect_bool, Hf; reflexivity]).
  do 2 (erewrite settings_cons; [|apply effect_string, Hf; reflexivity]).
  by destruct o, o0.
Qed.

Lemma flags_included n v : formal counter_flags n = Some v -> formal date_flags n = Some v.
Proof.
  intros H. destruct (decide (n = str "webtransport")) as [->|Hn]; [vm_compute in H; discriminate|].
  unfold counter_flags, date_flags, flags_head, flags_tail in *. cbn [app formal] in *.
  rewrite (bool_decide_eq_false_2 (str "webtransport" = n)) by congruence. exact H.
Qed.

(** * Properties *)

(** C29: Every choice of options can be written as a command line, with one dash or
    two and with values behind a sign or in the next argument, and is parsed back
    by the program, which then runs as a server or as a client with them. *)
Theorem command_line_roundtrip program o :
  let counter_o := options.set_webtransport false o in
  let counter_args := program :: concat (render <$> common_settings o) in
  let date_args := program :: concat (render <$> date_settings o) in
  let runs o := if options.server o then RunsServer o else RunsClient o in
  counter_run counter_args = Ok (runs counter_o) /\ xor_run counter_args = Ok (runs counter_o) /\
  date_run date_args = Ok (runs o).
Proof.
  cbv zeta. destruct flags_named as (H1 & H2 & H3).
  unfold counter_run, xor_run, date_run, counter_parseOptions, xor_parseOptions, date_parseOptions, parse_args.
  rewrite <- (app_nil_r (concat (render <$> common_settings o))), <- (app_nil_r (concat (render <$> date_settings o))).
  pose proof (common_effect counter_flags o counter_defaults (fun n v H => H)) as Hc.
  rewrite (Parse_settings counter_flags _ _ _ _ H1 Hc), (Parse_settings xor_flags _ _ _ _ H2 Hc).
  rewrite (Parse_settings date_flags _ _ _ o H3); [done|]. unfold date_settings.
  rewrite (settings_cons _ _ _ _ _ (effect_bool date_flags false (str "webtransport") _ options.set_webtransport eq_refl)).
  rewrite (common_effect date_flags o _ flags_included). by destruct o.
Qed.
