(* ===== verification/Programs.v ===== *)
(** The programs of the repository (examples/counter/main.go,
    fec/xor/example/main.go, examples/date/main.go and handler.go): the handler
    that a program's options make, the connections it accepts or dials, and
    [handle], which runs the session, announces and subscribes.

    Two programs that are connected run together: [pair_step] interleaves the
    steps of their [handle] with the delivery of their messages, which arrive as
    the queues of SystemQueue.v say; [pair_at] counts the steps of the announcement
    and of the subscription, [setting_up] those of the handshake, which one side
    may complete, and go on, before the other.  The command lines are those of CommandLine.v;
    TLS and the sockets are not modelled. *)

From Stdlib Require Import String.
From S2P Require Import Prelude VarInt Codec WireTypes Messages ControlMessages Params.
From S2P Require Import Framing ParserSafety Errors State RequestID TrackMaps Objects Tracks Announcements.
From S2P Require Import SessionState Session SessionInv SessionSafety WellTyped System SystemQueue.
From S2P Require Import Sending Handshake Requests Exchanges Applications Lifecycle Connections CommandLine.
Local Open Scope Z_scope.
Local Open Scope go_scope.

(** * The handlers that options make *)

(** The handler of runServer, and of runClient.  A counter server never
    subscribes and a counter client never publishes, whatever the options. *)
Definition counter_server (o : options.t) : counterHandler.t :=
  counterHandler.mk [options.namespace o] (options.trackname o) (options.publish o) false.
Definition counter_client (o : options.t) : counterHandler.t :=
  counterHandler.mk [options.namespace o] (options.trackname o) false (options.subscribe o).

Definition xor_server (o : options.t) : counterHandler.t :=
  counterHandler.mk [options.namespace o] (options.trackname o) (options.publish o) false.
Definition xor_client (o : options.t) : counterHandler.t :=
  counterHandler.mk [options.namespace o] (options.trackname o) false (options.subscribe o).

Definition date_server (o : options.t) : moqHandler.t :=
  moqHandler.mk [options.namespace o] (options.trackname o) (options.publish o) (options.subscribe o) 0.
Definition date_client (o : options.t) : moqHandler.t :=
  moqHandler.mk [options.namespace o] (options.trackname o) (options.publish o) (options.subscribe o) 0.

(** The handler a command line leads to, unless the program returns. *)
Definition handler_of {H} (server client : options.t -> H) (s : res started) : option H :=
  match s with
  | Ok (RunsServer o) => Some (server o)
  | Ok (RunsClient o) => Some (client o)
  | _ => None
  end.
Definition counter_main (args : list gostring) : option counterHandler.t :=
  handler_of counter_server counter_client (counter_run args).
Definition xor_main (args : list gostring) : option counterHandler.t :=
  handler_of xor_server xor_client (xor_run args).
Definition date_main (args : list gostring) : option moqHandler.t :=
  handler_of date_server date_client (date_run args).

(** * The handlers of the XOR example *)

Definition xor_getHandler (h : counterHandler.t) (r : Message.t) : prog rw_call :=
  if bool_decide (Message.Method r = MessageAnnounce) then
    if negb (counterHandler.subscribe h)
    then Call (RwReject 0 (str "counter doesn't take announcements")) (fun _ => Return)
    else if negb (tupleEqual (Message.Namespace r) (counterHandler.namespace h))
    then Call (RwReject 0 (str "non-matching namespace")) (fun _ => Return)
    else Call RwAccept (fun _ => Return)
  else Return.

Definition xor_getSubscribeHandler (h : counterHandler.t) (m : PublicSubscribe.t) : prog subscribe_call :=
  if negb (counterHandler.publish h)
  then Call (SubReject ErrorCodeSubscribeTrackDoesNotExist (str "endpoint does not publish any tracks"))
         (fun _ => Return)
  else if negb (tupleEqual (PublicSubscribe.Namespace m) (counterHandler.namespace h)) ||
          negb (bool_decide (PublicSubscribe.Track m = counterHandler.trackname h))
  then Call (SubReject ErrorCodeSubscribeTrackDoesNotExist (str "unknown track")) (fun _ => Return)
  else Call (SubAccept []) (fun _ => Return).

Definition xor_application (h : counterHandler.t) : Application := {|
  Handler := Some (xor_getHandler h);
  SubscribeHandler := Some (xor_getSubscribeHandler h);
|}.

(** * Connections *)

Section Listening.
Context {Ctx W : Type} {L : TransportLibrary Ctx W}.

(** The ALPN protocol of MoQ on QUIC, and that of HTTP/3. *)
Definition moq_alpn : gostring := str "moq-00".
Definition h3_alpn : gostring := str "h3".

(** The loop of runServer: what the calls of listener.Accept give, a connection
    with its negotiated protocol, to the connections that are handled and the
    error it returns; with no more answers it blocks. *)
Fixpoint accept_loop (answers : list (ret (Conn * gostring))) : list (Connection.t Ctx W) * option error :=
  match answers with
  | [] => ([], None)
  | Error e :: _ => ([], Some e)
  | Ret (conn, proto) :: answers =>
      let '(handled, e) := accept_loop answers in
      (if bool_decide (proto = moq_alpn) then quicmoq.NewServer conn :: handled else handled, e)
  end.
Definition xor_accept_loop : list (ret (Conn * gostring)) -> list (Connection.t Ctx W) * option error :=
  accept_loop.

(** The date server also serves HTTP/3, whose requests for /moq become sessions. *)
Inductive served := ServesQUICConn (conn : Conn) | Handles (conn : Connection.t Ctx W).

Fixpoint date_accept_loop (answers : list (ret (Conn * gostring))) : list served * option error :=
  match answers with
  | [] => ([], None)
  | Error e :: _ => ([], Some e)
  | Ret (conn, proto) :: answers =>
      let '(handled, e) := date_accept_loop answers in
      ((if bool_decide (proto = h3_alpn) then [ServesQUICConn conn] else []) ++
       (if bool_decide (proto = moq_alpn) then [Handles (quicmoq.NewServer conn)] else []) ++ handled, e)
  end.

(** The connection of a client, given what the library's dial gives. *)
Definition dialQUIC (dial : ret Conn) : ret (Connection.t Ctx W) :=
  match dial with
  | Error e => Error e
  | Ret conn => Ret (quicmoq.NewClient conn)
  end.
Definition xor_dialQUIC (dial : ret Conn) : ret (Connection.t Ctx W) :=
  match dial with
  | Error e => Error e
  | Ret conn => Ret (quicmoq.NewClient conn)
  end.
Definition date_dialQUIC (dial : ret Conn) : ret (Connection.t Ctx W) :=
  match dial with
  | Error e => Error e
  | Ret conn => Ret (quicmoq.NewClient conn)
  end.
Definition date_dialWebTransport (dial : ret Conn) : ret (Connection.t Ctx W) :=
  match dial with
  | Error e => Error e
  | Ret session => Ret (webtransportmoq.NewClient session)
  end.

End Listening.

(** * handle *)

(** What [handle] reads of a handler. *)
Module endpoint.
Record t := mk { namespace : list gostring; trackname : gostring; publish : bool; subscribe : bool }.
End endpoint.

Definition counter_endpoint (h : counterHandler.t) : endpoint.t :=
  endpoint.mk (counterHandler.namespace h) (counterHandler.trackname h) (counterHandler.publish h)
    (counterHandler.subscribe h).
Definition date_endpoint (h : moqHandler.t) : endpoint.t :=
  endpoint.mk (moqHandler.namespace h) (moqHandler.trackname h) (moqHandler.publish h) (moqHandler.subscribe h).

(** Where a call of [handle] is: before the call of Run or in it, before the call of
    Announce or in it, before the call of Subscribe or in it, or at its end, with
    the track it reads, if any. *)
Inductive handle_phase :=
  | Runs
  | AwaitsHandshake
  | Announces
  | AwaitsAnnouncement (a : announcement.t)
  | Subscribes
  | AwaitsSubscription (rt : nat)
  | Handled (r : ret (option nat)).

Section Handle.
Context {QV : QuicVarint} {MR : MapRange}.

(** handle goes on until its next blocking call; the context of its calls is never
    done.  Run waits for the channel that the handshake closes; an error of
    Announce is only logged. *)
Definition handle_step (h : endpoint.t) (ph : handle_phase) : SM handle_phase :=
  match ph with
  | Runs =>
      r <- attempt Run_start;
      mret (match r with Ret _ => AwaitsHandshake | Error e => Handled (Error e) end)
  | AwaitsHandshake =>
      done <- get Session.handshakeDoneCh;
      mret (if done : bool then Announces else AwaitsHandshake)
  | Announces =>
      if endpoint.publish h then
        r <- attempt (Announce_send (endpoint.namespace h));
        mret (match r with Ret a => AwaitsAnnouncement a | Error _ => Subscribes end)
      else mret Subscribes
  | AwaitsAnnouncement a =>
      r <- attempt (Announce_wait a None);
      mret (match r with Ret None => AwaitsAnnouncement a | _ => Subscribes end)
  | Subscribes =>
      if endpoint.subscribe h then
        r <- attempt (Subscribe_send (endpoint.namespace h) (endpoint.trackname h) []);
        mret (match r with Ret rt => AwaitsSubscription rt | Error e => Handled (Error e) end)
      else mret (Handled (Ret None))
  | AwaitsSubscription rt =>
      r <- attempt (Subscribe_wait rt None);
      mret (match r with
            | Ret None => AwaitsSubscription rt
            | Ret (Some rt) => Handled (Ret (Some rt))
            | Error e => Handled (Error e)
            end)
  | Handled r => mret (Handled r)
  end.

Definition counter_handle_step (h : counterHandler.t) : handle_phase -> SM handle_phase :=
  handle_step (counter_endpoint h).
Definition xor_handle_step (h : counterHandler.t) : handle_phase -> SM handle_phase :=
  handle_step (counter_endpoint h).
Definition date_handle_step (h : moqHandler.t) : handle_phase -> SM handle_phase :=
  handle_step (date_endpoint h).

End Handle.

(** * A program

    A program is what [handle] reads and the application of its session; it
    offers the track it publishes, and takes announcements if it subscribes. *)

Record program := mk_program {
  ends : endpoint.t;
  app_of : Application;
  offers : Offers app_of;
  ok_options : list SubscribeOKOption;
  offers_track : offered (Offers := offers) =
    if endpoint.publish ends then Some (endpoint.namespace ends, endpoint.trackname ends, ok_options) else None;
  takes : taken (Offers := offers) =
    if endpoint.subscribe ends then Some (endpoint.namespace ends) else None;
}.

Definition counter_program (h : counterHandler.t) : program :=
  mk_program (counter_endpoint h) (counter_application h) (counter_offers h) [] eq_refl eq_refl.
Definition xor_program (h : counterHandler.t) : program :=
  mk_program (counter_endpoint h) (xor_application h) (counter_offers h) [] eq_refl eq_refl.
Definition date_program (h : moqHandler.t) : program :=
  mk_program (date_endpoint h) (date_application h) (date_offers h)
    [WithLargestLocation (Some (Location.mk (moqHandler.largestGroup h) 0))] eq_refl eq_refl.

(** * Two programs *)

(** [inbox]: the messages that a side's peer has written and it has not received. *)
Module pair.
Record t := mk {
  session : Perspective -> Session.t;
  inbox : Perspective -> list ControlMessage;
  phase : Perspective -> handle_phase }.
End pair.

Section Pair.
Context {QV : QuicVarint} {QVL : QuicVarintLaws} {MR : MapRange} (progs : Perspective -> program).

Definition receive_at (p : Perspective) (msg : ControlMessage) : SM unit := receive (App := app_of (progs p)) msg.

(** A step of [handle] that is not blocked, or a message that arrives at a session
    that runs.  Run accepts the control stream on the server, and opens it on the
    client: neither changes the session, so it does not matter that the server's
    call is given its step before the stream of the client has come. *)
Inductive pair_step (y : pair.t) : pair.t -> Prop :=
  | pair_handles p ph s new :
      handle_step (ends (progs p)) (pair.phase y p) (pair.session y p) = Ok (Ret ph, s) ->
      ph <> pair.phase y p -> Session.written s = Session.written (pair.session y p) ++ new ->
      pair_step y (pair.mk (set_at p s (pair.session y))
        (set_at (peer p) (pair.inbox y (peer p) ++ new) (pair.inbox y)) (set_at p ph (pair.phase y)))
  | pair_delivers p m ms msg r s new :
      pair.phase y p <> Runs -> pair.inbox y p = m :: ms -> arrives m msg ->
      receive_at p msg (pair.session y p) = Ok (r, s) ->
      Session.written s = Session.written (pair.session y p) ++ new ->
      pair_step y (pair.mk (set_at p s (pair.session y))
        (set_at (peer p) (pair.inbox y (peer p) ++ new) (set_at p ms (pair.inbox y))) (pair.phase y)).

Inductive pair_run : nat -> pair.t -> pair.t -> Prop :=
  | pair_done y : pair_run 0 y y
  | pair_more n y y' y'' : pair_run n y y' -> pair_step y' y'' -> pair_run (S n) y y''.

(** Nothing goes wrong next: no side panics, and no message fails its session. *)
Definition healthy (y : pair.t) : Prop := forall p,
  (exists ph s, handle_step (ends (progs p)) (pair.phase y p) (pair.session y p) = Ok (Ret ph, s)) /\
  (forall m ms, pair.inbox y p = m :: ms ->
     exists s, arrives m m /\ receive_at p m (pair.session y p) = Ok (Ret tt, s)).

(** Both sessions have completed the handshake on a new connection, with the limit
    100 of the sessions that [handle] makes, and nothing else has happened. *)
Definition ready_client (proto : Protocol) : Session.t :=
  let s := new_session PerspectiveClient proto [] 100 in
  complete (announce_max 100 (Session.set_version CurrentVersion (wrote (ClientSetup (client_setup s)) s))).
Definition ready_server (proto : Protocol) : Session.t :=
  complete (wrote (ServerSetup server_setup) (announce_max 100 (Session.set_path []
    (Session.set_version CurrentVersion (new_session PerspectiveServer proto [] 100))))).
Definition ready (proto : Protocol) (p : Perspective) : Session.t :=
  match p with PerspectiveClient => ready_client proto | PerspectiveServer => ready_server proto end.

(** The sessions of [handle] before their handshake, and the client's when it has
    sent its setup message. *)
Definition new_at (proto : Protocol) (p : Perspective) : Session.t := new_session p proto [] 100.
Definition setup_of (proto : Protocol) : ControlMessage := ClientSetup (client_setup (new_at proto PerspectiveClient)).
Definition setup_sent (proto : Protocol) : Session.t := wrote (setup_of proto) (new_at proto PerspectiveClient).

(** Two programs on a new connection: both calls of handle are about to run their
    sessions.  And after the handshake. *)
Definition pair_new (proto : Protocol) : pair.t := pair.mk (new_at proto) (fun _ => []) (fun _ => Runs).
Definition pair_start (proto : Protocol) : pair.t := pair.mk (ready proto) (fun _ => []) (fun _ => Announces).

(** The steps of the handshake. *)
Lemma ready_reached proto (App : Application) :
  Run_start (new_at proto PerspectiveClient) = Ok (Ret tt, setup_sent proto) /\
  receive (App := App) (setup_of proto) (new_at proto PerspectiveServer) = Ok (Ret tt, ready_server proto) /\
  receive (App := App) (ServerSetup server_setup) (setup_sent proto) = Ok (Ret tt, ready_client proto).
Proof.
  unfold setup_sent, setup_of, new_at.
  set (c0 := new_session PerspectiveClient proto [] 100). set (s0 := new_session PerspectiveServer proto [] 100).
  assert (getMaxRequestIDParameter (ClientSetupMessage.SetupParameters (client_setup c0)) = 100) as Hg
    by (unfold client_setup; by destruct (decide _)).
  split.
  { apply write_fits; [|done]. apply fits_client_setup; vm_compute; by (split || idtac). }
  split.
  - unfold receive. rewrite (run_bind _ _ s0 false s0) by done. cbn [negb].
    erewrite onClientSetup_accepts with (path := []); [by rewrite Hg|done|by left| |done..|rewrite Hg; lia].
    unfold client_setup. by destruct proto.
  - unfold receive. rewrite (run_bind _ _ _ false (wrote (ClientSetup (client_setup c0)) c0)) by done.
    cbn [negb]. rewrite onServerSetup_accepts; try done. by left.
Qed.

End Pair.

(** * The exchange of a publisher and a subscriber *)

(** A message that the codec carries without loss. *)
Definition carried {QV : QuicVarint} (m : ControlMessage) : Prop :=
  ControlMessage.wf m /\ ControlMessage.faithful m /\ fits m.

Section Meeting.
Context {QV : QuicVarint} {QVL : QuicVarintLaws} {MR : MapRange}.

Lemma carried_arrives m msg : carried m -> arrives m msg <-> msg = m.
Proof.
  intros (Hwf & Hf & out & Hout).
  destruct (compileMessage_frame _ _ _ _ (ControlMessage_reads _ Hwf Hf) Hout) as (body & -> & Hl & Hp).
  assert (ControlMessageParser_Parse (mkReader (frame (ControlMessage.Type_ m) body) io_EOF) = Ok (m, mkReader [] io_EOF)) as H.
  { rewrite <- (app_nil_r (frame _ body)). rewrite Parse_frame by (done || apply Type_bounds). by rewrite Hp. }
  split; [|intros ->; by exists (frame (ControlMessage.Type_ m) body)].
  intros (out & Ho & Hpar). rewrite Hout in Ho. injection Ho as <-. rewrite H in Hpar. by injection Hpar.
Qed.

(** ** The publisher *)

Context (proto : Protocol) (pub : Perspective) (ns : Tuple.t) (name : gostring) (ok : list SubscribeOKOption).

Definition announce_id : Z := perspective_uint64 pub.
Definition subscribe_id : Z := perspective_uint64 (peer pub).
Definition announce : ControlMessage := Announce (announce_message announce_id ns).
Definition announce_ok : ControlMessage := AnnounceOk (AnnounceOkMessage.mk announce_id).
Definition subscription : ControlMessage := Subscribe (subscribe_message subscribe_id ns name []).
Definition subscription_ok : ControlMessage := SubscribeOk (subscribe_ok subscribe_id ok).

(** What a session does not change in the exchange. *)
Definition undisturbed (s : Session.t) : Prop :=
  Session.handshakeDone s = true /\ Session.handshakeDoneCh s = true /\ Session.writes s = [].

(** The publisher when its announcement has taken [i] steps and the subscription
    of its peer [j]. *)
Definition announcing_at (i : nat) (ph : handle_phase) (s : Session.t) : Prop :=
  match i with
  | 0 => ph = Announces /\ next_id s = announce_id /\ requestIDGenerator.max (Session.requestIDs s) = 100%Z
  | 1 | 2 => exists a, ph = AwaitsAnnouncement a /\
      announcementMap.pending (Session.outgoingAnnouncements s) !! announce_id = Some a /\
      Session.chans s !! announcement.response a = Some []
  | 3 => exists a, ph = AwaitsAnnouncement a /\
      Session.chans s !! announcement.response a = Some [RespErr None]
  | 4 => ph = Subscribes
  | _ => ph = Handled (Ret None)
  end%nat.

Definition published_at (j : nat) (s : Session.t) : Prop :=
  Session.localMaxRequestID s = 100 /\
  if (j <=? 2)%nat then localTrackMap.findByID (Session.localTracks s) subscribe_id = None /\
    (sequence.next (Session.trackAliases s)).1 = 0
  else exists lt, localTrackMap.open (Session.localTracks s) !! subscribe_id = Some lt /\
    Session.localHeap s !! lt = Some (localTrack.newLocalTrack subscribe_id 0 true).

Record publisher_at (i j : nat) (ph : handle_phase) (s : Session.t) : Prop := {
  pa_undisturbed : undisturbed s;
  pa_announcing : announcing_at i ph s;
  pa_published : published_at j s }.

(** The track of the subscription, at the subscriber. *)
Definition subscribed_track : RemoteTrack.t :=
  accepted_track (subscribe_ok subscribe_id ok) (RemoteTrack.newRemoteTrack subscribe_id Unsubscribes true).

(** The subscriber when its subscription has taken [j] steps. *)
Record subscriber_at (j : nat) (ph : handle_phase) (s : Session.t) : Prop := {
  sa_undisturbed : undisturbed s;
  sa_subscribing : match j with
    | 0 | 1 => ph = (match j with 0 => Announces | _ => Subscribes end) /\ inv s /\ next_id s = subscribe_id /\
        requestIDGenerator.max (Session.requestIDs s) = 100%Z /\
        remoteTrackMap.trackAliasToRequestID (Session.remoteTracks s) !! 0%Z = None
    | 2 | 3 => exists rt, ph = AwaitsSubscription rt /\
        remoteTrackMap.pending (Session.remoteTracks s) !! subscribe_id = Some rt /\
        remoteTrackMap.trackAliasToRequestID (Session.remoteTracks s) !! 0%Z = None /\
        Session.remoteHeap s !! rt = Some (RemoteTrack.newRemoteTrack subscribe_id Unsubscribes true)
    | 4 => exists rt, ph = AwaitsSubscription rt /\
        remoteTrackMap.open (Session.remoteTracks s) !! subscribe_id = Some rt /\
        remoteTrackMap.findByTrackAlias (Session.remoteTracks s) 0 = Some rt /\
        Session.remoteHeap s !! rt = Some (RemoteTrack.set_responseChan subscribed_track [None])
    | _ => exists rt, ph = Handled (Ret (Some rt)) /\
        remoteTrackMap.open (Session.remoteTracks s) !! subscribe_id = Some rt /\
        remoteTrackMap.findByTrackAlias (Session.remoteTracks s) 0 = Some rt /\
        Session.remoteHeap s !! rt = Some subscribed_track
    end%nat }.

Lemma undisturbed_answer s : undisturbed s -> next_answer s = None.
Proof. intros (_ & _ & H). unfold next_answer. by rewrite H. Qed.

Lemma undisturbed_wrote m s s' :
  undisturbed s -> Session.handshakeDone s' = Session.handshakeDone s ->
  Session.handshakeDoneCh s' = Session.handshakeDoneCh s -> Session.writes s' = Session.writes s ->
  undisturbed (wrote m s').
Proof.
  intros (H1 & H2 & H3) Hd Hch Hw. unfold undisturbed. autorewrite with wrote. by rewrite Hd, Hch, Hw, H3.
Qed.

Lemma receive_run {Ap : Application} msg s :
  undisturbed s -> is_setup msg = false ->
  receive (App := Ap) msg s = match msg with
    | Announce m => onAnnounce (App := Ap) m s
    | AnnounceOk m => onAnnounceOk m s
    | Subscribe m => onSubscribe (App := Ap) m s
    | SubscribeOk m => onSubscribeOk m s
    | _ => receive (App := Ap) msg s
    end.
Proof.
  intros [Hd _] _. destruct msg; try done; unfold receive; by rewrite receive_ready.
Qed.

(** The ANNOUNCE is sent. *)
Lemma publisher_sends e j ph s :
  endpoint.publish e = true -> endpoint.namespace e = ns -> carried announce -> publisher_at 0 j ph s ->
  exists ph' s', handle_step e ph s = Ok (Ret ph', s') /\ Session.written s' = Session.written s ++ [announce] /\
    publisher_at 1 j ph' s'.
Proof.
  intros He Hns (_ & _ & Hf) [Hu (-> & Hid & Hmax) [Hm Hj]].
  unfold announce in *. rewrite <- Hid in Hf.
  assert (next_id s < requestIDGenerator.max (Session.requestIDs s)) as Hlt
    by (rewrite Hid, Hmax; unfold announce_id; by destruct pub).
  pose proof (Announce_send_run (App := no_handlers) ns s Hlt (undisturbed_answer s Hu) Hf) as Hsend.
  unfold handle_step. rewrite He, Hns. rewrite (run_bind _ _ _ _ _ (run_attempt _ _ _ _ Hsend)).
  eexists _, _. split; [done|]. split; [by rewrite wrote_written, Hid|]. split.
  - by apply (undisturbed_wrote _ s).
  - eexists. split; [done|]. autorewrite with wrote. cbn. rewrite Hid, lookup_insert_eq.
    split; [done|by apply list_lookup_middle].
  - unfold published_at. by autorewrite with wrote.
Qed.

(** The ANNOUNCE_OK arrives. *)
Lemma publisher_confirmed (Ap : Application) j ph s :
  publisher_at 2 j ph s ->
  exists s', receive (App := Ap) announce_ok s = Ok (Ret tt, s') /\ Session.written s' = Session.written s /\
    publisher_at 3 j ph s'.
Proof.
  intros [Hu (a & -> & Ha & Hc) Hj]. rewrite receive_run by done. cbn [announce_ok].
  eexists. split; [by apply (onAnnounceOk_run announce_id a)|]. split; [done|]. split; [done| |done].
  exists a. split; [done|]. cbn. apply list_lookup_insert_eq. by apply lookup_lt_Some in Hc.
Qed.

(** Announce returns. *)
Lemma publisher_wakes e j ph s :
  publisher_at 3 j ph s ->
  exists s', handle_step e ph s = Ok (Ret Subscribes, s') /\ Session.written s' = Session.written s /\
    publisher_at 4 j Subscribes s'.
Proof.
  intros [Hu (a & -> & Hc) Hj]. unfold handle_step, Announce_wait, await_err, attempt, recv_chan.
  unfold gm_bind, mbind, GM_bind. rewrite Hc. eexists. split; [done|]. by split.
Qed.

Lemma publisher_ends e j ph s :
  endpoint.subscribe e = false -> publisher_at 4 j ph s ->
  ph = Subscribes /\ handle_step e ph s = Ok (Ret (Handled (Ret None)), s) /\
  publisher_at 5 j (Handled (Ret None)) s.
Proof. intros He [Hu -> Hj]. split; [done|]. unfold handle_step. rewrite He. by split. Qed.

(** Between these steps handle is blocked. *)
Lemma publisher_blocked e i j ph s :
  i = 1%nat \/ i = 2%nat \/ i = 5%nat -> publisher_at i j ph s ->
  exists s', handle_step e ph s = Ok (Ret ph, s').
Proof.
  intros Hi [_ Ha _]. assert ((exists a, ph = AwaitsAnnouncement a /\ Session.chans s !! announcement.response a = Some [])
    \/ ph = Handled (Ret None)) as [(a & -> & Hc)| ->]; [|unfold handle_step, Announce_wait, await_err, attempt, recv_chan..].
  - destruct Hi as [->|[->| ->]]; [left..|by right]; destruct Ha as (a & ? & _ & ?); by exists a.
  - unfold gm_bind, mbind, GM_bind. rewrite Hc. by eexists.
  - by eexists.
Qed.

(** The SUBSCRIBE arrives and is accepted. *)
Lemma publisher_accepts (Ap : Application) h i ph s :
  SubscribeHandler (Application := Ap) = Some h ->
  (forall auth, h (public_subscribe (subscribe_message subscribe_id ns name []) auth)
     = Call (SubAccept ok) (fun _ => Return)) ->
  valid_namespace ns = true -> carried subscription_ok -> publisher_at i 2 ph s ->
  exists s', receive (App := Ap) subscription s = Ok (Ret tt, s') /\
    Session.written s' = Session.written s ++ [subscription_ok] /\ publisher_at i 3 ph s'.
Proof.
  intros Hh Hm Hn (_ & _ & Hf) [Hu Ha [Hmax [Hfree Hal]]]. rewrite receive_run by done. cbn [subscription].
  set (m := subscribe_message subscribe_id ns name []) in *.
  assert (0 <= subscribe_id <= 1) as Hid by (unfold subscribe_id; by destruct pub).
  assert (limit_checked subscribe_id (subscribed m s) = subscribed m s) as Hlim.
  { unfold limit_checked. change (Session.localMaxRequestID (subscribed m s)) with (Session.localMaxRequestID s).
    rewrite Hmax. change (100 / 2) with 50. by replace (subscribe_id >=? 50) with false by lia. }
  pose proof (onSubscribe_accepts (App := Ap) m h ok s Hh Hm Hn) as H. cbv zeta in H.
  change (SubscribeMessage.RequestID m) with subscribe_id in H. rewrite Hmax, Hlim in H.
  eexists. split; [apply H; [lia|left; rewrite Hmax; change (100 / 2) with 50; lia|done|exact Hf|by apply (undisturbed_answer s Hu)]|].
  unfold opened. rewrite Hlim. split; [by rewrite wrote_written|]. split.
  - by apply (undisturbed_wrote _ s).
  - destruct i as [|[|[|[|[|]]]]]; cbn [announcing_at] in *; unfold next_id in *;
      autorewrite with wrote; exact Ha.
  - unfold published_at. autorewrite with wrote. split; [exact Hmax|]. cbn.
    eexists. split; [apply lookup_insert_eq|]. rewrite list_lookup_middle by done. cbn in Hal |- *. by rewrite Hal.
Qed.

(** ** The subscriber *)

Lemma subscriber_skips e ph s :
  endpoint.publish e = false -> subscriber_at 0 ph s ->
  ph = Announces /\ handle_step e ph s = Ok (Ret Subscribes, s) /\ subscriber_at 1 Subscribes s.
Proof. intros He [Hu (-> & H)]. split; [done|]. unfold handle_step. rewrite He. by split. Qed.

Lemma subscriber_sends e ph s :
  endpoint.subscribe e = true -> endpoint.namespace e = ns -> endpoint.trackname e = name ->
  carried subscription -> subscriber_at 1 ph s ->
  exists ph' s', handle_step e ph s = Ok (Ret ph', s') /\
    Session.written s' = Session.written s ++ [subscription] /\ ph' <> ph /\ subscriber_at 2 ph' s'.
Proof.
  intros He Hns Hname (_ & _ & Hf) [Hu (-> & Hi & Hid & Hmax & Hal)]. unfold subscription in *.
  rewrite <- Hid in Hf.
  assert (next_id s < requestIDGenerator.max (Session.requestIDs s)) as Hlt
    by (rewrite Hid, Hmax; unfold subscribe_id; by destruct pub).
  pose proof (Subscribe_send_run ns name [] s Hi Hlt (undisturbed_answer s Hu) Hf) as Hsend.
  destruct (requested_track Unsubscribes true s Hi Hlt) as (Hpend & Hals & Hheap & Hw & Hd).
  unfold handle_step. rewrite He, Hns, Hname. rewrite (run_bind _ _ _ _ _ (run_attempt _ _ _ _ Hsend)).
  eexists _, _. split; [done|]. split; [by rewrite wrote_written, Hid|]. split; [done|]. split.
  - by apply (undisturbed_wrote _ s).
  - eexists. split; [done|]. autorewrite with wrote. rewrite <- Hid, Hals. done.
Qed.

(** The ANNOUNCE arrives, at any time, and is accepted. *)
Definition took (s : Session.t) : Session.t :=
  let m := announce_message announce_id ns in
  let b := incoming_record m s in
  Session.set_incomingAnnouncements (announcementMap.mk
    (delete announce_id (<[announce_id := b]> (announcementMap.pending (Session.incomingAnnouncements s))))
    (<[announce_id := b]> (announcementMap.announcements (Session.incomingAnnouncements s))))
    (Session.set_chans (Session.chans s ++ [[]]) s).

Lemma announce_id_range : 0 <= announce_id <= maxVarInt.
Proof. unfold announce_id. destruct pub; vm_compute; split; discriminate. Qed.

Lemma announce_in_range : carried announce -> in_range announce.
Proof.
  intros [Hwf _]. split; [exact Hwf|]. split; [split; [done|vm_compute; discriminate]|apply announce_id_range].
Qed.

Lemma announce_taken (Ap : Application) h s :
  Handler (Application := Ap) = Some h ->
  h (message MessageAnnounce announce_id ns []) = Call RwAccept (fun _ => Return) ->
  valid_namespace ns = true -> undisturbed s ->
  receive (App := Ap) announce s = Ok (Ret tt, wrote announce_ok (took s)).
Proof.
  intros Hh Ha Hn Hu. rewrite receive_run by done. cbn [announce].
  apply (onAnnounce_run Ap (announce_message announce_id ns) h RwAccept); [done|done|done|].
  cbn [announcement_exec]. unfold try_call, acceptAnnouncement, gm_bind, attempt, on,
    announcementMap.confirmAndGet. cbn. rewrite lookup_insert_eq.
  rewrite write_fits; [done|apply fits_AnnounceOk, announce_id_range|by apply (undisturbed_answer s)].
Qed.

Lemma subscriber_takes (Ap : Application) h j ph s :
  Handler (Application := Ap) = Some h ->
  h (message MessageAnnounce announce_id ns []) = Call RwAccept (fun _ => Return) ->
  valid_namespace ns = true -> carried announce -> subscriber_at j ph s ->
  exists s', receive (App := Ap) announce s = Ok (Ret tt, s') /\
    Session.written s' = Session.written s ++ [announce_ok] /\ subscriber_at j ph s'.
Proof.
  intros Hh Ha Hn Hca [Hu Hs]. pose proof (announce_taken Ap h s Hh Ha Hn Hu) as H.
  assert (inv s -> inv (wrote announce_ok (took s))) as Hinv.
  { intros Hi. apply (step_ext (App := Ap) s); [done|]. apply (step_event s _ (Receives announce) (Ret tt)).
    - by apply announce_in_range.
    - exact H. }
  eexists. split; [exact H|]. split; [by rewrite wrote_written|]. split; [by apply (undisturbed_wrote _ s)|].
  destruct j as [|[|[|[|[|]]]]]; unfold next_id in *; autorewrite with wrote; try exact Hs;
    destruct Hs as (Hph & Hi & Hs); split_and!; try apply Hs; auto.
Qed.

(** The SUBSCRIBE_OK arrives. *)
Lemma subscriber_confirmed (Ap : Application) ph s :
  subscriber_at 3 ph s ->
  exists s', receive (App := Ap) subscription_ok s = Ok (Ret tt, s') /\
    Session.written s' = Session.written s /\ subscriber_at 4 ph s'.
Proof.
  intros [Hu (rt & -> & Hp & Hal & Hh)]. rewrite receive_run by done. cbn [subscription_ok].
  eexists. split; [by eapply (onSubscribeOk_run (subscribe_ok subscribe_id ok))|]. split; [done|].
  split; [done|]. exists rt. split; [done|]. unfold remoteTrackMap.findByTrackAlias. cbn. rewrite !lookup_insert_eq.
  rewrite list_lookup_insert_eq by (by apply lookup_lt_Some in Hh). split; [done|]. split; [|done].
  unfold remoteTrackMap.findByRequestID. cbn. by rewrite lookup_insert_eq.
Qed.

(** Subscribe returns the track. *)
Lemma subscriber_wakes e ph s :
  subscriber_at 4 ph s ->
  exists ph' s', handle_step e ph s = Ok (Ret ph', s') /\ Session.written s' = Session.written s /\ ph' <> ph /\
    subscriber_at 5 ph' s'.
Proof.
  intros [Hu (rt & -> & Ho & Hal & Hh)].
  assert (rt < length (Session.remoteHeap s))%nat as Hlt by (by apply lookup_lt_Some in Hh).
  assert (exists s', Subscribe_wait rt None s = Ok (Ret (Some rt), s') /\
    Session.remoteTracks s' = Session.remoteTracks s /\ undisturbed s' /\ Session.written s' = Session.written s /\
    Session.remoteHeap s' !! rt = Some subscribed_track) as (s' & Hw & Ht & Hu' & Hwr & Hs').
  { unfold Subscribe_wait, await_track, with_remote, gm_bind, get. rewrite Hh. cbn [Session.remoteHeap
      Session.set_remoteHeap]. rewrite list_lookup_insert_eq by done. cbn.
    eexists. split; [done|]. cbn. rewrite list_lookup_insert_eq by (by rewrite !length_insert). by split_and!. }
  unfold handle_step. rewrite (run_bind _ _ _ _ _ (run_attempt _ _ _ _ Hw)).
  eexists _, s'. split; [done|]. split; [done|]. split; [done|]. split; [done|].
  exists rt. by rewrite Ht.
Qed.

Lemma subscriber_blocked e j ph s :
  j = 2%nat \/ j = 3%nat \/ j = 5%nat -> subscriber_at j ph s ->
  exists s', handle_step e ph s = Ok (Ret ph, s').
Proof.
  intros Hj [_ Hs]. assert ((exists rt, ph = AwaitsSubscription rt /\
    Session.remoteHeap s !! rt = Some (RemoteTrack.newRemoteTrack subscribe_id Unsubscribes true))
    \/ exists rt, ph = Handled (Ret (Some rt))) as [(rt & -> & Hh)|[rt ->]].
  - destruct Hj as [->|[->| ->]]; [left..|right]; [| |destruct Hs as (rt & ? & _); by exists rt];
      destruct Hs as (rt & ? & _ & _ & ?); by exists rt.
  - assert (rt < length (Session.remoteHeap s))%nat as Hlt by (by apply lookup_lt_Some in Hh).
    unfold handle_step, attempt, Subscribe_wait, await_track, with_remote, gm_bind, mbind, GM_bind, get. rewrite Hh.
    cbn [Session.remoteHeap Session.set_remoteHeap]. rewrite list_lookup_insert_eq by done. cbn. by eexists.
  - by eexists.
Qed.

End Meeting.

Lemma head_of_two {A} (m : A) ms l1 l2 :
  (length l1 <= 1)%nat -> (length l2 <= 1)%nat -> m :: ms ≡ₚ l1 ++ l2 ->
  (l1 = [m] /\ ms ≡ₚ l2) \/ (l2 = [m] /\ ms ≡ₚ l1).
Proof.
  intros H1 H2 Hp. assert (m ∈ l1 ++ l2) as Hin by (rewrite <- Hp; apply list_elem_of_here).
  destruct l1 as [|a [|]], l2 as [|b [|]]; cbn in *; try lia; [by apply Permutation_length in Hp| | |].
  - apply list_elem_of_singleton in Hin as <-. right. split; [done|]. by apply Permutation_cons_inv in Hp.
  - apply list_elem_of_singleton in Hin as <-. left. split; [done|]. by apply Permutation_cons_inv in Hp.
  - apply elem_of_cons in Hin as [<-|Hin].
    + left. split; [done|]. by apply Permutation_cons_inv in Hp.
    + apply list_elem_of_singleton in Hin as <-. right. split; [done|].
      apply (Permutation_cons_inv (a := m)). by rewrite Hp, Permutation_swap.
Qed.

Lemma at_most_one {A} (P : Prop) `{Decision P} (a : A) : (length (if decide P then [a] else []) <= 1)%nat.
Proof. case_decide; cbn; lia. Qed.

(** A program that publishes a track, and one that subscribes to it.  The messages
    of the exchange are carried by the codec: the namespace and the name are not
    too long. *)
Record meeting {QV : QuicVarint} (progs : Perspective -> program) (pub : Perspective) : Prop := {
  m_publishes : endpoint.publish (ends (progs pub)) = true;
  m_only : endpoint.subscribe (ends (progs pub)) = false;
  m_not : endpoint.publish (ends (progs (peer pub))) = false;
  m_subscribes : endpoint.subscribe (ends (progs (peer pub))) = true;
  m_namespace : endpoint.namespace (ends (progs (peer pub))) = endpoint.namespace (ends (progs pub));
  m_trackname : endpoint.trackname (ends (progs (peer pub))) = endpoint.trackname (ends (progs pub));
  m_valid : valid_namespace (endpoint.namespace (ends (progs pub))) = true;
  m_announce : carried (announce pub (endpoint.namespace (ends (progs pub))));
  m_subscription : carried (subscription pub (endpoint.namespace (ends (progs pub)))
    (endpoint.trackname (ends (progs pub))));
  m_ok : carried (subscription_ok pub (ok_options (progs pub))) }.

Section Exchange.
Context {QV : QuicVarint} {QVL : QuicVarintLaws} {MR : MapRange} (progs : Perspective -> program) (pub : Perspective).
Context (M : meeting progs pub).

Definition track_ns : Tuple.t := endpoint.namespace (ends (progs pub)).
Definition track_name : gostring := endpoint.trackname (ends (progs pub)).
Definition track_ok : list SubscribeOKOption := ok_options (progs pub).

(** The state when the announcement has taken [i] steps and the subscription [j]. *)
Record pair_at (i j : nat) (y : pair.t) : Prop := {
  at_publisher : publisher_at pub i j (pair.phase y pub) (pair.session y pub);
  at_subscriber : subscriber_at pub track_ok j (pair.phase y (peer pub)) (pair.session y (peer pub));
  at_to_subscriber : pair.inbox y (peer pub) ≡ₚ
    (if decide (i = 1%nat) then [announce pub track_ns] else []) ++
    (if decide (j = 3%nat) then [subscription_ok pub track_ok] else []);
  at_to_publisher : pair.inbox y pub ≡ₚ
    (if decide (i = 2%nat) then [announce_ok pub] else []) ++
    (if decide (j = 2%nat) then [subscription pub track_ns track_name] else []);
  at_bounds : (i <= 5 /\ j <= 5)%nat }.

Lemma announce_ok_carried : carried (announce_ok pub).
Proof.
  pose proof (announce_id_range pub) as Hr. split; [apply Hr|]. split; [done|].
  by apply fits_AnnounceOk.
Qed.

(** The handlers of the two sides accept. *)
Lemma publisher_handler :
  exists h, SubscribeHandler (Application := app_of (progs pub)) = Some h /\ forall auth,
    h (public_subscribe (subscribe_message (subscribe_id pub) track_ns track_name []) auth)
      = Call (SubAccept track_ok) (fun _ => Return).
Proof.
  destruct (answers_subscriptions (Offers := offers (progs pub))) as (h & Hh & Ha).
  exists h. split; [done|]. intros auth. rewrite Ha, offers_track, (m_publishes _ _ M). cbn.
  by rewrite !bool_decide_eq_true_2.
Qed.

Lemma subscriber_handler :
  exists h, Handler (Application := app_of (progs (peer pub))) = Some h /\
    h (message MessageAnnounce (announce_id pub) track_ns []) = Call RwAccept (fun _ => Return).
Proof.
  destruct (answers_announcements (Offers := offers (progs (peer pub)))) as (h & Hh & Ha).
  exists h. split; [done|]. rewrite Ha, takes, (m_subscribes _ _ M), (m_namespace _ _ M). cbn.
  by rewrite !bool_decide_eq_true_2.
Qed.

(** What handle does next, on either side. *)
Lemma publisher_handle i j ph s :
  (i <= 5)%nat -> publisher_at pub i j ph s ->
  exists ph' s', handle_step (ends (progs pub)) ph s = Ok (Ret ph', s') /\
    (ph' = ph /\ (i = 1 \/ i = 2 \/ i = 5)%nat \/
     ph' <> ph /\ (i = 0 \/ i = 3 \/ i = 4)%nat /\ publisher_at pub (S i) j ph' s' /\
     Session.written s' = Session.written s ++ (if decide (i = 0%nat) then [announce pub track_ns] else [])).
Proof.
  intros Hi Hp. destruct (decide (i = 1 \/ i = 2 \/ i = 5)%nat) as [Hb|Hb].
  { destruct (publisher_blocked pub (ends (progs pub)) i j ph s Hb Hp) as [s' H]. exists ph, s'. auto. }
  assert (i = 0 \/ i = 3 \/ i = 4)%nat as [->|[->| ->]] by lia.
  - destruct (publisher_sends pub track_ns (ends (progs pub)) j ph s) as (ph' & s' & H & Hw & Hp');
      [apply M|done|apply M|done|].
    exists ph', s'. split; [done|]. right. split; [|auto]. intros ->.
    destruct Hp as [_ (-> & _) _]. destruct Hp' as [_ (a & Ha & _) _]. done.
  - destruct (publisher_wakes pub (ends (progs pub)) j ph s Hp) as (s' & H & Hw & Hp').
    exists Subscribes, s'. split; [done|]. right. rewrite Hw, app_nil_r. split; [|auto]. intros <-.
    destruct Hp as [_ (a & Ha & _) _]. done.
  - destruct (publisher_ends pub (ends (progs pub)) j ph s) as (-> & H & Hp'); [apply M|done|].
    exists (Handled (Ret None)), s. split; [done|]. right. rewrite app_nil_r. auto.
Qed.

Lemma subscriber_handle j ph s :
  (j <= 5)%nat -> subscriber_at pub track_ok j ph s ->
  exists ph' s', handle_step (ends (progs (peer pub))) ph s = Ok (Ret ph', s') /\
    (ph' = ph /\ (j = 2 \/ j = 3 \/ j = 5)%nat \/
     ph' <> ph /\ (j = 0 \/ j = 1 \/ j = 4)%nat /\ subscriber_at pub track_ok (S j) ph' s' /\
     Session.written s' = Session.written s ++
       (if decide (j = 1%nat) then [subscription pub track_ns track_name] else [])).
Proof.
  intros Hj Hp. destruct (decide (j = 2 \/ j = 3 \/ j = 5)%nat) as [Hb|Hb].
  { destruct (subscriber_blocked pub track_ok (ends (progs (peer pub))) j ph s Hb Hp) as [s' H]. exists ph, s'. auto. }
  assert (j = 0 \/ j = 1 \/ j = 4)%nat as [->|[->| ->]] by lia.
  - destruct (subscriber_skips pub track_ok (ends (progs (peer pub))) ph s) as (-> & H & Hp'); [apply M|done|].
    exists Subscribes, s. split; [done|]. right. rewrite app_nil_r. auto.
  - destruct (subscriber_sends pub track_ns track_name track_ok (ends (progs (peer pub))) ph s)
      as (ph' & s' & H & Hw & Hne & Hp'); [apply M..|done|].
    exists ph', s'. split; [done|]. right. auto.
  - destruct (subscriber_wakes pub track_ok (ends (progs (peer pub))) ph s Hp) as (ph' & s' & H & Hw & Hne & Hp').
    exists ph', s'. split; [done|]. right. rewrite app_nil_r. auto.
Qed.

(** What the next message does, on either side. *)
Lemma publisher_deliver i j y m ms :
  pair_at i j y -> pair.inbox y pub = m :: ms ->
  carried m /\ exists s', receive_at progs pub m (pair.session y pub) = Ok (Ret tt, s') /\
    (i = 2%nat /\ publisher_at pub 3 j (pair.phase y pub) s' /\
       Session.written s' = Session.written (pair.session y pub) ++ [] /\
       ms ≡ₚ (if decide (j = 2%nat) then [subscription pub track_ns track_name] else []) \/
     j = 2%nat /\ publisher_at pub i 3 (pair.phase y pub) s' /\
       Session.written s' = Session.written (pair.session y pub) ++ [subscription_ok pub track_ok] /\
       ms ≡ₚ (if decide (i = 2%nat) then [announce_ok pub] else [])).
Proof.
  intros [Hp _ _ Hin _] E. rewrite E in Hin. apply head_of_two in Hin as [[H Hms]|[H Hms]];
    [| |apply at_most_one..]; (match type of H with (if ?d then _ else _) = _ => destruct d as [Hi|]; [|discriminate H] end);
    injection H as <-.
  - split; [apply announce_ok_carried|]. subst i.
    destruct (publisher_confirmed pub (app_of (progs pub)) j _ _ Hp) as (s' & Hr & Hw & Hp').
    exists s'. split; [exact Hr|]. left. by rewrite app_nil_r.
  - split; [apply M|]. subst j. destruct publisher_handler as (h & Hh & Ha).
    destruct (publisher_accepts pub track_ns track_name track_ok (app_of (progs pub)) h i _ _ Hh Ha
      (m_valid _ _ M) (m_ok _ _ M) Hp) as (s' & Hr & Hw & Hp').
    exists s'. split; [exact Hr|]. by right.
Qed.

Lemma subscriber_deliver i j y m ms :
  pair_at i j y -> pair.inbox y (peer pub) = m :: ms ->
  carried m /\ exists s', receive_at progs (peer pub) m (pair.session y (peer pub)) = Ok (Ret tt, s') /\
    (i = 1%nat /\ subscriber_at pub track_ok j (pair.phase y (peer pub)) s' /\
       Session.written s' = Session.written (pair.session y (peer pub)) ++ [announce_ok pub] /\
       ms ≡ₚ (if decide (j = 3%nat) then [subscription_ok pub track_ok] else []) \/
     j = 3%nat /\ subscriber_at pub track_ok 4 (pair.phase y (peer pub)) s' /\
       Session.written s' = Session.written (pair.session y (peer pub)) ++ [] /\
       ms ≡ₚ (if decide (i = 1%nat) then [announce pub track_ns] else [])).
Proof.
  intros [_ Hp Hin _ _] E. rewrite E in Hin. apply head_of_two in Hin as [[H Hms]|[H Hms]];
    [| |apply at_most_one..]; (match type of H with (if ?d then _ else _) = _ => destruct d as [Hi|]; [|discriminate H] end);
    injection H as <-.
  - split; [apply M|]. destruct subscriber_handler as (h & Hh & Ha).
    destruct (subscriber_takes pub track_ns track_ok (app_of (progs (peer pub))) h j _ _ Hh Ha
      (m_valid _ _ M) (m_announce _ _ M) Hp) as (s' & Hr & Hw & Hp').
    exists s'. split; [exact Hr|]. by left.
  - split; [apply M|]. subst j.
    destruct (subscriber_confirmed pub track_ok (app_of (progs (peer pub))) _ _ Hp) as (s' & Hr & Hw & Hp').
    exists s'. split; [exact Hr|]. right. by rewrite app_nil_r.
Qed.

Lemma publisher_at_other i j j' ph s :
  (j <=? 2)%nat = (j' <=? 2)%nat -> publisher_at pub i j ph s -> publisher_at pub i j' ph s.
Proof. intros Hj [H1 H2 H3]. split; [done|done|]. unfold published_at in *. by rewrite <- Hj. Qed.

(** ** The interleavings *)


Lemma pair_at_pub_handles i j y ph s new :
  pair_at i j y -> handle_step (ends (progs pub)) (pair.phase y pub) (pair.session y pub) = Ok (Ret ph, s) ->
  ph <> pair.phase y pub -> Session.written s = Session.written (pair.session y pub) ++ new ->
  (i < 5)%nat /\ pair_at (S i) j (pair.mk (set_at pub s (pair.session y))
    (set_at (peer pub) (pair.inbox y (peer pub) ++ new) (pair.inbox y)) (set_at pub ph (pair.phase y))).
Proof.
  intros [Hp Hs Hts Htp [Hi Hj]] H Hne Hw.
  destruct (publisher_handle i j _ _ Hi Hp) as (ph' & s' & H' & Hc). rewrite H in H'. injection H' as <- <-.
  destruct Hc as [[? _]|(_ & Hc & Hp' & Hw')]; [done|]. rewrite Hw in Hw'. apply app_inv_head in Hw' as ->.
  split; [lia|]. split; cbn [pair.session pair.inbox pair.phase].
  - by rewrite !set_at_eq.
  - by rewrite !set_at_ne by apply peer_neq.
  - rewrite set_at_eq, Hts. destruct Hc as [->|[->| ->]]; cbn; rewrite ?app_nil_r; try done.
    by rewrite Permutation_app_comm.
  - rewrite set_at_ne by (intros E; symmetry in E; by apply peer_neq in E). rewrite Htp.
    by destruct Hc as [->|[->| ->]].
  - lia.
Qed.

Lemma pair_at_sub_handles i j y ph s new :
  pair_at i j y ->
  handle_step (ends (progs (peer pub))) (pair.phase y (peer pub)) (pair.session y (peer pub)) = Ok (Ret ph, s) ->
  ph <> pair.phase y (peer pub) -> Session.written s = Session.written (pair.session y (peer pub)) ++ new ->
  (j < 5)%nat /\ pair_at i (S j) (pair.mk (set_at (peer pub) s (pair.session y))
    (set_at pub (pair.inbox y pub ++ new) (pair.inbox y)) (set_at (peer pub) ph (pair.phase y))).
Proof.
  intros [Hp Hs Hts Htp [Hi Hj]] H Hne Hw. assert (pub <> peer pub) as Hpp by (intros E; symmetry in E; by apply peer_neq in E).
  destruct (subscriber_handle j _ _ Hj Hs) as (ph' & s' & H' & Hc). rewrite H in H'. injection H' as <- <-.
  destruct Hc as [[? _]|(_ & Hc & Hs' & Hw')]; [done|]. rewrite Hw in Hw'. apply app_inv_head in Hw' as ->.
  split; [lia|]. split; cbn [pair.session pair.inbox pair.phase].
  - rewrite !set_at_ne by done. apply (publisher_at_other i j); [|done]. by destruct Hc as [->|[->| ->]].
  - by rewrite !set_at_eq.
  - rewrite set_at_ne by apply peer_neq. rewrite Hts. by destruct Hc as [->|[->| ->]].
  - rewrite set_at_eq, Htp. destruct Hc as [->|[->| ->]]; cbn; by rewrite ?app_nil_r.
  - lia.
Qed.

Lemma pair_at_pub_delivers i j y m ms msg r s new :
  pair_at i j y -> pair.inbox y pub = m :: ms -> arrives m msg ->
  receive_at progs pub msg (pair.session y pub) = Ok (r, s) ->
  Session.written s = Session.written (pair.session y pub) ++ new ->
  exists i' j', (i' + j' = S (i + j))%nat /\ pair_at i' j' (pair.mk (set_at pub s (pair.session y))
    (set_at (peer pub) (pair.inbox y (peer pub) ++ new) (set_at pub ms (pair.inbox y))) (pair.phase y)).
Proof.
  intros Hat E Harr H Hw. destruct (publisher_deliver i j y m ms Hat E) as (Hm & s' & H' & Hc).
  apply (carried_arrives m msg Hm) in Harr as ->. rewrite H in H'. injection H' as -> <-.
  destruct Hat as [Hp Hs Hts Htp [Hi Hj]]. assert (pub <> peer pub) as Hpp by (intros E'; symmetry in E'; by apply peer_neq in E').
  destruct Hc as [(-> & Hp' & Hw' & Hms)|(-> & Hp' & Hw' & Hms)]; rewrite Hw in Hw'; apply app_inv_head in Hw' as ->;
    [exists 3%nat, j|exists i, 3%nat]; (split; [lia|]); (split; cbn [pair.session pair.inbox pair.phase];
      [by rewrite set_at_eq|rewrite set_at_ne by apply peer_neq; destruct Hs as [H1 H2]; by split|rewrite set_at_eq|rewrite set_at_ne, set_at_eq by done|lia]).
  - by rewrite app_nil_r, Hts.
  - by rewrite Hms.
  - rewrite Hts. cbn. by rewrite app_nil_r.
  - rewrite Hms. cbn. by rewrite app_nil_r.
Qed.

Lemma pair_at_sub_delivers i j y m ms msg r s new :
  pair_at i j y -> pair.inbox y (peer pub) = m :: ms -> arrives m msg ->
  receive_at progs (peer pub) msg (pair.session y (peer pub)) = Ok (r, s) ->
  Session.written s = Session.written (pair.session y (peer pub)) ++ new ->
  exists i' j', (i' + j' = S (i + j))%nat /\ pair_at i' j' (pair.mk (set_at (peer pub) s (pair.session y))
    (set_at pub (pair.inbox y pub ++ new) (set_at (peer pub) ms (pair.inbox y))) (pair.phase y)).
Proof.
  intros Hat E Harr H Hw. destruct (subscriber_deliver i j y m ms Hat E) as (Hm & s' & H' & Hc).
  apply (carried_arrives m msg Hm) in Harr as ->. rewrite H in H'. injection H' as -> <-.
  destruct Hat as [Hp Hs Hts Htp [Hi Hj]]. assert (pub <> peer pub) as Hpp by (intros E'; symmetry in E'; by apply peer_neq in E').
  destruct Hc as [(-> & Hs' & Hw' & Hms)|(-> & Hs' & Hw' & Hms)]; rewrite Hw in Hw'; apply app_inv_head in Hw' as ->;
    [exists 2%nat, j|exists i, 4%nat]; (split; [lia|]); (split; cbn [pair.session pair.inbox pair.phase];
      [rewrite set_at_ne by done|by rewrite set_at_eq|rewrite set_at_ne, set_at_eq by apply peer_neq|rewrite set_at_eq|lia]).
  - destruct Hp as [H1 H2 H3]. by split.
  - by rewrite Hms.
  - rewrite Htp. cbn. by rewrite Permutation_app_comm.
  - by apply (publisher_at_other i 3).
  - rewrite Hms. cbn. by rewrite app_nil_r.
  - rewrite Htp. cbn. by rewrite !app_nil_r.
Qed.

Lemma pair_at_step i j y y' :
  pair_at i j y -> pair_step progs y y' -> exists i' j', (i' + j' = S (i + j))%nat /\ pair_at i' j' y'.
Proof.
  intros Hat Hst. destruct Hst as [p ph s new H Hne Hw|p m ms msg r s new _ E Ha H Hw];
    (destruct (decide (p = pub)) as [->|Hp]; [|assert (p = peer pub) as -> by (by destruct p, pub); rewrite peer_peer]).
  - destruct (pair_at_pub_handles i j y ph s new Hat H Hne Hw) as [_ H']. eexists (S i), j. by split.
  - destruct (pair_at_sub_handles i j y ph s new Hat H Hne Hw) as [_ H']. exists i, (S j). split; [lia|done].
  - by eapply pair_at_pub_delivers.
  - by eapply pair_at_sub_delivers.
Qed.

(** The next message of either side, and the next step of its handle. *)
Lemma pair_at_message i j y p m ms :
  pair_at i j y -> pair.inbox y p = m :: ms ->
  carried m /\ exists s new, receive_at progs p m (pair.session y p) = Ok (Ret tt, s) /\
    Session.written s = Session.written (pair.session y p) ++ new.
Proof.
  intros Hat E. destruct (decide (p = pub)) as [->|Hp]; [|assert (p = peer pub) as -> by (by destruct p, pub)].
  - destruct (publisher_deliver i j y m ms Hat E) as (Hm & s & H & Hc). split; [exact Hm|].
    destruct Hc as [(_ & _ & Hw & _)|(_ & _ & Hw & _)]; by eexists s, _.
  - destruct (subscriber_deliver i j y m ms Hat E) as (Hm & s & H & Hc). split; [exact Hm|].
    destruct Hc as [(_ & _ & Hw & _)|(_ & _ & Hw & _)]; by eexists s, _.
Qed.

Lemma pair_at_handle i j y p :
  pair_at i j y -> exists ph s, handle_step (ends (progs p)) (pair.phase y p) (pair.session y p) = Ok (Ret ph, s).
Proof.
  intros Hat. pose proof (at_bounds _ _ _ Hat) as [Hi Hj].
  destruct (decide (p = pub)) as [->|Hp]; [|assert (p = peer pub) as -> by (by destruct p, pub)].
  - destruct (publisher_handle i j _ _ Hi (at_publisher _ _ _ Hat)) as (ph & s & H & _). by exists ph, s.
  - destruct (subscriber_handle j _ _ Hj (at_subscriber _ _ _ Hat)) as (ph & s & H & _). by exists ph, s.
Qed.

Lemma publisher_runs i j y : pair_at i j y -> pair.phase y pub <> Runs.
Proof.
  intros Hat E. destruct (at_publisher _ _ _ Hat) as [_ Ha _]. rewrite E in Ha.
  destruct i as [|[|[|[|[|]]]]]; cbn in Ha; try done; by destruct Ha as (? & ? & ?).
Qed.
Lemma subscriber_runs i j y : pair_at i j y -> pair.phase y (peer pub) <> Runs.
Proof.
  intros Hat E. destruct (at_subscriber _ _ _ Hat) as [_ Ha]. rewrite E in Ha.
  destruct j as [|[|[|[|[|]]]]]; cbn in Ha;
    first [by destruct Ha as [? _]|by destruct Ha as (? & ? & _)|by destruct Ha as (? & ? & ? & _)].
Qed.

Lemma pair_at_runs i j y p : pair_at i j y -> pair.phase y p <> Runs.
Proof.
  intros Hat. destruct (decide (p = pub)) as [->|Hp]; [by eapply publisher_runs|].
  assert (p = peer pub) as -> by (by destruct p, pub). by eapply subscriber_runs.
Qed.

(** A message that is under way can be delivered. *)
Lemma pair_at_can_receive i j y p :
  pair_at i j y -> pair.inbox y p <> [] -> exists y', pair_step progs y y'.
Proof.
  intros Hat Hne. destruct (pair.inbox y p) as [|m ms] eqn:E; [done|].
  destruct (pair_at_message i j y p m ms Hat E) as (Hm & s & new & H & Hw).
  eexists. eapply (pair_delivers progs y p); [by eapply pair_at_runs|exact E|by apply carried_arrives|exact H|exact Hw].
Qed.

Lemma pair_at_goes_on i j y : pair_at i j y -> (i + j < 10)%nat -> exists y', pair_step progs y y'.
Proof.
  intros Hat Hlt. pose proof Hat as [Hp Hs Hts Htp [Hi Hj]].
  destruct (publisher_handle i j _ _ Hi Hp) as (ph & s & H & [[_ Hib]|(Hne & _ & _ & Hw)]);
    [|eexists; by eapply (pair_handles progs y pub)].
  destruct (subscriber_handle j _ _ Hj Hs) as (ph' & s' & H' & [[_ Hjb]|(Hne & _ & _ & Hw)]);
    [|eexists; by eapply (pair_handles progs y (peer pub))].
  destruct (decide (i = 2 \/ j = 2)%nat) as [Hc|Hc].
  - apply (pair_at_can_receive i j y pub Hat). intros E. rewrite E in Htp. apply Permutation_nil in Htp.
    destruct Hc as [->| ->]; [done|]. by destruct (decide (i = 2%nat)).
  - apply (pair_at_can_receive i j y (peer pub) Hat). intros E. rewrite E in Hts. apply Permutation_nil in Hts.
    assert (i = 1 \/ j = 3)%nat as [->| ->] by lia; [done|]. by destruct (decide (i = 1%nat)).
Qed.

Lemma ready_reachable proto p : reachable (App := no_handlers) p (ready proto p).
Proof.
  assert (forall q, reachable (App := no_handlers) q (new_session q proto [] 100)) as Hnew
    by (intros q; exact (reachable_new q proto [] 100 [])).
  destruct (ready_reached proto no_handlers) as (H1 & H2 & H3). destruct p.
  - apply (reachable_step _ (setup_sent proto)); [apply (reachable_step _ _ _ (Hnew PerspectiveClient)), (step_event _ _ Starts _ I H1)|].
    apply (step_event _ _ (Receives (ServerSetup server_setup)) (Ret tt)); [|exact H3].
    split; [|vm_compute; intuition congruence]. split; [vm_compute; congruence|]. constructor; [|constructor].
    repeat split; vm_compute; congruence.
  - apply (reachable_step _ _ _ (Hnew PerspectiveServer)).
    apply (step_event _ _ (Receives (ClientSetup (client_setup (new_session PerspectiveClient proto [] 100)))) (Ret tt));
      [|exact H2].
    destruct proto; (split; [|vm_compute; intuition congruence]);
      (split; [repeat constructor; vm_compute; congruence|]); repeat constructor; vm_compute; congruence.
Qed.

Lemma pair_at_start proto : pair_at 0 0 (pair_start proto).
Proof.
  assert (forall p, undisturbed (ready proto p) /\ next_id (ready proto p) = perspective_uint64 p /\
    requestIDGenerator.max (Session.requestIDs (ready proto p)) = 100) as Hr
    by (intros p; by destruct p, proto).
  split; cbn [pair.session pair.phase pair.inbox pair_start]; [..|lia]; try done.
  - split; [apply Hr|split; [done|apply Hr]|]. split; by destruct pub, proto.
  - split; [apply Hr|]. split; [done|]. split; [apply (reachable_inv _ _ (ready_reachable proto (peer pub)))|].
    split; [apply Hr|]. split; [apply Hr|]. by destruct pub, proto.
Qed.

(** ** From the new connection

    While the handshake is going on, the pair is as after it, [vy], but for the
    sessions that have not completed it, the calls of Run that have not returned,
    and the setup messages under way.  [h] counts the steps of the handshake, [r]
    those of the two calls of Run. *)

Definition setup_session (p : Perspective) (h : nat) (s : Session.t) (proto : Protocol) : Session.t :=
  match p, h with
  | PerspectiveClient, 0 => new_at proto PerspectiveClient
  | PerspectiveClient, 1 | PerspectiveClient, 2 => setup_sent proto
  | PerspectiveServer, 0 | PerspectiveServer, 1 => new_at proto PerspectiveServer
  | _, _ => s
  end%nat.
Definition setup_inbox (p : Perspective) (h : nat) (l : list ControlMessage) (proto : Protocol) : list ControlMessage :=
  match p, h with
  | PerspectiveServer, 1 => setup_of proto :: l
  | PerspectiveClient, 2 => ServerSetup server_setup :: l
  | _, _ => l
  end%nat.
Definition setup_phase (r : nat) (ph : handle_phase) : handle_phase :=
  match r with 0 => Runs | 1 => AwaitsHandshake | _ => ph end%nat.

(** The step of the handshake that completes the session of a side. *)
Definition completed_at (p : Perspective) : nat :=
  match p with PerspectiveClient => 3 | PerspectiveServer => 2 end.

Record setting_up (proto : Protocol) (h : nat) (r : Perspective -> nat) (vy y : pair.t) : Prop := {
  su_session p : pair.session y p = setup_session p h (pair.session vy p) proto;
  su_inbox p : pair.inbox y p = setup_inbox p h (pair.inbox vy p) proto;
  su_phase p : pair.phase y p = setup_phase (r p) (pair.phase vy p);
  su_waits p : (r p < 2)%nat -> pair.phase vy p = Announces;
  su_unready p : (h < completed_at p)%nat -> pair.session vy p = ready proto p /\ (r p < 2)%nat;
  su_empty p : (h < 2)%nat -> pair.inbox vy p = [];
  su_sent : h = 0%nat <-> r PerspectiveClient = 0%nat;
  su_ran : r PerspectiveServer = 0%nat -> (h <= 1)%nat;
  su_bounds : (h <= 3 /\ forall p, r p <= 2)%nat }.

Definition setup_steps (h : nat) (r : Perspective -> nat) : nat :=
  h + (r PerspectiveClient - 1) + r PerspectiveServer.

Lemma setup_carried proto : carried (setup_of proto) /\ carried (ServerSetup server_setup).
Proof.
  split.
  - split; [|split; [done|]].
    + destruct proto; (split; [repeat constructor; vm_compute; congruence|]); repeat constructor; vm_compute; congruence.
    + apply fits_client_setup; vm_compute; by (split || idtac).
  - split; [|split; [done|apply fits_server_setup]].
    split; [vm_compute; congruence|]. constructor; [|constructor]. repeat split; vm_compute; congruence.
Qed.

Lemma setting_up_new proto : setting_up proto 0 (fun _ => 0%nat) (pair_start proto) (pair_new proto).
Proof. split; try done; try (by intros []); [intros p _; split; [done|lia]|intros; lia|split; [lia|intros; lia]]. Qed.

Lemma at_done i j vy p : pair_at i j vy -> Session.handshakeDoneCh (pair.session vy p) = true.
Proof.
  intros Hat. destruct (decide (p = pub)) as [->|Hp]; [|assert (p = peer pub) as -> by (by destruct p, pub)].
  - apply (at_publisher _ _ _ Hat).
  - apply (at_subscriber _ _ _ Hat).
Qed.

(** A session that has completed the handshake is that of [vy]. *)
Lemma setup_completed proto h r vy y p :
  setting_up proto h r vy y -> (completed_at p <= h)%nat -> pair.session y p = pair.session vy p.
Proof.
  intros Hs Hh. rewrite (su_session _ _ _ _ _ Hs). destruct (su_bounds _ _ _ _ _ Hs) as [Hb _].
  destruct p; cbn in Hh; destruct h as [|[|[|[|]]]]; (lia || done).
Qed.

(** A step of handle that is not one of Run's is a step of [vy]. *)
Lemma setup_running proto h r vy y p :
  setting_up proto h r vy y -> r p = 2%nat ->
  pair.session y p = pair.session vy p /\ pair.phase y p = pair.phase vy p.
Proof.
  intros Hs Hr. split; [|by rewrite (su_phase _ _ _ _ _ Hs), Hr].
  apply (setup_completed proto h r vy y p Hs). destruct (decide (h < completed_at p)%nat) as [Hlt|]; [|lia].
  destruct (su_unready _ _ _ _ _ Hs p Hlt). lia.
Qed.

(** So is the arrival of a message that is not a setup message. *)
Lemma setup_arrival proto h r vy y p m ms :
  setting_up proto h r vy y -> pair.inbox y p = m :: ms ->
  (h = 1%nat /\ p = PerspectiveServer /\ m = setup_of proto /\ ms = []) \/
  (h = 2%nat /\ p = PerspectiveClient /\ m = ServerSetup server_setup /\ ms = pair.inbox vy p) \/
  pair.inbox vy p = m :: ms /\ (completed_at p <= h)%nat.
Proof.
  intros Hs E. rewrite (su_inbox _ _ _ _ _ Hs) in E. pose proof (su_empty _ _ _ _ _ Hs p) as He.
  destruct (su_bounds _ _ _ _ _ Hs) as [Hb _].
  destruct h as [|[|[|[|]]]]; [| | | |lia]; destruct p; cbn in *;
    try (rewrite He in E by lia; try discriminate E); auto.
  - left. by injection E as <- <-.
  - right. left. by injection E as <- <-.
Qed.

(** One side of the new state, and the other. *)
Ltac each_side p :=
  let q := fresh "q" in
  intros q; destruct (decide (q = p)) as [->|];
  [rewrite ?set_at_eq|assert (q = peer p) as -> by (by destruct q, p); rewrite ?(set_at_ne p (peer p)) by apply peer_neq].

(** Run is called. *)
Lemma setting_up_runs proto h r vy y p ph s new :
  setting_up proto h r vy y -> r p = 0%nat ->
  handle_step (ends (progs p)) (pair.phase y p) (pair.session y p) = Ok (Ret ph, s) ->
  Session.written s = Session.written (pair.session y p) ++ new ->
  exists h', setup_steps h' (set_at p 1%nat r) = S (setup_steps h r) /\
    setting_up proto h' (set_at p 1%nat r) vy (pair.mk (set_at p s (pair.session y))
      (set_at (peer p) (pair.inbox y (peer p) ++ new) (pair.inbox y)) (set_at p ph (pair.phase y))).
Proof.
  intros Hs Hr H Hw. pose proof Hs as [Hses Hin Hph Hwait Hun Hemp Hsent Hran [Hb1 Hb2]].
  rewrite Hph, Hr in H. cbn [setup_phase handle_step] in H. rewrite Hses in H, Hw.
  destruct (ready_reached proto no_handlers) as (H1 & _ & _). destruct p.
  - assert (h = 0%nat) as -> by by apply Hsent. cbn [setup_session] in H, Hw.
    rewrite (run_bind _ _ _ _ _ (run_attempt _ _ _ _ H1)) in H. injection H as <- <-.
    unfold setup_sent in Hw. rewrite wrote_written in Hw. apply app_inv_head in Hw as <-.
    exists 1%nat. split; [unfold setup_steps; rewrite set_at_eq, set_at_ne by done; rewrite Hr; lia|].
    split; cbn [pair.session pair.inbox pair.phase].
    + each_side PerspectiveClient; [done|]. by rewrite Hses.
    + intros []; cbn [peer]; [rewrite set_at_ne by done|rewrite set_at_eq]; rewrite Hin; cbn; [done|].
      by rewrite Hemp by lia.
    + each_side PerspectiveClient; [done|]. by rewrite Hph.
    + each_side PerspectiveClient; [intros _; apply Hwait; lia|apply Hwait].
    + each_side PerspectiveClient; intros _; [split; [apply Hun; cbn; lia|lia]|]. apply Hun. cbn. lia.
    + intros q _. apply Hemp. lia.
    + rewrite set_at_eq. lia.
    + lia.
    + split; [lia|]. each_side PerspectiveClient; [lia|apply Hb2].
  - assert (setup_session PerspectiveServer h (pair.session vy PerspectiveServer) proto = new_at proto PerspectiveServer) as Hn
      by (specialize (Hran Hr); destruct h as [|[|]]; (done || lia)).
    rewrite Hn in H, Hw. cbn in H. injection H as <- <-. rewrite <- (app_nil_r (Session.written _)) in Hw at 1.
    apply app_inv_head in Hw as <-. exists h.
    split; [unfold setup_steps; rewrite set_at_eq, set_at_ne by done; rewrite Hr; lia|].
    split; cbn [pair.session pair.inbox pair.phase].
    + each_side PerspectiveServer; [by rewrite Hn|]. by rewrite Hses.
    + intros []; cbn [peer]; [rewrite set_at_eq, app_nil_r|rewrite set_at_ne by done]; apply Hin.
    + each_side PerspectiveServer; [done|]. by rewrite Hph.
    + each_side PerspectiveServer; [intros _; apply Hwait; lia|apply Hwait].
    + each_side PerspectiveServer; [intros Hlt; split; [by apply Hun|lia]|apply Hun].
    + exact Hemp.
    + by rewrite set_at_ne.
    + by rewrite set_at_eq.
    + split; [done|]. each_side PerspectiveServer; [lia|apply Hb2].
Qed.

(** Run returns when the handshake is done, and waits until then. *)
Lemma setup_waits proto h r vy y p i j :
  setting_up proto h r vy y -> pair_at i j vy -> r p = 1%nat ->
  handle_step (ends (progs p)) (pair.phase y p) (pair.session y p) =
    Ok (Ret (if decide (completed_at p <= h)%nat then Announces else AwaitsHandshake), pair.session y p).
Proof.
  intros Hs Hat Hr. rewrite (su_phase _ _ _ _ _ Hs), Hr. cbn [setup_phase handle_step].
  unfold get, gm_bind, mbind, GM_bind. case_decide as Hc.
  - by rewrite (setup_completed proto h r vy y p Hs Hc), (at_done i j vy p Hat).
  - rewrite (su_session _ _ _ _ _ Hs). by destruct p, h as [|[|[|]]]; cbn in Hc; try lia; destruct proto.
Qed.

Lemma setting_up_wakes proto h r vy y p :
  setting_up proto h r vy y -> r p = 1%nat -> (completed_at p <= h)%nat ->
  setup_steps h (set_at p 2%nat r) = S (setup_steps h r) /\
  setting_up proto h (set_at p 2%nat r) vy (pair.mk (set_at p (pair.session y p) (pair.session y))
    (set_at (peer p) (pair.inbox y (peer p) ++ []) (pair.inbox y)) (set_at p Announces (pair.phase y))).
Proof.
  intros [Hses Hin Hph Hwait Hun Hemp Hsent Hran [Hb1 Hb2]] Hr Hc. split.
  { unfold setup_steps. destruct p; rewrite set_at_eq, set_at_ne by done; rewrite Hr; lia. }
  split; cbn [pair.session pair.inbox pair.phase].
  - each_side p; apply Hses.
  - intros q. rewrite app_nil_r. rewrite <- Hin. destruct (decide (q = peer p)) as [->|];
      [by rewrite set_at_eq|by rewrite set_at_ne].
  - each_side p; [|apply Hph]. cbn. symmetry. apply Hwait. lia.
  - each_side p; [lia|apply Hwait].
  - each_side p; [lia|apply Hun].
  - exact Hemp.
  - destruct p; [rewrite set_at_eq; lia|by rewrite set_at_ne].
  - destruct p; [by rewrite set_at_ne|by rewrite set_at_eq].
  - split; [done|]. each_side p; [lia|apply Hb2].
Qed.

(** A step of [vy], in the pair. *)
Lemma setting_up_virtual proto h r vy y p s ms ph new :
  setting_up proto h r vy y -> (completed_at p <= h)%nat ->
  r p = 2%nat \/ ph = pair.phase vy p ->
  setting_up proto h r
    (pair.mk (set_at p s (pair.session vy))
       (set_at (peer p) (pair.inbox vy (peer p) ++ new) (set_at p ms (pair.inbox vy))) (set_at p ph (pair.phase vy)))
    (pair.mk (set_at p s (pair.session y))
       (set_at (peer p) (pair.inbox y (peer p) ++ new) (set_at p (setup_inbox p h ms proto) (pair.inbox y)))
       (set_at p (setup_phase (r p) ph) (pair.phase y))).
Proof.
  intros [Hses Hin Hph Hwait Hun Hemp Hsent Hran [Hb1 Hb2]] Hc Hcase.
  assert (p <> peer p) as Hpp by (intros E; symmetry in E; by apply peer_neq in E).
  assert (2 <= h)%nat as Hh by (destruct p; cbn in Hc; lia).
  split; cbn [pair.session pair.inbox pair.phase].
  - each_side p; [destruct p; cbn in Hc; destruct h as [|[|[|]]]; (done || lia)|apply Hses].
  - each_side p.
    + by rewrite !(set_at_ne (peer p) p), !set_at_eq by done.
    + rewrite Hin. destruct p; cbn in *; destruct h as [|[|[|[|]]]]; (done || lia).
  - each_side p; [done|apply Hph].
  - each_side p; [|apply Hwait]. intros Hlt. destruct Hcase as [Hr| ->]; [lia|by apply Hwait].
  - each_side p; [lia|apply Hun].
  - lia.
  - exact Hsent.
  - intros E. specialize (Hran E). lia.
  - done.
Qed.

(** Only what the sides hold counts. *)
Definition same_pair (y y' : pair.t) : Prop := forall p,
  pair.session y p = pair.session y' p /\ pair.inbox y p = pair.inbox y' p /\ pair.phase y p = pair.phase y' p.

Lemma setting_up_same proto h r vy vy' y y' :
  same_pair vy vy' -> same_pair y y' -> setting_up proto h r vy y -> setting_up proto h r vy' y'.
Proof.
  intros Hv Hy [Hses Hin Hph Hwait Hun Hemp Hsent Hran Hb].
  split; try done; intros p; destruct (Hv p) as (E1 & E2 & E3), (Hy p) as (F1 & F2 & F3);
    rewrite <- ?E1, <- ?E2, <- ?E3, <- ?F1, <- ?F2, <- ?F3; auto.
Qed.

Lemma pair_at_same i j y y' : same_pair y y' -> pair_at i j y -> pair_at i j y'.
Proof.
  intros Hy [H1 H2 H3 H4 H5]. destruct (Hy pub) as (E1 & E2 & E3), (Hy (peer pub)) as (F1 & F2 & F3).
  split; congruence || by rewrite <- ?E1, <- ?E2, <- ?E3, <- ?F1, <- ?F2, <- ?F3.
Qed.

(** The setup messages arrive. *)
Lemma setting_up_arrives proto h r vy y p m msg ms res s new :
  setting_up proto h r vy y -> pair.phase y p <> Runs -> pair.inbox y p = m :: ms -> arrives m msg ->
  receive_at progs p msg (pair.session y p) = Ok (res, s) ->
  Session.written s = Session.written (pair.session y p) ++ new ->
  (h = 1%nat /\ p = PerspectiveServer /\ m = setup_of proto /\ ms = [] \/
   h = 2%nat /\ p = PerspectiveClient /\ m = ServerSetup server_setup /\ ms = pair.inbox vy p) ->
  setup_steps (S h) r = S (setup_steps h r) /\
  setting_up proto (S h) r vy (pair.mk (set_at p s (pair.session y))
    (set_at (peer p) (pair.inbox y (peer p) ++ new) (set_at p ms (pair.inbox y))) (pair.phase y)).
Proof.
  intros Hs Hruns E Harr H Hw Hcase. split; [done|]. pose proof Hs as [Hses Hin Hph Hwait Hun Hemp Hsent Hran [Hb1 Hb2]].
  destruct (setup_carried proto) as [Hc1 Hc2]. rewrite Hses in H, Hw. rewrite Hph in Hruns.
  destruct (ready_reached proto (app_of (progs p))) as (_ & H2 & H3).
  destruct Hcase as [(-> & -> & -> & ->)|(-> & -> & -> & ->)].
  - apply (carried_arrives _ _ Hc1) in Harr as ->. cbn [setup_session] in H, Hw. unfold receive_at in H.
    rewrite H2 in H. injection H as <- <-.
    assert (new = [ServerSetup server_setup]) as ->.
    { assert (Session.written (ready_server proto) = [] ++ [ServerSetup server_setup]) as Ew by (by destruct proto).
      rewrite Ew in Hw. by apply app_inv_head in Hw. }
    destruct (Hun PerspectiveServer ltac:(cbn; lia)) as [Hvs _].
    split; cbn [pair.session pair.inbox pair.phase]; try done.
    + each_side PerspectiveServer; [by rewrite Hvs|]. apply Hses.
    + intros []; cbn [peer]; [rewrite set_at_eq, Hin; cbn; by rewrite Hemp by lia|].
      rewrite set_at_ne, set_at_eq by done. cbn. by rewrite Hemp by lia.
    + intros [] Hlt; cbn in Hlt; [apply Hun; cbn; lia|lia].
    + lia.
    + split; [lia|]. intros E0. by rewrite E0 in Hsent; destruct Hsent as [_ ?]; lia.
    + intros E0. by rewrite E0 in Hruns.
    + split; [lia|done].
  - apply (carried_arrives _ _ Hc2) in Harr as ->. cbn [setup_session] in H, Hw. unfold receive_at in H.
    rewrite H3 in H. injection H as <- <-.
    assert (new = []) as ->.
    { assert (Session.written (ready_client proto) = Session.written (setup_sent proto) ++ []) as Ew by (by destruct proto).
      rewrite Ew in Hw. by apply app_inv_head in Hw. }
    destruct (Hun PerspectiveClient ltac:(cbn; lia)) as [Hvs _].
    split; cbn [pair.session pair.inbox pair.phase]; try done.
    + each_side PerspectiveClient; [by rewrite Hvs|]. apply Hses.
    + intros []; cbn [peer]; [by rewrite set_at_ne, set_at_eq by done|].
      rewrite set_at_eq, app_nil_r. apply Hin.
    + intros [] Hlt; cbn in Hlt; lia.
    + lia.
    + split; [lia|]. intros E0. rewrite E0 in Hsent; destruct Hsent as [_ ?]; lia.
    + intros E0. specialize (Hran E0). lia.
Qed.

Lemma setting_up_step proto h r i j vy y y' :
  setting_up proto h r vy y -> pair_at i j vy -> pair_step progs y y' ->
  exists h' r' i' j' vy', setting_up proto h' r' vy' y' /\ pair_at i' j' vy' /\
    (setup_steps h' r' + i' + j' = S (setup_steps h r + i + j))%nat.
Proof.
  intros Hs Hat Hst. destruct Hst as [p ph s new H Hne Hw|p m ms msg res s new Hruns E Ha H Hw].
  - pose proof (proj2 (su_bounds _ _ _ _ _ Hs) p) as Hr. destruct (r p) as [|[|[|]]] eqn:Er; [| | |lia].
    + destruct (setting_up_runs proto h r vy y p ph s new Hs Er H Hw) as (h' & Hn & Hs').
      exists h', (set_at p 1%nat r), i, j, vy. split; [exact Hs'|]. split; [done|lia].
    + rewrite (setup_waits proto h r vy y p i j Hs Hat Er) in H. injection H as <- <-.
      rewrite (su_phase _ _ _ _ _ Hs), Er in Hne. cbn in Hne. case_decide as Hc; [|done].
      rewrite <- (app_nil_r (Session.written _)) in Hw at 1. apply app_inv_head in Hw as <-.
      destruct (setting_up_wakes proto h r vy y p Hs Er Hc) as [Hn Hs'].
      exists h, (set_at p 2%nat r), i, j, vy. split; [exact Hs'|]. split; [done|lia].
    + destruct (setup_running proto h r vy y p Hs Er) as [Es Eph]. rewrite Es, Eph in H. rewrite Es in Hw. rewrite Eph in Hne.
      assert (completed_at p <= h)%nat as Hc.
      { destruct (decide (h < completed_at p)%nat) as [Hlt|]; [|lia]. destruct (su_unready _ _ _ _ _ Hs p Hlt). lia. }
      destruct (pair_at_step i j _ _ Hat (pair_handles progs vy p ph s new H Hne Hw)) as (i' & j' & Hij & Hat').
      eexists h, r, i', j', _. split; [|split; [exact Hat'|lia]].
      eapply setting_up_same; [| |apply (setting_up_virtual proto h r vy y p s (pair.inbox vy p) ph new Hs Hc); by left].
      * intros q. cbn. split_and!; try done. unfold set_at. by repeat case_decide; subst.
      * intros q. cbn. rewrite Er. split_and!; try done. pose proof (su_inbox _ _ _ _ _ Hs q).
        unfold set_at. by repeat case_decide; subst.
  - destruct (setup_arrival proto h r vy y p m ms Hs E) as [Hc|[Hc|[E' Hc]]].
    + destruct (setting_up_arrives proto h r vy y p m msg ms res s new Hs Hruns E Ha H Hw (or_introl Hc)) as [Hn Hs'].
      exists (S h), r, i, j, vy. split; [exact Hs'|]. split; [done|lia].
    + destruct (setting_up_arrives proto h r vy y p m msg ms res s new Hs Hruns E Ha H Hw (or_intror Hc)) as [Hn Hs'].
      exists (S h), r, i, j, vy. split; [exact Hs'|]. split; [done|lia].
    + pose proof (setup_completed proto h r vy y p Hs Hc) as Es. rewrite Es in H, Hw.
      destruct (pair_at_step i j _ _ Hat (pair_delivers progs vy p m ms msg res s new (pair_at_runs i j vy p Hat) E' Ha H Hw)) as (i' & j' & Hij & Hat').
      eexists h, r, i', j', _. split; [|split; [exact Hat'|lia]].
      eapply setting_up_same; [| |apply (setting_up_virtual proto h r vy y p s ms (pair.phase vy p) new Hs Hc); by right].
      * intros q. cbn. split_and!; try done. unfold set_at. by repeat case_decide; subst.
      * intros q. cbn. split; [done|]. pose proof (su_phase _ _ _ _ _ Hs q). split; [|unfold set_at; by case_decide; subst].
        assert (setup_inbox p h ms proto = ms) as ->; [|done].
        pose proof (su_inbox _ _ _ _ _ Hs p) as Hi. rewrite E, E' in Hi.
        destruct p, h as [|[|[|]]]; cbn in Hi |- *; try done; exfalso; apply (f_equal length) in Hi; cbn in Hi; lia.
Qed.

(** The call of Run succeeds on both sides. *)
Lemma setup_run proto h r vy y p :
  setting_up proto h r vy y -> r p = 0%nat ->
  exists s new, handle_step (ends (progs p)) (pair.phase y p) (pair.session y p) = Ok (Ret AwaitsHandshake, s) /\
    Session.written s = Session.written (pair.session y p) ++ new.
Proof.
  intros Hs Hr. rewrite (su_phase _ _ _ _ _ Hs), Hr, (su_session _ _ _ _ _ Hs). cbn [setup_phase handle_step].
  destruct (ready_reached proto no_handlers) as (H1 & _ & _). destruct p.
  - assert (h = 0%nat) as -> by (by apply (su_sent _ _ _ _ _ Hs)). cbn [setup_session].
    rewrite (run_bind _ _ _ _ _ (run_attempt _ _ _ _ H1)). eexists _, _. split; [done|].
    unfold setup_sent. by rewrite wrote_written.
  - assert (setup_session PerspectiveServer h (pair.session vy PerspectiveServer) proto = new_at proto PerspectiveServer) as ->
      by (pose proof (su_ran _ _ _ _ _ Hs Hr); destruct h as [|[|]]; (done || lia)).
    eexists _, []. rewrite app_nil_r. by split.
Qed.

(** Its next message succeeds too. *)
Lemma setup_message proto h r i j vy y p m ms :
  setting_up proto h r vy y -> pair_at i j vy -> pair.inbox y p = m :: ms ->
  carried m /\ exists s new, receive_at progs p m (pair.session y p) = Ok (Ret tt, s) /\
    Session.written s = Session.written (pair.session y p) ++ new.
Proof.
  intros Hs Hat E. destruct (setup_carried proto) as [Hc1 Hc2].
  destruct (ready_reached proto (app_of (progs p))) as (_ & H2 & H3).
  destruct (setup_arrival proto h r vy y p m ms Hs E) as [(-> & -> & -> & ->)|[(-> & -> & -> & _)|[E' Hc]]].
  - split; [done|]. rewrite (su_session _ _ _ _ _ Hs). eexists _, [_]. split; [exact H2|]. by destruct proto.
  - split; [done|]. rewrite (su_session _ _ _ _ _ Hs). eexists _, []. split; [exact H3|]. by destruct proto.
  - rewrite (setup_completed proto h r vy y p Hs Hc). by eapply pair_at_message.
Qed.

Lemma setting_up_healthy proto h r i j vy y : setting_up proto h r vy y -> pair_at i j vy -> healthy progs y.
Proof.
  intros Hs Hat p. split.
  - pose proof (proj2 (su_bounds _ _ _ _ _ Hs) p) as Hr. destruct (r p) as [|[|[|]]] eqn:Er; [| | |lia].
    + destruct (setup_run proto h r vy y p Hs Er) as (s & new & H & _). by eexists _, s.
    + rewrite (setup_waits proto h r vy y p i j Hs Hat Er). by eexists _, _.
    + destruct (setup_running proto h r vy y p Hs Er) as [-> ->]. by eapply pair_at_handle.
  - intros m ms E. destruct (setup_message proto h r i j vy y p m ms Hs Hat E) as (Hm & s & new & H & _).
    exists s. split; [by apply carried_arrives|exact H].
Qed.

Lemma some_side (r : Perspective -> nat) n : (exists p, r p = n) \/ forall p, r p <> n.
Proof.
  destruct (decide (r PerspectiveClient = n)) as [|Hc]; [left; by eexists|].
  destruct (decide (r PerspectiveServer = n)) as [|Hs]; [left; by eexists|]. right. by intros [].
Qed.

(** Until the calls of Run have returned, there is a next step. *)
Lemma setting_up_goes_on proto h r i j vy y :
  setting_up proto h r vy y -> pair_at i j vy -> (setup_steps h r < 6)%nat -> exists y', pair_step progs y y'.
Proof.
  intros Hs Hat Hlt. pose proof (su_bounds _ _ _ _ _ Hs) as [Hh Hr].
  destruct (some_side r 0%nat) as [[p Er]|Hn].
  { destruct (setup_run proto h r vy y p Hs Er) as (s & new & H & Hw). eexists.
    eapply (pair_handles progs y p); [exact H| |exact Hw]. by rewrite (su_phase _ _ _ _ _ Hs), Er. }
  assert (forall p, pair.phase y p <> Runs) as Hruns.
  { intros p. rewrite (su_phase _ _ _ _ _ Hs). specialize (Hn p). specialize (Hr p).
    destruct (r p) as [|[|[|]]]; cbn; (done || lia || by eapply pair_at_runs). }
  assert (h <> 0%nat) as Hh0 by (rewrite (su_sent _ _ _ _ _ Hs); apply Hn).
  assert (forall p m ms, pair.inbox y p = m :: ms -> exists y', pair_step progs y y') as Hgo.
  { intros p m ms E. destruct (setup_message proto h r i j vy y p m ms Hs Hat E) as (Hm & s & new & H & Hw).
    eexists. by eapply (pair_delivers progs y p); [apply Hruns|exact E|by apply carried_arrives|exact H|exact Hw]. }
  destruct h as [|[|[|[|]]]]; [done| | | |lia].
  - eapply (Hgo PerspectiveServer). by rewrite (su_inbox _ _ _ _ _ Hs).
  - eapply (Hgo PerspectiveClient). by rewrite (su_inbox _ _ _ _ _ Hs).
  - destruct (some_side r 1%nat) as [[p Er]|Hn1].
    + pose proof (setup_waits proto 3 r vy y p i j Hs Hat Er) as H. rewrite decide_True in H by (destruct p; cbn; lia).
      eexists. eapply (pair_handles progs y p _ _ []); [exact H| |by rewrite app_nil_r].
      by rewrite (su_phase _ _ _ _ _ Hs), Er.
    + unfold setup_steps in Hlt. assert (forall p, r p = 2%nat) as H2; [|rewrite !H2 in Hlt; lia].
      intros p. specialize (Hn p). specialize (Hr p). specialize (Hn1 p). lia.
Qed.

(** When they have, the pair is as after the handshake. *)
Lemma set_up proto h r vy y : setting_up proto h r vy y -> setup_steps h r = 6%nat -> same_pair vy y.
Proof.
  intros Hs Hn p. unfold setup_steps in Hn. pose proof (su_bounds _ _ _ _ _ Hs) as [Hh Hr].
  pose proof (Hr PerspectiveClient). pose proof (Hr PerspectiveServer).
  assert (h = 3%nat) as -> by lia. assert (r p = 2%nat) as Er by (destruct p; lia).
  destruct (setup_running proto 3 r vy y p Hs Er) as [-> ->]. rewrite (su_inbox _ _ _ _ _ Hs). by destruct p.
Qed.

Lemma setup_steps_bound proto h r vy y : setting_up proto h r vy y -> (setup_steps h r <= 6)%nat.
Proof.
  intros Hs. pose proof (su_bounds _ _ _ _ _ Hs) as [Hh Hr]. unfold setup_steps.
  pose proof (Hr PerspectiveClient). pose proof (Hr PerspectiveServer). lia.
Qed.

Lemma pair_run_at proto n y :
  pair_run progs n (pair_new proto) y ->
  exists h r i j vy, setting_up proto h r vy y /\ pair_at i j vy /\ (setup_steps h r + i + j)%nat = n.
Proof.
  intros H. remember (pair_new proto) as y0. induction H as [|n y0 y y' _ IH Hst]; subst.
  - eexists 0%nat, _, 0%nat, 0%nat, _. split; [apply setting_up_new|]. split; [apply pair_at_start|done].
  - destruct (IH eq_refl) as (h & r & i & j & vy & Hs & Hat & Hn).
    destruct (setting_up_step proto h r i j vy y y' Hs Hat Hst) as (h' & r' & i' & j' & vy' & Hs' & Hat' & Hn').
    exists h', r', i', j', vy'. split; [done|]. split; [done|lia].
Qed.

Lemma pair_run_goes_on proto n y :
  pair_run progs n (pair_new proto) y -> (n < 16)%nat -> exists y', pair_step progs y y'.
Proof.
  intros H Hlt. destruct (pair_run_at proto n y H) as (h & r & i & j & vy & Hs & Hat & Hn).
  pose proof (setup_steps_bound proto h r vy y Hs). destruct (decide (setup_steps h r < 6)%nat) as [Hh|Hh].
  - by eapply setting_up_goes_on.
  - apply (pair_at_goes_on i j); [|lia]. apply (pair_at_same i j vy); [|done]. apply (set_up proto h r); [done|lia].
Qed.

(** The end of the exchange: both calls have returned, and the track is open on both
    sides, with the alias 0. *)
Definition pair_met (y : pair.t) (rt lt : nat) : Prop :=
  pair.phase y pub = Handled (Ret None) /\ pair.phase y (peer pub) = Handled (Ret (Some rt)) /\
  (forall p, pair.inbox y p = []) /\
  remoteTrackMap.open (Session.remoteTracks (pair.session y (peer pub))) !! subscribe_id pub = Some rt /\
  remoteTrackMap.findByTrackAlias (Session.remoteTracks (pair.session y (peer pub))) 0 = Some rt /\
  Session.remoteHeap (pair.session y (peer pub)) !! rt = Some (subscribed_track pub track_ok) /\
  localTrackMap.open (Session.localTracks (pair.session y pub)) !! subscribe_id pub = Some lt /\
  Session.localHeap (pair.session y pub) !! lt = Some (localTrack.newLocalTrack (subscribe_id pub) 0 true) /\
  (forall p, undisturbed (pair.session y p)).

Lemma pair_at_end y : pair_at 5 5 y -> exists rt lt, pair_met y rt lt.
Proof.
  intros [[Hup Hp [_ Hl]] [Hus (rt & Hph & Ho & Hal & Hh)] Hts Htp _].
  assert (forall p, undisturbed (pair.session y p)) as Hu.
  { intros p. destruct (decide (p = pub)) as [->|Hne]; [done|]. assert (p = peer pub) as -> by (by destruct p, pub). done. }
  destruct Hl as (lt & Hopen & Hheap). exists rt, lt.
  cbn in Hts, Htp. symmetry in Hts, Htp. apply Permutation_nil in Hts, Htp. split; [exact Hp|]. split; [exact Hph|]. split.
  - intros p. destruct (decide (p = pub)) as [->|Hne]; [done|]. assert (p = peer pub) as -> by (by destruct p, pub). done.
  - by split_and!.
Qed.

Lemma pair_run_met proto y : pair_run progs 16 (pair_new proto) y -> exists rt lt, pair_met y rt lt.
Proof.
  intros H. destruct (pair_run_at proto 16 y H) as (h & r & i & j & vy & Hs & Hat & Hn).
  pose proof (at_bounds _ _ _ Hat) as [Hi Hj]. pose proof (setup_steps_bound proto h r vy y Hs) as Hb.
  assert (i = 5%nat) as -> by lia. assert (j = 5%nat) as -> by lia.
  apply pair_at_end, (pair_at_same 5 5 vy); [apply (set_up proto h r); [done|lia]|done].
Qed.

Lemma pair_run_healthy proto n y : pair_run progs n (pair_new proto) y -> healthy progs y.
Proof.
  intros H. destruct (pair_run_at proto n y H) as (h & r & i & j & vy & Hs & Hat & _). by eapply setting_up_healthy.
Qed.

Lemma pair_run_bound proto n y : pair_run progs n (pair_new proto) y -> (n <= 16)%nat.
Proof.
  intros H. destruct (pair_run_at proto n y H) as (h & r & i & j & vy & Hs & Hat & Hn).
  pose proof (at_bounds _ _ _ Hat) as [Hi Hj]. pose proof (setup_steps_bound proto h r vy y Hs). lia.
Qed.

(** There is a run of every length up to the end. *)
Lemma pair_runs proto n : (n <= 16)%nat -> exists y, pair_run progs n (pair_new proto) y.
Proof.
  induction n as [|n IH]; intros Hn; [by eexists; constructor|]. destruct (IH ltac:(lia)) as [y Hy].
  destruct (pair_run_goes_on proto n y Hy ltac:(lia)) as [y' Hy']. exists y'. by econstructor.
Qed.

End Exchange.

(** ** The programs of the repository *)

Section Sizes.
Context {QV : QuicVarint} {QVL : QuicVarintLaws}.

Lemma bounded_Tuple_one (n : gostring) : len n <= 30000 -> bounded (8 + (8 + len n)) (Tuple.append [n]).
Proof.
  intros Hn. apply bounded_seq; [apply bounded_varint; vm_compute; split; discriminate|]. cbn [Tuple.append_elements].
  apply (bounded_seq 8 (len n)); [apply bounded_varint; pose proof (len_nonneg n); unfold maxVarInt; lia|].
  intros buf. exists n. done.
Qed.

(** A namespace of one element and a name of up to 30000 bytes each fit. *)
Lemma program_announce_carried p (n : gostring) : len n <= 30000 -> carried (announce p [n]).
Proof.
  intros Hn. pose proof (announce_id_range p) as Hr. pose proof (len_nonneg n). split; [|split; [done|]].
  - split; [apply Hr|]. split; [vm_compute; discriminate|constructor].
  - apply (bounded_fits (8 + ((8 + (8 + len n)) + 8))); [|lia].
    apply bounded_seq; [by apply bounded_varint|]. apply bounded_seq; [by apply bounded_Tuple_one|].
    apply bounded_no_parameters.
Qed.

Lemma program_subscription_carried p (n name : gostring) :
  len n <= 30000 -> len name <= 30000 -> carried (subscription p [n] name).
Proof.
  intros Hn Hm. pose proof (announce_id_range (peer p)) as Hr. pose proof (len_nonneg n). pose proof (len_nonneg name).
  split; [|split; [done|]].
  - split; [apply Hr|]. split; [vm_compute; discriminate|].
    cbn. unfold FilterTypeLatestObject, GroupOrderAscending. split_and!; try lia; try done. by constructor.
  - apply (bounded_fits (8 + ((8 + (8 + len n)) + ((8 + len name) + (1 + (1 + (1 + (8 + 8)))))))); [|lia].
    apply bounded_seq; [by apply bounded_varint|]. apply bounded_seq; [by apply bounded_Tuple_one|].
    apply bounded_seq; [apply bounded_VarIntBytes; cbn; lia|].
    do 3 (apply bounded_seq; [apply bounded_byte|]).
    apply (bounded_seq 8 8); [apply bounded_varint; vm_compute; split; discriminate|]. apply bounded_no_parameters.
Qed.

Lemma fits_subscribe_ok id (g : option Z) :
  0 <= id <= maxVarInt -> default 0 g <= maxVarInt -> 0 <= default 0 g ->
  carried (SubscribeOk (subscribe_ok id
    match g with Some g => [WithLargestLocation (Some (Location.mk g 0))] | None => [] end)).
Proof.
  intros Hid Hg1 Hg0. split; [|split; [by destruct g|]].
  - destruct g as [g|]; cbn in *; unfold SubscribeOkMessage.wf, GroupOrderAscending, Location.wf; cbn;
      split_and!; try lia; try done; by constructor.
  - assert (forall b, bounded 1 (append_byte b)) as Hb by apply bounded_byte.
    assert (0 <= 0 <= maxVarInt) as H0 by (vm_compute; split; discriminate).
    apply (bounded_fits (8 + (8 + (8 + (1 + (1 + (16 + 8))))))); [|lia].
    destruct g as [g|]; (apply bounded_seq; [by apply bounded_varint|]);
      (do 2 (apply bounded_seq; [apply bounded_varint; vm_compute; split; discriminate|]));
      (apply bounded_seq; [apply Hb|]); cbn -[append_byte Location.append KVPList.appendNum] in *.
    + apply bounded_seq; [apply Hb|]. apply bounded_seq; [by apply bounded_Location|]. apply bounded_no_parameters.
    + apply bounded_seq; [apply Hb|]. intros buf. destruct (bounded_no_parameters buf) as (e & He & Hl).
      exists e. split; [exact He|lia].
Qed.

End Sizes.

(** The programs on the two sides of a connection. *)
Definition sides (server client : program) (p : Perspective) : program :=
  match p with PerspectiveServer => server | PerspectiveClient => client end.

(** * Properties *)

(** A program that publishes a track and a program that subscribes to it meet.
    Their connection is new: from the calls of handle on, however the steps of the
    two calls (Run with the handshake, Announce and Subscribe) and the arrivals of
    their messages are interleaved, neither side panics and no message fails a
    session; as long as fewer than sixteen steps were taken there is a next one;
    and after the sixteenth both calls have returned, the publisher's with no
    error, the subscriber's with the track of the subscription, which is open on
    both sides, and no message is under way. *)
Theorem programs_meet {QV : QuicVarint} {QVL : QuicVarintLaws} {MR : MapRange} progs pub proto n y :
  meeting progs pub -> pair_run progs n (pair_new proto) y ->
  (n <= 16)%nat /\ healthy progs y /\ ((n < 16)%nat -> exists y', pair_step progs y y') /\
  (n = 16%nat ->
     exists rt lt, pair.phase y pub = Handled (Ret None) /\ pair.phase y (peer pub) = Handled (Ret (Some rt)) /\
       (forall p, pair.inbox y p = []) /\
       remoteTrackMap.open (Session.remoteTracks (pair.session y (peer pub))) !! subscribe_id pub = Some rt /\
       localTrackMap.open (Session.localTracks (pair.session y pub)) !! subscribe_id pub = Some lt /\
       Session.localHeap (pair.session y pub) !! lt = Some (localTrack.newLocalTrack (subscribe_id pub) 0 true)).
Proof.
  intros M H. destruct (pair_run_at progs pub M proto n y H) as (h & r & i & j & vy & Hs & Hat & Hn).
  pose proof (at_bounds _ _ _ _ _ Hat) as [Hi Hj]. pose proof (setup_steps_bound proto h r vy y Hs) as Hb.
  split; [lia|]. split; [by eapply setting_up_healthy|]. split; [by eapply pair_run_goes_on|].
  intros ->. destruct (pair_run_met progs pub M proto y H) as (rt & lt & H1 & H2 & H3 & H4 & _ & _ & H7 & H8 & _).
  by exists rt, lt.
Qed.

(** ** The programs meet *)

Section Programs.
Context {QV : QuicVarint} {QVL : QuicVarintLaws}.

(** A counter server with the flag publish and a counter client with the flag
    subscribe, for the same track; and the same for the XOR example. *)
Lemma counter_meeting so co :
  options.publish so = true -> options.subscribe co = true ->
  options.namespace co = options.namespace so -> options.trackname co = options.trackname so ->
  len (options.namespace so) <= 30000 -> len (options.trackname so) <= 30000 ->
  meeting (sides (counter_program (counter_server so)) (counter_program (counter_client co))) PerspectiveServer /\
  meeting (sides (xor_program (xor_server so)) (xor_program (xor_client co))) PerspectiveServer.
Proof.
  intros Hp Hs Hns Hname Hl1 Hl2.
  pose proof (fits_subscribe_ok 0 None ltac:(vm_compute; split; discriminate) ltac:(vm_compute; discriminate)
    ltac:(done)) as Hok.
  split; (split; cbn; try done; [by rewrite Hns|by apply program_announce_carried|by apply program_subscription_carried]).
Qed.

(** Two date programs: either side may publish, with or without anything published
    before. *)
Lemma date_meeting hp hs pub :
  moqHandler.publish hp = true -> moqHandler.subscribe hp = false ->
  moqHandler.publish hs = false -> moqHandler.subscribe hs = true ->
  moqHandler.namespace hs = moqHandler.namespace hp -> moqHandler.trackname hs = moqHandler.trackname hp ->
  (exists n, moqHandler.namespace hp = [n] /\ len n <= 30000) -> len (moqHandler.trackname hp) <= 30000 ->
  0 <= moqHandler.largestGroup hp <= maxVarInt ->
  meeting (fun p => date_program (if decide (p = pub) then hp else hs)) pub.
Proof.
  intros H1 H2 H3 H4 H5 H6 (n & Hn & Hl1) Hl2 [Hg1 Hg2].
  pose proof (fits_subscribe_ok (subscribe_id pub) (Some (moqHandler.largestGroup hp)) (announce_id_range (peer pub)) Hg2 Hg1) as Hok.
  split; rewrite ?(decide_True _ _ (eq_refl pub)), ?(decide_False _ _ (peer_neq pub)); try done; cbn; rewrite ?Hn; try done.
  - by apply program_announce_carried.
  - by apply program_subscription_carried.
Qed.

End Programs.

(** [counter -server -publish] and [counter -subscribe]. *)
Definition ex_server : counterHandler.t :=
  default (counter_server counter_defaults) (counter_main [str "counter"; str "-server"; str "-publish"]).
Definition ex_client : counterHandler.t :=
  default (counter_client counter_defaults) (counter_main [str "counter"; str "--subscribe"]).
Definition ex_programs : Perspective -> program := sides (counter_program ex_server) (counter_program ex_client).

Lemma ex_meeting : meeting ex_programs PerspectiveServer.
Proof.
  apply (counter_meeting (options.set_publish true (options.set_server true counter_defaults))
    (options.set_subscribe true counter_defaults)); (reflexivity || (vm_compute; discriminate)).
Qed.

(** They take their sixteen steps, and the client has its track. *)
Lemma programs_meet_witness :
  exists y rt, pair_run ex_programs 16 (pair_new ProtocolQUIC) y /\
    pair.phase y PerspectiveServer = Handled (Ret None) /\
    pair.phase y PerspectiveClient = Handled (Ret (Some rt)).
Proof.
  destruct (pair_runs ex_programs PerspectiveServer ex_meeting ProtocolQUIC 16 ltac:(lia)) as [y Hy].
  destruct (programs_meet ex_programs PerspectiveServer ProtocolQUIC 16 y ex_meeting Hy) as (_ & _ & _ & Hend).
  destruct (Hend eq_refl) as (rt & lt & Hp & Hs & _). by exists y, rt.
Defined.
