(* ===== verification/Wired.v ===== *)
(** Two programs over byte streams.

    The programs of Programs.v exchange messages; here each side writes the bytes of
    its messages to its half of the control stream, and a message arrives when the
    parser reads it from the bytes that have not been read.  Every state that two
    programs reach this way is one that they reach with queues of messages, and
    where the programs of Programs.v have a next step these have one. *)

From stdpp Require Import sets.
From Stdlib Require Import String.
From S2P Require Import Prelude VarInt Codec WireTypes Messages ControlMessages Objects Params.
From S2P Require Import Framing ParserSafety Errors State RequestID TrackMaps Tracks Announcements.
From S2P Require Import SessionState Session SessionInv SessionSafety WellTyped Typing System SystemQueue.
From S2P Require Import Sending Handshake Requests Exchanges Applications CommandLine Programs.
Local Open Scope Z_scope.
Local Open Scope go_scope.

(** * Two programs and their streams *)

(** A session of each side, how much of the peer's stream it has read, and where its
    call of handle is. *)
Module wired.
Record t := mk {
  sides : system;
  phase : Perspective -> handle_phase }.
End wired.

Section Streams.
Context {QV : QuicVarint} {QVL : QuicVarintLaws} {MR : MapRange} (progs : Perspective -> program).

Definition wired_session (z : wired.t) (p : Perspective) : Session.t := session_of (wired.sides z) p.

Inductive wired_step (z : wired.t) : wired.t -> Prop :=
  | wired_handles p ph s :
      handle_step (ends (progs p)) (wired.phase z p) (wired_session z p) = Ok (Ret ph, s) ->
      ph <> wired.phase z p ->
      wired_step z (wired.mk
        (update p (side.mk s (side.consumed (wired.sides z p)) (side.reading (wired.sides z p))) (wired.sides z))
        (set_at p ph (wired.phase z)))
  | wired_delivers p fin msg n r s :
      wired.phase z p <> Runs -> side.reading (wired.sides z p) = true ->
      next_message (wired.sides z) p fin = Ok (msg, n) ->
      receive_at progs p msg (wired_session z p) = Ok (r, s) ->
      wired_step z (wired.mk
        (update p (side.mk s (side.consumed (wired.sides z p) + n) (is_ret r)) (wired.sides z))
        (wired.phase z)).

Inductive wired_run : nat -> wired.t -> wired.t -> Prop :=
  | wired_done z : wired_run 0 z z
  | wired_more n z z' z'' : wired_run n z z' -> wired_step z' z'' -> wired_run (S n) z z''.

(** A new connection: nothing was written, and both calls of handle are about to run
    their sessions. *)
Definition wired_new (proto : Protocol) : wired.t :=
  wired.mk (fun p => side.mk (new_at proto p) 0 true) (fun _ => Runs).

(** Nothing goes wrong next: no call of handle panics, and what a side can read is a
    message that its session takes. *)
Definition wired_healthy (z : wired.t) : Prop := forall p,
  (exists ph s, handle_step (ends (progs p)) (wired.phase z p) (wired_session z p) = Ok (Ret ph, s)) /\
  (forall fin msg n, next_message (wired.sides z) p fin = Ok (msg, n) ->
     exists s, receive_at progs p msg (wired_session z p) = Ok (Ret tt, s)).

(** * They are executions of the system of System.v *)

Definition apps_of (p : Perspective) : Application := app_of (progs p).

(** A call of the session is an event of it, whatever it answers. *)
Lemma call_event {A} (m : SM A) (k : ret A -> handle_phase) ev s ph' s' :
  is_local ev = true -> event_typed ev ->
  (forall (Ap : Application) r s1, m s = Ok (r, s1) -> exists r', run_event (App := Ap) ev s = Ok (r', s1)) ->
  (r <- attempt m; mret (k r)) s = Ok (Ret ph', s') ->
  s' = s \/ exists ev, is_local ev = true /\ event_typed ev /\
    forall Ap : Application, exists r, run_event (App := Ap) ev s = Ok (r, s').
Proof.
  intros Hl Ht Hev H. right. exists ev. split; [done|]. split; [done|]. intros Ap.
  unfold gm_bind, attempt in H. destruct (m s) as [[r s1]| | |] eqn:E; [|done..].
  injection H as _ <-. by apply (Hev Ap r).
Qed.

Lemma ignored {A} (m : SM A) s r s1 : m s = Ok (r, s1) -> exists r', ignore m s = Ok (r', s1).
Proof. intros E. unfold ignore, gm_bind. rewrite E. destruct r; by eexists. Qed.

(** A step of handle is an event of its session, or changes nothing. *)
Lemma handle_step_event e ph s ph' s' :
  handle_step e ph s = Ok (Ret ph', s') ->
  s' = s \/ exists ev, is_local ev = true /\ event_typed ev /\
    forall Ap : Application, exists r, run_event (App := Ap) ev s = Ok (r, s').
Proof.
  destruct ph as [| | |a| |rt|r]; cbn [handle_step].
  - apply (call_event Run_start _ Starts); [done..|]. intros Ap r s1 E. by exists r.
  - intros [= _ <-]. by left.
  - destruct (endpoint.publish e); [|intros [= _ <-]; by left].
    apply (call_event _ _ (Calls (CallAnnounce (endpoint.namespace e)))); [done..|]. intros Ap. apply ignored.
  - apply (call_event _ _ (Calls (CallAnnounceWait a None))); [done..|]. intros Ap. apply ignored.
  - destruct (endpoint.subscribe e); [|intros [= _ <-]; by left].
    apply (call_event _ _ (Calls (CallSubscribe (endpoint.namespace e) (endpoint.trackname e) []))); [done|constructor|].
    intros Ap. apply ignored.
  - apply (call_event _ _ (Calls (CallSubscribeWait rt None))); [done..|]. intros Ap. apply ignored.
  - intros [= _ <-]. by left.
Qed.

(** The system of a state, up to the order in which its parts are written. *)
Definition embeds (sy : system) (z : wired.t) : Prop := forall p, sy p = wired.sides z p.

Lemma embeds_session sy z p : embeds sy z -> session_of sy p = wired_session z p.
Proof. intros H. unfold wired_session, session_of. by rewrite H. Qed.

Lemma embeds_update sy z p x ph : embeds sy z -> embeds (update p x sy) (wired.mk (update p x (wired.sides z)) ph).
Proof. intros H q. unfold update. cbn. by destruct (decide (q = p)). Qed.

Lemma embeds_next sy z p fin : embeds sy z -> next_message sy p fin = next_message (wired.sides z) p fin.
Proof. intros H. unfold next_message, unread, session_of. by rewrite !H. Qed.

Lemma embeds_step sy z z' :
  embeds sy z -> wired_step z z' -> exists sy', (sy' = sy \/ system_step apps_of sy sy') /\ embeds sy' z'.
Proof.
  intros He Hs. destruct Hs as [p ph s H Hne|p fin msg n r s Hph Hrd Hn H].
  - destruct (handle_step_event _ _ _ _ _ H) as [->|(ev & Hl & Ht & Hev)].
    + exists sy. split; [by left|]. intros q. rewrite He. unfold update. cbn.
      destruct (decide (q = p)) as [->|]; [|done]. unfold wired_session, session_of. by destruct (wired.sides z p).
    + destruct (Hev (apps_of p)) as [r Hr]. rewrite <- (embeds_session sy z p He) in Hr.
      eexists. split; [right; by eapply step_local|]. rewrite He. by apply embeds_update.
  - eexists. split.
    + right. eapply step_deliver; [by rewrite He|by rewrite (embeds_next sy z p fin He)|].
      rewrite (embeds_session sy z p He). exact H.
    + rewrite He. by apply embeds_update.
Qed.

Lemma wired_reaches proto n z :
  wired_run n (wired_new proto) z -> exists sy, system_reachable apps_of sy /\ embeds sy z.
Proof.
  intros H. remember (wired_new proto) as z0. induction H as [z|n z0 z z' _ IH Hs]; subst.
  - exists (wired.sides (wired_new proto)). split; [|done]. apply system_start. constructor. intros p.
    exists proto, [], 100, []. split; [done|]. split; [by vm_compute|done].
  - destruct (IH eq_refl) as (sy & Hr & He). destruct (embeds_step sy z z' He Hs) as (sy' & [->|Hst] & He').
    + by exists sy.
    + exists sy'. split; [by eapply system_next|done].
Qed.

(** * They implement queues of messages *)

Context (Happ : forall p, application_typed (apps_of p)).

Lemma wired_inv proto n z : wired_run n (wired_new proto) z -> system_inv apps_of (wired.sides z).
Proof.
  intros H. destruct (wired_reaches proto n z H) as (sy & Hr & He).
  pose proof (system_reachable_inv _ Happ sy Hr) as Hi. intros p. destruct (Hi p) as [Hg Hk].
  rewrite (embeds_session sy z p He), He in *. rewrite (embeds_session sy z (peer p) He) in Hk. done.
Qed.

(** The two programs with queues that a state is a view of. *)
Definition queued (y : pair.t) : queues.t := queues.mk (pair.session y) (pair.inbox y) (fun _ => true).

Definition views (z : wired.t) (y : pair.t) : Prop :=
  represents (wired.sides z) (queued y) /\ forall p, wired.phase z p = pair.phase y p.

Lemma views_new proto : views (wired_new proto) (pair_new proto).
Proof.
  split; [|done]. intros p. split; [done|]. split; [done|]. exists 0%nat. split; [|done].
  constructor; cbn; [lia|by exists []|set_solver|]. by destruct p.
Qed.

Lemma arrives_unique m msg msg' : arrives m msg -> arrives m msg' -> msg' = msg.
Proof. intros (out & Hc & H) (out' & Hc' & H'). simplify_eq. congruence. Qed.

(** What handle makes of the session. *)
Lemma handle_evolves p e ph s ph' s' c k q :
  good_side apps_of p s -> handle_step e ph s = Ok (Ret ph', s') -> linked s c k q ->
  linked s' c k q /\ exists v X, evolves v X s s'.
Proof.
  intros Hg H Hl. destruct (handle_step_event _ _ _ _ _ H) as [->|(ev & Hlo & Ht & Hev)].
  - split; [done|]. by exists 0, ∅.
  - destruct (Hev (apps_of p)) as [r Hr]. destruct (good_event apps_of p ev _ r s' (Happ p) Ht Hg Hr) as [_ He].
    split; [|by eexists _, _]. eapply linked_local; [apply Hg|exact Hl|]. by destruct ev.
Qed.

Lemma views_step z z' y :
  system_inv apps_of (wired.sides z) -> views z y -> healthy progs y -> wired_step z z' ->
  exists y', pair_step progs y y' /\ views z' y'.
Proof.
  intros Hi [Hrep Hph] Hh Hs. destruct Hs as [p ph s H Hne|p fin msg n r s Hr Hrd Hn H];
    destruct (Hi p) as [Hg _]; destruct (Hrep p) as (Hsp & Hrp & k & Hk & Hib);
    cbn [queued queues.session queues.inbox queues.reading] in *; rewrite Hph in *.
  - destruct (handle_evolves p _ _ _ _ _ _ _ _ Hg H Hk) as (Hk' & v & X & He).
    destruct (ev_written _ _ _ _ He) as [new Hw].
    eexists. split; [apply (pair_handles _ y p ph s new); by rewrite ?Hsp|].
    split; [|intros q; cbn; unfold set_at; by destruct (decide (q = p))].
    eapply (represents_update _ (queued y) p (side.mk s _ (side.reading _)) _ new (fun _ => true));
      [exact Hrep|exact He|exact Hw|exact Hk'| | |done|done]; cbn.
    + rewrite set_at_ne by (by destruct p). exact Hib.
    + by rewrite set_at_eq.
  - destruct (next_message_linked apps_of _ p fin msg n k Hi Hn Hk)
      as (m & out & rest & Hm & Hc & _ & Ht & Hin & Hparse & _ & Hlink).
    destruct (good_event apps_of p (Receives msg) _ r s (Happ p) Hin Hg H) as [_ Hev].
    destruct (ev_written _ _ _ _ Hev) as [new Hw].
    assert (pair.inbox y p = m :: drop (S k) (Session.written (session_of (wired.sides z) (peer p)))) as Hib'
      by (rewrite Hib; by apply drop_S).
    assert (arrives m msg) as Ha by (by eapply arrival).
    destruct (proj2 (Hh p) _ _ Hib') as (s1 & Hm1 & Hs1). pose proof (arrives_unique _ _ _ Hm1 Ha) as ->.
    rewrite Hsp in Hs1. unfold wired_session in H. rewrite Hs1 in H. injection H as <- <-.
    eexists. split; [eapply (pair_delivers _ y p m _ m _ s1 new); by rewrite ?Hsp|].
    split; [|done].
    eapply (represents_update _ (queued y) p (side.mk s1 _ _) _ new (fun _ => true));
      [exact Hrep|exact Hev|exact Hw|by apply Hlink| | |done|done]; cbn.
    + rewrite set_at_ne by (by destruct p). by rewrite set_at_eq.
    + by rewrite set_at_eq.
Qed.

(** What can be read is the head of the queue, and the head can be read. *)
Lemma views_next z y p fin msg n :
  system_inv apps_of (wired.sides z) -> views z y -> next_message (wired.sides z) p fin = Ok (msg, n) ->
  exists m ms, pair.inbox y p = m :: ms /\ arrives m msg.
Proof.
  intros Hi [Hrep _] Hn. destruct (Hrep p) as (_ & _ & k & Hk & Hib). cbn in Hib.
  destruct (next_message_linked apps_of _ p fin msg n k Hi Hn Hk) as (m & out & rest & Hm & Hc & _ & Ht & _ & Hparse & _).
  exists m, (drop (S k) (Session.written (session_of (wired.sides z) (peer p)))).
  split; [rewrite Hib; by apply drop_S|by eapply arrival].
Qed.

Lemma views_head z y p m ms msg :
  system_inv apps_of (wired.sides z) -> views z y -> pair.inbox y p = m :: ms -> arrives m msg ->
  exists n, next_message (wired.sides z) p io_EOF = Ok (msg, n).
Proof.
  intros Hi [Hrep _] Hm (out & Hc & Hparse). destruct (Hrep p) as (_ & _ & k & Hk & Hib). cbn in Hib.
  destruct (Hi (peer p)) as [Hq _]. destruct (reachable_inv _ _ (gs_reachable _ _ _ Hq)) as [Hinv _].
  destruct (inv_written _ Hinv) as [bs Hbs]. pose proof (unread_frames _ _ _ _ _ Hk Hbs) as Hu.
  rewrite <- Hib, Hm in Hu. cbn [compile_all] in Hu. rewrite Hc in Hu. cbn [mbind res_bind] in Hu. inv_bind Hu.
  injection Hu as Hu. unfold next_message, unread. rewrite Hbs, <- Hu.
  assert (message_typed m) as Ht.
  { eapply (Forall_lookup_1 _ _ k); [apply (ty_written _ (gs_typed _ _ _ Hq))|].
    by rewrite <- (Nat.add_0_r k), <- lookup_drop, <- Hib, Hm. }
  destruct (compileMessage_cases m (typed_encodable m Ht)) as [Hcase [Hp|[body Hb]]];
    rewrite ?Hp, ?Hb in Hcase; [congruence|]. rewrite Hc in Hcase.
  destruct (Z.gtb_spec (len body) 65535); [congruence|]. injection Hcase as ->.
  rewrite <- (app_nil_r (frame _ body)) in Hparse. rewrite Parse_frame in * by (done || apply Type_bounds).
  destruct (ControlMessage.parse _ body); [|done..]. injection Hparse as ->. by eexists.
Qed.

Lemma views_healthy z y :
  system_inv apps_of (wired.sides z) -> views z y -> healthy progs y -> wired_healthy z.
Proof.
  intros Hi Hv Hh p. destruct (proj1 Hv p) as (Hs & _). cbn in Hs. destruct (Hh p) as [Hhandle Hreceive].
  unfold wired_session. rewrite <- Hs. split; [by rewrite (proj2 Hv p)|]. intros fin msg n Hn.
  destruct (views_next z y p fin msg n Hi Hv Hn) as (m & ms & Hm & Ha).
  destruct (Hreceive m ms Hm) as (s & Hmm & Hr). exists s. by rewrite (arrives_unique _ _ _ Hmm Ha).
Qed.

Lemma views_goes_on z y y' :
  system_inv apps_of (wired.sides z) -> views z y -> pair_step progs y y' -> exists z', wired_step z z'.
Proof.
  intros Hi Hv Hst. destruct Hst as [p ph s new H Hne Hw|p m ms msg r s new Hr Hib Ha H Hw];
    destruct (proj1 Hv p) as (Hs & Hrd & _); cbn in Hs, Hrd; rewrite Hs in *; rewrite <- (proj2 Hv p) in *.
  - eexists. by eapply (wired_handles z p ph s).
  - destruct (views_head z y p m ms msg Hi Hv Hib Ha) as [n Hn]. eexists. by eapply wired_delivers.
Qed.

(** Nothing of what the peer wrote is under way. *)
Lemma views_quiet z y p :
  system_inv apps_of (wired.sides z) -> views z y -> pair.inbox y p = [] -> unread (wired.sides z) p = [].
Proof.
  intros Hi [Hrep _] Hm. destruct (Hrep p) as (_ & _ & k & Hk & Hib). cbn in Hib.
  destruct (Hi (peer p)) as [Hq _]. destruct (reachable_inv _ _ (gs_reachable _ _ _ Hq)) as [Hinv _].
  destruct (inv_written _ Hinv) as [bs Hbs]. pose proof (unread_frames _ _ _ _ _ Hk Hbs) as Hu.
  rewrite <- Hib, Hm in Hu. injection Hu as Hu. unfold unread. by rewrite Hbs.
Qed.

(** * Programs that meet *)

Section Meeting.
Context (pub : Perspective) (M : meeting progs pub) (proto : Protocol).

Lemma wired_views n z :
  wired_run n (wired_new proto) z -> exists y, pair_run progs n (pair_new proto) y /\ views z y.
Proof.
  intros H. remember (wired_new proto) as z0. induction H as [z|n z0 z z' H IH Hs]; subst.
  - exists (pair_new proto). split; [constructor|apply views_new].
  - destruct (IH eq_refl) as (y & Hy & Hv).
    destruct (views_step z z' y (wired_inv proto n z H) Hv (pair_run_healthy progs pub M proto n y Hy) Hs) as (y' & Hst & Hv').
    exists y'. split; [by econstructor|done].
Qed.

(** The end of the exchange: both calls have returned, everything was read, and the
    track is open on both sides, with the alias 0. *)
Record wired_met (z : wired.t) (rt lt : nat) : Prop := {
  wm_publisher : wired.phase z pub = Handled (Ret None);
  wm_subscriber : wired.phase z (peer pub) = Handled (Ret (Some rt));
  wm_read p : unread (wired.sides z) p = [];
  wm_remote : remoteTrackMap.open (Session.remoteTracks (wired_session z (peer pub))) !! subscribe_id pub = Some rt;
  wm_alias : remoteTrackMap.findByTrackAlias (Session.remoteTracks (wired_session z (peer pub))) 0 = Some rt;
  wm_track : Session.remoteHeap (wired_session z (peer pub)) !! rt = Some (subscribed_track pub (track_ok progs pub));
  wm_local : localTrackMap.open (Session.localTracks (wired_session z pub)) !! subscribe_id pub = Some lt;
  wm_served : Session.localHeap (wired_session z pub) !! lt = Some (localTrack.newLocalTrack (subscribe_id pub) 0 true);
  wm_undisturbed p : undisturbed (wired_session z p) }.

Lemma wired_run_met z : wired_run 16 (wired_new proto) z -> exists rt lt, wired_met z rt lt.
Proof.
  intros H. destruct (wired_views 16 z H) as (y & Hy & Hv).
  destruct (pair_run_met progs pub M proto y Hy) as (rt & lt & H1 & H2 & H3 & H4 & H5 & H6 & H7 & H8 & H9).
  pose proof (fun p => proj1 (proj1 Hv p)) as Hs. cbn in Hs. rewrite !Hs in *.
  exists rt, lt. constructor; rewrite ?(proj2 Hv); try done.
  - intros p. by apply (views_quiet z y p (wired_inv proto 16 z H) Hv).
  - intros p. specialize (H9 p). by rewrite Hs in H9.
Qed.

Lemma wired_run_goes_on n z :
  wired_run n (wired_new proto) z -> (n < 16)%nat -> exists z', wired_step z z'.
Proof.
  intros H Hn. destruct (wired_views n z H) as (y & Hy & Hv).
  destruct (pair_run_goes_on progs pub M proto n y Hy Hn) as [y' Hst].
  eapply views_goes_on; [by eapply wired_inv|exact Hv|exact Hst].
Qed.

(** There is a run of every length up to the end. *)
Lemma wired_runs n : (n <= 16)%nat -> exists z, wired_run n (wired_new proto) z.
Proof.
  induction n as [|n IH]; intros Hn; [by eexists; constructor|]. destruct (IH ltac:(lia)) as [z Hz].
  destruct (wired_run_goes_on n z Hz ltac:(lia)) as [z' Hz']. exists z'. by econstructor.
Qed.

End Meeting.

End Streams.

(** The application of a program whose options for SUBSCRIBE_OK are typed. *)
Lemma program_typed (h : program) : options_typed ok_options_typed (ok_options h) -> application_typed (app_of h).
Proof.
  intros Hok. destruct h as [e Ap off options Hoff Htk]. cbn in *. constructor.
  - intros h m Hh. destruct (answers_announcements (Ap := Ap)) as (h' & Hh' & Ha). rewrite Hh in Hh'. injection Hh' as <-.
    rewrite Ha. case_bool_decide; [|done]. split; [|done]. unfold announce_answer. by repeat case_match.
  - intros h m Hh. destruct (answers_subscriptions (Ap := Ap)) as (h' & Hh' & Ha). rewrite Hh in Hh'. injection Hh' as <-.
    rewrite Ha, Hoff. unfold subscribe_answer. destruct (endpoint.publish e); [|done]. by destruct (_ && _).
Qed.

(** * Properties *)

(** C9: A program that publishes a track and a program that subscribes to it meet,
    over the bytes of their control stream.  Their connection is new: from the calls
    of handle on, however the steps of the two calls (Run with the handshake,
    Announce and Subscribe) and the reads of the two halves of the stream are
    interleaved, neither side panics and every message that can be read is one its
    session takes; as long as fewer than sixteen steps were taken there is a next
    one; and after the sixteenth both calls have returned, the publisher's with no
    error, the subscriber's with the track of the subscription, which is open on
    both sides, and all that was written has been read.  At every moment the two
    sessions are a state of the system of two connected sessions. *)
Theorem programs_meet_on_streams {QV : QuicVarint} {QVL : QuicVarintLaws} {MR : MapRange} progs pub proto n z :
  meeting progs pub -> (forall p, options_typed ok_options_typed (ok_options (progs p))) ->
  wired_run progs n (wired_new proto) z ->
  (n <= 16)%nat /\ wired_healthy progs z /\ ((n < 16)%nat -> exists z', wired_step progs z z') /\
  (exists sy, system_reachable (apps_of progs) sy /\ forall p, sy p = wired.sides z p) /\
  (n = 16%nat ->
     exists rt lt, wired.phase z pub = Handled (Ret None) /\ wired.phase z (peer pub) = Handled (Ret (Some rt)) /\
       (forall p, unread (wired.sides z) p = []) /\
       remoteTrackMap.open (Session.remoteTracks (wired_session z (peer pub))) !! subscribe_id pub = Some rt /\
       localTrackMap.open (Session.localTracks (wired_session z pub)) !! subscribe_id pub = Some lt /\
       Session.localHeap (wired_session z pub) !! lt = Some (localTrack.newLocalTrack (subscribe_id pub) 0 true)).
Proof.
  intros M Hok H. pose proof (fun p => program_typed (progs p) (Hok p)) as Happ.
  destruct (wired_views progs Happ pub M proto n z H) as (y & Hy & Hv).
  split; [by eapply pair_run_bound|]. split.
  { apply (views_healthy progs z y); [by eapply wired_inv|done|by eapply pair_run_healthy]. }
  split; [by eapply wired_run_goes_on|]. split; [by eapply wired_reaches|].
  intros ->. destruct (wired_run_met progs Happ pub M proto z H) as (rt & lt & []). by exists rt, lt.
Qed.

(** The programs of Programs.v take their sixteen steps on streams too, and the
    client has its track. *)
Lemma programs_meet_on_streams_witness :
  exists z rt, wired_run ex_programs 16 (wired_new ProtocolQUIC) z /\
    wired.phase z PerspectiveServer = Handled (Ret None) /\
    wired.phase z PerspectiveClient = Handled (Ret (Some rt)).
Proof.
  assert (forall p, options_typed ok_options_typed (ok_options (ex_programs p))) as Hok by (intros []; constructor).
  destruct (wired_runs ex_programs (fun p => program_typed _ (Hok p)) PerspectiveServer ex_meeting ProtocolQUIC 16 (le_n 16))
    as [z Hz].
  destruct (programs_meet_on_streams ex_programs PerspectiveServer ProtocolQUIC 16 z ex_meeting Hok Hz)
    as (_ & _ & _ & _ & Hend).
  destruct (Hend eq_refl) as (rt & lt & Hp & Hs & _). by exists z, rt.
Defined.
