(* ===== verification/SubscriptionEnd.v ===== *)
(** How a subscription ends: RemoteTrack.Close and UNSUBSCRIBE, CloseWithError of its
    writer and SUBSCRIBE_DONE, in any order, with messages of both kinds under way.

    The specification, [ending], has no sessions: the cause that the publisher's
    track was closed with, whether its request is still in the table, how many
    UNSUBSCRIBE are under way and which SUBSCRIBE_DONE, and what the subscriber was
    told.  Two sessions that exchange the bytes of their messages implement it. *)

From Stdlib Require Import String.
From S2P Require Import Prelude VarInt Codec WireTypes Messages ControlMessages Objects Params.
From S2P Require Import Framing ParserSafety Errors State RequestID TrackMaps Tracks Announcements.
From S2P Require Import SessionState Session SessionInv SessionSafety WellTyped Sending Requests Exchanges.
From S2P Require Import Publishers CommandLine System SystemQueue Programs Wired.
Local Open Scope Z_scope.
Local Open Scope go_scope.

(** * The specification *)

(** What the two applications do, and the arrival of the next message at one side. *)
Inductive end_action :=
  | ClosesTrack
  | ClosesWriter (code : Z) (reason : gostring)
  | SendsObject (o : Object.t)
  | ReachesPublisher
  | ReachesSubscriber.

Module ending.
Record t := mk {
  cause : option error;
  removed : bool;
  serving : bool;
  unsubscribes : nat;
  dones : list (Z * gostring);
  ended : option error }.

Definition initial : t := mk None false true 0 [] None.

(** A track that has lost its request answers UNSUBSCRIBE with an error of the
    session, which reads nothing after that. *)
Definition step (a : end_action) (e : t) : ret unit * t :=
  match a with
  | ClosesTrack => (Ret tt, mk (cause e) (removed e) (serving e) (S (unsubscribes e)) (dones e) (ended e))
  | ClosesWriter code reason =>
      let c := cancel (cause e) ErrSubscriptionDone in
      if removed e then (Error errUnknownRequestID, mk c true (serving e) (unsubscribes e) (dones e) (ended e))
      else (Ret tt, mk c true (serving e) (unsubscribes e) (dones e ++ [(code, reason)]) (ended e))
  | SendsObject _ => (match cause e with Some err => Error err | None => Ret tt end, e)
  | ReachesPublisher =>
      if serving e then
        match unsubscribes e with
        | O => (Ret tt, e)
        | S n =>
            if removed e then (Error errUnknownRequestID, mk (cause e) true false n (dones e) (ended e))
            else (Ret tt, mk (cancel (cause e) ErrUnsusbcribed) false true n (dones e) (ended e))
        end
      else (Ret tt, e)
  | ReachesSubscriber =>
      match dones e with
      | [] => (Ret tt, e)
      | (code, reason) :: ds =>
          (Ret tt, mk (cause e) (removed e) (serving e) (unsubscribes e) ds (cancel (ended e) (ErrSubscribeDone code reason)))
      end
  end.

Fixpoint run (acts : list end_action) (e : t) : list (ret unit) * t :=
  match acts with
  | [] => ([], e)
  | a :: acts => let '(r, e) := step a e in let '(rs, e) := run acts e in (r :: rs, e)
  end.

End ending.

(** The first code and reason a list of actions closes the writer with. *)
Fixpoint first_close (acts : list end_action) : option (Z * gostring) :=
  match acts with
  | [] => None
  | ClosesWriter code reason :: _ => Some (code, reason)
  | _ :: acts => first_close acts
  end.

(** SUBSCRIBE_DONE with this code and reason is under way or was received, and there
    is no other. *)
Definition told (d : Z * gostring) (e : ending.t) : Prop :=
  ending.removed e = true /\
  (ending.dones e = [d] /\ ending.ended e = None \/
   ending.dones e = [] /\ ending.ended e = Some (ErrSubscribeDone d.1 d.2)).

Lemma told_step d a e : told d e -> told d (ending.step a e).2.
Proof.
  destruct e as [c rm sv n ds en]. intros [Hr [[Hd He]|[Hd He]]]; cbn in Hr, Hd, He; subst rm ds en;
    destruct a; cbn; repeat case_match; simplify_eq/=; unfold told; cbn; eauto 6.
Qed.

Lemma told_run d acts e : told d e -> told d (ending.run acts e).2.
Proof.
  revert e. induction acts as [|a acts IH]; intros e He; [done|]. cbn.
  pose proof (told_step d a e He) as H1. destruct (ending.step a e) as [r e1]. specialize (IH e1 H1).
  by destruct (ending.run acts e1).
Qed.

(** Nobody has closed the writer. *)
Definition untold (e : ending.t) : Prop :=
  ending.removed e = false /\ ending.dones e = [] /\ ending.ended e = None.

Lemma untold_run acts e : untold e ->
  match first_close acts with
  | None => untold (ending.run acts e).2
  | Some d => told d (ending.run acts e).2
  end.
Proof.
  revert e. induction acts as [|a acts IH]; intros e He; [done|]. cbn [ending.run].
  destruct e as [c rm sv n ds en]. destruct He as (Hr & Hd & Hn). cbn in Hr, Hd, Hn. subst rm ds en.
  assert (forall a', first_close (a' :: acts) = first_close acts -> untold (ending.step a' (ending.mk c false sv n [] None)).2 ->
    match first_close (a' :: acts) with
    | None => untold (let '(r, e) := ending.step a' (ending.mk c false sv n [] None) in
                      let '(rs, e) := ending.run acts e in (r :: rs, e)).2
    | Some d => told d (let '(r, e) := ending.step a' (ending.mk c false sv n [] None) in
                        let '(rs, e) := ending.run acts e in (r :: rs, e)).2
    end) as Hgo.
  { intros a' -> H. destruct (ending.step a' _) as [r e1]. specialize (IH e1 H).
    by destruct (first_close acts), (ending.run acts e1). }
  destruct a as [|code reason|o| |]; try (apply Hgo; [done|]; cbn; repeat case_match; by split_and!).
  cbn [first_close ending.step ending.removed].
  match goal with |- context [ending.run acts ?e1] => pose proof (told_run (code, reason) acts e1) as H end.
  destruct (ending.run acts _) as [rs e2]. apply H. split; [done|]. by left.
Qed.

(** A publisher stops reading only when both sides have ended the subscription. *)
Lemma serving_step a e : ending.serving e = true -> ending.serving (ending.step a e).2 = false ->
  (0 < ending.unsubscribes e)%nat /\ ending.removed e = true.
Proof. destruct e as [c [] [] [|n] ds en], a; cbn; repeat case_match; simplify_eq/=; auto with lia. Qed.

Lemma unsubscribes_step a e : (0 < ending.unsubscribes (ending.step a e).2)%nat ->
  (0 < ending.unsubscribes e)%nat \/ a = ClosesTrack.
Proof. destruct e as [c [] [] [|n] ds en], a; cbn; repeat case_match; simplify_eq/=; auto with lia. Qed.

Lemma serving_run acts e : ending.serving e = true -> ending.serving (ending.run acts e).2 = false ->
  (0 < ending.unsubscribes e)%nat \/ ClosesTrack ∈ acts.
Proof.
  revert e. induction acts as [|a acts IH]; intros e He H; [cbn in H; congruence|]. cbn in H.
  pose proof (serving_step a e He) as H1. pose proof (unsubscribes_step a e) as H2.
  destruct (ending.step a e) as [r e1]. cbn in H1, H2. specialize (IH e1).
  destruct (ending.run acts e1) as [rs e2]. cbn in IH, H. destruct (ending.serving e1) eqn:Es.
  - destruct (IH eq_refl H) as [Hu|Hin]; [|right; by apply elem_of_cons; right].
    destruct (H2 Hu) as [|Ha]; [by left|right; rewrite Ha; by apply list_elem_of_here].
  - left. by apply H1.
Qed.

Lemma removed_step a e : (ending.serving e = false -> ending.removed e = true) ->
  ending.serving (ending.step a e).2 = false -> ending.removed (ending.step a e).2 = true.
Proof.
  destruct e as [c rm sv n ds en], a; cbn; intros H; repeat case_match; simplify_eq/=; try done; by intros Hs; rewrite ?H.
Qed.

Lemma removed_run acts e : (ending.serving e = false -> ending.removed e = true) ->
  ending.serving (ending.run acts e).2 = false -> ending.removed (ending.run acts e).2 = true.
Proof.
  revert e. induction acts as [|a acts IH]; intros e He; [done|]. cbn.
  pose proof (removed_step a e He) as H1. destruct (ending.step a e) as [r e1]. specialize (IH e1 H1).
  by destruct (ending.run acts e1).
Qed.

(** * The sessions *)

(** The messages that one side has written and the other has not received;
    [serving]: the publisher's control goroutine reads. *)
Module ends.
Record t := mk {
  publisher : Session.t;
  subscriber : Session.t;
  to_publisher : list ControlMessage;
  to_subscriber : list ControlMessage;
  serving : bool }.
End ends.

Section Ends.
Context {QV : QuicVarint} {QVL : QuicVarintLaws} {MR : MapRange} (Ap As : Application).

(** What the parser makes of the bytes of a message. *)
Definition transmit (m : ControlMessage) : res ControlMessage :=
  out ← compileMessage m;
  '(msg, _) ← ControlMessageParser_Parse (mkReader out io_EOF);
  Ok msg.

(** What a side has written in a call is under way. *)
Definition at_publisher (m : SM unit) (x : ends.t) : res (ret unit * ends.t) :=
  '(r, s) ← m (ends.publisher x);
  Ok (r, ends.mk s (ends.subscriber x) (ends.to_publisher x)
    (ends.to_subscriber x ++ drop (length (Session.written (ends.publisher x))) (Session.written s)) (ends.serving x)).
Definition at_subscriber (m : SM unit) (x : ends.t) : res (ret unit * ends.t) :=
  '(r, s) ← m (ends.subscriber x);
  Ok (r, ends.mk (ends.publisher x) s
    (ends.to_publisher x ++ drop (length (Session.written (ends.subscriber x))) (Session.written s))
    (ends.to_subscriber x) (ends.serving x)).

(** The subscription is that of the publisher's track [lt] and of the subscriber's
    track [rt]. *)
Context (lt rt : nat).

Definition ends_step (a : end_action) (x : ends.t) : res (ret unit * ends.t) :=
  match a with
  | ClosesTrack => at_subscriber (RemoteTrack_Close rt) x
  | ClosesWriter code reason => at_publisher (localTrack_close lt code reason) x
  | SendsObject o => at_publisher (ignore (with_local lt (localTrack.sendDatagram o None))) x
  | ReachesPublisher =>
      if ends.serving x then
        match ends.to_publisher x with
        | [] => Ok (Ret tt, x)
        | m :: ms =>
            msg ← transmit m;
            '(r, x) ← at_publisher (receive (App := Ap) msg)
              (ends.mk (ends.publisher x) (ends.subscriber x) ms (ends.to_subscriber x) true);
            Ok (r, ends.mk (ends.publisher x) (ends.subscriber x) (ends.to_publisher x) (ends.to_subscriber x) (is_ret r))
        end
      else Ok (Ret tt, x)
  | ReachesSubscriber =>
      match ends.to_subscriber x with
      | [] => Ok (Ret tt, x)
      | m :: ms =>
          msg ← transmit m;
          at_subscriber (receive (App := As) msg)
            (ends.mk (ends.publisher x) (ends.subscriber x) (ends.to_publisher x) ms (ends.serving x))
      end
  end.

Fixpoint ends_run (acts : list end_action) (x : ends.t) : res (list (ret unit) * ends.t) :=
  match acts with
  | [] => Ok ([], x)
  | a :: acts => '(r, x) ← ends_step a x; '(rs, x) ← ends_run acts x; Ok (r :: rs, x)
  end.

(** * They implement the specification *)

Context (id : Z) (l : localTrack.t) (t : RemoteTrack.t).

Definition unsubscribe_message : ControlMessage := Unsubscribe (UnsubscribeMessage.mk id).
Definition done_message (d : Z * gostring) : ControlMessage :=
  SubscribeDone (SubscribeDoneMessage.mk id d.1 (localTrack.subgroupCount l) d.2).

(** The request, the track of its writer and the track of its subscriber, as long as
    nobody has ended the subscription. *)
Record subscribed_tracks : Prop := {
  st_id : 0 <= id <= maxVarInt;
  st_local : localTrack.requestID l = id;
  st_callback : localTrack.subscribeDone l = true;
  st_count : 0 <= localTrack.subgroupCount l <= maxVarInt;
  st_alias : 0 <= localTrack.trackAlias l <= maxVarInt;
  st_remote : RemoteTrack.requestID t = id;
  st_unsubscribes : RemoteTrack.unsubscribeFunc t = Unsubscribes }.

Definition done_ok (d : Z * gostring) : Prop := 0 <= d.1 <= maxVarInt /\ len d.2 <= 60000.

(** Codes and objects that a varint can carry, reasons that a message can. *)
Definition action_ok (a : end_action) : Prop :=
  match a with
  | ClosesWriter code reason => done_ok (code, reason)
  | SendsObject o => sendable o
  | _ => True
  end.

Record implements (e : ending.t) (x : ends.t) : Prop := {
  im_publisher : undisturbed (ends.publisher x);
  im_subscriber : undisturbed (ends.subscriber x);
  im_local : Session.localHeap (ends.publisher x) !! lt = Some (localTrack.set_ctx l (ending.cause e));
  im_request : localTrackMap.findByID (Session.localTracks (ends.publisher x)) id =
    if ending.removed e then None else Some lt;
  im_remote : Session.remoteHeap (ends.subscriber x) !! rt = Some (RemoteTrack.set_doneCtx t (ending.ended e));
  im_found : remoteTrackMap.findByRequestID (Session.remoteTracks (ends.subscriber x)) id = Some rt;
  im_to_publisher : ends.to_publisher x = replicate (ending.unsubscribes e) unsubscribe_message;
  im_to_subscriber : ends.to_subscriber x = done_message <$> ending.dones e;
  im_dones : Forall done_ok (ending.dones e);
  im_serving : ends.serving x = ending.serving e }.

Context (Htracks : subscribed_tracks).

Lemma carried_transmits m : carried m -> transmit m = Ok m.
Proof.
  intros Hm. pose proof (proj2 (carried_arrives m m Hm) eq_refl) as (out & Hc & Hp).
  unfold transmit. rewrite Hc. cbn [mbind res_bind]. by rewrite Hp.
Qed.

Lemma unsubscribe_carried : carried unsubscribe_message.
Proof. destruct Htracks. split; [cbn; unfold UnsubscribeMessage.wf; cbn; lia|]. split; [done|by apply fits_Unsubscribe]. Qed.

Lemma done_carried d : done_ok d -> carried (done_message d).
Proof.
  destruct Htracks. intros [Hc Hr]. split; [|split; [done|by apply fits_SubscribeDone]].
  cbn. unfold SubscribeDoneMessage.wf. cbn. lia.
Qed.

(** Looking at a track changes nothing. *)
Lemma look_at_local {A} (f : localTrack.t -> A) s r :
  Session.localHeap s !! lt = Some r -> with_local lt (get f) s = Ok (Ret (f r), s).
Proof. intros H. unfold with_local, get. rewrite H, list_insert_id by done. by destruct s. Qed.
Lemma look_at_remote {A} (f : RemoteTrack.t -> A) s r :
  Session.remoteHeap s !! rt = Some r -> with_remote rt (get f) s = Ok (Ret (f r), s).
Proof. intros H. unfold with_remote, get. rewrite H, list_insert_id by done. by destruct s. Qed.

Lemma close_track_run s d :
  undisturbed s -> Session.remoteHeap s !! rt = Some (RemoteTrack.set_doneCtx t d) ->
  RemoteTrack_Close rt s = Ok (Ret tt, wrote unsubscribe_message s).
Proof.
  destruct Htracks. intros Hu H. unfold RemoteTrack_Close. erewrite run_bind by (by eapply look_at_remote).
  cbn [RemoteTrack.unsubscribeFunc RemoteTrack.requestID RemoteTrack.set_doneCtx]. rewrite st_unsubscribes0, st_remote0.
  apply write_fits; [by apply fits_Unsubscribe|by apply undisturbed_answer].
Qed.

(** The writer's track when it is closed with a cause. *)
Definition caused (c : option error) (s : Session.t) : Session.t :=
  Session.set_localHeap (<[lt := localTrack.set_ctx l c]> (Session.localHeap s)) s.

Lemma delete_find {A} (m : localTrackMap.t A) q :
  localTrackMap.findByID m id = Some q ->
  exists m', localTrackMap.delete m id = (Some q, m') /\ localTrackMap.findByID m' id = None.
Proof.
  intros H. unfold localTrackMap.delete. rewrite H. eexists. split; [done|].
  unfold localTrackMap.findByID. cbn. by rewrite !lookup_delete_eq.
Qed.

Lemma close_writer_run s c code reason :
  undisturbed s -> done_ok (code, reason) -> Session.localHeap s !! lt = Some (localTrack.set_ctx l c) ->
  let s1 := caused (cancel c ErrSubscriptionDone) s in
  match localTrackMap.findByID (Session.localTracks s) id with
  | None => localTrack_close lt code reason s = Ok (Error errUnknownRequestID, s1)
  | Some q => q = lt -> exists m, localTrackMap.findByID m id = None /\
      localTrack_close lt code reason s = Ok (Ret tt, wrote (done_message (code, reason)) (Session.set_localTracks m s1))
  end.
Proof.
  intros Hu [Hcode Hreason] H s1. destruct Htracks. cbn in Hcode, Hreason.
  assert (Session.localHeap s1 !! lt = Some (localTrack.set_ctx l (cancel c ErrSubscriptionDone))) as H1
    by (cbn; apply list_lookup_insert_eq; by apply lookup_lt_Some in H).
  assert (localTrack_close lt code reason s = subscriptionDone id code (localTrack.subgroupCount l) reason s1) as ->.
  { unfold localTrack_close, local_requestID. erewrite run_bind by (by eapply look_at_local).
    unfold with_local, gm_bind. rewrite H. cbn. by rewrite st_callback0, st_local0. }
  unfold subscriptionDone. destruct (localTrackMap.findByID (Session.localTracks s) id) as [q|] eqn:Hf.
  - intros ->. destruct (delete_find _ _ Hf) as (m & Hdel & Hm). exists m. split; [done|].
    rewrite (run_bind _ _ _ (Some lt) (Session.set_localTracks m s1))
      by (unfold on; change (Session.localTracks s1) with (Session.localTracks s); by rewrite Hdel).
    rewrite (run_bind _ _ _ lt (Session.set_localTracks m s1)) by done. unfold local_requestID.
    erewrite run_bind by (by apply look_at_local). cbn [localTrack.requestID localTrack.set_ctx]. rewrite st_local0.
    apply write_fits; [by apply fits_SubscribeDone|]. by apply undisturbed_answer.
  - rewrite (run_bind _ _ _ None s1); [done|]. unfold on.
    change (Session.localTracks s1) with (Session.localTracks s). unfold localTrackMap.delete. rewrite Hf. by destruct s.
Qed.

(** A datagram of the track. *)
Lemma send_run s c o :
  sendable o -> Session.localHeap s !! lt = Some (localTrack.set_ctx l c) ->
  ignore (with_local lt (localTrack.sendDatagram o None)) s =
    Ok (match c with Some err => Error err | None => Ret tt end, s).
Proof.
  intros Ho H. destruct Htracks. destruct (datagram_appended _ o st_alias0 Ho) as (d & Hd & _).
  unfold ignore, with_local, gm_bind. rewrite H.
  unfold localTrack.sendDatagram, localTrack.check_open, localTrack.closed, localTrack.lift_res, mbind, GM_bind, gm_bind.
  destruct c; cbn -[ObjectDatagramMessage.AppendDatagram]; rewrite ?Hd; cbn; rewrite list_insert_id by done; by destruct s.
Qed.

(** UNSUBSCRIBE at the publisher. *)
Lemma unsubscribed_run s c :
  undisturbed s -> Session.localHeap s !! lt = Some (localTrack.set_ctx l c) ->
  match localTrackMap.findByID (Session.localTracks s) id with
  | None => receive (App := Ap) unsubscribe_message s = Ok (Error errUnknownRequestID, s)
  | Some q => q = lt ->
      receive (App := Ap) unsubscribe_message s = Ok (Ret tt, caused (cancel c ErrUnsusbcribed) s)
  end.
Proof.
  intros [Hd _] H. unfold receive. rewrite receive_ready by done. cbn [unsubscribe_message].
  unfold onUnsubscribe, gm_bind, get. cbn [negb UnsubscribeMessage.RequestID]. cbv beta.
  destruct (localTrackMap.findByID (Session.localTracks s) id) as [q|]; [intros ->|done].
  cbn. unfold unsubscribe_local, with_local. by rewrite H.
Qed.

(** SUBSCRIBE_DONE at the subscriber. *)
Lemma done_run s d e :
  undisturbed s -> Session.remoteHeap s !! rt = Some (RemoteTrack.set_doneCtx t e) ->
  remoteTrackMap.findByRequestID (Session.remoteTracks s) id = Some rt ->
  receive (App := As) (done_message d) s = Ok (Ret tt, Session.set_remoteHeap
    (<[rt := RemoteTrack.set_doneCtx t (cancel e (ErrSubscribeDone d.1 d.2))]> (Session.remoteHeap s)) s).
Proof.
  intros [Hd _] H Hf. unfold receive. rewrite receive_ready by done. cbn [done_message].
  unfold onSubscribeDone, gm_bind, get. cbn [negb SubscribeDoneMessage.RequestID]. cbv beta. rewrite Hf. cbn.
  unfold with_remote. by rewrite H.
Qed.

(** ** Each action *)

Lemma undisturbed_caused c s : undisturbed s -> undisturbed (caused c s).
Proof. done. Qed.

Lemma written_more s m : drop (length (Session.written s)) (Session.written (wrote m s)) = [m].
Proof. by rewrite wrote_written, drop_app_length. Qed.

Lemma implements_step a e x :
  action_ok a -> implements e x ->
  exists x', ends_step a x = Ok ((ending.step a e).1, x') /\ implements (ending.step a e).2 x'.
Proof.
  destruct e as [cause removed serving n dones ended], x as [p s tp ts sv].
  intros Ha [Hp Hs Hl Hr Ht Hf Htp Hts Hd Hsv]; cbn in Hp, Hs, Hl, Hr, Ht, Hf, Htp, Hts, Hd, Hsv. subst tp ts sv.
  destruct a as [|code reason|o| |]; cbn [ends_step ending.step ending.cause ending.removed ending.serving
    ending.unsubscribes ending.dones ending.ended ends.serving ends.to_publisher ends.to_subscriber].
  - unfold at_subscriber. cbn [ends.subscriber]. rewrite (close_track_run s ended Hs Ht). cbn [mbind res_bind].
    eexists. split; [done|]. rewrite written_more. split; cbn; autorewrite with wrote; try done.
    + by apply (undisturbed_wrote _ s).
    + by rewrite replicate_cons_app.
  - unfold at_publisher. cbn [ends.publisher]. pose proof (close_writer_run p cause code reason Hp Ha Hl) as Hrun.
    cbv zeta in Hrun. rewrite Hr in Hrun. destruct removed.
    + rewrite Hrun. cbn [mbind res_bind]. eexists. split; [done|].
      split; cbn; try done; [apply list_lookup_insert_eq; by apply lookup_lt_Some in Hl|].
      by rewrite drop_all, app_nil_r.
    + destruct (Hrun eq_refl) as (m & Hm & ->). cbn [mbind res_bind]. eexists. split; [done|].
      change (Session.written p) with
        (Session.written (Session.set_localTracks m (caused (cancel cause ErrSubscriptionDone) p))).
      rewrite written_more. split; cbn; autorewrite with wrote; try done.
      * by apply (undisturbed_wrote _ p).
      * apply list_lookup_insert_eq; by apply lookup_lt_Some in Hl.
      * by rewrite fmap_app.
      * apply Forall_app. split; [done|]. by constructor.
  - unfold at_publisher. cbn [ends.publisher]. rewrite (send_run p cause o Ha Hl). cbn [mbind res_bind].
    eexists. split; [done|]. split; cbn; try done. by rewrite drop_all, app_nil_r.
  - destruct serving; [|by eexists; split; [done|split]].
    destruct n as [|n]; [by eexists; split; [done|split]|]. cbn [replicate].
    rewrite (carried_transmits _ unsubscribe_carried). cbn [mbind res_bind].
    pose proof (unsubscribed_run p cause Hp Hl) as Hrun. rewrite Hr in Hrun. unfold at_publisher. cbn [ends.publisher].
    destruct removed.
    + rewrite Hrun. cbn. eexists. split; [done|]. split; cbn; try done. by rewrite drop_all, app_nil_r.
    + rewrite (Hrun eq_refl). cbn. eexists. split; [done|]. split; cbn; try done.
      * apply list_lookup_insert_eq; by apply lookup_lt_Some in Hl.
      * by rewrite drop_all, app_nil_r.
  - destruct dones as [|[code reason] ds]; [by eexists; split; [done|split]|]. cbn [fmap list_fmap].
    apply list.Forall_cons_1 in Hd as [Hd1 Hd].
    rewrite (carried_transmits _ (done_carried _ Hd1)). cbn [mbind res_bind].
    unfold at_subscriber. cbn [ends.subscriber]. rewrite (done_run s (code, reason) ended Hs Ht Hf). cbn [mbind res_bind].
    eexists. split; [done|]. split; cbn; try done.
    + apply list_lookup_insert_eq; by apply lookup_lt_Some in Ht.
    + by rewrite drop_all, app_nil_r.
Qed.

Lemma implements_run acts e x :
  Forall action_ok acts -> implements e x ->
  exists x', ends_run acts x = Ok ((ending.run acts e).1, x') /\ implements (ending.run acts e).2 x'.
Proof.
  intros Hacts. revert e x. induction Hacts as [|a acts Ha _ IH]; intros e x Hx; [by exists x|].
  destruct (implements_step a e x Ha Hx) as (x1 & H1 & Hx1). cbn [ends_run ending.run].
  destruct (ending.step a e) as [r e1]. cbn in H1, Hx1. rewrite H1. cbn [mbind res_bind].
  destruct (IH e1 x1 Hx1) as (x2 & H2 & Hx2). destruct (ending.run acts e1) as [rs e2]. cbn in H2, Hx2.
  rewrite H2. cbn [mbind res_bind]. by exists x2.
Qed.

End Ends.

(** * The subscription of two programs *)

Section Meeting.
Context {QV : QuicVarint} {QVL : QuicVarintLaws} {MR : MapRange} (progs : Perspective -> program).
Context (Happ : forall p, application_typed (apps_of progs p)) (pub : Perspective) (M : meeting progs pub).

(** The tracks of the two sides as the programs have left them. *)
Definition met_local : localTrack.t := localTrack.newLocalTrack (subscribe_id pub) 0 true.
Definition met_remote : RemoteTrack.t := subscribed_track pub (track_ok progs pub).

Lemma met_tracks : subscribed_tracks (subscribe_id pub) met_local met_remote.
Proof. pose proof (announce_id_range (peer pub)). split; try done; vm_compute; split; discriminate. Qed.

(** The sessions after the exchange, with nothing under way. *)
Definition met_ends (z : wired.t) : ends.t := ends.mk (wired_session z pub) (wired_session z (peer pub)) [] [] true.

Lemma met_implements proto z rt lt :
  wired_run progs 16 (wired_new proto) z -> wired_met progs pub z rt lt ->
  implements lt rt (subscribe_id pub) met_local met_remote ending.initial (met_ends z).
Proof.
  intros Hz [_ _ _ Hremote _ Htrack Hlocal Hserved Hu].
  destruct (wired_inv progs Happ proto 16 z Hz pub) as [Hg _].
  destruct (reachable_inv _ _ (gs_reachable _ _ _ Hg)) as [Hi _].
  split; cbn; try done.
  - unfold localTrackMap.findByID. pose proof (inv_local _ Hi) as Hwf.
    destruct (localTrackMap.pending _ !! subscribe_id pub) as [q|] eqn:E; [|exact Hlocal]. exfalso.
    by eapply (proj1 (map_disjoint_spec _ _) Hwf (subscribe_id pub) q lt).
  - unfold remoteTrackMap.findByRequestID. by rewrite Hremote.
Qed.

End Meeting.

(** * Properties *)

(** C13: How a subscription ends.  The programs have met; from then on the
    subscriber may close its track and the publisher its writer, as often as they
    like, the publisher goes on sending objects, and UNSUBSCRIBE and SUBSCRIBE_DONE
    arrive, as the bytes of their messages, in any order.  No call panics, and the
    answers of all calls, the cause of the publisher's track, the tables and what the
    subscriber's track is done with are those of the specification [ending].  In
    particular the subscriber is told the code and reason of the first close of the
    writer, once, and of nothing else, not of the end of its own track; and the
    publisher's session stops reading, with errUnknownRequestID, exactly when an
    UNSUBSCRIBE arrives after the writer was closed: when both sides have ended the
    subscription. *)
Theorem subscription_end_refines {QV : QuicVarint} {QVL : QuicVarintLaws} {MR : MapRange} progs pub proto z acts :
  meeting progs pub -> (forall p, options_typed ok_options_typed (ok_options (progs p))) ->
  wired_run progs 16 (wired_new proto) z -> Forall action_ok acts ->
  exists rt lt x, let '(answers, e) := ending.run acts ending.initial in
    wired.phase z (peer pub) = Handled (Ret (Some rt)) /\
    localTrackMap.open (Session.localTracks (wired_session z pub)) !! subscribe_id pub = Some lt /\
    ends_run (apps_of progs pub) (apps_of progs (peer pub)) lt rt acts (met_ends pub z) = Ok (answers, x) /\
    Session.localHeap (ends.publisher x) !! lt = Some (localTrack.set_ctx (met_local pub) (ending.cause e)) /\
    localTrackMap.findByID (Session.localTracks (ends.publisher x)) (subscribe_id pub) =
      (if ending.removed e then None else Some lt) /\
    Session.remoteHeap (ends.subscriber x) !! rt = Some (RemoteTrack.set_doneCtx (met_remote progs pub) (ending.ended e)) /\
    ends.serving x = ending.serving e /\
    match first_close acts with
    | None => ending.removed e = false /\ ending.ended e = None
    | Some (code, reason) => ending.removed e = true /\
        (ending.ended e = None \/ ending.ended e = Some (ErrSubscribeDone code reason))
    end /\
    (ending.serving e = false -> ClosesTrack ∈ acts /\ is_Some (first_close acts)).
Proof.
  intros M Hok Hz Hacts. pose proof (fun p => program_typed (progs p) (Hok p)) as Happ.
  destruct (wired_run_met progs Happ pub M proto z Hz) as (rt & lt & Hmet).
  pose proof (met_implements progs Happ pub proto z rt lt Hz Hmet) as Him.
  destruct (implements_run (apps_of progs pub) (apps_of progs (peer pub)) lt rt _ _ _ (met_tracks progs pub) acts
    ending.initial _ Hacts Him) as (x & Hrun & [_ _ Hl Hr Ht _ _ _ _ Hs]).
  pose proof (untold_run acts ending.initial ltac:(done)) as Htold.
  pose proof (serving_run acts ending.initial eq_refl) as Hserve.
  pose proof (removed_run acts ending.initial ltac:(done)) as Hrem.
  exists rt, lt, x. destruct (ending.run acts ending.initial) as [answers e]. cbn in *.
  destruct Hmet as [_ Hph _ _ _ _ Hlocal _ _]. do 7 (split; [done|]). split.
  - destruct (first_close acts) as [[code reason]|]; [|by destruct Htold as (? & _ & ?)].
    destruct Htold as [Hr1 [[_ He]|[_ He]]]; auto.
  - intros Hn. split; [destruct (Hserve Hn) as [|]; [lia|done]|].
    destruct (first_close acts) as [d|]; [done|]. destruct Htold as (Hf & _). by rewrite (Hrem Hn) in Hf.
Qed.

(** ** At a concrete input *)

(** The publisher closes the writer while the subscriber closes its track: the
    subscriber is told, and the UNSUBSCRIBE that crosses the SUBSCRIBE_DONE ends the
    session of the publisher. *)
Definition ex_crossing : list end_action :=
  [SendsObject (Object.mk 0 0 0 0 []); ClosesWriter 3 (str "over"); ClosesTrack; ReachesSubscriber; ReachesPublisher].

Lemma subscription_end_refines_witness :
  exists z rt lt x,
    ends_run (apps_of ex_programs PerspectiveServer) (apps_of ex_programs PerspectiveClient) lt rt ex_crossing
      (met_ends PerspectiveServer z) = Ok ([Ret tt; Ret tt; Ret tt; Ret tt; Error errUnknownRequestID], x) /\
    ends.serving x = false /\
    RemoteTrack.doneCtx <$> (Session.remoteHeap (ends.subscriber x) !! rt) = Some (Some (ErrSubscribeDone 3 (str "over"))).
Proof.
  assert (forall p, options_typed ok_options_typed (ok_options (ex_programs p))) as Hok by (intros []; constructor).
  destruct (wired_runs ex_programs (fun p => program_typed _ (Hok p)) PerspectiveServer ex_meeting ProtocolQUIC 16 (le_n 16))
    as [z Hz].
  destruct (subscription_end_refines ex_programs PerspectiveServer ProtocolQUIC z ex_crossing ex_meeting Hok Hz)
    as (rt & lt & x & _ & _ & Hrun & _ & _ & Hr & Hs & _).
  - repeat constructor; vm_compute; discriminate.
  - exists z, rt, lt, x. split; [exact Hrun|]. split; [exact Hs|].
    exact (f_equal (fun o => RemoteTrack.doneCtx <$> o) Hr).
Defined.
