(* ===== verification/Receiving.v ===== *)
(** A client that receives while a loop reads: its session pushes the objects of
    datagrams, or of streams, to a track of its store, and a goroutine of the
    application reads the same track.  However the two are interleaved, the objects
    are processed in the order of arrival, and none is lost as long as the loop
    keeps up. *)

From S2P Require Import Prelude VarInt Codec WireTypes Objects Errors State TrackMaps Tracks.
From S2P Require Import SessionState Session Xor Lifecycle Publishers Counter CounterApp XorCounter Subscriptions.
Local Open Scope Z_scope.
Local Open Scope go_scope.

(** * The interface of a loop *)

(** A loop over ReadObject: its state [X] holds the track; [loop_read] is the call
    that returns with the first object of the buffer, and what the loop does until
    it calls ReadObject again; [process] is what it makes of an object; [waits]:
    it is in ReadObject. *)
Class Reader (X : Type) := {
  loop_track : X -> RemoteTrack.t;
  set_loop_track : RemoteTrack.t -> X -> X;
  loop_read : X -> res X;
  process : Object.t -> X -> res X;
  waits : X -> Prop;
}.

(** The track is a field, which [process] neither reads nor changes; a read takes
    the first object of the buffer and processes it, or blocks. *)
Class ReaderLaws (X : Type) `{Reader X} : Prop := {
  loop_track_set rt (x : X) : loop_track (set_loop_track rt x) = rt;
  set_loop_track_twice rt rt' (x : X) : set_loop_track rt (set_loop_track rt' x) = set_loop_track rt x;
  set_loop_track_id (x : X) : set_loop_track (loop_track x) x = x;
  waits_set rt (x : X) : waits x -> waits (set_loop_track rt x);
  process_set o rt (x y : X) : process o x = Ok y -> process o (set_loop_track rt x) = Ok (set_loop_track rt y);
  loop_reads o os (x y : X) :
    waits x -> RemoteTrack.doneCtx (loop_track x) = None -> RemoteTrack.buffer (loop_track x) = o :: os ->
    process o x = Ok y ->
    loop_read x = Ok (set_loop_track (RemoteTrack.set_buffer (loop_track x) os) y) /\ waits y;
  loop_blocks (x : X) :
    waits x -> RemoteTrack.buffer (loop_track x) = [] -> loop_read x = Ok x;
}.

(** ** The subscribers of the counter applications *)

(** Besides the laws of [SubscriberLaws]: processing an object does not look at the
    track. *)
Class TrackBlind (S : Type) `{SubscriberLaws S} : Prop := {
  process_track o r (s : S) a s' :
    processObject o s = Ok (a, s') -> processObject o (set_remoteTrack r s) = Ok (a, set_remoteTrack r s');
}.

#[export] Instance CounterSubscriber_blind : TrackBlind CounterSubscriber.t.
Proof.
  split. intros o r s a s'. cbn. unfold CounterSubscriber.processObject.
  destruct (parseCounterValue _); by intros [= <- <-].
Qed.

#[export] Instance XORCounterSubscriber_blind {MR : MapRange} : TrackBlind XORCounterSubscriber.t.
Proof.
  split. intros o r s a s'. cbn. unfold XORCounterSubscriber.processObject.
  destruct (unwrapMetadata _) as [[[[b seq] isParity] payload]|e]; [|by intros [= <- <-]].
  cbn. destruct (xor.TryDecode _ _ _ _ _) as [[[p|] rec] d]; [|by intros [= <- <-]].
  unfold XORCounterSubscriber.process_payload. destruct (parseCounterValue p); [|by intros [= <- <-]].
  unfold XORCounterSubscriber.cleanup. cbn. destruct (_ =? 0); by intros [= <- <-].
Qed.

Section Subscribers.
Context {S : Type} `{HS : SubscriberLaws S}.

Lemma set_track_twice rt rt' (s : S) : set_remoteTrack rt (set_remoteTrack rt' s) = set_remoteTrack rt s.
Proof.
  assert (forall (t : S) rt, set_runner (runner t) (set_remoteTrack rt t) = set_remoteTrack rt t) as Hid.
  { intros t rt0. by rewrite <- (runner_set_track rt0 t), set_runner_id. }
  pose proof (set_set (runner s) rt (runner s) rt' s) as E. rewrite !Hid in E.
  pose proof (Hid (set_remoteTrack rt' s) rt) as E'. rewrite runner_set_track in E'. by rewrite E' in E.
Qed.

Lemma process_runner o (s : S) a s' : processObject o s = Ok (a, s') -> runner s' = runner s.
Proof. intros E. destruct (processObject_returns o s) as (r & s1 & E1 & Hr & _). rewrite E in E1. by injection E1 as _ ->. Qed.

(** The loop of Counter.v, when neither its context is cancelled nor Stop called. *)
#[export] Instance subscription_reader : Reader (subscription.t S) := {|
  loop_track x := remoteTrack (subscription.sub x);
  set_loop_track rt x := subscription.set_sub (set_remoteTrack rt (subscription.sub x)) x;
  loop_read := subscriber_step (ReadReturns RemoteTrack.FromBuffer);
  process o x := '(_, s) ← processObject o (subscription.sub x); Ok (subscription.set_sub s x);
  waits x := subscription.ctx x = None /\ subscription.reading x = true /\
    Runner.stopChan (runner (subscription.sub x)) = false;
|}.

#[export] Instance subscription_reader_laws `{HB : !TrackBlind S} : ReaderLaws (subscription.t S).
Proof.
  split; cbn.
  - intros rt x. apply track_set.
  - intros rt rt' x. unfold subscription.set_sub. cbn. by rewrite set_track_twice.
  - intros [s ctx reading started]. unfold subscription.set_sub. cbn. by rewrite set_track_id.
  - intros rt x (Hc & Hr & Hs). by rewrite runner_set_track.
  - intros o rt x y. destruct (processObject o (subscription.sub x)) as [[a s]| | |] eqn:E; try done.
    intros [= <-]. rewrite (process_track o rt _ _ _ E). done.
  - intros o os [s ctx reading started] y (Hc & Hr & Hs) Hd Hb. cbn in *. subst ctx reading.
    destruct (processObject o s) as [[a s']| | |] eqn:E; try done. intros [= <-].
    pose proof (process_runner o s a s' E) as Hrun. unfold loop_body, RemoteTrack.ReadObject.
    cbn [subscription.sub subscription.ctx]. rewrite Hb, Hd.
    rewrite (process_track o _ s a s' E). cbn [mbind res_bind]. unfold loop_head, subscription.set_sub. cbn.
    by rewrite runner_set_track, Hrun, Hs.
  - intros [s ctx reading started] (Hc & Hr & Hs) Hb. cbn in *. subst ctx reading.
    unfold loop_body, RemoteTrack.ReadObject. cbn [subscription.sub]. by rewrite Hb.
Qed.

End Subscribers.

(** * What arrives *)

(** How the session takes what arrives, [input]; the object it pushes to the track
    with an alias, [delivered]; and that it does. *)
Class Input `{MapRange} {QV : QuicVarint} := {
  input : list byte -> SM unit;
  delivered : Z -> list byte -> option Object.t;
  input_pushes alias d o s rt r :
    delivered alias d = Some o ->
    remoteTrackMap.findByTrackAlias (Session.remoteTracks s) alias = Some rt ->
    Session.remoteHeap s !! rt = Some r ->
    exists r', input d s = Ok (Ret tt, Session.set_remoteHeap (<[rt := r']> (Session.remoteHeap s)) s) /\
      RemoteTrack.buffer r' = RemoteTrack.buffer (RemoteTrack.push o r) /\
      RemoteTrack.doneCtx r' = RemoteTrack.doneCtx r;
}.

(** The parser of a stream gives the same with more fuel. *)
Lemma Messages_more {QV : QuicVarint} fuel fuel' p ms e :
  ObjectStreamParser.Messages fuel p = (ms, Err e) -> (fuel <= fuel')%nat ->
  ObjectStreamParser.Messages fuel' p = (ms, Err e).
Proof.
  revert fuel' p ms. induction fuel as [|fuel IH]; intros [|fuel'] p ms H Hle; try done; [lia|].
  cbn [ObjectStreamParser.Messages] in *. destruct (ObjectStreamParser.Parse p) as [[m p']| | |]; try done.
  destruct (ObjectStreamParser.Messages fuel p') as [ms' e'] eqn:E. injection H as <- ->.
  by rewrite (IH fuel' p' ms' E) by lia.
Qed.

Section Inputs.
Context {MR : MapRange} {QV : QuicVarint}.

Lemma datagram_pushes alias d o s rt r :
  received_datagram alias d = Some o ->
  remoteTrackMap.findByTrackAlias (Session.remoteTracks s) alias = Some rt ->
  Session.remoteHeap s !! rt = Some r ->
  exists r', read_datagram d s = Ok (Ret tt, Session.set_remoteHeap (<[rt := r']> (Session.remoteHeap s)) s) /\
    RemoteTrack.buffer r' = RemoteTrack.buffer (RemoteTrack.push o r) /\
    RemoteTrack.doneCtx r' = RemoteTrack.doneCtx r.
Proof.
  intros Hd Hal Hh. exists (RemoteTrack.push o r). split; [by apply (read_datagram_pushes alias)|].
  split; [done|]. unfold RemoteTrack.push. by destruct (_ <? _)%nat.
Qed.

(** A datagram that arrives before the SUBSCRIBE_OK of its track: no track has its
    alias, and the loop of readDatagrams ends. *)
Lemma early_datagram alias d o c :
  received_datagram alias d = Some o ->
  remoteTrackMap.findByTrackAlias (Session.remoteTracks c) alias = None ->
  read_datagram d c = Ok (Error errUnknownTrackAlias, c).
Proof.
  intros Hd Hal. unfold received_datagram in Hd. unfold read_datagram, localTrack.lift_res.
  destruct (ObjectDatagramMessage.Parse _ _ _) as [[[m n] [e|]]| | |]; try discriminate Hd.
  unfold gm_bind at 1. unfold receiveDatagram. destruct (Z.eqb_spec (ObjectDatagramMessage.TrackAlias m) alias)
    as [->|]; [|done]. unfold gm_bind, get, of_option. by rewrite Hal.
Qed.

Definition datagram_input : Input := {| input := read_datagram; input_pushes := datagram_pushes |}.

(** The goroutine of a stream that readStreams has accepted; the stream is read to
    its end, and an error only ends the goroutine. *)
Definition read_stream (bs : list byte) : SM unit := fun s =>
  match ObjectStreamParser.NewObjectStreamParser (mkReader bs io_EOF) with
  | Ok p =>
      match handleUniStream p (ObjectStreamParser.Messages (S (length bs)) p) s with
      | Ok (_, s) => Ok (Ret tt, s)
      | Err e => Err e
      | Panic => Panic
      | NoFuel => NoFuel
      end
  | Err _ => Ok (Ret tt, s)
  | Panic => Panic
  | NoFuel => NoFuel
  end.

(** A stream with one object of the track with an alias. *)
Definition received_stream (alias : Z) (bs : list byte) : option Object.t :=
  match ObjectStreamParser.NewObjectStreamParser (mkReader bs io_EOF) with
  | Ok p =>
      if (ObjectStreamParser.Type_ p =? StreamTypeFetch) || negb (ObjectStreamParser.Identifier p =? alias) then None
      else match ObjectStreamParser.Messages (S (length bs)) p with
           | ([m], Err e) => if bool_decide (e = io_EOF) then Some (RemoteTrack.object_of m) else None
           | _ => None
           end
  | _ => None
  end.

Lemma stream_pushes alias bs o s rt r :
  received_stream alias bs = Some o ->
  remoteTrackMap.findByTrackAlias (Session.remoteTracks s) alias = Some rt ->
  Session.remoteHeap s !! rt = Some r ->
  exists r', read_stream bs s = Ok (Ret tt, Session.set_remoteHeap (<[rt := r']> (Session.remoteHeap s)) s) /\
    RemoteTrack.buffer r' = RemoteTrack.buffer (RemoteTrack.push o r) /\
    RemoteTrack.doneCtx r' = RemoteTrack.doneCtx r.
Proof.
  intros Hd Hal Hh. unfold received_stream, read_stream in *.
  destruct (ObjectStreamParser.NewObjectStreamParser _) as [p| | |]; try done.
  unfold handleUniStream. destruct (ObjectStreamParser.Type_ p =? StreamTypeFetch); [done|]. cbn [orb] in Hd.
  destruct (Z.eqb_spec (ObjectStreamParser.Identifier p) alias) as [Hid|]; [|done]. cbn [negb] in Hd.
  destruct (ObjectStreamParser.Messages _ p) as [[|m [|]] [x|e| |]]; try done.
  case_bool_decide; [|done]. injection Hd as <-. subst e.
  exists (RemoteTrack.push (RemoteTrack.object_of m)
    (RemoteTrack.set_counts r (uint64 (RemoteTrack.subGroupCount r + 1)) (RemoteTrack.fetchCount r))).
  split; [|unfold RemoteTrack.push, RemoteTrack.set_counts; by destruct (_ <? _)%nat].
  unfold readSubgroupStream, gm_bind, get, of_option, with_remote. rewrite Hid, Hal. cbn. rewrite Hh.
  unfold RemoteTrack.readSubgroupStream, RemoteTrack.readStream, gm_bind, mbind, GM_bind, modify. cbn.
  by rewrite bool_decide_eq_true_2.
Qed.

(** A stream that arrives before the SUBSCRIBE_OK of its track is dropped: only its
    goroutine ends. *)
Lemma early_stream alias bs o c :
  received_stream alias bs = Some o ->
  remoteTrackMap.findByTrackAlias (Session.remoteTracks c) alias = None ->
  read_stream bs c = Ok (Ret tt, c).
Proof.
  intros Hd Hal. unfold received_stream, read_stream in *.
  destruct (ObjectStreamParser.NewObjectStreamParser _) as [p| | |]; try done.
  unfold handleUniStream. destruct (ObjectStreamParser.Type_ p =? StreamTypeFetch); [done|]. cbn [orb] in Hd.
  destruct (Z.eqb_spec (ObjectStreamParser.Identifier p) alias) as [Hid|]; [|done].
  unfold readSubgroupStream, gm_bind, get, of_option. by rewrite Hid, Hal.
Qed.

Definition stream_input : Input := {| input := read_stream; input_pushes := stream_pushes |}.

End Inputs.

(** * The client *)

Module client.
Record t (X : Type) := mk { session : Session.t; loop : X }.
Arguments mk {X} session loop.
Arguments session {X} _.
Arguments loop {X} _.
End client.

(** A datagram or a stream has arrived, or ReadObject returns in the loop. *)
Inductive client_event := Arrives (d : list byte) | Reads.

Definition arrivals (es : list client_event) : list (list byte) :=
  omap (fun e => match e with Arrives d => Some d | Reads => None end) es.

(** The loop keeps up with [n] objects in the buffer of the track: it is never full
    when something comes, and empty at the end. *)
Fixpoint keeps_up (n : nat) (es : list client_event) : bool :=
  match es with
  | [] => (n =? 0)%nat
  | Arrives _ :: es => (n <? buffer_capacity)%nat && keeps_up (S n) es
  | Reads :: es => keeps_up (pred n) es
  end.

Section Client.
Context {QV : QuicVarint} {MR : MapRange} (I : Input) {X : Type} {HR : Reader X} (rt : nat).

(** The track [rt] of the store is the one that the loop reads: what one side does to
    it the other sees. *)
Definition client_step (e : client_event) (c : client.t X) : res (client.t X) :=
  let x := client.loop c in
  match e with
  | Arrives d =>
      match input d (client.session c) with
      | Ok (Ret _, s) =>
          match Session.remoteHeap s !! rt with
          | Some track => Ok (client.mk s (set_loop_track track x))
          | None => Panic
          end
      | Ok (Error e, _) => Err e
      | Err e => Err e
      | Panic => Panic
      | NoFuel => NoFuel
      end
  | Reads =>
      x ← loop_read x;
      let s := client.session c in
      Ok (client.mk (Session.set_remoteHeap (<[rt := loop_track x]> (Session.remoteHeap s)) s) x)
  end.

Fixpoint client_run (es : list client_event) (c : client.t X) : res (client.t X) :=
  match es with
  | [] => Ok c
  | e :: es => c ← client_step e c; client_run es c
  end.

(** The loop given objects one after the other. *)
Fixpoint process_all (os : list Object.t) (x : X) : res X :=
  match os with
  | [] => Ok x
  | o :: os => x ← process o x; process_all os x
  end.

(** A client whose loop waits, with the objects [os] in the buffer. *)
Record receiving (alias : Z) (os : list Object.t) (c : client.t X) : Prop := {
  rc_alias : remoteTrackMap.findByTrackAlias (Session.remoteTracks (client.session c)) alias = Some rt;
  rc_shared : Session.remoteHeap (client.session c) !! rt = Some (loop_track (client.loop c));
  rc_buffer : RemoteTrack.buffer (loop_track (client.loop c)) = os;
  rc_open : RemoteTrack.doneCtx (loop_track (client.loop c)) = None;
  rc_waits : waits (client.loop c) }.

(** Two loops that differ in the track only. *)
Definition alike (x y : X) : Prop := forall r, set_loop_track r x = set_loop_track r y.

Context {HL : ReaderLaws X}.

Lemma client_receives alias d o os c :
  delivered alias d = Some o -> (length os < buffer_capacity)%nat -> receiving alias os c ->
  exists c', client_step (Arrives d) c = Ok c' /\ receiving alias (os ++ [o]) c' /\
    alike (client.loop c') (client.loop c).
Proof.
  intros Hd Hlen [Ha Hsh Hb Ho Hw]. unfold client_step.
  destruct (input_pushes alias d o _ rt _ Hd Ha Hsh) as (r' & E & Hb' & Ho'). rewrite E.
  cbn [Session.remoteHeap Session.set_remoteHeap].
  rewrite list_lookup_insert_eq by (by apply lookup_lt_Some in Hsh).
  eexists. split; [done|]. split; [|intros r; cbn; by rewrite set_loop_track_twice].
  unfold RemoteTrack.push in Hb'. rewrite Hb in Hb'.
  replace (length os <? buffer_capacity)%nat with true in Hb' by (symmetry; by apply Nat.ltb_lt).
  split; cbn; rewrite ?loop_track_set; try done; [|by rewrite Ho'|by apply waits_set].
  apply list_lookup_insert_eq. by apply lookup_lt_Some in Hsh.
Qed.

(** A read takes the first object and processes it. *)
Lemma client_reads alias o os y c :
  process o (client.loop c) = Ok y -> receiving alias (o :: os) c ->
  exists c', client_step Reads c = Ok c' /\ receiving alias os c' /\ alike (client.loop c') y.
Proof.
  intros Hp [Ha Hsh Hb Ho Hw]. unfold client_step. destruct (loop_reads o os _ y Hw Ho Hb Hp) as [E Hw'].
  rewrite E. cbn [mbind res_bind]. eexists. split; [done|]. split; [|intros r; cbn; by rewrite set_loop_track_twice].
  split; cbn; rewrite ?loop_track_set; try done; [|by apply waits_set].
  apply list_lookup_insert_eq. by apply lookup_lt_Some in Hsh.
Qed.

(** With nothing in the buffer ReadObject blocks. *)
Lemma client_blocks alias c : receiving alias [] c ->
  exists c', client_step Reads c = Ok c' /\ receiving alias [] c' /\ client.loop c' = client.loop c.
Proof.
  intros [Ha Hsh Hb Ho Hw]. unfold client_step. rewrite (loop_blocks _ Hw Hb). cbn [mbind res_bind].
  eexists. split; [done|]. split; [|done].
  split; cbn; try done. apply list_lookup_insert_eq. by apply lookup_lt_Some in Hsh.
Qed.

Lemma process_all_alike os x x' y :
  alike x' x -> process_all os x = Ok y -> exists y', process_all os x' = Ok y' /\ alike y' y.
Proof.
  intros Ha H. exists (set_loop_track (loop_track x') y).
  split; [|intros r; by rewrite set_loop_track_twice].
  rewrite <- (set_loop_track_id x'), Ha, loop_track_set. clear Ha. generalize (loop_track x') as r. intros r.
  revert x H. induction os as [|o os IH]; intros x H; cbn in H |- *; [by injection H as ->|].
  destruct (process o x) as [x1| | |] eqn:E; try done. rewrite (process_set o r x x1 E). cbn. by apply IH.
Qed.

(** In every interleaving in which the loop keeps up, it ends as if it had been given
    the objects of what arrived one by one. *)
Lemma client_keeps_up alias es os0 os c y :
  receiving alias os0 c -> keeps_up (length os0) es = true ->
  Forall2 (fun d o => delivered alias d = Some o) (arrivals es) os ->
  process_all (os0 ++ os) (client.loop c) = Ok y ->
  exists c', client_run es c = Ok c' /\ receiving alias [] c' /\ alike (client.loop c') y.
Proof.
  revert os0 os c y. induction es as [|[d|] es IH]; intros os0 os c y Hc Hk Hd Hp; cbn in Hk.
  - apply Nat.eqb_eq in Hk. destruct os0; [|done]. inversion Hd; subst. cbn in Hp. injection Hp as <-. by exists c.
  - apply andb_true_iff in Hk as [Hlt Hk].
    assert (length os0 < buffer_capacity)%nat as Hlt' by (by apply Nat.ltb_lt). clear Hlt.
    inversion Hd as [|? o ? os' Hdo Hd' E1 E2]; subst.
    destruct (client_receives alias d o os0 c Hdo Hlt' Hc) as (c1 & E & Hc1 & Ha).
    cbn [client_run]. rewrite E. cbn [mbind res_bind].
    change (o :: os') with ([o] ++ os') in Hp. rewrite app_assoc in Hp.
    destruct (process_all_alike _ _ _ _ Ha Hp) as (y' & Hp' & Hy).
    destruct (IH (os0 ++ [o]) os' c1 y' Hc1) as (c' & E' & Hc' & Ha'); [by rewrite length_app, Nat.add_1_r|done|done|].
    exists c'. split; [done|]. split; [done|]. intros r. by rewrite Ha'.
  - destruct os0 as [|o os0].
    + destruct (client_blocks alias c Hc) as (c1 & E & Hc1 & Hs). cbn [client_run]. rewrite E. cbn [mbind res_bind].
      apply (IH [] os c1 y); [done|done|done|by rewrite Hs].
    + cbn in Hp. destruct (process o _) as [x1| | |] eqn:Eo; try done. cbn in Hp.
      destruct (client_reads alias o os0 x1 c Eo Hc) as (c1 & E & Hc1 & Ha).
      cbn [client_run]. rewrite E. cbn [mbind res_bind].
      destruct (process_all_alike _ _ _ _ Ha Hp) as (y' & Hp' & Hy).
      destruct (IH os0 os c1 y' Hc1) as (c' & E' & Hc' & Ha'); [done|done|done|].
      exists c'. split; [done|]. split; [done|]. intros r. by rewrite Ha'.
Qed.

End Client.
