(* ===== verification/CounterPrograms.v ===== *)
(** The counter programs and those of the XOR example, from their command lines to
    the numbers that are printed: the programs of Programs.v meet, the publisher of the
    accepted subscription runs over any state of its session in which the track is
    open, and the client of Receiving.v over the session it ends in. *)

From Stdlib Require Import String.
From S2P Require Import Prelude VarInt Codec WireTypes Messages ControlMessages Objects Params.
From S2P Require Import Framing ParserSafety Errors State RequestID TrackMaps Tracks Announcements.
From S2P Require Import SessionState Session SessionInv SessionSafety WellTyped Sending Handshake Requests Exchanges.
From S2P Require Import Strconv Publishers Counter Applications Lifecycle CounterApp CommandLine Programs Wired.
From S2P Require Import Xor XorCounter XorCounterStream XorCounterLoss Subscriptions Receiving.
Local Open Scope Z_scope.
Local Open Scope go_scope.

(** A counter server with the options [so] and a counter client with the options
    [co]; and the two programs of the XOR example. *)
Definition counter_sides (so co : options.t) {QV : QuicVarint} {QVL : QuicVarintLaws} : Perspective -> program :=
  sides (counter_program (counter_server so)) (counter_program (counter_client co)).
Definition xor_sides (so co : options.t) {QV : QuicVarint} {QVL : QuicVarintLaws} : Perspective -> program :=
  sides (xor_program (xor_server so)) (xor_program (xor_client co)).

(** The options of a server that publishes and of a client that subscribes to the
    same track, whose names are not too long. *)
Record counter_options (so co : options.t) : Prop := {
  co_publish : options.publish so = true;
  co_subscribe : options.subscribe co = true;
  co_namespace : options.namespace co = options.namespace so;
  co_trackname : options.trackname co = options.trackname so;
  co_namespace_len : len (options.namespace so) <= 30000;
  co_trackname_len : len (options.trackname so) <= 30000 }.

Section Counting.
Context {QV : QuicVarint} {QVL : QuicVarintLaws} {MR : MapRange}.

Lemma sides_meet so co :
  counter_options so co -> meeting (counter_sides so co) PerspectiveServer /\ meeting (xor_sides so co) PerspectiveServer.
Proof. intros []. by apply counter_meeting. Qed.

Lemma sides_typed so co p :
  application_typed (apps_of (counter_sides so co) p) /\ application_typed (apps_of (xor_sides so co) p).
Proof. split; (apply program_typed; destruct p; constructor). Qed.

(** * The publishers

    The publisher of an open track: its ticks all succeed, and the peer can read what
    it sends. *)
Lemma publisher_counts w s sid rid n :
  track_open (SubscribeResponseWriter.localTrack w) s -> Z.of_nat n <= 2 ^ 61 ->
  exists q, CounterPublisher.Start (H := writer_publisher w) (replicate n Tick) (new_publisher sid rid [] s)
      = Ok (Ret false, q) /\
    Forall2 (fun d o => received_datagram 0 d = Some o) (writer_state.wire (CounterPublisher.publisher q))
      (counter_object <$> seqZ 0 (Z.of_nat n)).
Proof.
  intros (lt & Hheap & Hal & Hc) Hn. assert (0 <= localTrack.trackAlias lt <= maxVarInt) as Ha
    by (rewrite Hal; vm_compute; split; discriminate). set (p0 := CounterPublisher.mk (writer_state.mk s [] []) sid rid 0 0 (Runner.mk true false)).
  assert (0 <= 0 <= maxVarInt) as H0 by (vm_compute; split; discriminate).
  destruct (counter_ticks_accepted (H := writer_publisher w) (writer_open w) n 0 p0 (writer_open_sends w)) as [q Hq];
    [lia|lia|done|split; [done|by eexists]|].
  destruct (counter_ticks (H0 := writer_publisher_laws w 0) n 0 p0) as (r & q' & os & Hq' & Hok & Hos & _ & Hall);
    [lia|lia|done|split; [done|split; [constructor|by eexists]]|].
  rewrite Hq in Hq'. injection Hq' as <- <-. destruct (Hall false eq_refl) as [_ ->].
  exists q. split; [exact Hq|]. destruct Hok as (_ & Hread & _). apply Forall2_omap in Hread.
  change (omap (received_datagram 0) (writer_state.wire (CounterPublisher.publisher q)) =
    omap (received_datagram 0) [] ++ (counter_object <$> seqZ 0 (Z.of_nat n))) in Hos.
  by rewrite Hos in Hread.
Qed.

Lemma xor_publisher_counts w s sid rid N :
  track_open (SubscribeResponseWriter.localTrack w) s -> Z.of_nat N <= 2 ^ 31 ->
  exists p0 q, XORCounterPublisher.NewXORPublisher (writer_state.mk s [] []) sid rid = Ok p0 /\
    XORCounterPublisher.Start (H := writer_publisher w) (replicate (4 * N) Tick) p0 = Ok (Ret false, q) /\
    Forall2 (fun d o => received_datagram 0 d = Some o) (writer_state.wire (XORCounterPublisher.publisher q))
      (concat (block_objects <$> seqZ 0 (Z.of_nat N))).
Proof.
  intros (lt & Hheap & Hal & Hc) HN. assert (0 <= localTrack.trackAlias lt <= maxVarInt) as Ha
    by (rewrite Hal; vm_compute; split; discriminate). eexists. set (e := xor.Encoder.mk xor_config 0 0 []).
  set (p1 := XORCounterPublisher.mk (writer_state.mk s [] []) e sid rid 0 0 (Runner.mk true false)).
  assert (0 <= 0 <= maxVarInt) as H0 by (vm_compute; split; discriminate).
  destruct (ticks_accepted (HP := writer_publisher w) (writer_open w) (writer_open_sends w) (4 * N) 0 p1) as [q Hq];
    [lia|lia|done|split; [done|by eexists]|].
  destruct (ticks_at (HL := writer_publisher_laws w 0) (4 * N) 0 p1) as (r & q' & os & Hq' & Hok & Hos & _ & Hall);
    [lia|lia|done|split; [done|split; [constructor|by eexists]]|].
  rewrite Hq in Hq'. injection Hq' as <- <-. destruct (Hall false eq_refl) as [_ ->].
  exists q. split; [done|]. split; [exact Hq|]. destruct Hok as (_ & Hread & _). apply Forall2_omap in Hread.
  change (omap (received_datagram 0) (writer_state.wire (XORCounterPublisher.publisher q)) =
    omap (received_datagram 0) [] ++ stream_from 0 (4 * N)) in Hos.
  rewrite Hos in Hread. by rewrite <- (stream_blocks N 0).
Qed.

(** * The clients *)

(** The numbers, one after the other. *)
Lemma process_numbers ks (x : subscription.t CounterSubscriber.t) :
  Forall (fun k => 0 <= k < 2 ^ 63) ks -> 0 <= CounterSubscriber.totalReceived (subscription.sub x) < 2 ^ 64 ->
  exists x', process_all (counter_object <$> ks) x = Ok x' /\
    CounterSubscriber.printed (subscription.sub x') = CounterSubscriber.printed (subscription.sub x) ++ ks /\
    CounterSubscriber.totalReceived (subscription.sub x') =
      uint64 (CounterSubscriber.totalReceived (subscription.sub x) + len ks).
Proof.
  intros Hks. revert x. induction Hks as [|k ks Hk Hks IH]; intros x Ht.
  - exists x. rewrite app_nil_r, len_nil, Z.add_0_r, uint64_small by lia. done.
  - rewrite fmap_cons. cbn [process_all process subscription_reader]. cbn [processObject CounterSubscriber.subscriber].
    unfold CounterSubscriber.processObject at 1. cbn [Object.Payload counter_object].
    rewrite parse_formatted by done. cbn [mbind res_bind].
    match goal with |- exists x', process_all _ ?x1 = _ /\ _ => destruct (IH x1) as (x' & E & Hp & Htot) end.
    + apply Z.mod_pos_bound. lia.
    + exists x'. split; [exact E|]. rewrite Hp, Htot, len_cons. cbn. rewrite <- app_assoc. split; [done|].
      rewrite uint64_add_l. f_equal. lia.
Qed.

(** A subscriber that is started on the track of a session. *)
Lemma counter_started c rt track sid h :
  remoteTrackMap.findByTrackAlias (Session.remoteTracks c) 0 = Some rt -> Session.remoteHeap c !! rt = Some track ->
  RemoteTrack.buffer track = [] -> RemoteTrack.doneCtx track = None ->
  exists x, CounterSubscriber.Start None (new_subscriber track sid h) = Ok (Ret tt, x) /\
    receiving rt 0 [] (client.mk c x) /\
    CounterSubscriber.printed (subscription.sub x) = [] /\ CounterSubscriber.totalReceived (subscription.sub x) = 0.
Proof. intros Hal Hh Hb Hd. eexists. split; [done|]. by split. Qed.

Lemma xor_started c rt track sid ns name :
  remoteTrackMap.findByTrackAlias (Session.remoteTracks c) 0 = Some rt -> Session.remoteHeap c !! rt = Some track ->
  RemoteTrack.buffer track = [] -> RemoteTrack.doneCtx track = None ->
  exists x, Sub.Start None (Sub.NewXORSubscriber track sid ns name) = Ok (Ret tt, x) /\
    receiving rt 0 [] (client.mk c x) /\
    from_block 0 (subscription.sub x) /\ Sub.printed (subscription.sub x) = [].
Proof.
  intros Hal Hh Hb Hd. eexists. split; [done|]. split; [by split|]. split; [|done].
  split; [done|]. split; [done|]. intros k _. apply lookup_empty.
Qed.

Lemma process_all_objects os (x : subscription.t Sub.t) :
  process_all os x = (s ← Sub.processObjects os (subscription.sub x); Ok (subscription.set_sub s x)).
Proof.
  revert x. induction os as [|o os IH]; intros [s ctx reading started]; [done|].
  cbn [process_all Sub.processObjects process subscription_reader processObject Sub.subscriber subscription.sub].
  destruct (Sub.processObject o s) as [[r s']| | |]; [|done..]. cbn [mbind res_bind]. by rewrite IH.
Qed.

(** * Properties *)

(** C10: The counter example from its options to its output.  A counter server with the
    flag publish and a counter client with the flag subscribe, for the same track, of
    a namespace and a name of at most 30000 bytes, on a new connection of either kind: whatever the order in which their handshake,
    their announcement, their subscription and its answers happen, after sixteen
    steps both calls of handle have returned, and the client holds a track.  The
    publisher may start in any state of the server's session in which the track of the
    writer is open, as it is from its acceptance in the handler on.  Over a connection
    that takes every datagram it sends one with each of its [n] ticks, at most 2^61,
    and whichever
    of them arrive once the client's call of handle has returned, in whatever order
    and however often, the subscriber that the client started on its track, reading
    while they arrive, prints exactly the numbers whose datagrams arrived, in that
    order, provided that it keeps up with them: the 100 places of the track's buffer
    are never all taken when a datagram arrives, and all that arrived has been read.
    A datagram that overtakes the SUBSCRIBE_OK finds no track with its alias, and
    ends the goroutine that reads datagrams with an error. *)
Theorem counter_programs_count so co proto z sid sid' n :
  counter_options so co -> wired_run (counter_sides so co) 16 (wired_new proto) z -> Z.of_nat n <= 2 ^ 61 ->
  exists rt lt track,
    wired.phase z PerspectiveServer = Handled (Ret None) /\
    wired.phase z PerspectiveClient = Handled (Ret (Some rt)) /\
    localTrackMap.open (Session.localTracks (wired_session z PerspectiveServer)) !! 0 = Some lt /\
    track_open lt (wired_session z PerspectiveServer) /\
    Session.remoteHeap (wired_session z PerspectiveClient) !! rt = Some track /\
    forall w s, SubscribeResponseWriter.localTrack w = lt -> track_open lt s ->
      exists q x,
        CounterPublisher.Start (H := writer_publisher w) (replicate n Tick)
          (new_publisher sid 0 [] s) = Ok (Ret false, q) /\
        length (writer_state.wire (CounterPublisher.publisher q)) = n /\
        CounterSubscriber.Start None (new_subscriber track sid' (counter_client co)) = Ok (Ret tt, x) /\
        (forall d c, d ∈ writer_state.wire (CounterPublisher.publisher q) ->
           remoteTrackMap.findByTrackAlias (Session.remoteTracks c) 0 = None ->
           read_datagram d c = Ok (Error errUnknownTrackAlias, c)) /\
        forall places es,
          Forall2 (fun i d => writer_state.wire (CounterPublisher.publisher q) !! i = Some d) places (arrivals es) ->
          keeps_up 0 es = true ->
          exists c, client_run datagram_input rt es (client.mk (wired_session z PerspectiveClient) x) = Ok c /\
            CounterSubscriber.printed (subscription.sub (client.loop c)) = Z.of_nat <$> places /\
            CounterSubscriber.GetTotalReceived (subscription.sub (client.loop c)) = uint64 (len places).
Proof.
  intros Ho Hz Hn. pose proof (proj1 (sides_meet so co Ho)) as M.
  pose proof (fun p => proj1 (sides_typed so co p)) as Happ.
  destruct (wired_run_met _ Happ _ M proto z Hz) as (rt & lt & [Hps Hpc _ _ Hfind Htrack Hopen Hheap _]).
  eexists rt, lt, _. split; [exact Hps|]. split; [exact Hpc|]. split; [exact Hopen|].
  split; [by eexists|]. split; [exact Htrack|]. intros w s <- Hs.
  destruct (publisher_counts w s sid 0 n Hs Hn) as (q & Hq & Hw).
  destruct (counter_started _ rt _ sid' (counter_client co) Hfind Htrack) as (x & Hx & Hrec & Hp0 & Ht0); [done|done|].
  exists q, x. split; [exact Hq|].
  split; [rewrite (Forall2_length _ _ _ Hw), length_fmap, length_seqZ; lia|]. split; [exact Hx|].
  split. { intros d c Hin Hc. apply list_elem_of_lookup_1 in Hin as [i Hi].
    destruct (Forall2_lookup_l _ _ _ _ _ Hw Hi) as (o & _ & Hr). by apply (early_datagram 0 d o). }
  intros places es Hd Hk.
  assert (Forall2 (fun d o => received_datagram 0 d = Some o) (arrivals es) (counter_object <$> (Z.of_nat <$> places))
    /\ Forall (fun k => 0 <= k < 2 ^ 63) (Z.of_nat <$> places)) as [Hobjs Hks].
  { clear Hk. induction Hd as [|i d places ds Hi Hd [IH1 IH2]]; [by repeat constructor|].
    destruct (Forall2_lookup_l _ _ _ _ _ Hw Hi) as (o & Hlo & Ho').
    rewrite list_lookup_fmap in Hlo. apply fmap_Some in Hlo as (k & Hlk & ->). apply lookup_seqZ in Hlk as [-> Hlt].
    rewrite Z.add_0_l in Ho'. split; constructor; (done || lia). }
  destruct (process_numbers _ x Hks) as (x' & Hs' & Hp' & Ht'); [lia|].
  destruct (client_keeps_up datagram_input rt 0 es [] _ (client.mk _ x) x' Hrec Hk Hobjs Hs') as (c & Hc & _ & Heq).
  exists c. split; [exact Hc|]. specialize (Heq (loop_track (client.loop c))).
  rewrite Hp0 in Hp'. rewrite Ht0 in Ht'. cbn [app] in Hp'. split.
  - rewrite <- Hp'. exact (f_equal (fun z => CounterSubscriber.printed (subscription.sub z)) Heq).
  - assert (len (Z.of_nat <$> places) = len places) as Hl by (unfold len; by rewrite length_fmap).
    rewrite Hl, Z.add_0_l in Ht'. unfold CounterSubscriber.GetTotalReceived. rewrite <- Ht'.
    exact (f_equal (fun z => CounterSubscriber.totalReceived (subscription.sub z)) Heq).
Qed.

(** C11: The XOR example from its options to its output, over a network that loses
    packets.  The two programs meet, and the publisher starts, as those of the counter
    example do.  It sends [4 N] numbers in [N] blocks, at most 2^31, of five datagrams,
    the last of which is the parity.  Each block may lose one datagram; those of its data that
    arrive do so in any order, but a parity that arrives comes after the data of its
    block; the blocks interleave as long as no datagram is overtaken by one of a block
    more than ten later; and all of this arrives once the client's call of handle has
    returned.  Then the subscriber, reading while they arrive and keeping up with
    them -- the 100 places of the track's buffer are never all taken when a datagram
    arrives, and all that arrived has been read -- prints every number exactly once;
    its counters say [4 N] received, and as many recovered as data packets were lost.
    In the third block, that of 8, 9, 10 and 11, neither 8 nor 9 may be the one lost. *)
Theorem xor_programs_survive_loss so co proto z sid sid' N :
  counter_options so co -> wired_run (xor_sides so co) 16 (wired_new proto) z -> Z.of_nat N <= 2 ^ 31 ->
  exists rt lt track,
    wired.phase z PerspectiveServer = Handled (Ret None) /\
    wired.phase z PerspectiveClient = Handled (Ret (Some rt)) /\
    localTrackMap.open (Session.localTracks (wired_session z PerspectiveServer)) !! 0 = Some lt /\
    track_open lt (wired_session z PerspectiveServer) /\
    Session.remoteHeap (wired_session z PerspectiveClient) !! rt = Some track /\
    forall w s, SubscribeResponseWriter.localTrack w = lt -> track_open lt s ->
      exists p0 q x blocks,
        XORCounterPublisher.NewXORPublisher (writer_state.mk s [] []) sid 0 = Ok p0 /\
        XORCounterPublisher.Start (H := writer_publisher w) (replicate (4 * N) Tick) p0 = Ok (Ret false, q) /\
        writer_state.wire (XORCounterPublisher.publisher q) = concat blocks /\
        length blocks = N /\ Forall (fun block => length block = 5%nat) blocks /\
        Sub.Start None (Sub.NewXORSubscriber track sid' [options.namespace co] (options.trackname co)) = Ok (Ret tt, x) /\
        forall losts gots es, Forall3 deliver blocks losts gots ->
          (forall lost, losts !! 2%nat = Some lost -> lost <> Some 0%nat /\ lost <> Some 1%nat) ->
          interleaves gots (arrivals es) -> keeps_up 0 es = true ->
          exists c, client_run datagram_input rt es (client.mk (wired_session z PerspectiveClient) x) = Ok c /\
            counterValue <$> Sub.printed (subscription.sub (client.loop c)) ≡ₚ seqZ 0 (4 * Z.of_nat N) /\
            Sub.GetTotalReceived (subscription.sub (client.loop c)) = 4 * Z.of_nat N /\
            Sub.GetRecoveredCount (subscription.sub (client.loop c)) = len (omap (fun lost => lost) losts).
Proof.
  intros Ho Hz HN. pose proof (proj2 (sides_meet so co Ho)) as M.
  pose proof (fun p => proj2 (sides_typed so co p)) as Happ.
  destruct (wired_run_met _ Happ _ M proto z Hz) as (rt & lt & [Hps Hpc _ _ Hfind Htrack Hopen Hheap _]).
  eexists rt, lt, _. split; [exact Hps|]. split; [exact Hpc|]. split; [exact Hopen|].
  split; [by eexists|]. split; [exact Htrack|]. intros w s <- Hs.
  destruct (xor_publisher_counts w s sid 0 N Hs HN) as (p0 & q & Hnew & Hq & Hw).
  destruct (Forall2_blocks _ _ _ Hw) as (blocks & Hwire & Hblocks).
  destruct (xor_started _ rt _ sid' [options.namespace co] (options.trackname co) Hfind Htrack)
    as (x & Hx & Hrec & Hfrom & Hp0); [done|done|].
  exists p0, q, x, blocks. split; [exact Hnew|]. split; [exact Hq|]. split; [exact Hwire|].
  split; [rewrite (Forall2_length _ _ _ Hblocks), length_fmap, length_seqZ; lia|].
  split. { eapply Forall2_Forall_l; [exact Hblocks|]. apply Forall_fmap, Forall_forall. intros b _ l Hl.
    by rewrite (Forall2_length _ _ _ Hl). }
  split; [exact Hx|]. intros losts gots es H3 H2 Hd Hk.
  destruct (delivers_related _ _ _ _ _ Hblocks H3) as (gots' & H3' & Hg).
  destruct (interleaves_related _ _ _ _ Hd Hg) as (all & Hd' & Hr).
  destruct (new_subscriber_survives N losts gots' all (subscription.sub x) HN H3' H2 Hd' Hfrom Hp0) as (s' & Hs' & Hv & Ht & Hrc).
  pose proof (process_all_objects all x) as Hall. rewrite Hs' in Hall. cbn [mbind res_bind] in Hall.
  destruct (client_keeps_up datagram_input rt 0 es [] _ (client.mk _ x) _ Hrec Hk Hr Hall) as (c & Hc & _ & Heq).
  exists c. split; [exact Hc|]. specialize (Heq (Sub.track s')).
  pose proof (f_equal (fun z => Sub.printed (subscription.sub z)) Heq) as E1. pose proof (f_equal (fun z => Sub.totalReceived (subscription.sub z)) Heq) as E2.
  pose proof (f_equal (fun z => Sub.recoveredCount (subscription.sub z)) Heq) as E3. cbn in E1, E2, E3.
  unfold Sub.GetTotalReceived, Sub.GetRecoveredCount in *. by rewrite E1, E2, E3.
Qed.

End Counting.

(** * Examples *)

Definition ex_server_options : options.t := options.set_publish true (options.set_server true counter_defaults).
Definition ex_client_options : options.t := options.set_subscribe true counter_defaults.

Lemma ex_options : counter_options ex_server_options ex_client_options.
Proof. split; (reflexivity || (vm_compute; discriminate)). Defined.

(** [counter -server -publish] and [counter -subscribe]: three numbers are sent, the
    third arrives first, and the second is lost. *)
Lemma counter_programs_count_witness :
  counter_run [str "counter"; str "-server"; str "-publish"] = Ok (RunsServer ex_server_options) /\
  counter_run [str "counter"; str "--subscribe"] = Ok (RunsClient ex_client_options) /\
  exists z rt x es c,
    wired_run (counter_sides ex_server_options ex_client_options) 16 (wired_new ProtocolQUIC) z /\
    wired.phase z PerspectiveClient = Handled (Ret (Some rt)) /\
    client_run datagram_input rt es (client.mk (wired_session z PerspectiveClient) x) = Ok c /\ length (arrivals es) = 2%nat /\
    CounterSubscriber.printed (subscription.sub (client.loop c)) = [2; 0].
Proof.
  split; [reflexivity|]. split; [reflexivity|].
  destruct (wired_runs _ (fun p => proj1 (sides_typed _ _ p)) _ (proj1 (sides_meet _ _ ex_options)) ProtocolQUIC 16 (le_n 16)) as [z Hz].
  destruct (counter_programs_count ex_server_options ex_client_options ProtocolQUIC z 1 5 3 ex_options Hz)
    as (rt & lt & track & _ & Hph & _ & Hs & _ & Hw); [vm_compute; discriminate|].
  destruct (Hw (SubscribeResponseWriter.mk 0 0 lt true) _ eq_refl Hs) as (q & x & _ & Hl & _ & _ & Hplaces).
  destruct (writer_state.wire (CounterPublisher.publisher q)) as [|d0 [|d1 [|d2 [|]]]] eqn:Hwire; try discriminate Hl.
  destruct (Hplaces [2; 0]%nat [Arrives d2; Reads; Arrives d0; Reads; Reads]) as (c & Hc & Hp & _);
    [repeat constructor|reflexivity|].
  exists z, rt, x, [Arrives d2; Reads; Arrives d0; Reads; Reads], c.
  split; [exact Hz|]. split; [exact Hph|]. split; [exact Hc|]. split; [reflexivity|exact Hp].
Defined.

(** The same with the XOR example and two blocks: the first loses its second packet,
    and its fourth arrives before the third, in the midst of the second block, which
    loses its parity. *)
Lemma xor_programs_survive_loss_witness :
  exists z rt x es c,
    wired_run (xor_sides ex_server_options ex_client_options) 16 (wired_new ProtocolQUIC) z /\
    wired.phase z PerspectiveClient = Handled (Ret (Some rt)) /\
    client_run datagram_input rt es (client.mk (wired_session z PerspectiveClient) x) = Ok c /\ length (arrivals es) = 8%nat /\
    counterValue <$> Sub.printed (subscription.sub (client.loop c)) ≡ₚ [0; 1; 2; 3; 4; 5; 6; 7] /\
    Sub.GetRecoveredCount (subscription.sub (client.loop c)) = 1.
Proof.
  destruct (wired_runs _ (fun p => proj2 (sides_typed _ _ p)) _ (proj2 (sides_meet _ _ ex_options)) ProtocolQUIC 16 (le_n 16)) as [z Hz].
  destruct (xor_programs_survive_loss ex_server_options ex_client_options ProtocolQUIC z 1 5 2 ex_options Hz)
    as (rt & lt & track & _ & Hph & _ & Hs & _ & Hw); [vm_compute; discriminate|].
  destruct (Hw (SubscribeResponseWriter.mk 0 0 lt true) _ eq_refl Hs) as (p0 & q & x & blocks & _ & _ & _ & Hl & H5 & _ & Hloss).
  destruct blocks as [|blk [|blk' [|]]]; try discriminate Hl.
  apply list.Forall_cons_1 in H5 as [H5 H5']. apply list.Forall_cons_1 in H5' as [H5' _].
  destruct blk as [|d0 [|d1 [|d2 [|d3 [|d4 [|]]]]]]; try discriminate H5.
  destruct blk' as [|e0 [|e1 [|e2 [|e3 [|e4 [|]]]]]]; try discriminate H5'.
  set (es := [Arrives d0; Reads; Arrives e0; Arrives d3; Arrives e1; Reads; Arrives d2; Arrives e2; Reads; Arrives d4;
              Reads; Arrives e3; Reads; Reads; Reads; Reads]).
  destruct (Hloss [Some 1%nat; None] [[d0; d3; d2] ++ [d4]; [e0; e1; e2; e3]] es) as (c & Hc & Hv & _ & Hr).
  - constructor; [|constructor; [|constructor]].
    + apply (deliver_but 1 [d0; d1; d2; d3] d4 [d0; d3; d2]); [vm_compute; repeat constructor|].
      cbn. constructor. constructor.
    + by apply (deliver_data [e0; e1; e2; e3] e4).
  - discriminate.
  - cbn [app arrivals es]. interleave [0; 1; 0; 1; 0; 1; 0; 1]%nat.
  - reflexivity.
  - exists z, rt, x, es, c. split; [exact Hz|]. split; [exact Hph|]. split; [exact Hc|]. split; [reflexivity|].
    split; [exact Hv|exact Hr].
Defined.
