(* ===== verification/Slices.v ===== *)
(** internal/slices/slices.go: the iterators of the packages iter and slices.

    An [iter.Seq] is a function of its [yield]: yield does something to the state of
    the loop that ranges over it and says whether the loop goes on.  The definitions
    of the other files use the lists that the theorems below give. *)

From S2P Require Import Prelude.
Local Open Scope Z_scope.

(** A loop with the body [yield], which returns false when it breaks. *)
Definition Seq (E : Type) : Type := forall S : Type, (E -> S -> bool * S) -> S -> S.
Definition Seq2 (K V : Type) : Type := forall S : Type, (K -> V -> S -> bool * S) -> S -> S.

(** slices.Collect and append, of the standard library. *)
Definition Collect {E} (seq : Seq E) : list E := seq (list E) (fun v s => (true, s ++ [v])) [].

(** slices.Backward: the indices of the slice, from the last one. *)
Fixpoint backward_loop {E S} (yield : Z -> E -> S -> bool * S) (i : nat) (s : list E) (st : S) : S :=
  match i with
  | O => st
  | Datatypes.S i =>
      match s !! i with
      | Some v => let '(more, st) := yield (Z.of_nat i) v st in if more : bool then backward_loop yield i s st else st
      | None => st
      end
  end.
Definition Backward {E} (s : list E) : Seq2 Z E := fun S yield => backward_loop yield (length s) s.

(** slices.Contains. *)
Fixpoint Contains {E} `{EqDecision E} (s : list E) (v : E) : bool :=
  match s with
  | [] => false
  | x :: s => if bool_decide (v = x) then true else Contains s v
  end.

Fixpoint map_loop {K V S} (f : K -> V) (yield : V -> S -> bool * S) (ee : list K) (st : S) : S :=
  match ee with
  | [] => st
  | e :: ee => let '(more, st) := yield (f e) st in if more : bool then map_loop f yield ee st else st
  end.
Definition Map {K V} (ee : list K) (f : K -> V) : Seq V := fun S yield => map_loop f yield ee.

(** * Their meaning *)

(** What a loop over a list does. *)
Fixpoint range_list {E S} (yield : E -> S -> bool * S) (l : list E) (st : S) : S :=
  match l with
  | [] => st
  | x :: l => let '(more, st) := yield x st in if more : bool then range_list yield l st else st
  end.

(** Map calls its function only as far as the loop gets. *)
Lemma Map_ranges {K V} (ee : list K) (f : K -> V) S (yield : V -> S -> bool * S) st :
  Map ee f S yield st = range_list yield (f <$> ee) st.
Proof.
  revert st. induction ee as [|e ee IH]; intros st; [done|].
  cbn. destruct (yield (f e) st) as [[] st']; [apply IH|done].
Qed.

Lemma Collect_Map {K V} (ee : list K) (f : K -> V) : Collect (Map ee f) = f <$> ee.
Proof.
  unfold Collect. rewrite Map_ranges. generalize (f <$> ee). intros l.
  assert (forall acc, range_list (fun v s => (true, s ++ [v])) l acc = acc ++ l) as H; [|apply H].
  induction l as [|v l IH]; intros acc; cbn; [by rewrite app_nil_r|]. by rewrite IH, <- app_assoc.
Qed.

Lemma Backward_ranges {E} (s : list E) S (yield : Z -> E -> S -> bool * S) st :
  Backward s S yield st =
  range_list (fun x => yield x.1 x.2) (reverse (imap (fun i v => (Z.of_nat i, v)) s)) st.
Proof.
  unfold Backward. induction s as [|v s IH] using rev_ind in st |- *; [done|].
  rewrite length_app, Nat.add_comm. cbn [length Nat.add backward_loop]. rewrite list_lookup_middle by done.
  rewrite imap_app, reverse_app. cbn. rewrite Nat.add_0_r. destruct (yield _ v st) as [[] st']; [|done].
  rewrite <- IH. clear IH. assert (forall k, (k <= length s)%nat ->
    backward_loop yield k (s ++ [v]) st' = backward_loop yield k s st') as H; [|by apply H].
  intros k. revert st'. induction k as [|k IH]; intros st' Hk; [done|]. cbn.
  rewrite lookup_app_l by lia. destruct (s !! k) as [w|]; [|done].
  destruct (yield _ w st') as [[] st'']; [apply IH; lia|done].
Qed.

Lemma Contains_spec {E} `{EqDecision E} (s : list E) v : Contains s v = bool_decide (v ∈ s).
Proof.
  induction s as [|x s IH]; [by rewrite bool_decide_eq_false_2 by apply not_elem_of_nil|].
  cbn. destruct (decide (v = x)) as [->|Hx].
  - by rewrite !bool_decide_eq_true_2 by (done || apply list_elem_of_here).
  - rewrite bool_decide_eq_false_2, IH by done. apply bool_decide_ext. rewrite elem_of_cons. naive_solver.
Qed.

Lemma range_list_fmap {E F S} (g : E -> F) (yield : F -> S -> bool * S) (l : list E) st :
  range_list (fun x => yield (g x)) l st = range_list yield (g <$> l) st.
Proof.
  revert st. induction l as [|x l IH]; intros st; [done|]. cbn. destruct (yield (g x) st) as [[] st']; [apply IH|done].
Qed.

Lemma range_list_find {E} (p : E -> bool) (l : list E) :
  range_list (fun v st => if p v then (false, Some v) else (true, st)) l None = snd <$> find_first p l.
Proof.
  induction l as [|x l IH]; [done|]. cbn. destruct (p x); [done|]. rewrite IH. by destruct (find_first p l) as [[]|].
Qed.

(** A loop over Backward that breaks at the first value with a property, as onClientSetup
    chooses a version. *)
Lemma Backward_find {E} (p : E -> bool) (s : list E) :
  Backward s (option E) (fun _ v st => if p v then (false, Some v) else (true, st)) None = snd <$> find_first p (rev s).
Proof.
  rewrite Backward_ranges, <- range_list_find.
  rewrite (range_list_fmap snd (fun v st => if p v then (false, Some v) else (true, st))), fmap_reverse, fmap_imap.
  replace (imap _ s) with s; [by unfold reverse; rewrite <- rev_alt|].
  rewrite <- (list_fmap_id s) at 1. symmetry. apply (imap_const id).
Qed.
