(* ===== verification/Qlog.v ===== *)
(** The events that the publisher and the subscriber of objects hand to a qlog logger
    (subgroup.go, fetch_stream.go, local_track.go, object_stream_parser.go,
    control_stream.go and readDatagrams of session.go).

    The package qlog is not part of the repository; the records below have the
    fields that the code sets.  An operation with a logger is the operation with the
    list of events that it logs, none if the logger is nil ([q = false]). *)

From S2P Require Import Prelude VarInt Codec WireTypes Messages ControlMessages Framing Objects Tracks State Slices.
Local Open Scope Z_scope.

(** * The events *)

Inductive Owner := OwnerLocal | OwnerRemote.
Inductive StreamTypeName := StreamTypeSubgroupHeader | StreamTypeFetchHeader.
Inductive ObjectEventName := EventCreated | EventParsed.
Inductive DatagramEventName :=
  ObjectDatagramEventCreated | ObjectDatagramStatusEventCreated | ObjectDatagramEventparsed.

Module RawInfo.
Record t := mk { Length : Z; PayloadLength : Z; Data : list byte }.
Definition zero : t := mk 0 0 [].
Definition of_payload (payload : list byte) : t := mk (len payload) (len payload) payload.
End RawInfo.

Module ExtensionHeader.
Record t := mk { HeaderType : Z; HeaderValue : Z; HeaderLength : Z; Payload : RawInfo.t }.
End ExtensionHeader.

(** What the three kinds of object events have in common. *)
Module logged.
Record t := mk {
  GroupID : Z;
  SubgroupID : option Z;
  ObjectID : Z;
  ExtensionHeadersLength : Z;
  ExtensionHeaders : list ExtensionHeader.t;
  ObjectStatus : Z;
  Payload : RawInfo.t }.
End logged.

Inductive event :=
  | StreamTypeSetEvent (o : Owner) (StreamID : Z) (typ : StreamTypeName)
  | SubgroupObjectEvent (name : ObjectEventName) (StreamID : Z) (ObjectPayloadLength : Z) (o : logged.t)
  | FetchObjectEvent (name : ObjectEventName) (StreamID : Z) (PublisherPriority : Z) (ObjectPayloadLength : Z)
      (o : logged.t)
  | ObjectDatagramEvent (name : DatagramEventName) (TrackAlias : Z) (PublisherPriority : Z) (o : logged.t)
  | ControlMessageEventCreated (StreamID : Z) (Length : Z) (Message : ControlMessage).

(** [if qlogger != nil { qlogger.Log(e) }] *)
Definition log (q : bool) (e : event) : list event := if q then [e] else [].

(** The extension headers: the parser of streams gives their types. *)
Definition stream_headers (pp : option KVPList.t) : list ExtensionHeader.t :=
  Collect (Map (default [] pp) (fun e => ExtensionHeader.mk (KeyValuePair.Type_ e) 0 0 RawInfo.zero)).
Definition datagram_headers (pp : option KVPList.t) : list ExtensionHeader.t :=
  Collect (Map (default [] pp) (fun _ => ExtensionHeader.mk 0 0 0 RawInfo.zero)).

(** * The publisher *)

Section Publisher.
Context {QV : QuicVarint}.

Definition newSubgroup_qlog (q : bool) (StreamID : Z) (stream : SendStream) (trackAlias groupID subgroupID prio : Z)
    (werr : option error) : res (Subgroup.t * list event) :=
  s ← Subgroup.newSubgroup stream trackAlias groupID subgroupID prio werr;
  Ok (s, log q (StreamTypeSetEvent OwnerLocal StreamID StreamTypeSubgroupHeader)).

Definition subgroup_created (StreamID : Z) (s : Subgroup.t) (objectID : Z) (payload : list byte) : event :=
  SubgroupObjectEvent EventCreated StreamID (len payload)
    (logged.mk (Subgroup.groupID s) (Some (Subgroup.subgroupID s)) objectID 0 [] 0 (RawInfo.of_payload payload)).
Definition Subgroup_WriteObject_qlog (q : bool) (StreamID : Z) (s : Subgroup.t) (objectID : Z) (payload : list byte)
    (werr : option error) : res (Z * option error * Subgroup.t * list event) :=
  '(n, err, s) ← Subgroup.WriteObject s objectID payload werr;
  match err with
  | Some e => Ok (n, Some e, s, [])
  | None => Ok (n, None, s, log q (subgroup_created StreamID s objectID payload))
  end.

(** A run of successful writes. *)
Fixpoint Subgroup_WriteObjects_qlog (q : bool) (StreamID : Z) (s : Subgroup.t) (objs : list (Z * list byte)) :
    res (Subgroup.t * list event) :=
  match objs with
  | [] => Ok (s, [])
  | (objectID, payload) :: objs =>
      '(_, _, s, es) ← Subgroup_WriteObject_qlog q StreamID s objectID payload None;
      '(s, es') ← Subgroup_WriteObjects_qlog q StreamID s objs;
      Ok (s, es ++ es')
  end.

Definition newFetchStream_qlog (q : bool) (StreamID : Z) (stream : SendStream) (requestID : Z) (werr : option error) :
    res (FetchStream.t * list event) :=
  f ← FetchStream.newFetchStream stream requestID werr;
  Ok (f, log q (StreamTypeSetEvent OwnerLocal StreamID StreamTypeFetchHeader)).

(** The event has no priority: the field keeps its zero value. *)
Definition fetch_created (StreamID groupID subgroupID objectID : Z) (payload : list byte) : event :=
  FetchObjectEvent EventCreated StreamID 0 (len payload)
    (logged.mk groupID (Some subgroupID) objectID 0 [] 0 (RawInfo.of_payload payload)).
Definition FetchStream_WriteObject_qlog (q : bool) (StreamID : Z) (f : FetchStream.t)
    (groupID subgroupID objectID priority : Z) (payload : list byte) (werr : option error) :
    res (Z * option error * FetchStream.t * list event) :=
  '(n, err, f) ← FetchStream.WriteObject f groupID subgroupID objectID priority payload werr;
  match err with
  | Some e => Ok (n, Some e, f, [])
  | None => Ok (n, None, f, log q (fetch_created StreamID groupID subgroupID objectID payload))
  end.

Fixpoint FetchStream_WriteObjects_qlog (q : bool) (StreamID : Z) (f : FetchStream.t)
    (objs : list (Z * Z * Z * Z * list byte)) : res (FetchStream.t * list event) :=
  match objs with
  | [] => Ok (f, [])
  | (g, sg, o, prio, payload) :: objs =>
      '(_, _, f, es) ← FetchStream_WriteObject_qlog q StreamID f g sg o prio payload None;
      '(f, es') ← FetchStream_WriteObjects_qlog q StreamID f objs;
      Ok (f, es ++ es')
  end.

(** What sendDatagram logs, before it hands the datagram to the connection. *)
Definition datagram_logged (om : ObjectDatagramMessage.t) : logged.t :=
  let ext := ObjectDatagramMessage.ObjectExtensionHeaders om in
  logged.mk (ObjectDatagramMessage.GroupID om) None (ObjectDatagramMessage.ObjectID om)
    (len (default [] ext)) (datagram_headers ext) (uint64 (ObjectDatagramMessage.ObjectStatus om))
    (RawInfo.of_payload (ObjectDatagramMessage.ObjectPayload om)).
Definition datagram_event (name : DatagramEventName) (om : ObjectDatagramMessage.t) : event :=
  ObjectDatagramEvent name (ObjectDatagramMessage.TrackAlias om) (ObjectDatagramMessage.PublisherPriority om)
    (datagram_logged om).
Definition sendDatagram_qlog (q : bool) (o : Object.t) (lt : localTrack.t) : list event :=
  match localTrack.closed lt with
  | Some _ => []
  | None =>
      let om := ObjectDatagramMessage.mk (localTrack.trackAlias lt) (Object.GroupID o) (Object.ObjectID o) 0 None
                  (Object.Payload o) 0 in
      match ObjectDatagramMessage.AppendDatagram om [] with
      | Ok _ =>
          let name := if len (Object.Payload o) >? 0 then ObjectDatagramStatusEventCreated
                      else ObjectDatagramEventCreated in
          log q (datagram_event name om)
      | _ => []
      end
  end.

(** controlStream.write; Run makes the control stream with a nil logger. *)
Definition controlStream_write_qlog (q : bool) (StreamID : Z) (msg : ControlMessage) : list event :=
  match compileMessage msg with
  | Ok buf => log q (ControlMessageEventCreated StreamID (len buf) msg)
  | _ => []
  end.

End Publisher.

(** * The subscriber *)

Section Subscriber.
Context {QV : QuicVarint}.

(** The type of the stream is logged before its header is read. *)
Definition NewObjectStreamParser_qlog (q : bool) (StreamID : Z) (br : reader) :
    list event * res ObjectStreamParser.t :=
  (match qv_Read br with
   | Ok (streamType, _) =>
       if streamType =? StreamTypeFetch then log q (StreamTypeSetEvent OwnerRemote StreamID StreamTypeFetchHeader)
       else if ObjectStreamParser.is_subgroup_type streamType
            then log q (StreamTypeSetEvent OwnerRemote StreamID StreamTypeSubgroupHeader)
            else []
   | _ => []
   end, ObjectStreamParser.NewObjectStreamParser br).

Definition object_logged (g sg : Z) (m : ObjectMessage.t) : logged.t :=
  let ext := ObjectMessage.ObjectExtensionHeaders m in
  logged.mk g (Some sg) (ObjectMessage.ObjectID m) (len (default [] ext)) (stream_headers ext)
    (uint64 (ObjectMessage.ObjectStatus m)) (RawInfo.of_payload (ObjectMessage.ObjectPayload m)).

(** The event of parseSubgroupObject, after the object [m] has been read. *)
Definition subgroup_parsed (StreamID : Z) (p : ObjectStreamParser.t) (m : ObjectMessage.t) : event :=
  SubgroupObjectEvent EventParsed StreamID (len (ObjectMessage.ObjectPayload m))
    (object_logged (ObjectStreamParser.GroupID p) (ObjectStreamParser.SubgroupID p) m).
Definition fetch_parsed (StreamID : Z) (m : ObjectMessage.t) : event :=
  FetchObjectEvent EventParsed StreamID (ObjectMessage.PublisherPriority m) (len (ObjectMessage.ObjectPayload m))
    (object_logged (ObjectMessage.GroupID m) (ObjectMessage.SubgroupID m) m).

Definition Parse_qlog (q : bool) (StreamID : Z) (p : ObjectStreamParser.t) :
    res (ObjectMessage.t * ObjectStreamParser.t * list event) :=
  '(m, p) ← ObjectStreamParser.Parse p;
  Ok (m, p, log q (if ObjectStreamParser.typ p =? StreamTypeFetch then fetch_parsed StreamID m
                   else subgroup_parsed StreamID p m)).

(** What is logged while the objects of a stream are read. *)
Fixpoint Messages_qlog (q : bool) (StreamID : Z) (fuel : nat) (p : ObjectStreamParser.t) : list event :=
  match fuel with
  | O => []
  | S fuel =>
      match Parse_qlog q StreamID p with
      | Ok (_, p, es) => es ++ Messages_qlog q StreamID fuel p
      | _ => []
      end
  end.

(** What readDatagrams logs of a datagram, before receiveDatagram. *)
Definition read_datagram_qlog (q : bool) (dgram : list byte) : list event :=
  match ObjectDatagramMessage.Parse (S (length dgram)) dgram [] with
  | Ok (msg, _, None) => log q (datagram_event ObjectDatagramEventparsed msg)
  | _ => []
  end.

End Subscriber.

(** * The two logs *)

(** The event that the receiver of what an event tells has, on a stream with an ID. *)
Definition at_receiver (StreamID : Z) (e : event) : event :=
  match e with
  | StreamTypeSetEvent _ _ typ => StreamTypeSetEvent OwnerRemote StreamID typ
  | SubgroupObjectEvent _ _ n o => SubgroupObjectEvent EventParsed StreamID n o
  | FetchObjectEvent _ _ prio n o => FetchObjectEvent EventParsed StreamID prio n o
  | ObjectDatagramEvent _ alias prio o => ObjectDatagramEvent ObjectDatagramEventparsed alias prio o
  | e => e
  end.

Definition without_priority (e : event) : event :=
  match e with FetchObjectEvent name sid _ n o => FetchObjectEvent name sid 0 n o | e => e end.

Section QlogLemmas.
Context {QV : QuicVarint}.

(** A nil logger logs nothing and changes nothing. *)
Lemma Subgroup_WriteObjects_qlog_spec q sid s objs s' l :
  Subgroup_WriteObjects_qlog q sid s objs = Ok (s', l) ->
  Subgroup.WriteObjects s objs = Ok s' /\
  l = if q then map (fun '(o, payload) => subgroup_created sid s o payload) objs else [].
Proof.
  revert s s' l. induction objs as [|[o payload] objs IH]; intros s s' l H; cbn in H |- *.
  - injection H as <- <-. by destruct q.
  - unfold Subgroup_WriteObject_qlog in H.
    destruct (Subgroup.WriteObject s o payload None) as [[[n err] s1]| | |] eqn:E; [|done..]. cbn in H |- *.
    unfold Subgroup.WriteObject in E. inv_bind E. cbn in E. injection E as <- <- <-. cbn in H.
    inv_bind H. destruct x0 as [s2 l2]. injection H as <- <-. apply IH in E as [Hw ->].
    split; [done|]. by destruct q.
Qed.

Lemma FetchStream_WriteObjects_qlog_spec q sid f objs f' l :
  FetchStream_WriteObjects_qlog q sid f objs = Ok (f', l) ->
  FetchStream.WriteObjects f objs = Ok f' /\
  l = if q then map (fun '(g, sg, o, prio, payload) => fetch_created sid g sg o payload) objs else [].
Proof.
  revert f f' l. induction objs as [|[[[[g sg] o] prio] payload] objs IH]; intros f f' l H; cbn in H |- *.
  - injection H as <- <-. by destruct q.
  - unfold FetchStream_WriteObject_qlog in H.
    destruct (FetchStream.WriteObject f g sg o prio payload None) as [[[n err] f1]| | |] eqn:E; [|done..]. cbn in H |- *.
    unfold FetchStream.WriteObject in E. inv_bind E. cbn in E. injection E as <- <- <-. cbn in H.
    inv_bind H. destruct x0 as [f2 l2]. injection H as <- <-. apply IH in E as [Hw ->].
    split; [done|]. by destruct q.
Qed.

End QlogLemmas.

Section QlogTheorems.
Context {QV : QuicVarint} {QVL : QuicVarintLaws}.

(** What is logged of a stream is determined by the objects that are read. *)
Definition object_parsed (StreamID : Z) (m : ObjectMessage.t) : event :=
  SubgroupObjectEvent EventParsed StreamID (len (ObjectMessage.ObjectPayload m))
    (object_logged (ObjectMessage.GroupID m) (ObjectMessage.SubgroupID m) m).

Lemma Messages_qlog_subgroup alias g sg prio sid fuel p :
  subgroup_parser alias g sg prio p ->
  Messages_qlog true sid fuel p = map (object_parsed sid) (ObjectStreamParser.Messages fuel p).1.
Proof.
  revert p. induction fuel as [|fuel IH]; intros p Hp; [done|]. cbn. unfold Parse_qlog.
  destruct (ObjectStreamParser.Parse p) as [[m p']| | |] eqn:E; [|done..]. cbn.
  destruct (subgroup_parser_step _ _ _ _ _ _ _ Hp E) as [Hp' (_ & Hmg & Hms & _)]. rewrite (IH p' Hp').
  destruct Hp' as (_ & Hnf & _ & Hg & Hsg & _). apply Z.eqb_neq in Hnf. rewrite Hnf.
  destruct (ObjectStreamParser.Messages fuel p') as [ms e]. cbn.
  unfold subgroup_parsed, object_parsed. by rewrite Hg, Hsg, Hmg, Hms.
Qed.

Lemma Messages_qlog_fetch sid fuel p :
  ObjectStreamParser.typ p = StreamTypeFetch ->
  Messages_qlog true sid fuel p = map (fetch_parsed sid) (ObjectStreamParser.Messages fuel p).1.
Proof.
  revert p. induction fuel as [|fuel IH]; intros p Hp; [done|]. cbn. unfold Parse_qlog.
  destruct (ObjectStreamParser.Parse p) as [[m p']| | |] eqn:E; [|done..].
  unfold ObjectStreamParser.Parse in E. rewrite Hp in E. cbn [Z.eqb] in E.
  unfold ObjectStreamParser.parseFetchObject in E. inv_bind E. destruct x as [m1 br]. injection E as <- <-.
  cbn. rewrite Hp. cbn. f_equal.
  rewrite IH by done. by destruct (ObjectStreamParser.Messages fuel _) as [ms e].
Qed.

Lemma qlog_header br rsid p :
  ObjectStreamParser.NewObjectStreamParser br = Ok p ->
  NewObjectStreamParser_qlog true rsid br =
  ([StreamTypeSetEvent OwnerRemote rsid
      (if ObjectStreamParser.Type_ p =? StreamTypeFetch then StreamTypeFetchHeader else StreamTypeSubgroupHeader)], Ok p).
Proof.
  intros HN. unfold NewObjectStreamParser_qlog. rewrite HN. f_equal.
  unfold ObjectStreamParser.NewObjectStreamParser in HN. inv_bind HN. destruct x as [typ r].
  cbn in HN |- *. destruct (Z.eqb_spec typ StreamTypeFetch) as [->|Hne].
  - inv_bind HN. destruct x as [h r']. injection HN as <-. by rewrite E.
  - rewrite E. apply Z.eqb_neq in Hne as Hne'. rewrite Hne'. destruct (ObjectStreamParser.is_subgroup_type typ); [|done]. inv_bind HN. destruct x as [h r']. injection HN as <-.
    cbn. by rewrite Hne'.
Qed.

(** The qlog of the reader of a subgroup stream is that of its writer: after
    newSubgroup and any successful writes, the events of the parser are those of the
    subgroup, one by one and in order, with the same group, subgroup, object, status
    and payload. *)
Theorem subgroup_qlogs_agree ssid rsid alias g sg prio objs s0 l0 s l :
  0 <= alias -> 0 <= g -> 0 <= sg -> 0 <= prio < 256 ->
  Forall (fun '(o, payload) => 0 <= o /\ len payload <= maxAlloc) objs ->
  newSubgroup_qlog true ssid [] alias g sg prio None = Ok (s0, l0) ->
  Subgroup_WriteObjects_qlog true ssid s0 objs = Ok (s, l) ->
  exists lp p,
    NewObjectStreamParser_qlog true rsid (mkReader (Subgroup.stream s) io_EOF) = (lp, Ok p) /\
    lp ++ Messages_qlog true rsid (S (length objs)) p = map (at_receiver rsid) (l0 ++ l).
Proof.
  intros Ha Hg Hsg Hp Hobjs Hnew Hw. unfold newSubgroup_qlog in Hnew. inv_bind Hnew. injection Hnew as -> <-.
  apply Subgroup_WriteObjects_qlog_spec in Hw as [Hw ->].
  destruct (subgroup_stream_read alias g sg prio objs s0 s Ha Hg Hsg Hp Hobjs E Hw) as (p & HN & Ht & Hid & HM).
  eexists _, p. split; [by apply qlog_header|]. rewrite Ht. cbn [app map].
  unfold ObjectStreamParser.Type_ in Ht.
  destruct (NewObjectStreamParser_subgroup _ _ HN) as [Hpp _]; [by rewrite Ht|].
  rewrite (Messages_qlog_subgroup _ _ _ _ _ _ _ Hpp), HM. cbn. f_equal.
  unfold Subgroup.newSubgroup in E. inv_bind E. cbn in E. injection E as <-.
  rewrite !map_map. apply map_ext. by intros [o payload].
Qed.

(** The same of a fetch stream, up to the priority: the writer leaves it out. *)
Theorem fetch_qlogs_agree ssid rsid rid objs s0 l0 s l :
  0 <= rid ->
  Forall (fun '(g, sg, o, prio, payload) =>
    (0 <= g /\ 0 <= sg /\ 0 <= o) /\ 0 <= prio < 256 /\ len payload <= maxAlloc) objs ->
  newFetchStream_qlog true ssid [] rid None = Ok (s0, l0) ->
  FetchStream_WriteObjects_qlog true ssid s0 objs = Ok (s, l) ->
  exists lp p,
    NewObjectStreamParser_qlog true rsid (mkReader (FetchStream.stream s) io_EOF) = (lp, Ok p) /\
    map without_priority (lp ++ Messages_qlog true rsid (S (length objs)) p) = map (at_receiver rsid) (l0 ++ l).
Proof.
  intros Hr Hobjs Hnew Hw. unfold newFetchStream_qlog in Hnew. inv_bind Hnew. injection Hnew as -> <-.
  apply FetchStream_WriteObjects_qlog_spec in Hw as [Hw ->].
  destruct (fetch_stream_roundtrip rid objs s0 s Hr Hobjs E Hw) as (p & HN & Ht & Hid & HM).
  eexists _, p. split; [by apply qlog_header|]. rewrite Ht. cbn [app map Z.eqb].
  rewrite (Messages_qlog_fetch _ _ _ Ht), HM. cbn. f_equal.
  rewrite !map_map. apply map_ext. by intros [[[[g' sg'] o] prio] payload].
Qed.

(** And of a datagram, with the names mixed up: one with a payload is logged by its
    sender as one with a status, and the other way round. *)
Theorem datagram_qlogs_agree o lt buf lt' :
  0 <= localTrack.trackAlias lt -> 0 <= Object.GroupID o -> 0 <= Object.ObjectID o ->
  localTrack.sendDatagram o None lt = Ok (Ret buf, lt') ->
  exists e, sendDatagram_qlog true o lt = [e] /\ read_datagram_qlog true buf = [at_receiver 0 e] /\
  exists alias prio om, e =
    ObjectDatagramEvent (if len (Object.Payload o) >? 0 then ObjectDatagramStatusEventCreated else ObjectDatagramEventCreated)
      alias prio om.
Proof.
  intros Ha Hg Ho H. unfold localTrack.sendDatagram, localTrack.check_open in H. unfold sendDatagram_qlog.
  unfold mbind, GM_bind, gm_bind in H. destruct (localTrack.closed lt); [done|]. cbn in H.
  destruct (ObjectDatagramMessage.AppendDatagram _ []) as [out| | |] eqn:E; cbn in H; try done.
  injection H as -> _. eexists. split; [done|]. split; [|by eexists _, _, _].
  unfold read_datagram_qlog. match type of E with ObjectDatagramMessage.AppendDatagram ?m _ = _ =>
    by rewrite (datagram_parsed m buf _ [] Ha Hg Ho ltac:(cbn; lia) eq_refl eq_refl E)
  end.
Qed.

End QlogTheorems.

Lemma subgroup_qlogs_agree_witness :
  exists l0 s0 l s lp p,
    newSubgroup_qlog true 3 [] 7 1 2 128 None = Ok (s0, l0) /\
    Subgroup_WriteObjects_qlog true 3 s0 [(0, bytes_of [1; 2; 3]); (300, [])] = Ok (s, l) /\
    length (l0 ++ l) = 3%nat /\
    lp ++ Messages_qlog true 2 3 p = map (at_receiver 2) (l0 ++ l).
Proof.
  destruct (newSubgroup_qlog true 3 [] 7 1 2 128 None) as [[s0 l0]| | |] eqn:E0; [|vm_compute in E0; discriminate..].
  destruct (Subgroup_WriteObjects_qlog true 3 s0 [(0, bytes_of [1; 2; 3]); (300, [])]) as [[s l]| | |] eqn:E;
    vm_compute in E0; injection E0 as <- <-; vm_compute in E; try discriminate. injection E as <- <-.
  destruct (subgroup_qlogs_agree 3 2 7 1 2 128 [(0, bytes_of [1; 2; 3]); (300, [])] _ _ _ _
    ltac:(lia) ltac:(lia) ltac:(lia) ltac:(lia) ltac:(repeat constructor; vm_compute; discriminate) eq_refl eq_refl)
    as (lp & p & _ & Hl).
  eexists _, _, _, _, lp, p. split; [done|]. split; [vm_compute; reflexivity|]. split; [done|]. exact Hl.
Defined.
