(* ===== verification/Text.v ===== *)
(** The texts of values: the String and Error methods and Tuple.MarshalJSON.

    What fmt makes of %v, %d and %x for the types that occur: a uint64 in digits, a
    []byte as its numbers in brackets, a struct without a method of its own as its
    fields in braces. *)

From stdpp Require Import sets.
From Stdlib Require Import String.
From S2P Require Import Prelude Codec WireTypes Messages Errors Strconv.
Local Open Scope Z_scope.

(** * fmt *)

(** [%v] of a []byte. *)
Fixpoint format_bytes_tail (bs : list byte) : gostring :=
  match bs with
  | [] => []
  | b :: bs => str " " ++ FormatUint (byte.unsigned b) ++ format_bytes_tail bs
  end.
Definition format_bytes (bs : list byte) : gostring :=
  str "[" ++ match bs with [] => [] | b :: bs => FormatUint (byte.unsigned b) ++ format_bytes_tail bs end ++ str "]".

(** [%x] of a uint64: 16 hexadecimal digits at most. *)
Definition hex_digit (d : Z) : byte := byte.of_Z (if d <? 10 then 48 + d else 87 + d).
Fixpoint format_hex_digits (fuel : nat) (n : Z) (acc : list byte) : list byte :=
  match fuel with
  | O => acc
  | S fuel =>
      let acc := hex_digit (n mod 16) :: acc in
      if n / 16 =? 0 then acc else format_hex_digits fuel (n / 16) acc
  end.
Definition format_hex (n : Z) : gostring := format_hex_digits 16 n [].

(** strings.Join, and the loops that write a list with a comma and a space between
    its elements. *)
Fixpoint join (sep : gostring) (l : list gostring) : gostring :=
  match l with
  | [] => []
  | [s] => s
  | s :: l => s ++ sep ++ join sep l
  end.

(** * The methods *)

Definition FilterType_String (f : Z) : gostring :=
  if f =? FilterTypeLatestObject then str "LatestObject"
  else if f =? FilterTypeNextGroupStart then str "NextGroupStart"
  else if f =? FilterTypeAbsoluteStart then str "AbsoluteStart"
  else if f =? FilterTypeAbsoluteRange then str "AbsoluteRange"
  else str "Unknown(" ++ FormatUint f ++ str ")".

Definition GroupOrder_String (g : Z) : gostring :=
  if g =? GroupOrderNone then str "None"
  else if g =? GroupOrderAscending then str "Ascending"
  else if g =? GroupOrderDescending then str "Descending"
  else str "Invalid(" ++ FormatUint g ++ str ")".

Definition Version_String (v : Z) : gostring := str "0x" ++ format_hex v.
Definition versions_String (v : list Z) : gostring := str "[" ++ join (str ", ") (map Version_String v) ++ str "]".

(** The method has a pointer receiver. *)
Definition KeyValuePair_String (p : KeyValuePair.t) : gostring :=
  str "{key: " ++ FormatUint (KeyValuePair.Type_ p) ++ str ", value: '" ++
  (if KeyValuePair.Type_ p mod 2 =? 1 then format_bytes (KeyValuePair.ValueBytes p)
   else FormatUint (KeyValuePair.ValueVarInt p)) ++ str "'}".

(** KVPList.String formats values, not pointers, so that their method is not found:
    each pair is printed as a struct. *)
Definition format_pair (p : KeyValuePair.t) : gostring :=
  str "{" ++ FormatUint (KeyValuePair.Type_ p) ++ str " " ++ format_bytes (KeyValuePair.ValueBytes p) ++ str " " ++
  FormatUint (KeyValuePair.ValueVarInt p) ++ str "}".
Definition KVPList_String (pp : KVPList.t) : gostring := str "[" ++ join (str ", ") (map format_pair pp) ++ str "]".

Definition quote : byte := byte.of_Z 34.
Definition element_json (s : gostring) : gostring :=
  str "{" ++ [quote] ++ str "value" ++ [quote] ++ str ": " ++ [quote] ++ s ++ [quote] ++ str "}".
Definition Tuple_MarshalJSON (t : Tuple.t) : gostring := str "[" ++ join (str ",") (map element_json t) ++ str "]".

Definition ErrSubscribeDone_Error (status : Z) (reason : gostring) : gostring :=
  str "subscribe done: status=" ++ FormatUint status ++ str ", reason='" ++ reason ++ str "'".
Definition ProtocolError_Error (code : Z) (message : gostring) : gostring := FormatUint code ++ str ": " ++ message.
Definition ProtocolError_String : Z -> gostring -> gostring := ProtocolError_Error.
Definition ProtocolError_Code (code : Z) : Z := code.
Definition errRequestsBlocked_Error (maxRequestID : Z) : gostring :=
  str "too many subscribes, max_request_id=" ++ FormatUint maxRequestID.

(** * What the texts tell *)

Lemma quoted_inj (a b x y : gostring) :
  quote ∉ a -> quote ∉ b -> a ++ quote :: x = b ++ quote :: y -> a = b /\ x = y.
Proof.
  revert b. induction a as [|c a IH]; intros [|d b] Ha Hb H; cbn in H.
  - by injection H.
  - injection H as <- _. exfalso. apply Hb, list_elem_of_here.
  - injection H as -> _. exfalso. apply Ha, list_elem_of_here.
  - injection H as <- H. destruct (IH b) as [-> ->]; [set_solver|set_solver|done|done].
Qed.

(** The text after the first element. *)
Fixpoint json_rest (l : Tuple.t) : gostring :=
  match l with
  | [] => str "]"
  | s :: l => str "," ++ element_json s ++ json_rest l
  end.

Lemma json_unfold s l : Tuple_MarshalJSON (s :: l) = str "[" ++ element_json s ++ json_rest l.
Proof.
  unfold Tuple_MarshalJSON. f_equal. revert s. induction l as [|s' l IH]; intros s; [done|].
  cbn [map join json_rest] in *. rewrite <- !app_assoc. do 2 f_equal. apply IH.
Qed.

Lemma element_inj s s' x y :
  quote ∉ s -> quote ∉ s' -> element_json s ++ x = element_json s' ++ y -> s = s' /\ x = y.
Proof.
  intros Hs Hs' H. unfold element_json in H. rewrite <- !app_assoc in H.
  do 6 apply app_inv_head in H. destruct (quoted_inj _ _ _ _ Hs Hs' H) as [-> H'].
  split; [done|]. by apply (app_inv_head (str "}")).
Qed.

(** The JSON text of a tuple tells the tuple, as long as its elements have no quote;
    the elements are not escaped: with quotes, an element can write others. *)
Theorem marshal_json t t' :
  Forall (fun s => quote ∉ s) t -> Forall (fun s => quote ∉ s) t' ->
  Tuple_MarshalJSON t = Tuple_MarshalJSON t' -> t = t'.
Proof.
  assert (forall t t', Forall (fun s => quote ∉ s) t -> Forall (fun s => quote ∉ s) t' -> json_rest t = json_rest t' -> t = t') as Hrest.
  { clear. intros t t' Ht. revert t'. induction Ht as [|s t Hs Ht IH]; intros t' [|s' l Hs' Ht'] H; try done.
    apply app_inv_head in H. destruct (element_inj _ _ _ _ Hs Hs' H) as [-> H']. f_equal. by apply IH. }
  intros [|s l Hs Ht] [|s' l' Hs' Ht'] H; [done|by rewrite json_unfold in H|by rewrite json_unfold in H|].
  rewrite !json_unfold in H. apply app_inv_head in H. destruct (element_inj _ _ _ _ Hs Hs' H) as [-> H']. f_equal. by apply Hrest.
Qed.

Lemma marshal_json_forged :
  Tuple_MarshalJSON [str "a" ++ [quote] ++ str "},{" ++ [quote] ++ str "value" ++ [quote] ++ str ": " ++ [quote] ++ str "b"] =
  Tuple_MarshalJSON [str "a"; str "b"].
Proof. reflexivity. Qed.
