(* ===== verification/Mains.v ===== *)
(** The main programs (examples/counter/main.go, fec/xor/example/main.go,
    examples/date/main.go and handler.go): TLS configuration, listening, dialling, and
    how a program ends.

    The packages crypto/tls, crypto/x509 and the sockets are the class [Platform]: what
    the program asks of it, and its answers.  What a program prints is left out but
    for the error it ends with.  The goroutine of the date track, which runClient and
    runServer of the date program start, is in DateTrack.v, and handle in Programs.v. *)

From Stdlib Require Import String.
From S2P Require Import Prelude Codec WireTypes Objects Errors State TrackMaps Tracks SessionState Session.
From S2P Require Import Params Strconv Connections Applications Telemetry CommandLine Programs.
Local Open Scope Z_scope.
Local Open Scope go_scope.

(** * The platform *)

(** A certificate, an RSA key, and a certificate in DER form.  The calls that may
    fail do so with an error; X509KeyPair is given the key and the certificate, which
    the program has encoded as PEM. *)
Class Platform (Cert : Type) := {
  Key : Type;
  DER : Type;
  LoadX509KeyPair : gostring -> gostring -> ret Cert;
  GenerateKey : ret Key;
  CreateCertificate : Key -> ret DER;
  X509KeyPair : DER -> Key -> ret Cert;
}.

(** The fields of tls.Config that the programs set. *)
Module tls.
Record Config (Cert : Type) := mk { Certificates : list Cert; NextProtos : list gostring; InsecureSkipVerify : bool }.
Arguments mk {Cert} Certificates NextProtos InsecureSkipVerify.
Arguments Certificates {Cert} _.
Arguments NextProtos {Cert} _.
Arguments InsecureSkipVerify {Cert} _.
End tls.

Section TLS.
Context {Cert : Type} {P : Platform Cert}.

Definition server_config (protos : list gostring) (cert : Cert) : tls.Config Cert := tls.mk [cert] protos false.

Definition with_cert_and_key (protos : list gostring) (certFile keyFile : gostring) : ret (tls.Config Cert) :=
  match LoadX509KeyPair certFile keyFile with
  | Error e => Error e
  | Ret cert => Ret (server_config protos cert)
  end.

Definition in_memory (protos : list gostring) : ret (tls.Config Cert) :=
  match GenerateKey with
  | Error e => Error e
  | Ret key =>
      match CreateCertificate key with
      | Error e => Error e
      | Ret certDER =>
          match X509KeyPair certDER key with
          | Error e => Error e
          | Ret cert => Ret (server_config protos cert)
          end
      end
  end.

Definition counter_generateTLSConfigWithCertAndKey : gostring -> gostring -> ret (tls.Config Cert) :=
  with_cert_and_key [moq_alpn].
Definition counter_generateTLSConfig : ret (tls.Config Cert) := in_memory [moq_alpn].
Definition xor_generateTLSConfigWithCertAndKey : gostring -> gostring -> ret (tls.Config Cert) :=
  with_cert_and_key [moq_alpn].
Definition xor_generateTLSConfig : ret (tls.Config Cert) := in_memory [moq_alpn].
Definition date_generateTLSConfigWithCertAndKey : gostring -> gostring -> ret (tls.Config Cert) :=
  with_cert_and_key [moq_alpn; h3_alpn].
Definition date_generateTLSConfig : ret (tls.Config Cert) := in_memory [moq_alpn; h3_alpn].

End TLS.

(** * How a program ends *)

(** log.Fatal; the return of main; a program that goes on. *)
Inductive exit := Fatal (e : error) | Exits (r : ret unit) | GoesOn.

(** The status of the process, and the error main has printed. *)
Definition status (x : exit) : option Z :=
  match x with Fatal _ | Exits (Error _) => Some 1 | Exits (Ret _) => Some 0 | GoesOn => None end.

Section Mains.
Context {Ctx W : Type} {L : TransportLibrary Ctx W} {Cert : Type} {P : Platform Cert}.

(** What the network answers: to ListenAddr, to the calls of Accept, to the dial of a
    client with its protocols; and where handle of the client's connection gets. *)
Record network := mk_network {
  ListenAddr : gostring -> tls.Config Cert -> option error;
  Accepts : list (ret (Conn * gostring));
  DialAddr : gostring -> tls.Config Cert -> ret Conn;
  DialWebTransport : gostring -> tls.Config Cert -> ret Conn;
  handled : Connection.t Ctx W -> handle_phase }.

Context (n : network).

Definition dial_config : tls.Config Cert := tls.mk [] [moq_alpn] true.
Definition dial_wt_config : tls.Config Cert := tls.mk [] [] true.

(** After handle a client waits for ever. *)
Definition after_handle (ph : handle_phase) : exit :=
  match ph with Handled (Error e) => Exits (Error e) | _ => GoesOn end.

Definition client_on (conn : ret (Connection.t Ctx W)) : exit :=
  match conn with
  | Error e => Exits (Error e)
  | Ret conn => after_handle (handled n conn)
  end.

Definition counter_runClient (o : options.t) : exit := client_on (dialQUIC (DialAddr n (options.addr o) dial_config)).
Definition xor_runClient (o : options.t) : exit := client_on (xor_dialQUIC (DialAddr n (options.addr o) dial_config)).
Definition date_runClient (o : options.t) : exit :=
  client_on (if options.webtransport o
             then date_dialWebTransport (DialWebTransport n (options.addr o) dial_wt_config)
             else date_dialQUIC (DialAddr n (options.addr o) dial_config)).

(** The server's certificate is that of its files, or one made in memory. *)
Definition tls_config (files memory : ret (tls.Config Cert)) : ret (tls.Config Cert) :=
  match files with Ret config => Ret config | Error _ => memory end.

(** The connections that are handled, and how the program ends. *)
Definition serve {C} (loop : list (ret (Conn * gostring)) -> list C * option error) (addr : gostring)
    (config : ret (tls.Config Cert)) : list C * exit :=
  match config with
  | Error e => ([], Fatal e)
  | Ret config =>
      match ListenAddr n addr config with
      | Some e => ([], Exits (Error e))
      | None =>
          let '(conns, e) := loop (Accepts n) in
          (conns, match e with Some e => Exits (Error e) | None => GoesOn end)
      end
  end.

Definition counter_runServer (o : options.t) : list (Connection.t Ctx W) * exit :=
  serve accept_loop (options.addr o)
    (tls_config (counter_generateTLSConfigWithCertAndKey (options.certFile o) (options.keyFile o)) counter_generateTLSConfig).
Definition xor_runServer (o : options.t) : list (Connection.t Ctx W) * exit :=
  serve xor_accept_loop (options.addr o)
    (tls_config (xor_generateTLSConfigWithCertAndKey (options.certFile o) (options.keyFile o)) xor_generateTLSConfig).
Definition date_runServer (o : options.t) : list (served (Ctx := Ctx) (W := W)) * exit :=
  serve date_accept_loop (options.addr o)
    (tls_config (date_generateTLSConfigWithCertAndKey (options.certFile o) (options.keyFile o)) date_generateTLSConfig).

(** The HTTP handler of /moq, given what Upgrade gives: the connection it handles; none
    when it answers with status 500. *)
Definition date_serve_moq (upgrade : ret Conn) : option (Connection.t Ctx W) :=
  match upgrade with
  | Error _ => None
  | Ret session => Some (webtransportmoq.NewServer session)
  end.

(** main: [run] with the arguments of the process. *)
Definition main_of {C} (server : options.t -> list C * exit) (client : options.t -> exit) (s : started) : list C * exit :=
  match s with
  | Returned r => ([], Exits r)
  | RunsServer o => server o
  | RunsClient o => ([], client o)
  end.
Definition counter_program_main (args : list gostring) : res (list (Connection.t Ctx W) * exit) :=
  s ← counter_run args; mret (main_of counter_runServer counter_runClient s).
Definition xor_program_main (args : list gostring) : res (list (Connection.t Ctx W) * exit) :=
  s ← xor_run args; mret (main_of xor_runServer xor_runClient s).
Definition date_program_main (args : list gostring) : res (list (served (Ctx := Ctx) (W := W)) * exit) :=
  s ← date_run args; mret (main_of date_runServer date_runClient s).

End Mains.

(** * Log lines *)

(** What the handler of the date program logs of a SUBSCRIBE_UPDATE. *)
Definition date_getSubscribeUpdateHandler (sessionID : Z) (m : PublicSubscribeUpdate.t) : list gostring :=
  [str "sessionNr: " ++ FormatUint sessionID ++ str " received SUBSCRIBE_UPDATE for requestID " ++
     FormatUint (PublicSubscribeUpdate.RequestID m);
   str "  new start: group=" ++ FormatUint (Location.Group (PublicSubscribeUpdate.StartLocation m)) ++
     str ", object=" ++ FormatUint (Location.Object (PublicSubscribeUpdate.StartLocation m));
   str "  new end group: " ++ FormatUint (PublicSubscribeUpdate.EndGroup m);
   str "  new priority: " ++ FormatUint (PublicSubscribeUpdate.SubscriberPriority m);
   str "  new forward: " ++ FormatUint (PublicSubscribeUpdate.Forward m);
   str "  parameters: " ++ FormatUint (len (PublicSubscribeUpdate.Parameters m))].

(** The goroutine of the counter server that logs the metrics of its connections with
    every tick of its ticker, until its context is done ([None]); the readings of the
    clock are those of [GetRollingMetrics], and the metrics stand for their text. *)
Fixpoint logServerMetrics (wakes : list (option (Z * Z))) (logger : QuicLogger.t) :
    res (list QuicLogger.RollingMetrics * QuicLogger.t) :=
  match wakes with
  | [] | None :: _ => Ok ([], logger)
  | Some (now1, now2) :: wakes =>
      '(m, logger) ← QuicLogger.GetRollingMetrics now1 now2 logger;
      '(ms, logger) ← logServerMetrics wakes logger;
      Ok (m :: ms, logger)
  end.

(** * Properties *)

Section Ends.
Context {Ctx W : Type} {L : TransportLibrary Ctx W} {Cert : Type} {P : Platform Cert}.

(** The answers of Accept up to its first error, and that error. *)
Fixpoint accepted (answers : list (ret (Conn * gostring))) : list (Conn * gostring) * option error :=
  match answers with
  | [] => ([], None)
  | Error e :: _ => ([], Some e)
  | Ret c :: answers => let '(cs, e) := accepted answers in (c :: cs, e)
  end.

(** The connections that have negotiated a protocol, in order. *)
Definition negotiated (proto : gostring) (cs : list (Conn * gostring)) : list Conn :=
  omap (fun c => if bool_decide (c.2 = proto) then Some c.1 else None) cs.

Lemma accept_loop_spec answers :
  accept_loop answers = (quicmoq.NewServer <$> negotiated moq_alpn (accepted answers).1, (accepted answers).2).
Proof.
  induction answers as [|[[conn proto]|e] answers IH]; [done| |done]. cbn. rewrite IH.
  destruct (accepted answers) as [cs e]. cbn. by case_bool_decide.
Qed.

(** The session of every connection, whatever else is served. *)
Lemma date_accept_loop_spec answers :
  let '(served, e) := date_accept_loop (Ctx := Ctx) (W := W) answers in
  omap (fun x => match x with Handles c => Some c | ServesQUICConn _ => None end) served =
    quicmoq.NewServer <$> negotiated moq_alpn (accepted answers).1 /\
  omap (fun x => match x with ServesQUICConn c => Some c | Handles _ => None end) served =
    negotiated h3_alpn (accepted answers).1 /\ e = (accepted answers).2.
Proof.
  induction answers as [|[[conn proto]|e] answers IH]; [done| |done]. cbn.
  destruct (date_accept_loop answers) as [sv e], (accepted answers) as [cs e']. cbn in IH |- *.
  destruct IH as (H1 & H2 & H3).
  case_bool_decide; case_bool_decide; subst; cbn; rewrite ?H1, ?H2; try done.
Qed.

(** A program ends with status 0 exactly if its command line asks for help: a server
    and a client go on until something fails. *)
Theorem programs_end (n : network (Ctx := Ctx) (W := W) (Cert := Cert)) args :
  (forall conns x, counter_program_main n args = Ok (conns, x) ->
     status x = Some 0 <-> counter_run args = Ok (Returned (Ret tt))) /\
  (forall conns x, xor_program_main n args = Ok (conns, x) ->
     status x = Some 0 <-> xor_run args = Ok (Returned (Ret tt))) /\
  (forall conns x, date_program_main n args = Ok (conns, x) ->
     status x = Some 0 <-> date_run args = Ok (Returned (Ret tt))).
Proof.
  assert (forall C (loop : list (ret (Conn * gostring)) -> list C * option error) addr config,
    status (serve n loop addr config).2 <> Some 0) as Hserve.
  { intros C loop addr [config|e]; [|done]. cbn. destruct (ListenAddr n addr config); [done|].
    by destruct (loop (Accepts n)) as [cs [e|]]. }
  assert (forall conn, status (client_on n conn) <> Some 0) as Hclient.
  { intros [conn|e]; [|done]. cbn. by destruct (handled n conn) as [| | |a| |rt|[r|e]]. }
  assert (forall C (server : options.t -> list C * exit) client s conns x,
    (forall o, status (server o).2 <> Some 0) -> (forall o, status (client o) <> Some 0) ->
    main_of server client s = (conns, x) -> status x = Some 0 <-> s = Returned (Ret tt)) as Hmain.
  { intros C server client [r|o|o] conns x Hs Hc H; cbn in H.
    - injection H as _ <-. by destruct r as [[]|].
    - specialize (Hs o). rewrite H in Hs. split; [by intros|done].
    - injection H as _ <-. split; [intros E; by apply Hc in E|done]. }
  unfold counter_program_main, xor_program_main, date_program_main.
  split; [|split]; intros conns x H.
  - destruct (counter_run args) as [s| | |]; [|done..]. cbn in H. injection H as H.
    rewrite (Hmain _ (counter_runServer n) (counter_runClient n) s conns x); [by split; [intros ->|intros [= ->]]|..|exact H];
      intros o; [apply Hserve|apply Hclient].
  - destruct (xor_run args) as [s| | |]; [|done..]. cbn in H. injection H as H.
    rewrite (Hmain _ (xor_runServer n) (xor_runClient n) s conns x); [by split; [intros ->|intros [= ->]]|..|exact H];
      intros o; [apply Hserve|apply Hclient].
  - destruct (date_run args) as [s| | |]; [|done..]. cbn in H. injection H as H.
    rewrite (Hmain _ (date_runServer n) (date_runClient n) s conns x); [by split; [intros ->|intros [= ->]]|..|exact H];
      intros o; [apply Hserve|apply Hclient].
Qed.

End Ends.
