(* ===== verification/Logging.v ===== *)
(** What the library logs of its control messages (logging.go, the LogValue methods of
    internal/wire, controlStream.write and Session.receive): the level read from the
    environment, the attributes of a message, the records of what is sent and
    received; and how much of a message its record tells.

    The values are those of log/slog, and the records are what the text handler is
    given; the lines it makes of them, and those that say nothing of a message, are
    left out. *)

From Stdlib Require Import String.
From S2P Require Import Prelude VarInt Codec WireTypes Messages ControlMessages Errors.
Local Open Scope string_scope.
Local Open Scope list_scope.
Local Open Scope Z_scope.

(** * Values of log/slog *)

(** The Go values that slog.Any keeps as they are: those of the types that this
    package defines, structs and slices. *)
Inductive any :=
  | AnyTuple (t : Tuple.t)
  | AnyRawInfo (length payloadLength : Z) (data : list byte)
  | AnyParameters (ps : KVPList.t)
  | AnyVersions (vs : versions.t)
  | AnyFilterType (f : Z)
  | AnyGroupOrder (g : Z)
  | AnyBytes (b : list byte).

(** A value of an attribute, and a group of attributes.  slog.Any gives a uint8 as a
    Uint64. *)
Inductive value :=
  | String (s : gostring)
  | Uint64 (n : Z)
  | Int64 (n : Z)
  | Any (a : any).
Abbreviation attr := (string * value)%type.
Inductive group := GroupValue (attrs : list attr).

Definition RawInfo (data : list byte) : value := Any (AnyRawInfo (len data) (len data) data).

(** The attributes every message ends in that has parameters: their number, and
    the parameters if there are any. *)
Definition parameters_attrs (key : string) (ps : KVPList.t) : list attr :=
  [("number_of_parameters", Uint64 (len ps))] ++ if len ps >? 0 then [(key, Any (AnyParameters ps))] else [].

(** * The LogValue methods *)

Definition ClientSetupMessage_LogValue (m : ClientSetupMessage.t) : group := GroupValue (
  [("type", String (str "client_setup"));
   ("number_of_supported_versions", Uint64 (len (ClientSetupMessage.SupportedVersions m)));
   ("supported_versions", Any (AnyVersions (ClientSetupMessage.SupportedVersions m)))]
  ++ parameters_attrs "setup_parameters" (ClientSetupMessage.SetupParameters m)).

Definition ServerSetupMessage_LogValue (m : ServerSetupMessage.t) : group := GroupValue (
  [("type", String (str "server_setup"));
   ("selected_version", Uint64 (ServerSetupMessage.SelectedVersion m))]
  ++ parameters_attrs "setup_parameters" (ServerSetupMessage.SetupParameters m)).

Definition GoAwayMessage_LogValue (m : GoAwayMessage.t) : group := GroupValue
  [("type", String (str "goaway")); ("new_session_uri", RawInfo (GoAwayMessage.NewSessionURI m))].

Definition MaxRequestIDMessage_LogValue (m : MaxRequestIDMessage.t) : group := GroupValue
  [("type", String (str "max_request_id")); ("max_request_id", Uint64 (MaxRequestIDMessage.RequestID m))].

Definition RequestsBlockedMessage_LogValue (m : RequestsBlockedMessage.t) : group := GroupValue
  [("type", String (str "requests_blocked"));
   ("max_request_id", Uint64 (RequestsBlockedMessage.MaximumRequestID m))].

Definition SubscribeMessage_LogValue (m : SubscribeMessage.t) : group := GroupValue (
  [("type", String (str "subscribe"));
   ("request_id", Uint64 (SubscribeMessage.RequestID m));
   ("track_namespace", Any (AnyTuple (SubscribeMessage.TrackNamespace m)));
   ("track_name", RawInfo (SubscribeMessage.TrackName m));
   ("subscriber_priority", Uint64 (SubscribeMessage.SubscriberPriority m));
   ("group_order", Any (AnyGroupOrder (SubscribeMessage.GroupOrder m)));
   ("forward", Uint64 (SubscribeMessage.Forward m));
   ("filter_type", Any (AnyFilterType (SubscribeMessage.FilterType m)))]
  ++ (if (SubscribeMessage.FilterType m =? FilterTypeAbsoluteStart)
         || (SubscribeMessage.FilterType m =? FilterTypeAbsoluteRange) then
        [("start_group", Uint64 (Location.Group (SubscribeMessage.StartLocation m)));
         ("start_object", Uint64 (Location.Object (SubscribeMessage.StartLocation m)))]
      else [])
  ++ (if SubscribeMessage.FilterType m =? FilterTypeAbsoluteRange then
        [("end_group", Uint64 (SubscribeMessage.EndGroup m))]
      else [])
  ++ parameters_attrs "subscribe_parameters" (SubscribeMessage.Parameters m)).

(** Milliseconds of a time.Duration, which counts nanoseconds. *)
Definition Duration_Milliseconds (d : Z) : Z := d ÷ 1000000.

Definition SubscribeOkMessage_LogValue (m : SubscribeOkMessage.t) : group :=
  let ce := if SubscribeOkMessage.ContentExists m then 1 else 0 in
  GroupValue (
  [("type", String (str "subscribe_ok"));
   ("track_alias", Uint64 (SubscribeOkMessage.TrackAlias m));
   ("request_id", Uint64 (SubscribeOkMessage.RequestID m));
   ("expires", Uint64 (uint64 (Duration_Milliseconds (SubscribeOkMessage.Expires m))));
   ("group_order", Uint64 (SubscribeOkMessage.GroupOrder m));
   ("content_exists", Int64 ce)]
  ++ (if SubscribeOkMessage.ContentExists m then
        [("largest_group_id", Uint64 (Location.Group (SubscribeOkMessage.LargestLocation m)));
         ("largest_object_id", Uint64 (Location.Object (SubscribeOkMessage.LargestLocation m)))]
      else [])
  ++ parameters_attrs "subscribe_parameters" (SubscribeOkMessage.Parameters m)).

Definition SubscribeErrorMessage_LogValue (m : SubscribeErrorMessage.t) : group := GroupValue
  [("type", String (str "subscribe_error"));
   ("request_id", Uint64 (SubscribeErrorMessage.RequestID m));
   ("error_code", Uint64 (SubscribeErrorMessage.ErrorCode m));
   ("reason", String (SubscribeErrorMessage.ReasonPhrase m));
   ("reason_bytes", Any (AnyBytes (SubscribeErrorMessage.ReasonPhrase m)))].

Definition UnsubscribeMessage_LogValue (m : UnsubscribeMessage.t) : group := GroupValue
  [("type", String (str "unsubscribe")); ("request_id", Uint64 (UnsubscribeMessage.RequestID m))].

Definition SubscribeUpdateMessage_LogValue (m : SubscribeUpdateMessage.t) : group := GroupValue (
  [("type", String (str "subscribe_update"));
   ("request_id", Uint64 (SubscribeUpdateMessage.RequestID m));
   ("start_group", Uint64 (Location.Group (SubscribeUpdateMessage.StartLocation m)));
   ("start_object", Uint64 (Location.Object (SubscribeUpdateMessage.StartLocation m)));
   ("end_group", Uint64 (SubscribeUpdateMessage.EndGroup m));
   ("subscriber_priority", Uint64 (SubscribeUpdateMessage.SubscriberPriority m))]
  ++ parameters_attrs "setup_parameters" (SubscribeUpdateMessage.Parameters m)).

Definition SubscribeDoneMessage_LogValue (m : SubscribeDoneMessage.t) : group := GroupValue
  [("type", String (str "subscribe_done"));
   ("request_id", Uint64 (SubscribeDoneMessage.RequestID m));
   ("status_code", Uint64 (SubscribeDoneMessage.StatusCode m));
   ("stream_count", Uint64 (SubscribeDoneMessage.StreamCount m));
   ("reason", String (SubscribeDoneMessage.ReasonPhrase m))].

Definition FetchMessage_LogValue (m : FetchMessage.t) : group := GroupValue (
  [("type", String (str "fetch"));
   ("request_id", Uint64 (FetchMessage.RequestID m));
   ("subscriber_priority", Uint64 (FetchMessage.SubscriberPriority m));
   ("group_order", Uint64 (FetchMessage.GroupOrder m));
   ("fetch_type", Uint64 (FetchMessage.FetchType m))]
  ++ (if FetchMessage.FetchType m =? FetchTypeStandalone then
        [("track_namespace", Any (AnyTuple (FetchMessage.TrackNamespace m)));
         ("track_name", RawInfo (FetchMessage.TrackName m));
         ("start_group", Uint64 (FetchMessage.StartGroup m));
         ("start_object", Uint64 (FetchMessage.StartObject m));
         ("end_group", Uint64 (FetchMessage.EndGroup m));
         ("end_object", Uint64 (FetchMessage.EndObject m))]
      else [])
  ++ (if (FetchMessage.FetchType m =? FetchTypeAbsoluteJoining)
         || (FetchMessage.FetchType m =? FetchTypeRelativeJoining) then
        [("joining_subscribe_id", Uint64 (FetchMessage.JoiningSubscribeID m));
         ("preceding_group_offset", Uint64 (FetchMessage.JoiningStart m))]
      else [])
  ++ parameters_attrs "setup_parameters" (FetchMessage.Parameters m)).

Definition FetchOkMessage_LogValue (m : FetchOkMessage.t) : group := GroupValue (
  [("type", String (str "fetch_ok"));
   ("request_id", Uint64 (FetchOkMessage.RequestID m));
   ("group_order", Uint64 (FetchOkMessage.GroupOrder m));
   ("end_of_track", Uint64 (FetchOkMessage.EndOfTrack m));
   ("largest_group_id", Uint64 (Location.Group (FetchOkMessage.EndLocation m)));
   ("largest_object_id", Uint64 (Location.Object (FetchOkMessage.EndLocation m)))]
  ++ parameters_attrs "subscribe_parameters" (FetchOkMessage.SubscribeParameters m)).

Definition FetchErrorMessage_LogValue (m : FetchErrorMessage.t) : group := GroupValue
  [("type", String (str "fetch_error"));
   ("request_id", Uint64 (FetchErrorMessage.RequestID m));
   ("error_code", Uint64 (FetchErrorMessage.ErrorCode m));
   ("reason", String (FetchErrorMessage.ReasonPhrase m))].

Definition FetchCancelMessage_LogValue (m : FetchCancelMessage.t) : group := GroupValue
  [("type", String (str "fetch_cancel")); ("request_id", Uint64 (FetchCancelMessage.RequestID m))].

Definition TrackStatusRequestMessage_LogValue (m : TrackStatusRequestMessage.t) : group := GroupValue
  [("type", String (str "track_status_request"));
   ("track_namespace", Any (AnyTuple (TrackStatusRequestMessage.TrackNamespace m)));
   ("track_name", RawInfo (TrackStatusRequestMessage.TrackName m))].

Definition TrackStatusMessage_LogValue (m : TrackStatusMessage.t) : group := GroupValue
  [("type", String (str "track_status"));
   ("status_code", Uint64 (TrackStatusMessage.StatusCode m));
   ("last_group_id", Uint64 (Location.Group (TrackStatusMessage.LargestLocation m)));
   ("last_object_id", Uint64 (Location.Object (TrackStatusMessage.LargestLocation m)))].

Definition AnnounceMessage_LogValue (m : AnnounceMessage.t) : group := GroupValue (
  [("type", String (str "announce"));
   ("track_namespace", Any (AnyTuple (AnnounceMessage.TrackNamespace m)))]
  ++ parameters_attrs "parameters" (AnnounceMessage.Parameters m)).

Definition AnnounceOkMessage_LogValue (m : AnnounceOkMessage.t) : group := GroupValue
  [("type", String (str "announce_ok"))].

Definition AnnounceErrorMessage_LogValue (m : AnnounceErrorMessage.t) : group := GroupValue
  [("type", String (str "announce_error"));
   ("error_code", Uint64 (AnnounceErrorMessage.ErrorCode m));
   ("reason", String (AnnounceErrorMessage.ReasonPhrase m))].

Definition UnannounceMessage_LogValue (m : UnannounceMessage.t) : group := GroupValue
  [("type", String (str "unannounce"));
   ("track_namespace", Any (AnyTuple (UnannounceMessage.TrackNamespace m)))].

Definition AnnounceCancelMessage_LogValue (m : AnnounceCancelMessage.t) : group := GroupValue
  [("type", String (str "announce_cancel"));
   ("track_namespace", Any (AnyTuple (AnnounceCancelMessage.TrackNamespace m)));
   ("error_code", Uint64 (AnnounceCancelMessage.ErrorCode m));
   ("reason", String (AnnounceCancelMessage.ReasonPhrase m))].

Definition SubscribeAnnouncesMessage_LogValue (m : SubscribeAnnouncesMessage.t) : group := GroupValue (
  [("type", String (str "subscribe_announces"));
   ("track_namespace_prefix", Any (AnyTuple (SubscribeAnnouncesMessage.TrackNamespacePrefix m)))]
  ++ parameters_attrs "parameters" (SubscribeAnnouncesMessage.Parameters m)).

Definition SubscribeAnnouncesOkMessage_LogValue (m : SubscribeAnnouncesOkMessage.t) : group := GroupValue
  [("type", String (str "subscribe_announces_ok"))].

Definition SubscribeAnnouncesErrorMessage_LogValue (m : SubscribeAnnouncesErrorMessage.t) : group := GroupValue
  [("type", String (str "subscribe_announces_error"));
   ("error_code", Uint64 (SubscribeAnnouncesErrorMessage.ErrorCode m));
   ("reason", String (SubscribeAnnouncesErrorMessage.ReasonPhrase m))].

Definition UnsubscribeAnnouncesMessage_LogValue (m : UnsubscribeAnnouncesMessage.t) : group := GroupValue
  [("type", String (str "unsubscribe_announces"));
   ("track_namespace_prefix", Any (AnyTuple (UnsubscribeAnnouncesMessage.TrackNamespacePrefix m)))].

Definition PublishMessage_LogValue (m : PublishMessage.t) : group := GroupValue [].
Definition PublishOkMessage_LogValue (m : PublishOkMessage.t) : group := GroupValue [].

Definition PublishErrorMessage_LogValue (m : PublishErrorMessage.t) : group := GroupValue
  [("type", String (str "subscribe_error"));
   ("request_id", Uint64 (PublishErrorMessage.RequestID m));
   ("error_code", Uint64 (PublishErrorMessage.ErrorCode m));
   ("reason", String (PublishErrorMessage.ReasonPhrase m));
   ("reason_bytes", Any (AnyBytes (PublishErrorMessage.ReasonPhrase m)))].

(** The method of the interface. *)
Definition LogValue (msg : ControlMessage) : group :=
  match msg with
  | ClientSetup m => ClientSetupMessage_LogValue m
  | ServerSetup m => ServerSetupMessage_LogValue m
  | GoAway m => GoAwayMessage_LogValue m
  | MaxRequestID m => MaxRequestIDMessage_LogValue m
  | RequestsBlocked m => RequestsBlockedMessage_LogValue m
  | Subscribe m => SubscribeMessage_LogValue m
  | SubscribeOk m => SubscribeOkMessage_LogValue m
  | SubscribeError m => SubscribeErrorMessage_LogValue m
  | Unsubscribe m => UnsubscribeMessage_LogValue m
  | SubscribeUpdate m => SubscribeUpdateMessage_LogValue m
  | SubscribeDone m => SubscribeDoneMessage_LogValue m
  | Fetch m => FetchMessage_LogValue m
  | FetchOk m => FetchOkMessage_LogValue m
  | FetchError m => FetchErrorMessage_LogValue m
  | FetchCancel m => FetchCancelMessage_LogValue m
  | TrackStatusRequest m => TrackStatusRequestMessage_LogValue m
  | TrackStatus m => TrackStatusMessage_LogValue m
  | Announce m => AnnounceMessage_LogValue m
  | AnnounceOk m => AnnounceOkMessage_LogValue m
  | AnnounceError m => AnnounceErrorMessage_LogValue m
  | Unannounce m => UnannounceMessage_LogValue m
  | AnnounceCancel m => AnnounceCancelMessage_LogValue m
  | SubscribeAnnounces m => SubscribeAnnouncesMessage_LogValue m
  | SubscribeAnnouncesOk m => SubscribeAnnouncesOkMessage_LogValue m
  | SubscribeAnnouncesError m => SubscribeAnnouncesErrorMessage_LogValue m
  | UnsubscribeAnnounces m => UnsubscribeAnnouncesMessage_LogValue m
  | Publish m => PublishMessage_LogValue m
  | PublishOk m => PublishOkMessage_LogValue m
  | PublishError m => PublishErrorMessage_LogValue m
  end.

(** * logging.go *)

Definition LevelDebug : Z := -4.
Definition LevelInfo : Z := 0.
Definition LevelWarn : Z := 4.
Definition LevelError : Z := 8.
Definition LogLevelNone : Z := 2 ^ 63 - 1.

(** strings.ToLower, as far as a comparison with an ASCII word can tell: of the runes
    beyond ASCII only U+0130 and U+212A have a lower case within it, i and k. *)
Definition lower_byte (b : byte) : byte :=
  if (65 <=? byte.unsigned b) && (byte.unsigned b <=? 90) then byte.of_Z (byte.unsigned b + 32) else b.
Fixpoint ToLower (s : gostring) : gostring :=
  match s with
  | Byte.xc4 :: Byte.xb0 :: s => Byte.x69 :: ToLower s
  | Byte.xe2 :: Byte.x84 :: Byte.xaa :: s => Byte.x6b :: ToLower s
  | b :: s => lower_byte b :: ToLower s
  | [] => []
  end.

(** The level for the value of the variable MOQ_LOG_LEVEL, empty if it is not set. *)
Definition readLoggingEnv (env : gostring) : Z :=
  let v := ToLower env in
  if bool_decide (v = str "") then LogLevelNone
  else if bool_decide (v = str "debug") then LevelDebug
  else if bool_decide (v = str "info") then LevelInfo
  else if bool_decide (v = str "warn") then LevelWarn
  else if bool_decide (v = str "error") then LevelError
  else LogLevelNone.

(** * The records of a message *)

(** A record: its level, its message, and its attributes "type" and "msg". *)
Record record := mk_record { level : Z; message : gostring; type : string; msg : group }.

(** The line of controlStream.write and that of Session.receive. *)
Definition message_record (text : string) (m : ControlMessage) : record :=
  mk_record LevelInfo (str text) (controlMessageType_String (ControlMessage.Type_ m)) (LogValue m).
Definition sending (m : ControlMessage) : record := message_record "sending message" m.
Definition receiving (m : ControlMessage) : record := message_record "received message" m.

(** The records that the default logger gives its text handler, whose level is the
    one init has set.  The handler makes a line of each. *)
Definition handled (env : gostring) (rs : list record) : list record :=
  List.filter (fun r => readLoggingEnv env <=? level r) rs.

Example logging_env_examples :
  readLoggingEnv (str "INFO") = LevelInfo /\ readLoggingEnv (str "verbose") = LogLevelNone /\
  readLoggingEnv (Byte.xc4 :: Byte.xb0 :: str "nfo") = LevelInfo.
Proof. by vm_compute. Qed.

(** * What a record tells of its message *)

(** The message without what its attributes leave out: the request ID of the
    announcement messages and of TRACK_STATUS, the fields that a filter or a fetch
    type does not use, the part of a millisecond, and more.  Nothing is left of
    PUBLISH and PUBLISH_OK, and PUBLISH_ERROR is written like a SUBSCRIBE_ERROR. *)
Definition logged (msg : ControlMessage) : ControlMessage :=
  match msg with
  | Subscribe m =>
      let f := SubscribeMessage.FilterType m in
      Subscribe (SubscribeMessage.mk (SubscribeMessage.RequestID m) (SubscribeMessage.TrackNamespace m)
        (SubscribeMessage.TrackName m) (SubscribeMessage.SubscriberPriority m) (SubscribeMessage.GroupOrder m)
        (SubscribeMessage.Forward m) f
        (if has_start f then SubscribeMessage.StartLocation m else Location.mk 0 0)
        (if has_end f then SubscribeMessage.EndGroup m else 0) (SubscribeMessage.Parameters m))
  | SubscribeOk m =>
      let c := SubscribeOkMessage.ContentExists m in
      SubscribeOk (SubscribeOkMessage.mk (SubscribeOkMessage.RequestID m) (SubscribeOkMessage.TrackAlias m)
        (uint64 (Duration_Milliseconds (SubscribeOkMessage.Expires m)) * 1000000) (SubscribeOkMessage.GroupOrder m) c
        (if c then SubscribeOkMessage.LargestLocation m else Location.mk 0 0) (SubscribeOkMessage.Parameters m))
  | SubscribeUpdate m =>
      SubscribeUpdate (SubscribeUpdateMessage.mk (SubscribeUpdateMessage.RequestID m)
        (SubscribeUpdateMessage.StartLocation m) (SubscribeUpdateMessage.EndGroup m)
        (SubscribeUpdateMessage.SubscriberPriority m) 0 (SubscribeUpdateMessage.Parameters m))
  | Fetch m =>
      let ft := FetchMessage.FetchType m in
      let standalone {A} (x d : A) := if ft =? FetchTypeStandalone then x else d in
      let joining (x : Z) := if (ft =? FetchTypeAbsoluteJoining) || (ft =? FetchTypeRelativeJoining) then x else 0 in
      Fetch (FetchMessage.mk (FetchMessage.RequestID m) (FetchMessage.SubscriberPriority m) (FetchMessage.GroupOrder m) ft
        (standalone (FetchMessage.TrackNamespace m) []) (standalone (FetchMessage.TrackName m) [])
        (standalone (FetchMessage.StartGroup m) 0) (standalone (FetchMessage.StartObject m) 0)
        (standalone (FetchMessage.EndGroup m) 0) (standalone (FetchMessage.EndObject m) 0)
        (joining (FetchMessage.JoiningSubscribeID m)) (joining (FetchMessage.JoiningStart m)) (FetchMessage.Parameters m))
  | TrackStatusRequest m =>
      TrackStatusRequest (TrackStatusRequestMessage.mk 0 (TrackStatusRequestMessage.TrackNamespace m)
        (TrackStatusRequestMessage.TrackName m) [])
  | TrackStatus m =>
      TrackStatus (TrackStatusMessage.mk 0 (TrackStatusMessage.StatusCode m) (TrackStatusMessage.LargestLocation m) [])
  | Announce m => Announce (AnnounceMessage.mk 0 (AnnounceMessage.TrackNamespace m) (AnnounceMessage.Parameters m))
  | AnnounceOk m => AnnounceOk (AnnounceOkMessage.mk 0)
  | AnnounceError m =>
      AnnounceError (AnnounceErrorMessage.mk 0 (AnnounceErrorMessage.ErrorCode m) (AnnounceErrorMessage.ReasonPhrase m))
  | SubscribeAnnounces m =>
      SubscribeAnnounces (SubscribeAnnouncesMessage.mk 0 (SubscribeAnnouncesMessage.TrackNamespacePrefix m)
        (SubscribeAnnouncesMessage.Parameters m))
  | SubscribeAnnouncesOk m => SubscribeAnnouncesOk (SubscribeAnnouncesOkMessage.mk 0)
  | SubscribeAnnouncesError m =>
      SubscribeAnnouncesError (SubscribeAnnouncesErrorMessage.mk 0 (SubscribeAnnouncesErrorMessage.ErrorCode m)
        (SubscribeAnnouncesErrorMessage.ReasonPhrase m))
  | Publish m => Publish (PublishMessage.mk 0 [] [] 0 0 0 (Location.mk 0 0) 0 [])
  | PublishOk m => Publish (PublishMessage.mk 0 [] [] 0 0 0 (Location.mk 0 0) 0 [])
  | PublishError m =>
      SubscribeError (SubscribeErrorMessage.mk (PublishErrorMessage.RequestID m) (PublishErrorMessage.ErrorCode m)
        (PublishErrorMessage.ReasonPhrase m))
  | _ => msg
  end.

(** The attributes of two lists of parameters. *)
Lemma parameters_inj (key : string) (ps ps' : KVPList.t) :
  len ps = len ps' ->
  (if len ps >? 0 then [(key, Any (AnyParameters ps))] else []) =
    (if len ps' >? 0 then [(key, Any (AnyParameters ps'))] else []) ->
  ps = ps'.
Proof.
  intros Hl H. rewrite Hl in H. destruct (Z.gtb_spec (len ps') 0) as [Hg|Hg]; [by injection H|].
  assert (forall qs : KVPList.t, len qs <= 0 -> qs = []) as Hnil.
  { intros [|q qs]; [done|]. rewrite len_cons. pose proof (len_nonneg qs). lia. }
  by rewrite (Hnil ps), (Hnil ps') by lia.
Qed.

Lemma uint64_twice n : uint64 (uint64 n) = uint64 n.
Proof. unfold uint64. by rewrite Z.mod_mod. Qed.

(** The attributes are those of what is left of the message. *)
Lemma LogValue_logged msg : LogValue (logged msg) = LogValue msg.
Proof.
  destruct msg; try done; cbn [logged LogValue].
  - unfold SubscribeMessage_LogValue. cbn. unfold has_start, has_end. by destruct (_ || _), (_ =? FilterTypeAbsoluteRange).
  - unfold SubscribeOkMessage_LogValue. cbn.
    replace (uint64 (Duration_Milliseconds (uint64 (Duration_Milliseconds (SubscribeOkMessage.Expires m)) * 1000000)))
      with (uint64 (Duration_Milliseconds (SubscribeOkMessage.Expires m)));
      [by destruct (SubscribeOkMessage.ContentExists m)|].
    unfold Duration_Milliseconds at 2. by rewrite Z.quot_mul, uint64_twice by lia.
  - unfold FetchMessage_LogValue. cbn. by destruct (_ =? FetchTypeStandalone), (_ || _).
Qed.

Lemma logged_type msg : ControlMessage.Type_ (logged msg) = ControlMessage.Type_ msg.
Proof. by destruct msg. Qed.

(** Two messages of one kind with the same attributes agree on what is left of them. *)
Ltac same_attrs :=
  unfold RawInfo, parameters_attrs in *; cbn in *; simplify_eq;
  repeat match goal with
    | Hl : len ?ps = len ?ps', H : (if len ?ps >? 0 then _ else _) = _ |- _ =>
        apply (parameters_inj _ ps ps' Hl) in H; clear Hl
    end; subst; try done.

Lemma Subscribe_logged m m' :
  SubscribeMessage_LogValue m = SubscribeMessage_LogValue m' -> logged (Subscribe m) = logged (Subscribe m').
Proof.
  destruct m as [id tn name sp go fw f [g o] eg ps], m' as [id' tn' name' sp' go' fw' f' [g' o'] eg' ps'].
  unfold SubscribeMessage_LogValue. intros H. same_attrs. unfold has_start, has_end.
  destruct (_ || _), (_ =? FilterTypeAbsoluteRange); same_attrs.
Qed.

Lemma SubscribeOk_logged m m' :
  SubscribeOkMessage_LogValue m = SubscribeOkMessage_LogValue m' -> logged (SubscribeOk m) = logged (SubscribeOk m').
Proof.
  destruct m as [id ta e go c [g o] ps], m' as [id' ta' e' go' c' [g' o'] ps'].
  unfold SubscribeOkMessage_LogValue. intros H. same_attrs.
  match goal with H : uint64 _ = uint64 _ |- _ => rewrite H end. destruct c, c'; same_attrs.
Qed.

Lemma Fetch_logged m m' :
  FetchMessage_LogValue m = FetchMessage_LogValue m' -> logged (Fetch m) = logged (Fetch m').
Proof.
  destruct m as [id sp go ft tn name sg so eg eo ji js ps], m' as [id' sp' go' ft' tn' name' sg' so' eg' eo' ji' js' ps'].
  unfold FetchMessage_LogValue. intros H. same_attrs.
  destruct (_ =? FetchTypeStandalone), (_ || _); same_attrs.
Qed.

(** The type names are distinct. *)
Lemma type_name_inj m m' :
  controlMessageType_String (ControlMessage.Type_ m) = controlMessageType_String (ControlMessage.Type_ m') ->
  ControlMessage.Type_ m = ControlMessage.Type_ m'.
Proof. destruct m, m'; (reflexivity || discriminate). Qed.

Lemma LogValue_inj m m' :
  ControlMessage.Type_ m = ControlMessage.Type_ m' -> LogValue m = LogValue m' -> logged m = logged m'.
Proof.
  intros Ht H. destruct m as [m|m|m|m|m|m|m|m|m|m|m|m|m|m|m|m|m|m|m|m|m|m|m|m|m|m|m|m|m],
    m' as [m'|m'|m'|m'|m'|m'|m'|m'|m'|m'|m'|m'|m'|m'|m'|m'|m'|m'|m'|m'|m'|m'|m'|m'|m'|m'|m'|m'|m'];
    cbn in Ht; try discriminate Ht; clear Ht; cbn [LogValue] in H; try done;
    first [by apply Subscribe_logged|by apply SubscribeOk_logged|by apply Fetch_logged
          |destruct m, m'; repeat match goal with l : Location.t |- _ => destruct l end; injection H; intros; same_attrs].
Qed.

Lemma message_record_iff text m m' : message_record text m = message_record text m' <-> logged m = logged m'.
Proof.
  unfold message_record. split.
  - intros [= Ht H]. apply LogValue_inj; [by apply type_name_inj|done].
  - intros H. by rewrite <- (LogValue_logged m), <- (LogValue_logged m'), <- (logged_type m), <- (logged_type m'), H.
Qed.

Lemma fmap_iff {A B C} (f : A -> B) (g : A -> C) (l l' : list A) :
  (forall a b, f a = f b <-> g a = g b) -> f <$> l = f <$> l' <-> g <$> l = g <$> l'.
Proof.
  intros Hfg. revert l'. induction l as [|a l IH]; intros [|b l']; [done|done|done|].
  rewrite !fmap_cons. split; intros [= H1 H2]; f_equal; by first [apply Hfg|apply IH].
Qed.

Lemma log_records env text ms :
  handled env (message_record text <$> ms) =
    if readLoggingEnv env <=? LevelInfo then message_record text <$> ms else [].
Proof.
  unfold handled. induction ms as [|m ms IH]; [by destruct (_ <=? _)|]. rewrite fmap_cons. cbn [List.filter].
  rewrite IH. cbn [level message_record]. by destruct (_ <=? _).
Qed.

(** * Properties *)

(** C28: What the log is told of the control messages.  Whatever the variable that
    sets the level holds, the records that the text handler is given for two lists of
    messages that were sent, or of messages that were received, are the same exactly
    if the messages agree up to what [logged] leaves out, or if the level lets none of
    them through.  The lines that the handler makes of the records tell less: they do
    not show where one element of a namespace ends and the next begins. *)
Theorem control_log_identifies env text ms ms' :
  handled env (message_record text <$> ms) = handled env (message_record text <$> ms') <->
  (readLoggingEnv env <= LevelInfo -> logged <$> ms = logged <$> ms').
Proof.
  rewrite !log_records. pose proof (fmap_iff (message_record text) logged ms ms' (message_record_iff text)) as H.
  destruct (Z.leb_spec (readLoggingEnv env) LevelInfo) as [Hl|Hl]; [tauto|]. split; [lia|done].
Qed.

(** The request ID of an announcement cannot be found in the log. *)
Example announcements_look_alike ns :
  sending (Announce (AnnounceMessage.mk 0 ns [])) = sending (Announce (AnnounceMessage.mk 2 ns [])).
Proof. done. Qed.

(** What the text handler prints of a namespace: its elements without a separator. *)
Definition Tuple_String (t : Tuple.t) : gostring := concat t.

Example namespaces_look_alike :
  sending (Announce (AnnounceMessage.mk 0 [str "ab"] [])) <> sending (Announce (AnnounceMessage.mk 0 [str "a"; str "b"] [])) /\
  Tuple_String [str "ab"] = Tuple_String [str "a"; str "b"].
Proof. split; [by intros [=]|done]. Qed.

(** Nor can a PUBLISH_ERROR be told from a SUBSCRIBE_ERROR. *)
Example errors_look_alike id code reason :
  sending (PublishError (PublishErrorMessage.mk id code reason)) =
  sending (SubscribeError (SubscribeErrorMessage.mk id code reason)).
Proof. done. Qed.
