(* ===== verification/DatePrograms.v ===== *)
(** The date programs from their command lines to the lines they print: the loop of
    subscribeAndRead as a reader of Receiving.v, the ticker with the writer of one
    open subscription, and two programs that meet; what overtakes the SUBSCRIBE_OK is
    lost. *)

From stdpp Require Import sets.
From Stdlib Require Import String.
From S2P Require Import Prelude VarInt Codec WireTypes Messages ControlMessages Objects Params.
From S2P Require Import Framing ParserSafety Errors State RequestID TrackMaps Tracks Announcements.
From S2P Require Import SessionState Session SessionInv SessionSafety WellTyped Typing Sending Handshake Requests Exchanges.
From S2P Require Import Strconv Publishers Applications DateTrack System CommandLine Programs Wired Receiving.
Local Open Scope Z_scope.
Local Open Scope go_scope.

(** * handler.go: subscribeAndRead *)

(** The goroutine that reads: the track that Subscribe returned, the lines that were
    logged (the time stamps of package log left out), and whether it has returned.
    Its context, Background, is never cancelled. *)
Module date_reader.
Record t := mk { track : RemoteTrack.t; printed : list gostring; returned : bool }.

Definition start (rs : RemoteTrack.t) : t := mk rs [] false.

Definition newline : gostring := [byte.of_Z 10].

(** The line "got object %v/%v/%v of length %v: %v\n". *)
Definition got_object (o : Object.t) : gostring :=
  str "got object " ++ FormatUint (Object.ObjectID o) ++ str "/" ++ FormatUint (Object.GroupID o) ++ str "/" ++
  FormatUint (Object.SubGroupID o) ++ str " of length " ++ FormatUint (len (Object.Payload o)) ++ str ": " ++
  Object.Payload o ++ newline.

(** One round of the loop, when the case [c] of ReadObject's select is the one that
    is taken; it blocks as long as the case is not ready. *)
Definition round (c : RemoteTrack.read_case) (x : t) : res t :=
  if returned x then Ok x else
  match RemoteTrack.ReadObject c None (track x) with
  | None => Ok x
  | Some (_, Some err, r) =>
      Ok (mk r (printed x ++ if bool_decide (err = io_EOF) then [str "got last object" ++ newline] else []) true)
  | Some (Some o, None, r) => Ok (mk r (printed x ++ [got_object o]) false)
  | Some (None, None, _) => Panic
  end.

End date_reader.

#[export] Instance date_loop_reader : Reader date_reader.t := {|
  loop_track := date_reader.track;
  set_loop_track rt x := date_reader.mk rt (date_reader.printed x) (date_reader.returned x);
  loop_read := date_reader.round RemoteTrack.FromBuffer;
  process o x :=
    Ok (date_reader.mk (date_reader.track x) (date_reader.printed x ++ [date_reader.got_object o]) (date_reader.returned x));
  waits x := date_reader.returned x = false;
|}.

#[export] Instance date_loop_reader_laws : ReaderLaws date_reader.t.
Proof.
  split; cbn; try done.
  - by intros [].
  - by intros o rt x y [= <-].
  - intros o os [r lines ret] y Hw Hd Hb [= <-]. cbn in *. subst ret. unfold date_reader.round. cbn. by rewrite Hb, Hd.
  - intros [r lines ret] Hw Hb. cbn in *. subst ret. unfold date_reader.round. cbn. by rewrite Hb.
Qed.

(** Objects one after the other are lines one after the other. *)
Lemma process_lines os (x : date_reader.t) :
  process_all os x = Ok (date_reader.mk (date_reader.track x)
    (date_reader.printed x ++ (date_reader.got_object <$> os)) (date_reader.returned x)).
Proof.
  revert x. induction os as [|o os IH]; intros [r lines ret]; cbn; [by rewrite app_nil_r|].
  rewrite IH. cbn. by rewrite <- app_assoc.
Qed.

(** The line of a time that was published as a group. *)
Definition date_object (g : Z) (ts : list byte) : Object.t := Object.mk g 0 0 0 ts.
Definition date_line (g : Z) (ts : list byte) : gostring := date_reader.got_object (date_object g ts).

(** * handler.go: setupDateTrack *)

(** The ticker over the times of its channel, in the order in which the publishers
    are enumerated; the connection takes every write to a stream. *)
Fixpoint setupDateTrack {QV : QuicVarint} {W} (pub : nat -> Publisher W) (times : list (list byte)) :
    GM (date_track.t W) unit :=
  match times with
  | [] => mret tt
  | ts :: times =>
      order <- get (fun h => elements (date_track.publishers h));
      _ <- tick pub ts (fun _ => None) order;
      setupDateTrack pub times
  end.

(** * The ticker and a subscription *)

Section Ticker.
Context {QV : QuicVarint} {QVL : QuicVarintLaws} {MR : MapRange}.
Context (sid : Z) (w : SubscribeResponseWriter.t) (a : Z) (Ha : 0 <= a <= maxVarInt).

Let pub : nat -> Publisher writer_state.t := session_publisher sid [w].

(** The connection opens streams, and the track of the writer is open and has the
    alias. *)
Definition writer_at (p : writer_state.t) : Prop :=
  writer_state.answers p = [] /\
  exists lt, Session.localHeap (writer_state.session p) !! SubscribeResponseWriter.localTrack w = Some lt /\
    localTrack.trackAlias lt = a /\ localTrack.closed lt = None.

Lemma open_subgroup g p :
  writer_at p -> 0 <= g <= maxVarInt ->
  exists sg p', OpenSubgroup (Publisher := pub 0) g 0 0 p = Ok (Ret sg, p') /\ writer_at p' /\
    Subgroup.newSubgroup [] a g 0 0 None = Ok sg.
Proof.
  destruct p as [s answers wire]. intros (Hans & lt & Hlt & Hal & Hc) Hg. cbn in Hans, Hlt. subst answers.
  assert (exists sg, Subgroup.newSubgroup [] a g 0 0 None = Ok sg) as [sg Hsg].
  { unfold Subgroup.newSubgroup, SubgroupHeaderMessage.Append. cbn -[qv_Append append_byte].
    do 4 (rewrite qv_Append_enc by (done || (vm_compute; split; discriminate)); cbn -[qv_Append append_byte]).
    by eexists. }
  cbn. unfold publisher.OpenSubgroup. cbn. unfold SubscribeResponseWriter_OpenSubgroup, with_local. cbn. rewrite Hlt.
  unfold localTrack.openSubgroup, localTrack.check_open, mbind, GM_bind, gm_bind. rewrite Hc.
  cbn -[Subgroup.newSubgroup uint64]. rewrite Hal. unfold localTrack.lift_res. rewrite Hsg.
  eexists _, _. split; [done|]. split; [|done]. split; [done|]. eexists.
  cbn. rewrite list_lookup_insert_eq by (by apply lookup_lt_Some in Hlt). done.
Qed.

(** A tick: the only publisher gets a stream that its subscriber reads as the time. *)
Lemma tick_open ts h :
  len ts <= maxAlloc -> 0 <= date_track.groupID h < maxVarInt -> date_track.publishers h = {[0%nat]} ->
  writer_at (date_track.world h) ->
  exists sg h', tick pub ts (fun _ => None) [0%nat] h = Ok (Ret tt, h') /\
    date_track.publishers h' = {[0%nat]} /\ date_track.groupID h' = date_track.groupID h + 1 /\
    writer_at (date_track.world h') /\ date_track.streams h' = date_track.streams h ++ [(0%nat, sg)] /\
    received_stream a (Subgroup.stream sg) = Some (date_object (date_track.groupID h) ts).
Proof.
  intros Hl [Hg0 Hg] Hp Hw.
  destruct (open_subgroup (date_track.groupID h) _ Hw ltac:(lia)) as (sg & w' & Ho & Hw' & Hsg).
  destruct (WriteObject_total sg ts None Hl) as (n & e & sg' & Hwr & Hid & Hws).
  unfold tick, publish_loop, publish_date. unfold gm_bind, get, attempt, call_publisher.
  rewrite uint64_small by (unfold maxVarInt in *; lia). rewrite Ho.
  unfold localTrack.lift_res. rewrite Hwr. eexists sg', _. split; [done|].
  cbn. rewrite int64_small by (unfold maxVarInt in *; lia). do 4 (split; [done|]).
  destruct (subgroup_stream_read a (date_track.groupID h) 0 0 [(0, ts)] sg sg')
    as (ps & H1 & HT & H2 & H3); try done; try lia; [by repeat constructor|by apply Hws|].
  unfold received_stream. rewrite H1, HT, H2, Z.eqb_refl. rewrite (Messages_more 2 _ ps _ _ H3); [done|].
  destruct (Subgroup.stream sg'); [|cbn; lia]. exfalso. unfold ObjectStreamParser.NewObjectStreamParser in H1.
  by rewrite qv_Read_nil in H1.
Qed.

(** The ticker while nothing else happens: a stream for every time, of consecutive
    groups. *)
Lemma ticker_runs times h :
  Forall (fun ts => len ts <= maxAlloc) times ->
  0 <= date_track.groupID h -> date_track.groupID h + len times <= maxVarInt ->
  date_track.publishers h = {[0%nat]} -> writer_at (date_track.world h) ->
  exists new h', setupDateTrack pub times h = Ok (Ret tt, h') /\
    date_track.publishers h' = {[0%nat]} /\ date_track.groupID h' = date_track.groupID h + len times /\
    date_track.streams h' = date_track.streams h ++ new /\
    Forall2 (fun d o => received_stream a d = Some o) (Subgroup.stream <$> new.*2)
      (imap (fun i ts => date_object (date_track.groupID h + Z.of_nat i) ts) times).
Proof.
  intros Hts. revert h. induction Hts as [|ts times Hl _ IH]; intros h Hg0 Hg Hp Hw.
  - exists [], h. cbn. rewrite app_nil_r, len_nil, Z.add_0_r. by split_and!.
  - rewrite len_cons in Hg. pose proof (len_nonneg times).
    destruct (tick_open ts h) as (sg & h1 & H1 & Hp1 & Hg1 & Hw1 & Hs1 & Hr); [done|lia|done|done|].
    destruct (IH h1) as (new & h2 & H2 & Hp2 & Hg2 & Hs2 & Hall); [lia|lia|done|done|].
    exists ((0%nat, sg) :: new), h2. cbn [setupDateTrack]. unfold gm_bind, get.
    rewrite Hp, elements_singleton, H1, H2. split; [done|]. split; [done|]. split; [rewrite Hg2, Hg1, len_cons; lia|].
    split; [by rewrite Hs2, Hs1, <- app_assoc|]. cbn. constructor; [by rewrite Hr, Z.add_0_r|].
    rewrite Hg1 in Hall. eapply Forall2_impl; [|by intros ?? HH; exact HH].
    match goal with |- Forall2 _ _ ?l => replace l with
      (imap (fun i ts => date_object (date_track.groupID h + 1 + Z.of_nat i) ts) times); [exact Hall|] end.
    apply imap_ext. intros i x _. unfold compose. f_equal. lia.
Qed.

End Ticker.

(** * The programs *)

(** The date program of one side. *)
Definition date_side (p : Perspective) (o : options.t) : moqHandler.t :=
  match p with PerspectiveServer => date_server o | PerspectiveClient => date_client o end.
Definition date_sides (pub : Perspective) (po so : options.t) {QV : QuicVarint} {QVL : QuicVarintLaws} :
    Perspective -> program := fun p =>
  date_program (if decide (p = pub) then date_side pub po else date_side (peer pub) so).

(** The options of a side that only publishes and of one that only subscribes, to the
    same track, whose names are not too long. *)
Record date_options (po so : options.t) : Prop := {
  do_publish : options.publish po = true;
  do_subscribe : options.subscribe so = true;
  do_only_publish : options.subscribe po = false;
  do_only_subscribe : options.publish so = false;
  do_namespace : options.namespace so = options.namespace po;
  do_trackname : options.trackname so = options.trackname po;
  do_namespace_len : len (options.namespace po) <= 30000;
  do_trackname_len : len (options.trackname po) <= 30000 }.

(** The date track of the side that publishes, whose first [g] groups had no
    subscriber, with the publisher of its first subscription. *)
Definition subscribed_date (g largest : Z) (s : Session.t) : date_track.t writer_state.t :=
  register 0 (date_track.mk ∅ largest g (writer_state.mk s [] []) []).

Section Showing.
Context {QV : QuicVarint} {QVL : QuicVarintLaws} {MR : MapRange}.

Lemma date_sides_meet pub po so : date_options po so -> meeting (date_sides pub po so) pub.
Proof.
  intros []. apply date_meeting; destruct pub; try done; try (by cbn; f_equal); by eexists.
Qed.

Lemma date_sides_typed pub po so p : application_typed (apps_of (date_sides pub po so) p).
Proof.
  apply program_typed. constructor; [|constructor]. intros o Ho. apply WithLargestLocation_typed; [|done].
  cbn. unfold location_typed, is_uint64. cbn. destruct (decide (p = pub)), pub; cbn; lia.
Qed.

(** The streams of the ticks, and the objects of the streams that arrive. *)
Lemma arrived_objects (streams : list (list byte)) g times places ds :
  Forall2 (fun d o => received_stream 0 d = Some o) streams (imap (fun i ts => date_object (g + Z.of_nat i) ts) times) ->
  Forall2 (fun i d => streams !! i = Some d) places ds ->
  exists os, Forall2 (fun d o => received_stream 0 d = Some o) ds os /\
    date_reader.got_object <$> os = (fun i => date_line (g + Z.of_nat i) (default [] (times !! i))) <$> places.
Proof.
  intros Hs Hd. induction Hd as [|i d places ds Hi _ (os & Hos & Hl)]; [by exists []|].
  destruct (Forall2_lookup_l _ _ _ _ _ Hs Hi) as (o & Hlo & Ho). rewrite list_lookup_imap in Hlo.
  apply fmap_Some in Hlo as (ts & Hts & ->). eexists (_ :: os). split; [by constructor|].
  by rewrite !fmap_cons, Hl, Hts.
Qed.

(** * Properties *)

(** C12: The date example from its options to its output.  A date program with the
    flag publish alone and one with the flag subscribe alone, for the same track, of a
    namespace and a name of at most 30000 bytes, either of them the server: whatever the order in which their handshake, their announcement,
    their subscription and its answers happen, after sixteen steps both calls of
    handle have returned.  The ticker, whose next group is [g] and whose groups stay
    below 2^62, may meet the publisher
    of the subscription in any state of its session in which the track of the writer
    is open, as it is from its acceptance in the handler on.  Over a connection that
    takes every stream it opens one with every tick; and whichever of these streams
    arrive once the other side's call of handle has returned, in whatever order, the
    goroutine of subscribeAndRead, reading while they arrive and keeping up with them
    -- the 100 places of the track's buffer are never all taken when a stream arrives,
    and all that arrived has been read -- logs for each of them the line of its group
    and its time, in the order of arrival, and keeps waiting.  A stream that overtakes
    the SUBSCRIBE_OK is dropped. *)
Theorem date_programs_show pub po so proto z sid g largest times :
  date_options po so -> wired_run (date_sides pub po so) 16 (wired_new proto) z ->
  Forall (fun ts => len ts <= maxAlloc) times -> 0 <= g -> g + len times <= maxVarInt ->
  exists rt lt track,
    wired.phase z pub = Handled (Ret None) /\
    wired.phase z (peer pub) = Handled (Ret (Some rt)) /\
    localTrackMap.open (Session.localTracks (wired_session z pub)) !! subscribe_id pub = Some lt /\
    track_open lt (wired_session z pub) /\
    Session.remoteHeap (wired_session z (peer pub)) !! rt = Some track /\
    forall w s, SubscribeResponseWriter.localTrack w = lt -> track_open lt s ->
      exists h, setupDateTrack (session_publisher sid [w]) times (subscribed_date g largest s) = Ok (Ret tt, h) /\
        date_track.publishers h = {[0%nat]} /\ date_track.groupID h = g + len times /\
        length (date_track.streams h) = length times /\
        (forall d c, d ∈ Subgroup.stream <$> (date_track.streams h).*2 ->
           remoteTrackMap.findByTrackAlias (Session.remoteTracks c) 0 = None -> read_stream d c = Ok (Ret tt, c)) /\
        forall places es,
          Forall2 (fun i d => (Subgroup.stream <$> (date_track.streams h).*2) !! i = Some d) places (arrivals es) ->
          keeps_up 0 es = true ->
          exists c, client_run stream_input rt es
              (client.mk (wired_session z (peer pub)) (date_reader.start track)) = Ok c /\
            date_reader.returned (client.loop c) = false /\
            date_reader.printed (client.loop c) =
              (fun i => date_line (g + Z.of_nat i) (default [] (times !! i))) <$> places.
Proof.
  intros Ho Hz Hts Hg0 Hg. pose proof (date_sides_meet pub po so Ho) as M.
  pose proof (date_sides_typed pub po so) as Happ.
  destruct (wired_run_met _ Happ _ M proto z Hz) as (rt & lt & [Hps Hpc _ _ Hfind Htrack Hopen Hheap _]).
  eexists rt, lt, _. split; [exact Hps|]. split; [exact Hpc|]. split; [exact Hopen|].
  split; [by eexists|]. split; [exact Htrack|]. intros w s <- Hs.
  destruct (ticker_runs sid w 0 ltac:(vm_compute; split; discriminate) times
    (subscribed_date g largest s) Hts Hg0 Hg)
    as (new & h & Hrun & Hp & Hgr & Hst & Hall); [cbn; set_solver|by split|].
  exists h. split; [exact Hrun|]. split; [exact Hp|]. split; [exact Hgr|]. cbn in Hst. rewrite Hst.
  split. { apply Forall2_length in Hall. by rewrite !length_fmap, length_imap in Hall. }
  split. { intros d c Hin Hc. apply list_elem_of_lookup_1 in Hin as [i Hi].
    destruct (Forall2_lookup_l _ _ _ _ _ Hall Hi) as (o & _ & Hr). by apply (early_stream 0 d o). }
  intros places es Hd Hk. destruct (arrived_objects _ g times places _ Hall Hd) as (os & Hos & Hl).
  match goal with |- context [date_reader.start ?t] => set (x := date_reader.start t) end.
  assert (receiving rt 0 [] (client.mk (wired_session z (peer pub)) x)) as Hrec by (by split).
  destruct (client_keeps_up stream_input rt 0 es [] os _ _ Hrec Hk Hos (process_lines os x)) as (c & Hc & _ & Heq).
  exists c. split; [exact Hc|]. specialize (Heq (loop_track x)). injection Heq as Hlines Hret.
  split; [exact Hret|]. by rewrite Hlines, <- Hl.
Qed.

End Showing.

(** * Examples *)

(** [date -server -publish] and [date -subscribe]: the ticker has made 7 groups when
    it makes 7 and 8, and the stream of the second arrives first. *)
Definition ex_date_publisher : options.t := options.set_publish true (options.set_server true date_defaults).
Definition ex_date_subscriber : options.t := options.set_subscribe true date_defaults.
Definition ex_times : list (list byte) := [str "2025-01-02 03:04:05"; str "2025-01-02 03:04:06"].

Lemma ex_date_options : date_options ex_date_publisher ex_date_subscriber.
Proof. split; (reflexivity || (vm_compute; discriminate)). Defined.

Lemma date_programs_show_witness :
  date_run [str "date"; str "-server"; str "-publish"] = Ok (RunsServer ex_date_publisher) /\
  date_run [str "date"; str "-subscribe"] = Ok (RunsClient ex_date_subscriber) /\
  exists z rt track es c,
    wired_run (date_sides PerspectiveServer ex_date_publisher ex_date_subscriber) 16 (wired_new ProtocolQUIC) z /\
    wired.phase z PerspectiveClient = Handled (Ret (Some rt)) /\
    client_run stream_input rt es
      (client.mk (wired_session z PerspectiveClient) (date_reader.start track)) = Ok c /\
    length (arrivals es) = 2%nat /\
    date_reader.printed (client.loop c) =
      [str "got object 0/8/0 of length 19: 2025-01-02 03:04:06" ++ date_reader.newline;
       str "got object 0/7/0 of length 19: 2025-01-02 03:04:05" ++ date_reader.newline].
Proof.
  split; [reflexivity|]. split; [reflexivity|].
  destruct (wired_runs _ (date_sides_typed _ _ _) _ (date_sides_meet PerspectiveServer _ _ ex_date_options) ProtocolQUIC 16 (le_n 16)) as [z Hz].
  destruct (date_programs_show PerspectiveServer _ _ ProtocolQUIC z 1 7 6 ex_times ex_date_options Hz)
    as (rt & lt & track & _ & Hph & _ & Hs & _ & Hw).
  { repeat constructor; vm_compute; discriminate. }
  { vm_compute. discriminate. }
  { vm_compute. discriminate. }
  destruct (Hw (SubscribeResponseWriter.mk 0 0 lt true) _ eq_refl Hs) as (h & _ & _ & _ & Hl & _ & Hplaces).
  destruct (date_track.streams h) as [|[p0 s0] [|[p1 s1] [|]]]; try discriminate Hl.
  set (es := [Arrives (Subgroup.stream s1); Reads; Arrives (Subgroup.stream s0); Reads; Reads]).
  destruct (Hplaces [1; 0]%nat es) as (c & Hc & _ & Hp); [repeat constructor|reflexivity|].
  exists z, rt, track, es, c. split; [exact Hz|]. split; [exact Hph|]. split; [exact Hc|]. split; [reflexivity|].
  rewrite Hp. vm_compute. reflexivity.
Defined.
